(* ===== verification/_CoqProject ===== *)
-Q . S2P
Prelude.v
PyValue.v
RateLimit.v
Coalesce.v
EnclaveBroker.v
ResultBudget.v
CaptureFailure.v
JobTable.v
WakeSchedule.v
JobQueue.v
JobInv.v
JobFinish.v
JobSafety.v
JobClaim.v
JobDelivery.v
JobReplay.v
EffectOutbox.v
EffectSafety.v
EffectOrder.v
EffectSink.v
SelfWake.v
EffectDelivery.v
Utf8.v
PyFloat.v
PromptLimit.v
PromptEstimate.v
PromptPlan.v
ToolSurface.v
PromptRound.v
SchemaRecovery.v
SlotProtocol.v
Supervisor.v
SupervisorSafety.v
Watchdog.v
WatchdogSafety.v
WorkspacePath.v
ToolDispatch.v
DispatchSafety.v
ToolFence.v
FenceSafety.v
Base64.v
HistoryScan.v
HistoryCursor.v
HistoryRows.v
HistoryPages.v
HistorySafety.v
WorkspaceStore.v
WorkspaceRefine.v
WorkspaceBatch.v
WorkspaceSerial.v
SummaryFrontier.v
SummaryStore.v
SummaryLedger.v
SummarySafety.v
SummaryRead.v
SummaryRollup.v
