(* ===== verification/Prelude.v ===== *)
(** * Feedling backend: the durable core of hosted runtime V2

    Feedling's backend answers a user's chat messages, reminders and wake-ups by
    running turns of a language model on a fleet of worker processes. All state
    that must survive a crash is in PostgreSQL; processes die, overlap and retry at
    any point. This library models the part of the Python sources that makes that
    safe, [backend/model_api_runtime/v2/] and the modules it rests on, and proves
    what the code promises there.

    ** The program and its parts

    - A request is admitted by the sliding-window limiter ([core/ratelimit.py],
      file [RateLimit]).
    - An input (a message, a reminder, a heartbeat, a capture run) becomes a row of
      the job table ([jobs_store.py]): [JobTable] has the tables, [JobQueue] one
      definition per transaction (enqueue and coalesce, claim, start, renew, finish,
      fail, recover, expire, preempt, hand over to a successor), [JobFinish] the
      transactions of the chat, capture, review and reply paths that end a job, and of
      clearing a chat, [WakeSchedule] the
      wake circuit and backoff ([wake_circuit.py]), [CaptureFailure] the valve that
      decides what a failed memory capture does ([memory/capture_failure.py]).
    - A worker that claimed a chat job collects the unanswered messages
      ([coalesce.py], file [Coalesce]), reads the conversation summary
      ([summary_frontier.py] and the summary transactions: [SummaryFrontier],
      [SummaryStore], [SummaryRollup]), shares enclave permits with its sibling slots
      ([enclave_broker.py], file [EnclaveBroker]) and runs tools whose results are cut
      to a budget ([result_budget.py], [tool_loop.py], file [ResultBudget]).
    - Each provider call of the turn is planned against the model's context window
      ([prompt_frontier.py]): [PromptLimit] resolves the window, [PromptEstimate] costs
      messages, schemas and exchanges, [PromptPlan] admits components, [PromptRound] plans
      the round, folding tool schemas under pressure ([tool_surface.py], file
      [ToolSurface]), and [tool_loop.py] sends what was planned; [SchemaRecovery] is the contract by which the model loads a folded schema again.
    - The tool calls a provider answers with pass the fence of the turn ([tool_loop.py], file
      [ToolFence]): which tools a round offers after what the model has seen, and why a batch is
      rejected. An accepted batch is dispatched ([executor.py], [provenance.py], file
      [ToolDispatch]): reads run at once, writes that pass the provenance gate become effects.
    - One of the reads searches the user's past messages. [HistoryScan] plans which sequence numbers
      are looked at next and [HistoryCursor] hands the position to the model as a signed token, in the
      alphabet of [Base64] ([history_search.py]); [HistoryRows] has the candidates, what of a row is
      sent and how the enclave and the backend check it ([jobs_store.py], [enclave/routes/history.py],
      [core/envelope.py]), [HistoryPages] one call with its leaf hints, batches, budget and cursor
      ([history_readside.py]).
    - A worker slot is one child process. It reports over a pipe ([slot_protocol.py],
      file [SlotProtocol]) to its supervisor ([child_supervisor.py], file [Supervisor]),
      which also carries its permit requests to the broker. The watchdog ([watchdog.py],
      [claim_recovery.py], file [Watchdog]) decides from the supervisor's clocks when to
      kill, recovers the claim of the killed turn and starts the replacement.
    - Every side effect of the turn is a row of the effect outbox ([effect_outbox.py],
      file [EffectOutbox]), drained in order; a row, opened first if it is encrypted
      ([EffectDelivery]), is handed to a sink
      ([serve_worker.py], file [EffectSink]; the self-wake guard of the schedule sink is
      [SelfWake]). The workspace sinks write the user's
      virtual files ([workspace/backends.py]: [WorkspacePath], [WorkspaceStore]),
      a batch of them concurrently ([WorkspaceBatch]).

    [PyValue], [PyFloat] and [Utf8] hold what the sources use of Python and its library.

    ** Conventions

    A definition keeps the name of the function it translates, without leading
    underscores. A call that may raise returns an [outcome]; exceptions are the type
    [exn], with a message only where the source tests it. A database transaction is
    one function on the tables: row locks and constraints serialise it, and its
    [now()] and [clock_timestamp()] are arguments. Components that interleave below
    that level (the deliveries of a sink and the parts of a write, the threads of a batch) are step relations
    or explicit schedules. A component that relies on another does so through a class
    ([ClaimStore], what the watchdog needs of the job queue; [ScanService] and [CursorCodec], what a
    search needs of the enclave and of its tokens), with an instance that the
    other's theorems discharge. Instants of the database are integers in microseconds, those
    of [time.monotonic()] in nanoseconds, text is a list of
    code points, [float]s are exact multiples of 2^-1074 with the rounding of [PyFloat]. What is not under the
    backend's control is a parameter: sealing and opening envelopes, decryption, the
    failure classifier of [notices], the clock, the environment, the collation of the
    database, [sha256] and HMAC, zlib, [json.loads], date parsing, [urlsplit], NFKC and case mapping, [repr] of
    floats and containers, and what the operating system answers when a child is killed. A parameter with laws has them
    as section hypotheses, and a witness instantiates them.

    ** What is proved

    - Job queue ([JobInv], [JobFinish], [JobSafety], [JobClaim], [JobDelivery], [JobReplay]): the
      invariant of the table and its preservation by every transaction that inserts or updates a job row; one active job
      per user and lane and one running job per user; claims take the head of the queue
      and the claim loop ends, candidates locked by others and rows queued meanwhile included; ended rows are final; a
      recovered claim is fenced against its old owner, in every later state too; inputs land in a live job and late inputs reach one
      successor; no user-visible turn fails silently; a turn is replayed only when it
      left no write; and an example of a review that preemption strands.
    - Effect outbox ([EffectSafety], [EffectOrder]): replies are published only under
      their fence and superseded ones are discarded; a platform write excludes replay;
      effects settle in order.
    - Effect sinks ([EffectSink], [EffectDelivery], [SelfWake]): over all overlaps, failures and
      crashes a write lands whole at most once, and a part of it again only after a delivery that failed part-way; what
      applying a row, plaintext or encrypted, does for every state of its claim and every end of its write; how many wakes a silent user's turns may
      schedule.
    - Workspace ([WorkspacePath], [WorkspaceRefine], [WorkspaceSerial]): exactly which
      names are accepted; the encrypted table refines the in-memory backend, with a codec that may fail at any
      call; a batch is serial for every interleaving of its threads, with an example of how its replay is not.
    - Summary ([SummaryLedger], [SummarySafety], [SummaryRead], [SummaryRollup]): the
      tables implement an abstract cover of the conversation; range containment is
      provenance; the read path accepts every reachable store; the roll-up loop ends
      within its limits.
    - Prompt ([PromptLimit], [PromptPlan], [PromptRound], [SchemaRecovery]): the resolved window
      and its source are those of a reference resolution; a plan has
      every required component or is refused, and admits optional ones greedily; what is sent
      is what was budgeted, it names every tool, and only what may not be dropped refuses a
      round; the call guard knows the surface that was sent.
    - Tool calls ([FenceSafety], [DispatchSafety]): over any rounds of a turn the calls that run
      obey the fence of what ran before them, and no memory discovery runs twice; a batch is rejected exactly for its faults, which
      its calls are told; dispatch enqueues only authorised writes, in provider order,
      and answers every call truthfully.
    - History search ([HistoryScan], [HistoryCursor], [HistorySafety]): the planner checks every sequence
      number of a snapshot once, wherever batches stop; a token gives back its cursor until it expires,
      and only to its user and generation; over any pages in a growing store every match is returned
      once and a page without a cursor means that all were; a page ends, or fails for a named reason.
    - Slots ([SlotProtocol], [SupervisorSafety], [WatchdogSafety]): messages round-trip and
      the decoder is strict; over any lifecycle history a slot has one live child at most and
      never loses track of one; the watchdog kills exactly when a slot is wedged; a killed
      slot is replaced only after its death is confirmed, with its claim released or queued, also when the
      replacement cannot be started or the task is cancelled;
      the retry queue is bounded and its retries end.
    - [RateLimit], [Coalesce], [EnclaveBroker], [ResultBudget], [CaptureFailure],
      [WakeSchedule]: the bound and the exact retry time of the limiter; completeness,
      fail-closed validation and cursor of coalescing; safety and order of permits and
      the wire round trip; fairness and bounds of the water-fill; exactly when a batch
      is skipped, and that none blocks for ever; exactly when the circuit opens.

    ** Bounds and fuel

    Recursion that is not structural has fuel, and a theorem shows it is enough:
    [claim_next_job] gets one turn more than there are job rows, and one for each locked candidate and each row
    queued meanwhile ([claim_next_job_ends]), the water-fill
    one round per result ([result_quotas_water_fill]), the roll-up loop one pass per
    segment ([rebalance_bounds]), the run search of a roll-up the length of the
    frontier, the loop of a search page one turn per sequence number
    ([search_page_ends]), a partitioned scan one turn per row. A child of a batch ends in three statements, so a schedule is complete
    when it names each child three times. Integers are unbounded where Python's are;
    the BIGINT revision of a stored result keeps its bound, the widths of other
    columns are not modelled.

    ** Assumptions

    Chat rows get their sequence numbers in commit order (the code holds the user's lifecycle row for this, except in
    [chat_finalize_reply_once], which inserts under the shared fence only); a summary writer passes the
    watermark it read, and the read of a summary that seeds a legacy one is one transaction; what a target write that
    raises left behind is its first parts; a codec that answers opens what it
    sealed; clocks given to one loop do not go back where a theorem says so; [uuid4] gives a
    new name; joining a child that has exited does not raise; the folded specs given to a
    round are filed under their own names; argument validation lets only objects through, with a list of actions
    for a memory write; a hook of the dispatch that raises has not enqueued; names of user-MCP tools start with [mcp__]; after its policy a round only
    removes tools or offers the forced wake choice; a batch of a search asks for at most the 1000 rows its
    statement allows; between the pages of a search messages and summaries are only added, each message with
    a higher sequence number, and one page reads one state of the store.

    ** Not modelled

    The turn itself ([worker.py] and [tool_loop.py] beyond the budgets, the
    schema contract, the fence and the dispatch of calls: prompt texts, provider clients,
    the planner that sizes history and World Book by rebuilding candidates, file delivery), the fetch of single messages beside the search, the fleet of slots and its
    configuration, trajectory
    recording and failure reviews beyond their queue rows, profile and memory content,
    scheduling of heartbeats and screen watching, the HTTP surface, the enclave,
    attestation and the contracts, object storage, the shadow database and its
    replicator, administration, migrations as programs, and everything outside
    [backend/]: either input and output around a library, or content work without a
    state contract of its own. The transactions of [JobFinish] are modelled as far as they move job, review, route and
    failure rows; what they write of capture batches, candidates and cards is left out. Deleting an account's rows is not modelled. Integers
    convert to floats exactly in [Coalesce], without the [OverflowError] of very large ones; wake kinds and lanes are
    lowered as ASCII. Of the sinks, the transactional reply sink and the target
    writes of the others are parameters. *)

From Stdlib Require Export ZArith Lia.
From stdpp Require Export base numbers list gmap strings sorting.

#[global] Set Default Proof Using "Type".

(** ** Outcomes of fallible code

    A Python call either returns or raises; [Raise] carries the exception
    class and, where the source keys on it, the message or code. *)
Inductive exn : Type :=
| ValueError (msg : string)
| TypeError (msg : string)
| IndexError
| KeyError
| OverflowError
| RuntimeError (msg : string)
| IntegrityError (detail : string)
| Exhausted (detail : string)
| FrontierIntegrity (detail : string)
| EffectTerminalError (code : string)
| EffectDeliveryUncertainError
| WorkspaceNotFound
| WorkspaceReadOnly
| WorkspaceConflict
| WorkspaceInvalidPath
| WorkspaceError
| UnicodeError
| Other (name : string).

#[global] Instance exn_eq_dec : EqDecision exn.
Proof. solve_decision. Defined.

Inductive outcome (A : Type) : Type :=
| Return (a : A)
| Raise (e : exn).
Arguments Return {A} a.
Arguments Raise {A} e.

#[global] Instance outcome_ret : MRet outcome := fun A a => Return a.
#[global] Instance outcome_bind : MBind outcome := fun A B f m =>
  match m with Return a => f a | Raise e => Raise e end.
#[global] Instance outcome_fmap : FMap outcome := fun A B f m =>
  match m with Return a => Return (f a) | Raise e => Raise e end.

#[global] Instance outcome_eq_dec {A} `{EqDecision A} : EqDecision (outcome A).
Proof. solve_decision. Defined.

Definition returns {A} (m : outcome A) : Prop := exists a, m = Return a.

(** [guard_or b e]: the statement [if b: raise e]. *)
Definition raise_if (b : bool) (e : exn) : outcome unit :=
  if b then Raise e else Return tt.

Lemma raise_if_return b e u : raise_if b e = Return u <-> b = false.
Proof. destruct b, u; simpl; split; congruence. Qed.

Lemma bind_return {A B} (m : outcome A) (f : A -> outcome B) b :
  m ≫= f = Return b <-> exists a, m = Return a /\ f a = Return b.
Proof.
  destruct m; simpl; split; intros H.
  - eauto.
  - destruct H as (a' & [= ->] & H). done.
  - discriminate.
  - destruct H as (a' & ? & _). discriminate.
Qed.

(** ** Automation *)

Create HintDb feed discriminated.
Create Rewrite HintDb feed_len.

(** Case on the scrutinee of the innermost [match]/[if] found in the goal or
    in a hypothesis, keeping the equation. *)
Ltac case_in H :=
  match type of H with
  | context [ match ?x with _ => _ end ] =>
      lazymatch x with
      | context [ match _ with _ => _ end ] => fail
      | _ => let E := fresh "E" in destruct x eqn:E
      end
  end.

Ltac case_goal :=
  match goal with
  | |- context [ match ?x with _ => _ end ] =>
      lazymatch x with
      | context [ match _ with _ => _ end ] => fail
      | _ => let E := fresh "E" in destruct x eqn:E
      end
  end.

(** Settle a closed decidable goal by computing its decision procedure. *)
Ltac decided := apply (bool_decide_unpack _); vm_compute; exact I.

(** Turn the boolean tests the models branch on into propositions. *)
Ltac bools :=
  repeat match goal with
  | H : (_ && _)%bool = true |- _ => apply andb_true_iff in H; destruct H
  | H : (_ || _)%bool = false |- _ => apply orb_false_iff in H; destruct H
  | H : negb _ = true |- _ => apply negb_true_iff in H
  | H : negb _ = false |- _ => apply negb_false_iff in H
  | H : bool_decide _ = true |- _ => apply bool_decide_eq_true in H
  | H : bool_decide _ = false |- _ => apply bool_decide_eq_false in H
  | H : (_ <=? _)%Z = true |- _ => apply Z.leb_le in H
  | H : (_ <=? _)%Z = false |- _ => apply Z.leb_gt in H
  | H : (_ <? _)%Z = true |- _ => apply Z.ltb_lt in H
  | H : (_ <? _)%Z = false |- _ => apply Z.ltb_ge in H
  | H : (_ =? _)%Z = true |- _ => apply Z.eqb_eq in H
  | H : (_ =? _)%Z = false |- _ => apply Z.eqb_neq in H
  | H : (_ >=? _)%Z = _ |- _ => rewrite Z.geb_leb in H
  | H : (_ >? _)%Z = _ |- _ => rewrite Z.gtb_ltb in H
  | H : String.eqb _ _ = true |- _ => apply String.eqb_eq in H
  | H : String.eqb _ _ = false |- _ => apply String.eqb_neq in H
  end.

Lemma if_bool_decide {A} (P : Prop) `{!Decision P} (a b : A) :
  (if bool_decide P then a else b) = if decide P then a else b.
Proof. case_bool_decide; [by rewrite decide_True|by rewrite decide_False]. Qed.

(** ** Integer lists *)

Definition Zlen {A} (l : list A) : Z := Z.of_nat (length l).
Definition sumZ (l : list Z) : Z := foldr Z.add 0%Z l.

Lemma Zlen_nonneg {A} (l : list A) : (0 <= Zlen l)%Z.
Proof. unfold Zlen. lia. Qed.

Lemma Zlen_app {A} (l k : list A) : Zlen (l ++ k) = (Zlen l + Zlen k)%Z.
Proof. unfold Zlen. rewrite length_app. lia. Qed.

Lemma Zlen_cons {A} (x : A) l : Zlen (x :: l) = (1 + Zlen l)%Z.
Proof. unfold Zlen. simpl. lia. Qed.

Lemma sumZ_cons x l : sumZ (x :: l) = (x + sumZ l)%Z.
Proof. done. Qed.

Lemma sumZ_app l k : sumZ (l ++ k) = (sumZ l + sumZ k)%Z.
Proof. induction l as [|x l IH]; simpl; lia. Qed.

Lemma sumZ_nonneg l : Forall (fun x => 0 <= x)%Z l -> (0 <= sumZ l)%Z.
Proof. induction 1; simpl; lia. Qed.

Lemma sumZ_Permutation l k : l ≡ₚ k -> sumZ l = sumZ k.
Proof. induction 1; simpl; lia. Qed.

#[global] Instance sumZ_proper : Proper ((≡ₚ) ==> eq) sumZ.
Proof. intros l k. apply sumZ_Permutation. Qed.

Lemma sumZ_filter_split {A} (P : A -> Prop) `{!forall x, Decision (P x)} (f : A -> Z) l :
  sumZ (f <$> l) = (sumZ (f <$> filter P l) + sumZ (f <$> filter (fun x => ~ P x) l))%Z.
Proof.
  induction l as [|x l IH]; [done|]. rewrite !filter_cons, fmap_cons. simpl. rewrite IH.
  destruct (decide (P x)), (decide (~ P x)); try tauto; csimpl; lia.
Qed.

Lemma sumZ_const {A} (c : Z) (l : list A) : sumZ ((fun _ => c) <$> l) = (c * Zlen l)%Z.
Proof. induction l as [|x l IH]; csimpl; [unfold Zlen; simpl; lia|]. rewrite Zlen_cons. lia. Qed.

Lemma sumZ_ext {A} (f g : A -> Z) l :
  (forall x, x ∈ l -> f x = g x) -> sumZ (f <$> l) = sumZ (g <$> l).
Proof.
  induction l as [|x l IH]; intros H; csimpl; [done|].
  rewrite H by left. rewrite IH; [done|]. intros y Hy. apply H. by right.
Qed.

Lemma sumZ_le {A} (f g : A -> Z) l :
  (forall x, x ∈ l -> f x <= g x)%Z -> (sumZ (f <$> l) <= sumZ (g <$> l))%Z.
Proof.
  induction l as [|x l IH]; intros H; csimpl; [lia|].
  pose proof (H x ltac:(left)). enough (sumZ (f <$> l) <= sumZ (g <$> l))%Z by lia.
  apply IH. intros y Hy. apply H. by right.
Qed.

(** A list of integers as the values at its positions. *)
Lemma sumZ_positions (l : list Z) : sumZ l = sumZ ((fun i => l !!! i) <$> seq 0 (length l)).
Proof.
  enough (l = (fun i => l !!! i) <$> seq 0 (length l)) as <- by done.
  apply list_eq. intros i. rewrite list_lookup_fmap.
  destruct (decide (i < length l)%nat).
  - rewrite lookup_seq_lt by done. simpl. by apply list_lookup_lookup_total_lt.
  - rewrite lookup_ge_None_2 by lia. rewrite lookup_seq_ge by lia. done.
Qed.

Lemma Forall2_and_l {A B} (P : A -> B -> Prop) (Q : A -> Prop) l k :
  Forall2 P l k -> (forall x, x ∈ l -> Q x) -> Forall2 (fun x y => P x y /\ Q x) l k.
Proof.
  induction 1 as [|x y l k Hp H IH]; intros Hq; constructor.
  - split; [done|]. apply Hq. left.
  - apply IH. intros z Hz. apply Hq. by right.
Qed.

Lemma list_filter_iff_strong {A} (P Q : A -> Prop) `{!forall x, Decision (P x)} `{!forall x, Decision (Q x)} (l : list A) :
  (forall x, x ∈ l -> (P x <-> Q x)) -> filter P l = filter Q l.
Proof.
  induction l as [|x l IH]; intros Hl; [done|]. rewrite !filter_cons.
  rewrite IH by (intros y Hy; apply Hl; by right). pose proof (Hl x ltac:(left)).
  destruct (decide (P x)), (decide (Q x)); tauto.
Qed.

Lemma filter_none {A} (P : A -> Prop) `{!forall x, Decision (P x)} (l : list A) :
  (forall x, x ∈ l -> ~ P x) -> filter P l = [].
Proof.
  induction l as [|x l IH]; intros Hl; [done|]. rewrite filter_cons, decide_False by (apply Hl; left).
  apply IH. intros y Hy. apply Hl. by right.
Qed.

Lemma filter_all {A} (P : A -> Prop) `{!forall x, Decision (P x)} (l : list A) :
  (forall x, x ∈ l -> P x) -> filter P l = l.
Proof.
  induction l as [|x l IH]; intros Hl; [done|]. rewrite filter_cons, decide_True by (apply Hl; left).
  f_equal. apply IH. intros y Hy. apply Hl. by right.
Qed.

Lemma existsb_false {A} (p : A -> bool) l x : existsb p l = false -> x ∈ l -> p x = false.
Proof.
  intros H Hx. destruct (p x) eqn:E; [|done]. exfalso.
  assert (existsb p l = true) by (apply existsb_exists; exists x; split; [by apply list_elem_of_In|done]). congruence.
Qed.

Lemma StronglySorted_sublist {A} (R : relation A) l k :
  l `sublist_of` k -> StronglySorted R k -> StronglySorted R l.
Proof.
  induction 1 as [|x l k H IH|x l k H IH]; intros Hs; [constructor| |].
  - apply StronglySorted_inv in Hs as [Hs Hx]. constructor; [by apply IH|].
    rewrite Forall_forall in Hx |- *. intros y Hy. apply Hx.
    by eapply elem_of_submseteq; [|apply sublist_submseteq].
  - apply StronglySorted_inv in Hs as [Hs _]. by apply IH.
Qed.

Lemma elem_of_StronglySorted_lt {A} (R : relation A) l i j x y :
  StronglySorted R l -> (i < j)%nat -> l !! i = Some x -> l !! j = Some y -> R x y.
Proof.
  intros Hs. revert i j. induction Hs as [|z l Hs IH Hz]; intros i j Hlt Hi Hj; [done|].
  destruct j as [|j]; [lia|]. destruct i as [|i]; simpl in *.
  - injection Hi as ->. rewrite Forall_forall in Hz. apply Hz. by eapply list_elem_of_lookup_2.
  - eapply IH; [|done|done]. lia.
Qed.

Lemma StronglySorted_weaken {A} (R S : relation A) l :
  (forall a b, R a b -> S a b) -> StronglySorted R l -> StronglySorted S l.
Proof. intros H. induction 1 as [|x l _ IH HF]; constructor; [done|]. eapply Forall_impl; [exact HF|apply H]. Qed.

Lemma sorted_reverse {A} (R : relation A) l : StronglySorted (flip R) l -> StronglySorted R (reverse l).
Proof.
  induction 1 as [|x l Hs IH HF]; [constructor|]. rewrite reverse_cons. apply StronglySorted_app_2; [|done|by repeat constructor].
  rewrite Forall_forall in HF. intros a b Ha Hb. apply list_elem_of_singleton in Hb as ->. apply HF. by apply elem_of_reverse.
Qed.

Lemma length_filter_le {A} (P Q : A -> bool) (l : list A) :
  (forall x, x ∈ l -> P x = true -> Q x = true) ->
  (length (filter (fun x => P x = true) l) <= length (filter (fun x => Q x = true) l))%nat.
Proof.
  induction l as [|x l IH]; intros H; [done|]. rewrite !filter_cons.
  specialize (IH (fun y Hy => H y (list_elem_of_further _ _ _ Hy))). pose proof (H x ltac:(left)) as Hx.
  destruct (decide (P x = true)); [rewrite decide_True by auto; simpl; lia|].
  case_decide; simpl; lia.
Qed.

Lemma length_filter_lt {A} (P Q : A -> bool) (l : list A) y :
  (forall x, x ∈ l -> P x = true -> Q x = true) -> y ∈ l -> P y = false -> Q y = true ->
  (length (filter (fun x => P x = true) l) < length (filter (fun x => Q x = true) l))%nat.
Proof.
  intros H (l1 & l2 & ->)%list_elem_of_split HP HQ.
  rewrite !filter_app, !length_app, !filter_cons.
  rewrite (decide_False (P := P y = true)) by congruence. rewrite (decide_True (P := Q y = true)) by done.
  pose proof (length_filter_le P Q l1) as H1. pose proof (length_filter_le P Q l2) as H2. simpl.
  enough (length (filter (fun x => P x = true) l1) <= length (filter (fun x => Q x = true) l1) /\
          length (filter (fun x => P x = true) l2) <= length (filter (fun x => Q x = true) l2))%nat by lia.
  split; [apply H1|apply H2]; intros x Hx; apply H, elem_of_app; [by left|by right; right].
Qed.

Lemma foldl_max_ge l z x : (x ∈ l -> x <= foldl Z.max z l)%Z /\ (z <= foldl Z.max z l)%Z.
Proof.
  revert z. induction l as [|y l IH]; intros z; simpl.
  - split; [by intros ?%elem_of_nil|lia].
  - destruct (IH (Z.max z y)) as [H1 H2]. split; [|lia].
    intros [->|Hx]%elem_of_cons; [lia|by apply H1].
Qed.

Lemma foldl_max_in l z : foldl Z.max z l = z \/ foldl Z.max z l ∈ l.
Proof.
  revert z. induction l as [|y l IH]; intros z; simpl; [by left|].
  destruct (IH (Z.max z y)) as [->|H]; [|right; by right].
  destruct (Z.max_spec z y) as [[_ ->]|[_ ->]]; [right; by left|by left].
Qed.

Lemma foldr_max_ge l z x : (x ∈ l -> x <= foldr Z.max z l)%Z.
Proof. induction 1; simpl; lia. Qed.

#[export] Hint Resolve Zlen_nonneg sumZ_nonneg : feed.
#[export] Hint Rewrite @Zlen_app @Zlen_cons sumZ_app : feed_len.
