(* ===== verification/PyValue.v ===== *)
(** * Python values

    The fragment of Python's data model the modelled code relies on: the
    dynamically typed values read from decoded JSON and database rows, text as
    code points, [str.strip], [str.isdecimal], [int(str)], truthiness, [str()],
    stable [sorted] and [json.dumps] sizes. *)

From S2P Require Import Prelude.
From stdpp Require Import pretty.
#[local] Set Warnings "-register-all".
Local Open Scope Z_scope.

Module Py.

(** ** Text: a [str] is the list of its code points. *)
Abbreviation pystr := (list N).

(** The ASCII literal of the source. *)
Definition u (s : string) : pystr := Ascii.N_of_ascii <$> String.list_ascii_of_string s.

(** The code points [str.isspace] accepts (what [strip()] removes). *)
Definition space_points : list N :=
  [9; 10; 11; 12; 13; 28; 29; 30; 31; 32; 133; 160; 5760; 8192; 8193; 8194; 8195;
   8196; 8197; 8198; 8199; 8200; 8201; 8202; 8232; 8233; 8239; 8287; 12288]%N.

Definition is_space (c : N) : bool := bool_decide (c ∈ space_points).

Fixpoint lstrip (s : pystr) : pystr :=
  match s with
  | [] => []
  | c :: t => if is_space c then lstrip t else s
  end.

Definition rstrip (s : pystr) : pystr := reverse (lstrip (reverse s)).
Definition strip (s : pystr) : pystr := rstrip (lstrip s).

(** The zero digit of each Unicode decimal system (general category Nd); the
    ten digits of a system are consecutive. *)
Definition decimal_zeros : list N :=
  [48; 1632; 1776; 1984; 2406; 2534; 2662; 2790; 2918; 3046; 3174; 3302; 3430; 3558;
   3664; 3792; 3872; 4160; 4240; 6112; 6160; 6470; 6608; 6784; 6800; 6992; 7088; 7232;
   7248; 42528; 43216; 43264; 43472; 43504; 43600; 44016; 65296; 66720; 68912; 69734;
   69872; 69942; 70096; 70384; 70736; 70864; 71248; 71360; 71472; 71904; 72016; 72784;
   73040; 73120; 92768; 92864; 93008; 120782; 120792; 120802; 120812; 120822; 123200;
   123632; 125264; 130032]%N.

Definition digit_value (c : N) : option Z :=
  (fun z => Z.of_N c - Z.of_N z) <$>
    List.find (fun z => (z <=? c)%N && (c <? z + 10)%N) decimal_zeros.

Definition isdecimal (s : pystr) : bool :=
  negb (bool_decide (s = [])) && forallb (fun c => bool_decide (is_Some (digit_value c))) s.

(** [int(s)] on text: surrounding space, a sign, digits with single
    underscores between them; anything else raises [ValueError]. *)
Fixpoint digits_value (acc : Z) (after_digit : bool) (s : pystr) : option Z :=
  match s with
  | [] => if after_digit then Some acc else None
  | c :: t =>
      match digit_value c with
      | Some d => digits_value (10 * acc + d) true t
      | None => if after_digit && (c =? 95)%N
                then match t with
                     | [] => None
                     | _ => digits_value acc false t
                     end
                else None
      end
  end.

Definition py_int (s : pystr) : option Z :=
  match strip s with
  | 43%N :: t => digits_value 0 false t
  | 45%N :: t => Z.opp <$> digits_value 0 false t
  | t => digits_value 0 false t
  end.

Definition startswith (p s : pystr) : bool := bool_decide (take (length p) s = p).

(** ** Numbers: a finite [float] is an integer multiple of [2^-1074]; the
    arithmetic of the model is exact. *)
Inductive pyfloat : Type :=
| FNum (ticks : Z)
| FInf (neg : bool)
| FNaN.

Definition fone : Z := 2 ^ 1074.
Definition float_of_int (z : Z) : pyfloat := FNum (z * fone).

Definition isfinite (f : pyfloat) : bool :=
  match f with FNum _ => true | _ => false end.

(** [a < b]; every comparison with a NaN is false. *)
Definition fltb (a b : pyfloat) : bool :=
  match a, b with
  | FNum x, FNum y => x <? y
  | FNum _, FInf n => negb n
  | FInf n, FNum _ => n
  | FInf n, FInf m => n && negb m
  | _, _ => false
  end.

Definition fleb (a b : pyfloat) : bool :=
  match a, b with
  | FNum x, FNum y => x <=? y
  | FNum _, FInf n => negb n
  | FInf n, FNum _ => n
  | FInf n, FInf m => n || negb m
  | _, _ => false
  end.

(** [max(a, b)] keeps the first argument unless the second is greater. *)
Definition fmax (a b : pyfloat) : pyfloat := if fltb a b then b else a.

(** ** Values *)
Inductive pyval : Type :=
| PNone
| PBool (b : bool)
| PInt (z : Z)
| PFloat (f : pyfloat)
| PStr (s : pystr)
| PList (l : list pyval)
| PDict (d : list (pystr * pyval)).

Definition truthy (v : pyval) : bool :=
  match v with
  | PNone => false
  | PBool b => b
  | PInt z => negb (z =? 0)
  | PFloat (FNum t) => negb (t =? 0)
  | PFloat _ => true
  | PStr s => negb (bool_decide (s = []))
  | PList l => match l with [] => false | _ => true end
  | PDict d => match d with [] => false | _ => true end
  end.

(** [v or d] *)
Definition py_or (v d : pyval) : pyval := if truthy v then v else d.

(** Decimal text of an integer, as [str(int)] prints it. *)
Definition str_of_Z (z : Z) : pystr := u (pretty z).

(** [str(v)]: exact on text, integers, booleans and [None]; [repr] stands for
    the interpreter's rendering of floats and containers. *)
Definition py_str (repr : pyval -> pystr) (v : pyval) : pystr :=
  match v with
  | PStr s => s
  | PInt z => str_of_Z z
  | PBool true => u "True"
  | PBool false => u "False"
  | PNone => u "None"
  | _ => repr v
  end.

(** [v == "..."] *)
Definition is_text (v : pyval) (s : string) : bool :=
  match v with PStr t => bool_decide (t = u s) | _ => false end.

(** [d.get(k)] on a dictionary given by its items. *)
Definition assoc {A} (d : list (pystr * A)) (k : pystr) : option A :=
  snd <$> List.find (fun kv => bool_decide (kv.1 = k)) d.

(** [a <= b] on text, by code points: the order of [sorted]. *)
Fixpoint str_leb (a b : pystr) : bool :=
  match a, b with
  | [], _ => true
  | _, [] => false
  | x :: a, y :: b => if (x =? y)%N then str_leb a b else (x <? y)%N
  end.

(** [d.get(k)] on a decoded object with text keys. *)
Abbreviation row := (gmap string pyval).
Definition get (m : row) (k : string) : pyval := default PNone (m !! k).

(** [str(m.get(k) or "")] *)
Definition get_str (repr : pyval -> pystr) (m : row) (k : string) : pystr :=
  py_str repr (py_or (get m k) (PStr [])).

(** ** [json.dumps(v, ensure_ascii=False)] *)

Definition hex_digit (d : N) : N := if (d <? 10)%N then (48 + d)%N else (87 + d)%N.

Definition json_escape (c : N) : pystr :=
  if (c =? 34)%N then [92; 34]%N else if (c =? 92)%N then [92; 92]%N
  else if (c =? 10)%N then u "\n" else if (c =? 13)%N then u "\r"
  else if (c =? 9)%N then u "\t" else if (c =? 8)%N then u "\b"
  else if (c =? 12)%N then u "\f"
  else if (c <? 32)%N then u "\u00" ++ [hex_digit (c / 16); hex_digit (c mod 16)]%N
  else [c].

Definition json_str (s : pystr) : pystr := [34%N] ++ (s ≫= json_escape) ++ [34%N].

Fixpoint join (sep : pystr) (l : list pystr) : pystr :=
  match l with
  | [] => []
  | [x] => x
  | x :: rest => x ++ sep ++ join sep rest
  end.

(** [float_repr] renders a float. *)
Fixpoint dumps (float_repr : pyfloat -> pystr) (v : pyval) : pystr :=
  match v with
  | PNone => u "null"
  | PBool true => u "true"
  | PBool false => u "false"
  | PInt z => str_of_Z z
  | PFloat f => float_repr f
  | PStr s => json_str s
  | PList l => [91%N] ++ join (u ", ") (map (dumps float_repr) l) ++ [93%N]
  | PDict d => [123%N] ++
      join (u ", ") (map (fun kv => json_str kv.1 ++ u ": " ++ dumps float_repr kv.2) d) ++ [125%N]
  end.

(** [repr] of an integral float below [10^16]: its digits and [.0]. *)
Definition float_repr_integral (f : pyfloat) : pystr :=
  match f with FNum t => str_of_Z (t / fone) ++ u ".0" | _ => [] end.

(** ** Stable sorting: [sorted(l, key=...)] for a key with a total preorder. *)
Section Sorted.
Context {A K : Type} (leb : K -> K -> bool) (key : A -> K).

Fixpoint insert_by (x : A) (l : list A) : list A :=
  match l with
  | [] => [x]
  | y :: t => if leb (key x) (key y) then x :: l else y :: insert_by x t
  end.

Definition sorted_by (l : list A) : list A := foldr insert_by [] l.

Lemma insert_by_Permutation x l : insert_by x l ≡ₚ x :: l.
Proof using Type.
  induction l as [|y t IH]; simpl; [done|].
  destruct (leb _ _); [done|]. rewrite IH. apply Permutation_swap.
Qed.

Lemma sorted_by_Permutation l : sorted_by l ≡ₚ l.
Proof using Type.
  induction l as [|x l IH]; simpl; [done|]. by rewrite insert_by_Permutation, IH.
Qed.

Context (leb_total : forall a b, leb a b = true \/ leb b a = true).
Context (leb_trans : forall a b c, leb a b = true -> leb b c = true -> leb a c = true).

Lemma insert_by_sorted x l :
  StronglySorted (fun a b => leb (key a) (key b) = true) l ->
  StronglySorted (fun a b => leb (key a) (key b) = true) (insert_by x l).
Proof using leb_total leb_trans.
  induction 1 as [|y t Ht IH Hy]; simpl; [repeat constructor|].
  destruct (leb (key x) (key y)) eqn:E.
  - constructor; [by constructor|]. constructor; [done|].
    eapply Forall_impl; [exact Hy|]. simpl. eauto.
  - constructor; [done|].
    rewrite insert_by_Permutation. constructor; [|done].
    destruct (leb_total (key x) (key y)); congruence.
Qed.

Lemma sorted_by_sorted l :
  StronglySorted (fun a b => leb (key a) (key b) = true) (sorted_by l).
Proof using leb_total leb_trans.
  induction l; simpl; [constructor|]. by apply insert_by_sorted.
Qed.
End Sorted.

(** ** Lemmas *)

Lemma u_inj s t : u s = u t -> s = t.
Proof.
  intros H. rewrite <- (String.string_of_list_ascii_of_string s), <- (String.string_of_list_ascii_of_string t).
  f_equal. unfold u in H. revert H. generalize (String.list_ascii_of_string s), (String.list_ascii_of_string t).
  induction l as [|a l IH]; intros [|b k] H; try done. rewrite !fmap_cons in H. injection H as Hh Ht.
  f_equal; [|by apply IH]. by rewrite <- (Ascii.ascii_N_embedding a), <- (Ascii.ascii_N_embedding b), Hh.
Qed.

Lemma str_of_Z_inj a b : str_of_Z a = str_of_Z b -> a = b.
Proof. intros H%u_inj. by apply (inj pretty). Qed.

Definition has_colon (s : string) : Prop := 58%N ∈ u s.

Lemma pretty_N_go_colon x s : has_colon (pretty_N_go x s) -> has_colon s.
Proof.
  revert s. induction (N.lt_wf_0 x) as [x _ IH]. intros s H.
  destruct (N.eq_0_gt_0_cases x) as [->|Hx]; [by rewrite pretty_N_go_0 in H|].
  rewrite pretty_N_go_step in H by done. apply IH in H; [|by apply N.div_lt].
  unfold has_colon, u in *. simpl in H. apply elem_of_cons in H as [H|H]; [|done].
  exfalso. revert H. unfold pretty_N_char. by repeat case_match.
Qed.

(** Decimal text has no colon. *)
Lemma str_of_Z_no_colon z : 58%N ∉ str_of_Z z.
Proof.
  assert (forall n : N, ~ has_colon (pretty n)) as Hn.
  { intros n H. unfold pretty, pretty_N in H. case_decide; [revert H; by apply (bool_decide_unpack _)|].
    by apply pretty_N_go_colon in H; apply elem_of_nil in H. }
  unfold str_of_Z. change (~ has_colon (pretty z)). destruct z as [|p|p]; intros H.
  - revert H. by apply (bool_decide_unpack _).
  - by apply (Hn (N.pos p)).
  - unfold pretty, pretty_Z in H. unfold has_colon, u in H. simpl in H.
    apply elem_of_cons in H as [H|H]; [done|]. by apply (Hn (N.pos p)).
Qed.

(** A separator that neither part contains splits a text in one way. *)
Lemma split_first (c : N) a b r r' :
  c ∉ a -> c ∉ b -> a ++ c :: r = b ++ c :: r' -> a = b /\ r = r'.
Proof.
  revert b. induction a as [|x a IH]; intros b Ha Hb H.
  - destruct b as [|y b]; [by injection H|]. injection H as <- _. exfalso. apply Hb. left.
  - destruct b as [|y b]; [injection H as <- _; exfalso; apply Ha; left|]. injection H as <- H.
    apply IH in H as [-> ->]; [done|set_solver..].
Qed.

Lemma split_last (c : N) a b r r' :
  c ∉ r -> c ∉ r' -> a ++ c :: r = b ++ c :: r' -> a = b /\ r = r'.
Proof.
  intros Hr Hr' H. apply (f_equal reverse) in H.
  rewrite !reverse_app, !reverse_cons, <- !app_assoc in H. simpl in H.
  apply split_first in H as [H1 H2]; [|by rewrite elem_of_reverse..].
  split; [by apply (inj reverse)|by apply (inj reverse)].
Qed.

Lemma str_leb_total a b : str_leb a b = true \/ str_leb b a = true.
Proof.
  revert b. induction a as [|x a IH]; intros [|y b]; simpl; auto.
  rewrite (N.eqb_sym y x). destruct (N.eqb_spec x y) as [->|H]; [apply IH|].
  rewrite !N.ltb_lt. lia.
Qed.

Lemma str_leb_trans a b c : str_leb a b = true -> str_leb b c = true -> str_leb a c = true.
Proof.
  revert b c. induction a as [|x a IH]; intros [|y b] [|z c]; simpl; try done.
  destruct (N.eqb_spec x y) as [->|H1]; destruct (N.eqb_spec y z) as [->|H2]; rewrite ?N.ltb_lt.
  - apply IH.
  - done.
  - rewrite (proj2 (N.eqb_neq x z)), N.ltb_lt by done. done.
  - intros ? ?. rewrite (proj2 (N.eqb_neq x z)), N.ltb_lt by lia. lia.
Qed.

Lemma str_leb_antisym a b : str_leb a b = true -> str_leb b a = true -> a = b.
Proof.
  revert b. induction a as [|x a IH]; intros [|y b]; simpl; try done.
  rewrite (N.eqb_sym y x). destruct (N.eqb_spec x y) as [->|H]; [intros; f_equal; by apply IH|].
  rewrite !N.ltb_lt. lia.
Qed.

Lemma lstrip_suffix s : exists p, s = p ++ lstrip s.
Proof.
  induction s as [|c s (p & Hp)]; simpl; [by exists []|].
  destruct (is_space c); [|by exists []]. exists (c :: p). by rewrite Hp at 1.
Qed.

Lemma length_lstrip s : (length (lstrip s) <= length s)%nat.
Proof. destruct (lstrip_suffix s) as (p & Hp). rewrite Hp at 2. rewrite length_app. lia. Qed.

Lemma length_rstrip s : (length (rstrip s) <= length s)%nat.
Proof.
  unfold rstrip. rewrite length_reverse.
  etransitivity; [apply length_lstrip|]. by rewrite length_reverse.
Qed.

Lemma length_strip s : (length (strip s) <= length s)%nat.
Proof. unfold strip. etransitivity; [apply length_rstrip|apply length_lstrip]. Qed.

#[export] Hint Resolve length_lstrip length_rstrip length_strip : feed.

End Py.
Export Py.
