(* ===== verification/RateLimit.v ===== *)
(** * Sliding-window rate limiter ([backend/core/ratelimit.py])

    The limiter keeps, per key, the deque of the times of the hits it admitted.
    A time is an integer number of clock ticks (a [time.monotonic()] reading);
    one limiter object is driven by its callers one locked operation at a time,
    so a history is a list of operations in lock order. *)

From S2P Require Import Prelude.
Local Open Scope Z_scope.

Module RateLimit.

(** [_MAX_KEYS]: hard cap on tracked keys. *)
Definition MAX_KEYS : nat := Z.to_nat 10000.

(** [while hits and now - hits[0] >= window: hits.popleft()] *)
Fixpoint popleft_expired (now window : Z) (hits : list Z) : list Z :=
  match hits with
  | [] => []
  | h :: t => if window <=? now - h then popleft_expired now window t else hits
  end.

(** The sweep's test [not h or now - h[-1] >= window]. *)
Definition dead (now window : Z) (hits : list Z) : bool :=
  match last hits with
  | None => true
  | Some x => window <=? now - x
  end.

Definition sweep (now window : Z) (st : gmap string (list Z)) : gmap string (list Z) :=
  filter (fun kv => dead now window kv.2 = false) st.

(** [allow] after the deque of [key] is in hand: expire, test, record. The
    dict entry is live in every branch, also when [hits[0]] raises. *)
Definition charge (key : string) (limit window now : Z) (hits : list Z)
    (st : gmap string (list Z)) : gmap string (list Z) * outcome (bool * Z) :=
  let hits := popleft_expired now window hits in
  if limit <=? Zlen hits then
    (<[key := hits]> st,
     match hits with
     | h :: _ => Return (false, Z.max 0 (window - (now - h)))
     | [] => Raise IndexError
     end)
  else (<[key := hits ++ [now]]> st, Return (true, 0)).

Definition allow (key : string) (limit window now : Z)
    (st : gmap string (list Z)) : gmap string (list Z) * outcome (bool * Z) :=
  match st !! key with
  | Some hits => charge key limit window now hits st
  | None =>
      if bool_decide (MAX_KEYS <= size st)%nat then
        let st := sweep now window st in
        if bool_decide (MAX_KEYS <= size st)%nat then (st, Return (true, 0))
        else charge key limit window now [] st
      else charge key limit window now [] st
  end.

Definition peek (key : string) (limit window now : Z)
    (st : gmap string (list Z)) : gmap string (list Z) * outcome (bool * Z) :=
  match st !! key with
  | None | Some [] => (st, Return (true, 0))
  | Some hits =>
      let hits := popleft_expired now window hits in
      (<[key := hits]> st,
       if limit <=? Zlen hits then
         match hits with
         | h :: _ => Return (false, Z.max 0 (window - (now - h)))
         | [] => Raise IndexError
         end
       else Return (true, 0))
  end.

Definition reset (st : gmap string (list Z)) : gmap string (list Z) := ∅.

(** ** Histories *)

Inductive op : Type :=
| OpAllow (key : string) (now : Z)
| OpPeek (key : string) (now : Z).

Definition op_time (o : op) : Z :=
  match o with OpAllow _ t | OpPeek _ t => t end.

(** One operation of a limiter used with a fixed [limit] and [window]; the
    second component lists the hit when the call was admitted {e and} charged
    (the key is tracked afterwards). *)
Definition step (limit window : Z) (o : op) (st : gmap string (list Z))
    : gmap string (list Z) * list (string * Z) :=
  match o with
  | OpAllow k now =>
      let '(st', r) := allow k limit window now st in
      (st', match r with
            | Return (true, _) => if bool_decide (is_Some (st' !! k)) then [(k, now)] else []
            | _ => []
            end)
  | OpPeek k now => ((peek k limit window now st).1, [])
  end.

(** Run a history, accumulating the log of charged hits. *)
Fixpoint run (limit window : Z) (ops : list op)
    (st : gmap string (list Z)) (log : list (string * Z))
    : gmap string (list Z) * list (string * Z) :=
  match ops with
  | [] => (st, log)
  | o :: ops =>
      let '(st', g) := step limit window o st in
      run limit window ops st' (log ++ g)
  end.

Definition times (k : string) (log : list (string * Z)) : list Z :=
  (filter (fun kt => kt.1 = k) log).*2.

(** Hits of [l] in the half-open interval [(t - window, t]]. *)
Definition in_window (window t : Z) (l : list Z) : Z :=
  Zlen (filter (fun x => t - window < x <= t) l).

(** ** Lemmas *)

Lemma popleft_split now window hits :
  exists d, hits = d ++ popleft_expired now window hits /\
            Forall (fun x => window <= now - x) d.
Proof.
  induction hits as [|h t (d & Ht & Hd)]; simpl.
  - by exists [].
  - destruct (window <=? now - h) eqn:E; bools.
    + exists (h :: d). split; [by rewrite Ht at 1 | by constructor].
    + by exists [].
Qed.

Lemma popleft_head now window hits h t :
  popleft_expired now window hits = h :: t -> now - h < window.
Proof.
  induction hits as [|x hits IH]; simpl; [done|].
  destruct (window <=? now - x) eqn:E; bools; [done|]. by intros [= -> ->].
Qed.

Lemma in_window_app window t l k :
  in_window window t (l ++ k) = in_window window t l + in_window window t k.
Proof. unfold in_window. by rewrite filter_app, Zlen_app. Qed.

Lemma in_window_le window t l : in_window window t l <= Zlen l.
Proof.
  unfold in_window, Zlen. pose proof (length_filter (fun x => t - window < x <= t) l). lia.
Qed.

Lemma in_window_nil window t l :
  Forall (fun x => ~ (t - window < x <= t)) l -> in_window window t l = 0.
Proof.
  intros H. unfold in_window. induction H as [|x l Hx Hl IH]; [done|].
  by rewrite filter_cons_False.
Qed.

Lemma times_app k l1 l2 : times k (l1 ++ l2) = times k l1 ++ times k l2.
Proof. unfold times. by rewrite filter_app, fmap_app. Qed.

Lemma times_single k k' t : times k [(k', t)] = if decide (k' = k) then [t] else [].
Proof. unfold times. rewrite filter_cons. simpl. by case_decide. Qed.

(** What a history keeps true of one key: its tracked hits are the unexpired
    tail of the log, and no window of the log holds more than [limit]. *)
Record key_inv (limit window now : Z) (hits log : list Z) : Prop := {
  ki_split : exists d, log = d ++ hits /\ Forall (fun x => window <= now - x) d;
  ki_sorted : StronglySorted Z.le log;
  ki_past : Forall (fun x => x <= now) log;
  ki_len : Zlen hits <= limit;
  ki_bound : forall t, in_window window t log <= limit;
}.

Definition inv (limit window now : Z) (st : gmap string (list Z))
    (log : list (string * Z)) : Prop :=
  forall k, key_inv limit window now (default [] (st !! k)) (times k log).

Lemma key_inv_init limit window now : 0 <= limit -> key_inv limit window now [] [].
Proof. intros ?. split; [by exists [] | constructor .. | |]; done. Qed.

Lemma key_inv_later limit window now now' hits log :
  now <= now' -> key_inv limit window now hits log -> key_inv limit window now' hits log.
Proof.
  intros Hle [(d & -> & Hd) ? Hp ? ?]. split; try done.
  - exists d. split; [done|]. eapply Forall_impl; [done|]. simpl; lia.
  - eapply Forall_impl; [done|]. simpl; lia.
Qed.

Lemma key_inv_pop limit window now hits log :
  key_inv limit window now hits log ->
  key_inv limit window now (popleft_expired now window hits) log.
Proof.
  intros [(d & -> & Hd) ? Hp Hl ?].
  destruct (popleft_split now window hits) as (d' & Hs & Hd').
  split; try done.
  - exists (d ++ d'). rewrite <- app_assoc, <- Hs. split; [done|]. by apply Forall_app.
  - rewrite Hs in Hl. rewrite Zlen_app in Hl. pose proof (Zlen_nonneg d'). lia.
Qed.

Lemma key_inv_dead limit window now hits log :
  0 <= limit -> dead now window hits = true ->
  key_inv limit window now hits log -> key_inv limit window now [] log.
Proof.
  intros Hlim Hdead [(d & -> & Hd) Hs Hp Hl Hb]. split; try done.
  exists (d ++ hits). rewrite app_nil_r. split; [done|].
  apply Forall_app. split; [done|].
  unfold dead in Hdead. destruct (last hits) as [x|] eqn:Hlast.
  2:{ apply last_None in Hlast as ->. constructor. }
  apply last_Some in Hlast as (l' & ->). bools.
  rewrite app_assoc in Hs. apply StronglySorted_app in Hs as (Hle & _ & _).
  apply Forall_app. split; [|constructor; [lia|constructor]].
  apply Forall_forall. intros y Hy.
  assert (y <= x) by (apply Hle; set_solver). lia.
Qed.

Lemma key_inv_push limit window now hits log :
  0 < window -> Zlen hits < limit ->
  key_inv limit window now hits log ->
  key_inv limit window now (hits ++ [now]) (log ++ [now]).
Proof.
  intros Hw Hlt [(d & -> & Hd) Hs Hp Hl Hb]. split.
  - exists d. by rewrite app_assoc.
  - apply StronglySorted_app. split; [|split; [done|repeat constructor]].
    intros x y Hx Hy. rewrite Forall_forall in Hp.
    apply list_elem_of_singleton in Hy as ->. by apply Hp.
  - apply Forall_app. split; [done|]. constructor; [lia|constructor].
  - rewrite Zlen_app, Zlen_cons. change (Zlen (@nil Z)) with 0. lia.
  - intros t. destruct (decide (t < now)).
    + rewrite in_window_app, (in_window_nil _ _ [now]).
      * specialize (Hb t). lia.
      * constructor; [lia|constructor].
    + rewrite <- app_assoc, in_window_app, in_window_nil.
      * pose proof (in_window_le window t (hits ++ [now])) as H.
        rewrite Zlen_app, Zlen_cons in H. change (Zlen (@nil Z)) with 0 in H. lia.
      * eapply Forall_impl; [exact Hd|]. simpl; lia.
Qed.

Section History.
Context (limit window : Z) (Hlimit : 0 < limit) (Hwindow : 0 < window).

Lemma inv_insert now st log k hits :
  inv limit window now st log ->
  key_inv limit window now hits (times k log) ->
  inv limit window now (<[k := hits]> st) log.
Proof using Type.
  intros Hinv Hk j. destruct (decide (j = k)) as [->|Hne].
  - by rewrite lookup_insert_eq.
  - by rewrite lookup_insert_ne.
Qed.

Lemma inv_sweep now st log :
  inv limit window now st log -> inv limit window now (sweep now window st) log.
Proof using Hlimit.
  intros Hinv k. specialize (Hinv k). unfold sweep. rewrite map_lookup_filter.
  destruct (st !! k) as [hits|] eqn:E; simpl in *; [|done].
  case_guard as Hd; simpl; [done|].
  eapply key_inv_dead; [lia| |done]. by destruct (dead now window hits).
Qed.

Lemma charge_inv now st log k hits st' r :
  inv limit window now st log ->
  key_inv limit window now hits (times k log) ->
  charge k limit window now hits st = (st', r) ->
  inv limit window now st'
    (log ++ match r with
            | Return (true, _) => if bool_decide (is_Some (st' !! k)) then [(k, now)] else []
            | _ => [] end).
Proof using Hlimit Hwindow.
  intros Hinv Hk. apply key_inv_pop in Hk. unfold charge.
  destruct (limit <=? _) eqn:E; bools; intros [= <- <-].
  - destruct (popleft_expired now window hits) as [|h t] eqn:Eh;
      rewrite app_nil_r; by apply inv_insert.
  - rewrite bool_decide_true by (rewrite lookup_insert_eq; eauto).
    intros j. rewrite times_app, times_single.
    destruct (decide (j = k)) as [->|Hne].
    + rewrite lookup_insert_eq. rewrite decide_True by done. by apply key_inv_push.
    + rewrite lookup_insert_ne by done. rewrite decide_False by done.
      rewrite app_nil_r. apply Hinv.
Qed.

Lemma refused_state now st k st' r :
  allow k limit window now st = (st', Return (false, r)) ->
  Zlen (default [] (st !! k)) <= limit ->
  exists h t, st' !! k = Some (h :: t) /\ now - h < window /\
    r = window - (now - h) /\ Zlen (h :: t) = limit.
Proof using Hlimit.
  assert (forall hits st0, Zlen hits <= limit ->
    charge k limit window now hits st0 = (st', Return (false, r)) ->
    exists h t, st' !! k = Some (h :: t) /\ now - h < window /\
      r = window - (now - h) /\ Zlen (h :: t) = limit) as Hc.
  { intros hits st0 Hle. unfold charge.
    destruct (popleft_split now window hits) as (d & Hd & _).
    pose proof (Zlen_nonneg d). rewrite Hd, Zlen_app in Hle.
    destruct (limit <=? _) eqn:E; bools; [|done].
    destruct (popleft_expired now window hits) as [|h t] eqn:Eh; [done|].
    apply popleft_head in Eh. intros [= <- <-]. rewrite lookup_insert_eq.
    exists h, t. repeat split; lia. }
  unfold allow. destruct (st !! k) as [hits|]; simpl; intros Ha Hlen; [by eapply Hc|].
  repeat case_bool_decide; [done|by eapply Hc..].
Qed.

Lemma step_inv o now st log :
  now <= op_time o ->
  inv limit window now st log ->
  inv limit window (op_time o) (step limit window o st).1
      (log ++ (step limit window o st).2).
Proof using Hlimit Hwindow.
  intros Hle Hinv.
  assert (inv limit window (op_time o) st log) as Hnow.
  { intros k. by eapply key_inv_later. }
  destruct o as [k t|k t]; simpl in *.
  - destruct (allow k limit window t st) as [st' r] eqn:E. simpl.
    unfold allow in E. pose proof (Hnow k) as Hk.
    destruct (st !! k) as [hits|] eqn:Ek; simpl in Hk.
    + by eapply charge_inv.
    + case_bool_decide; [|by eapply charge_inv].
      pose proof (inv_sweep _ _ _ Hnow) as Hsw.
      case_bool_decide as Hfull.
      * injection E as <- <-.
        assert (sweep t window st !! k = None) as ->.
        { unfold sweep. rewrite map_lookup_filter, Ek. done. }
        simpl. by rewrite app_nil_r.
      * by eapply charge_inv.
  - rewrite app_nil_r. unfold peek. pose proof (Hnow k) as Hk.
    destruct (st !! k) as [[|h hits]|] eqn:Ek; try done.
    apply inv_insert; [done|]. by apply key_inv_pop.
Qed.

(** The invariant holds after a history at any clock reading [fin] not
    before its operations. *)
Lemma run_inv ops now fin st log :
  StronglySorted Z.le (now :: (op_time <$> ops)) ->
  Forall (fun t => t <= fin) (now :: (op_time <$> ops)) ->
  inv limit window now st log ->
  inv limit window fin (run limit window ops st log).1 (run limit window ops st log).2.
Proof using Hlimit Hwindow.
  revert now st log. induction ops as [|o ops IH]; intros now st log Hs Hf Hinv.
  - intros k. apply Forall_cons in Hf as [? _]. by eapply key_inv_later.
  - apply StronglySorted_inv in Hs as [Hs Hle]. rewrite fmap_cons in Hs, Hle, Hf.
    apply Forall_cons in Hle as [Ho _]. apply Forall_cons in Hf as [_ Hf].
    simpl. pose proof (step_inv o now st log Ho Hinv) as H'.
    destruct (step limit window o st) as [st' g]. by eapply IH.
Qed.

Lemma run_inv_empty ops fin :
  StronglySorted Z.le ((op_time <$> ops) ++ [fin]) ->
  inv limit window fin (run limit window ops ∅ []).1 (run limit window ops ∅ []).2.
Proof using Hlimit Hwindow.
  intros Hs. apply StronglySorted_app in Hs as (Hle & Hs & _).
  assert (forall t, t ∈ op_time <$> ops -> t <= fin) as Hf
    by (intros t Ht; apply Hle; set_solver).
  assert (inv limit window (default fin (head (op_time <$> ops))) ∅ []) as H0.
  { intros k. rewrite lookup_empty. apply key_inv_init. lia. }
  eapply run_inv; [| |exact H0].
  - destruct ops as [|o ops]; simpl; [repeat constructor|].
    constructor; [done|]. constructor; [lia|].
    by apply StronglySorted_inv in Hs as [_ ?].
  - constructor; [|by apply Forall_forall].
    destruct ops as [|o ops]; simpl; [lia|]. apply Hf. set_solver.
Qed.
End History.

(** ** Properties *)

(** C34: in every history of [allow]/[peek] calls on one limiter, in lock order
    with a non-decreasing clock, the charged admissions of one key in any
    half-open window [(t - window, t]] number at most [limit]; sweeps under key
    pressure and calls for other keys do not weaken the bound. *)
Theorem window_bound (limit window : Z) (ops : list op) (k : string) (t : Z) :
  0 < limit -> 0 < window ->
  StronglySorted Z.le (op_time <$> ops) ->
  in_window window t (times k (run limit window ops ∅ []).2) <= limit.
Proof.
  intros Hl Hw Hs. set (fin := Z.max t (foldr Z.max t (op_time <$> ops))).
  eapply ki_bound. apply (run_inv_empty limit window Hl Hw ops fin).
  apply StronglySorted_app. split; [|split; [done|repeat constructor]].
  intros x y Hx Hy. apply list_elem_of_singleton in Hy as ->.
  pose proof (foldr_max_ge _ t _ Hx). lia.
Qed.

Lemma window_bound_witness :
  in_window 60 70 (times "a" (run 2 60
    [OpAllow "a" 0; OpAllow "a" 10; OpAllow "a" 20; OpAllow "a" 70] ∅ []).2) <= 2.
Proof.
  apply (window_bound 2 60
    [OpAllow "a" 0; OpAllow "a" 10; OpAllow "a" 20; OpAllow "a" 70] "a" 70);
    [lia | lia |]. simpl. repeat constructor; lia.
Defined.

(** The retry hint is exact. When [allow] refuses with hint [r], the same
    call repeated at any later time [u] (nothing else in between) is admitted
    if and only if [u >= now + r]. *)
Theorem retry_after_exact (limit window : Z) (ops : list op) (k : string)
    (now r u : Z) (st' : gmap string (list Z)) :
  0 < limit -> 0 < window ->
  StronglySorted Z.le ((op_time <$> ops) ++ [now]) ->
  allow k limit window now (run limit window ops ∅ []).1 = (st', Return (false, r)) ->
  now <= u ->
  ((allow k limit window u st').2 = Return (true, 0) <-> now + r <= u).
Proof.
  intros Hl Hw Hs Hallow Hu.
  pose proof (run_inv_empty limit window Hl Hw ops now Hs) as Hinv.
  set (st := (run limit window ops ∅ []).1) in *.
  assert (exists h t, st' !! k = Some (h :: t) /\ now - h < window /\
            r = window - (now - h) /\ Zlen (h :: t) = limit) as (h & t & Hk & Hh & Hr & Hlen).
  { eapply refused_state; [exact Hl|exact Hallow|]. eapply ki_len, Hinv. }
  unfold allow. rewrite Hk. unfold charge. simpl.
  destruct (window <=? u - h) eqn:E; bools.
  - destruct (popleft_split u window t) as (d & Hd & _).
    assert (Zlen (popleft_expired u window t) <= Zlen t) as Hle
      by (rewrite Hd at 2; rewrite Zlen_app; pose proof (Zlen_nonneg d); lia).
    rewrite Zlen_cons in Hlen.
    destruct (limit <=? _) eqn:E2; bools; [lia|]. simpl. split; [lia|done].
  - destruct (limit <=? Zlen (h :: t)) eqn:E2; bools; [|lia].
    simpl. split; [done|lia].
Qed.

Lemma retry_after_exact_witness :
  (allow "a" 2 60 75 (allow "a" 2 60 70 (run 2 60
     [OpAllow "a" 15; OpAllow "a" 20] ∅ []).1).1).2 = Return (true, 0).
Proof.
  destruct (allow "a" 2 60 70 (run 2 60 [OpAllow "a" 15; OpAllow "a" 20] ∅ []).1)
    as [st' r] eqn:E.
  apply (retry_after_exact 2 60 [OpAllow "a" 15; OpAllow "a" 20] "a" 70 5 75 st');
    [lia | lia | simpl; repeat constructor; lia | | lia | lia].
  rewrite E. f_equal. revert E. vm_compute. by intros [= _ <-].
Defined.

End RateLimit.
