(* ===== verification/Coalesce.v ===== *)
(** * Coalescing pending user messages into one turn
    ([backend/model_api_runtime/v2/coalesce.py])

    Message rows are decoded dictionaries; [decrypt] is the injected reader of
    the plaintext, [float_of_str] is Python's [float(str)], and [repr] the
    interpreter's rendering of floats and containers. *)

From S2P Require Import Prelude PyValue.
Local Open Scope Z_scope.

Module Coalesce.

Definition USER_ROLES : list pystr := [u "user"; u "human"].
Definition ASSISTANT_ROLES : list pystr := [u "openclaw"; u "assistant"; u "agent"].

Definition SEQ_ERROR : exn := ValueError "message seq must be a positive integer".
Definition SINCE_ERROR : exn := ValueError "since_seq must be a non-negative integer".

(** The integer identity accepted from a row or a caller: a non-boolean [int],
    or decimal text. *)
Definition int_identity (v : pyval) : option Z :=
  match v with
  | PInt z => Some z
  | PStr s => if isdecimal (strip s) then py_int (strip s) else None
  | _ => None
  end.

Definition seq_of (m : row) : outcome Z :=
  match int_identity (get m "seq") with
  | Some value => if value <=? 0 then Raise SEQ_ERROR else Return value
  | None => Raise SEQ_ERROR
  end.

(** The input attributes copied into the turn item when the row has them. *)
Definition COPIED_KEYS : list string :=
  ["has_image"; "_recall_row_proof"; "_recall_source_json"; "_recall_attachment_proof";
   "caption"; "unreadable"; "image_mime"; "vision_route_id"; "has_file"; "file_name";
   "file_display_title"; "file_display_subtitle"; "file_mime"].

(** The boundary argument: exactly one of [since_seq] and [since_ts]. *)
Inductive boundary : Type :=
| SinceSeq (b : Z)
| SinceTs (t : pyfloat).

Inductive cursor : Type :=
| SeqCursor (z : Z)
| TsCursor (t : pyfloat).

Section Coalesce.
Context (repr : pyval -> pystr) (float_of_str : pystr -> option pyfloat)
        (decrypt : row -> pyval).

Definition role_in (roles : list pystr) (m : row) : bool :=
  bool_decide (get_str repr m "role" ∈ roles).

(** [_ts]: a value [float()] rejects counts as [0.0]. *)
Definition ts_of (m : row) : pyfloat :=
  match py_or (get m "ts") (PInt 0) with
  | PBool b => float_of_int (if b then 1 else 0)
  | PInt z => float_of_int z
  | PFloat f => f
  | PStr s => default (FNum 0) (float_of_str s)
  | _ => FNum 0
  end.

Definition last_replied_ts (messages : list row) : pyfloat :=
  foldl (fun latest m =>
           if role_in ASSISTANT_ROLES m
           then (if fltb latest (ts_of m) then ts_of m else latest)
           else latest)
        (FNum 0) messages.

Fixpoint last_replied_seq_from (latest : Z) (messages : list row) : outcome Z :=
  match messages with
  | [] => Return latest
  | m :: rest =>
      if role_in ASSISTANT_ROLES m
      then seq ← seq_of m; last_replied_seq_from (Z.max latest seq) rest
      else last_replied_seq_from latest rest
  end.
Definition last_replied_seq (messages : list row) : outcome Z :=
  last_replied_seq_from 0 messages.

(** The checks on the two boundary arguments. *)
Definition parse_boundary (since_ts : option pyfloat) (since_seq : pyval)
    : outcome boundary :=
  match since_seq, since_ts with
  | PNone, None => Return (SinceTs (FNum 0))
  | PNone, Some t => Return (SinceTs t)
  | _, Some _ => Raise (ValueError "pass exactly one of since_seq or since_ts")
  | v, None =>
      match int_identity v with
      | Some b => if b <? 0 then Raise SINCE_ERROR else Return (SinceSeq b)
      | None => Raise SINCE_ERROR
      end
  end.

Definition content_of (m : row) : pystr := strip (py_str repr (py_or (decrypt m) (PStr []))).

(** The item emitted for one admitted row, before its database identity. *)
Definition item_base (m : row) (mid content : pystr) : row :=
  let base : row := <["id" := PStr mid]> (<["ts" := PFloat (ts_of m)]>
                      {["content" := PStr content]}) in
  let copied := foldl (fun it k => match m !! k with
                                   | Some v => <[k := v]> it
                                   | None => it end) base COPIED_KEYS in
  let call_id := strip (get_str repr m "voice_call_id") in
  let turn_id := strip (get_str repr m "voice_turn_id") in
  let voiced :=
    if negb (bool_decide (call_id = [])) && negb (bool_decide (turn_id = []))
       && (Zlen call_id <=? 96) && (Zlen turn_id <=? 128)
    then <["voice_turn_id" := PStr turn_id]> (<["voice_call_id" := PStr call_id]> copied)
    else copied in
  match get m "include_reasoning" with
  | PBool true => <["include_reasoning" := PBool true]> voiced
  | _ => voiced
  end.

Definition item_of (m : row) (mid content : pystr) : outcome row :=
  match get m "seq" with
  | PNone => Return (item_base m mid content)
  | _ => seq ← seq_of m; Return (<["seq" := PInt seq]> (item_base m mid content))
  end.

(** [seq <= boundary_seq] / [ts <= boundary_ts]. *)
Definition behind (b : boundary) (m : row) : outcome bool :=
  match b with
  | SinceSeq s => seq ← seq_of m; Return (seq <=? s)
  | SinceTs t => Return (fleb (ts_of m) t)
  end.

Definition advance (c : cursor) (m : row) : outcome cursor :=
  match c with
  | SeqCursor z => seq ← seq_of m; Return (SeqCursor (Z.max z seq))
  | TsCursor t => Return (TsCursor (fmax t (ts_of m)))
  end.

(** The main loop over the ordered rows. *)
Fixpoint coalesce_loop (b : boundary) (seen : list pystr) (out : list row) (c : cursor)
    (ordered : list row) : outcome (list row * cursor) :=
  match ordered with
  | [] => Return (out, c)
  | m :: rest =>
      if negb (role_in USER_ROLES m) then coalesce_loop b seen out c rest else
      old ← behind b m;
      if (old : bool) then coalesce_loop b seen out c rest else
      let mid := get_str repr m "id" in
      if negb (bool_decide (mid = [])) && bool_decide (mid ∈ seen)
      then coalesce_loop b seen out c rest else
      let content := content_of m in
      if bool_decide (content = []) then coalesce_loop b seen out c rest else
      let seen := if bool_decide (mid = []) then seen else mid :: seen in
      item ← item_of m mid content;
      c ← advance c m;
      coalesce_loop b seen (out ++ [item]) c rest
  end.

(** [sorted(rows, key=_seq)] evaluates the key of every row first, so one
    invalid identity raises before anything is emitted. *)
Fixpoint with_seqs (rows : list row) : outcome (list (Z * row)) :=
  match rows with
  | [] => Return []
  | m :: rest => seq ← seq_of m; tl ← with_seqs rest; Return ((seq, m) :: tl)
  end.

Definition coalesce_pending (messages : list row) (since_ts : option pyfloat)
    (since_seq : pyval) : outcome (list row * cursor) :=
  b ← parse_boundary since_ts since_seq;
  match b with
  | SinceSeq s =>
      keyed ← with_seqs (filter (fun m => role_in USER_ROLES m = true) messages);
      coalesce_loop b [] [] (SeqCursor 0) (sorted_by Z.leb fst keyed).*2
  | SinceTs t =>
      coalesce_loop b [] [] (TsCursor (FNum 0)) (sorted_by fleb ts_of messages)
  end.

(** ** The sequence-native path *)

(** The rows the loop emits, as a function of the keyed rows in order. *)
Fixpoint admitted (s : Z) (seen : list pystr) (keyed : list (Z * row)) : list (Z * row) :=
  match keyed with
  | [] => []
  | (q, m) :: rest =>
      let mid := get_str repr m "id" in
      if q <=? s then admitted s seen rest else
      if negb (bool_decide (mid = [])) && bool_decide (mid ∈ seen)
      then admitted s seen rest else
      if bool_decide (content_of m = []) then admitted s seen rest else
      (q, m) :: admitted s (if bool_decide (mid = []) then seen else mid :: seen) rest
  end.

Definition emits (qm : Z * row) (it : row) : Prop :=
  item_of qm.2 (get_str repr qm.2 "id") (content_of qm.2) = Return it.

Definition valid_user (qm : Z * row) : Prop :=
  seq_of qm.2 = Return qm.1 /\ role_in USER_ROLES qm.2 = true.

Lemma seq_of_get q m : seq_of m = Return q -> get m "seq" <> PNone /\ 0 < q.
Proof using Type.
  unfold seq_of. destruct (int_identity (get m "seq")) as [v|] eqn:E; [|done].
  destruct (v <=? 0) eqn:E0; bools; [done|]. intros [= ->]. split; [|done].
  intros H. by rewrite H in E.
Qed.

Lemma item_of_total q m mid c :
  seq_of m = Return q -> exists it, item_of m mid c = Return it.
Proof using Type.
  intros H. unfold item_of. rewrite H. destruct (get m "seq"); by eexists.
Qed.

Lemma copy_lookup (m : row) keys k (it : row) :
  k ∉ keys ->
  foldl (fun it k => match m !! k with Some v => <[k := v]> it | None => it end) it keys !! k
  = it !! k.
Proof using Type.
  revert it. induction keys as [|k' keys IH]; intros it Hk; [done|].
  rewrite not_elem_of_cons in Hk. destruct Hk as [Hne Hk]. simpl.
  rewrite IH by done. destruct (m !! k'); [|done]. by rewrite lookup_insert_ne.
Qed.

Lemma item_base_lookup m mid c :
  item_base m mid c !! "id" = Some (PStr mid) /\
  item_base m mid c !! "content" = Some (PStr c).
Proof using Type.
  unfold item_base. set (copied := foldl _ _ COPIED_KEYS).
  assert (copied !! "id" = Some (PStr mid) /\ copied !! "content" = Some (PStr c)) as [Hid Hct].
  { unfold copied. rewrite !copy_lookup by decided.
    rewrite lookup_insert_eq. rewrite !lookup_insert_ne by done.
    by rewrite lookup_singleton_eq. }
  clearbody copied.
  destruct (_ && _); destruct (get m "include_reasoning") as [|[]| | | | |];
    rewrite ?lookup_insert_ne by done; done.
Qed.

Lemma item_of_lookup q m mid c it :
  seq_of m = Return q -> item_of m mid c = Return it ->
  it !! "seq" = Some (PInt q) /\ it !! "id" = Some (PStr mid) /\
  it !! "content" = Some (PStr c).
Proof using Type.
  intros Hq Hit. destruct (seq_of_get _ _ Hq) as [Hnone _].
  assert (it = <["seq" := PInt q]> (item_base m mid c)) as ->.
  { unfold item_of in Hit. rewrite Hq in Hit.
    destruct (get m "seq"); [done|by injection Hit as <- ..]. }
  rewrite lookup_insert_eq, !lookup_insert_ne by done.
  split; [done|apply item_base_lookup].
Qed.

Lemma loop_admitted s seen out z keyed :
  Forall valid_user keyed ->
  exists items, Forall2 emits (admitted s seen keyed) items /\
    coalesce_loop (SinceSeq s) seen out (SeqCursor z) keyed.*2
    = Return (out ++ items, SeqCursor (foldl Z.max z (admitted s seen keyed).*1)).
Proof using Type.
  intros Hv. revert seen out z. induction Hv as [|[q m] keyed [Hq Hr] Hv IH];
    intros seen out z; simpl in *.
  - exists []. rewrite app_nil_r. by split; [constructor|].
  - rewrite Hr, Hq. simpl.
    destruct (q <=? s); [apply IH|].
    destruct (negb _ && _); [apply IH|].
    destruct (bool_decide (content_of m = [])); [apply IH|].
    destruct (item_of_total q m (get_str repr m "id") (content_of m) Hq) as [it Hit].
    rewrite Hit. simpl.
    edestruct IH as (items & Hitems & Hloop). rewrite Hloop.
    exists (it :: items). rewrite <- app_assoc. split; [by constructor|done].
Qed.

Lemma with_seqs_valid rows keyed :
  with_seqs rows = Return keyed ->
  keyed.*2 = rows /\ Forall (fun qm => seq_of qm.2 = Return qm.1) keyed.
Proof using Type.
  revert keyed. induction rows as [|m rows IH]; simpl; intros keyed.
  - intros [= <-]. by split.
  - destruct (seq_of m) as [q|] eqn:Eq; simpl; [|done].
    destruct (with_seqs rows) as [tl|]; simpl; [|done]. intros [= <-].
    destruct (IH tl eq_refl) as [<- Hf]. split; [done|by constructor].
Qed.

Lemma with_seqs_total rows :
  Forall (fun m => exists q, seq_of m = Return q) rows ->
  exists keyed, with_seqs rows = Return keyed.
Proof using Type.
  induction 1 as [|m rows [q Hq] _ [keyed IH]]; simpl; [by eexists|].
  rewrite Hq. simpl. rewrite IH. simpl. by eexists.
Qed.

(** The user rows in sequence order, when every identity is valid. *)
Lemma pending_eq messages s :
  0 <= s ->
  coalesce_pending messages None (PInt s) =
    (keyed ← with_seqs (filter (fun m => role_in USER_ROLES m = true) messages);
     coalesce_loop (SinceSeq s) [] [] (SeqCursor 0) (sorted_by Z.leb fst keyed).*2).
Proof using Type.
  intros Hs. unfold coalesce_pending, parse_boundary. simpl.
  destruct (s <? 0) eqn:E; bools; [lia|done].
Qed.

Lemma keyed_valid messages keyed :
  with_seqs (filter (fun m => role_in USER_ROLES m = true) messages) = Return keyed ->
  Forall valid_user (sorted_by Z.leb fst keyed) /\
  (forall q m, (q, m) ∈ sorted_by Z.leb fst keyed <->
     m ∈ messages /\ role_in USER_ROLES m = true /\ seq_of m = Return q).
Proof using Type.
  intros H. apply with_seqs_valid in H as [Hrows Hf].
  pose proof (sorted_by_Permutation Z.leb fst keyed) as Hp.
  assert (forall q m, (q, m) ∈ keyed <->
     m ∈ messages /\ role_in USER_ROLES m = true /\ seq_of m = Return q) as Hin.
  { intros q m. rewrite Forall_forall in Hf. split.
    - intros Hqm. assert (m ∈ keyed.*2) as Hm by (apply list_elem_of_fmap; by exists (q, m)).
      rewrite Hrows in Hm. apply list_elem_of_filter in Hm as [? ?]. repeat split; try done.
      apply (Hf (q, m) Hqm).
    - intros (Hm & Hr & Hq). assert (m ∈ keyed.*2) as Hk.
      { rewrite Hrows. by apply list_elem_of_filter. }
      apply list_elem_of_fmap in Hk as ([q' m'] & Heq & Hk). simpl in Heq. subst m'.
      pose proof (Hf _ Hk) as Hq'. simpl in Hq'. rewrite Hq in Hq'. by injection Hq' as ->. }
  split.
  - rewrite Hp. apply Forall_forall. intros [q m] Hqm. apply Hin in Hqm as (_ & ? & ?).
    by split.
  - intros q m. by rewrite Hp.
Qed.

(** One step of [admitted]: a row is skipped for one of three reasons, or
    emitted. *)
Lemma admitted_cons s seen q m keyed :
  let mid := get_str repr m "id" in
  (admitted s seen ((q, m) :: keyed) = admitted s seen keyed /\
    (q <= s \/ (mid <> [] /\ mid ∈ seen) \/ content_of m = [])) \/
  (admitted s seen ((q, m) :: keyed) =
     (q, m) :: admitted s (if bool_decide (mid = []) then seen else mid :: seen) keyed /\
   s < q /\ ~ (mid <> [] /\ mid ∈ seen) /\ content_of m <> []).
Proof using Type.
  intros mid. cbn [admitted]. fold mid.
  destruct (q <=? s) eqn:E1; bools; [left; split; [done|by left]|].
  destruct (negb _ && _) eqn:E2; [bools; left; split; [done|right; by left]|].
  destruct (bool_decide (content_of m = [])) eqn:E3; bools;
    [left; split; [done|right; by right]|].
  right. split; [done|]. split; [done|]. split; [|done]. intros [Hm Hs].
  rewrite (bool_decide_false _ Hm), (bool_decide_true _ Hs) in E2. done.
Qed.

Lemma admitted_sub s seen keyed qm :
  qm ∈ admitted s seen keyed -> qm ∈ keyed /\ s < qm.1 /\ content_of qm.2 <> [].
Proof using Type.
  revert seen. induction keyed as [|[q m] keyed IH]; intros seen; [by intros ?%elem_of_nil|].
  destruct (admitted_cons s seen q m keyed) as [[-> _]|(-> & Hs & _ & Hc)]; intros Hin.
  - destruct (IH _ Hin). split; [by right|done].
  - apply elem_of_cons in Hin as [->|Hin]; [split; [left|done]|].
    destruct (IH _ Hin). split; [by right|done].
Qed.

Lemma admitted_sublist s seen keyed : admitted s seen keyed `sublist_of` keyed.
Proof using Type.
  revert seen. induction keyed as [|[q m] keyed IH]; intros seen; [done|].
  destruct (admitted_cons s seen q m keyed) as [[-> _]|(-> & _)].
  - by apply sublist_cons.
  - by apply sublist_skip.
Qed.

(** Nothing is lost: a fresh non-empty row is emitted, or its identifier
    already was. *)
Lemma admitted_complete s seen keyed q m :
  (q, m) ∈ keyed -> s < q -> content_of m <> [] ->
  let mid := get_str repr m "id" in
  (mid <> [] /\ mid ∈ seen) \/
  (exists qm, qm ∈ admitted s seen keyed /\ get_str repr qm.2 "id" = mid /\
     (mid = [] -> qm = (q, m))).
Proof using Type.
  intros Hin Hs Hc mid. revert seen. induction keyed as [|[q' m'] keyed IH];
    intros seen; [by apply elem_of_nil in Hin|].
  destruct (admitted_cons s seen q' m' keyed) as [[-> Hskip]|(-> & _)];
    apply elem_of_cons in Hin as [[= <- <-]|Hin].
  - fold mid in Hskip. destruct Hskip as [?|[?|?]]; [lia|by left|done].
  - by apply IH.
  - right. exists (q, m). split; [left|done].
  - destruct (IH Hin (if bool_decide (get_str repr m' "id" = []) then seen
                      else get_str repr m' "id" :: seen)) as [[Hm Hseen]|(qm & ? & ? & ?)].
    + case_bool_decide; [by left|]. apply elem_of_cons in Hseen as [Hseen|]; [|by left].
      right. exists (q', m'). split; [left|]. by split.
    + right. exists qm. split; [by right|done].
Qed.

Lemma admitted_ids_nodup s seen keyed :
  NoDup (filter (fun i => i <> []) ((fun qm => get_str repr qm.2 "id") <$> admitted s seen keyed)) /\
  (forall qm, qm ∈ admitted s seen keyed -> get_str repr qm.2 "id" <> [] ->
     get_str repr qm.2 "id" ∉ seen).
Proof using Type.
  revert seen. induction keyed as [|[q m] keyed IH]; intros seen.
  { simpl. split; [constructor|]. intros qm Hq. by apply elem_of_nil in Hq. }
  destruct (admitted_cons s seen q m keyed) as [[-> _]|(-> & _ & Hns & _)]; [apply IH|].
  destruct (IH (if bool_decide (get_str repr m "id" = []) then seen
                else get_str repr m "id" :: seen)) as [Hnd Hseen].
  rewrite fmap_cons. simpl. split.
  - destruct (decide (get_str repr m "id" = [])) as [E|E].
    + rewrite filter_cons_False by (intros H; by apply H). done.
    + rewrite filter_cons_True by done. constructor; [|done].
      rewrite list_elem_of_filter, list_elem_of_fmap. intros (_ & qm & Heq & Hqm).
      apply (Hseen qm Hqm); rewrite <- Heq; [done|].
      rewrite bool_decide_false by done. left.
  - intros qm Hqm Hne. apply elem_of_cons in Hqm as [->|Hqm]; [by intros ?; apply Hns|].
    specialize (Hseen qm Hqm Hne). case_bool_decide; [done|]. set_solver.
Qed.

Lemma sorted_by_seq (keyed : list (Z * row)) :
  StronglySorted (fun a b => (a.1 <=? b.1) = true) (sorted_by Z.leb fst keyed).
Proof using Type.
  apply sorted_by_sorted; intros *; rewrite !Z.leb_le; lia.
Qed.

(** What a successful sequence-native coalesce computes: the emitted rows of
    the keyed user rows in order, and the greatest emitted sequence. *)
Lemma coalesce_seq_inv messages s out c :
  0 <= s ->
  coalesce_pending messages None (PInt s) = Return (out, c) ->
  exists keyed,
    with_seqs (filter (fun m => role_in USER_ROLES m = true) messages) = Return keyed /\
    Forall2 emits (admitted s [] (sorted_by Z.leb fst keyed)) out /\
    c = SeqCursor (foldl Z.max 0 (admitted s [] (sorted_by Z.leb fst keyed)).*1).
Proof using Type.
  intros Hs. rewrite pending_eq by done.
  destruct (with_seqs _) as [keyed|] eqn:Ek; simpl; [|done]. intros Hloop.
  destruct (keyed_valid _ _ Ek) as [Hv _].
  destruct (loop_admitted s [] [] 0 _ Hv) as (items & Hitems & Heq).
  rewrite Heq in Hloop. simpl in Hloop. injection Hloop as <- <-. by exists keyed.
Qed.

(** ** Properties *)

(** C35: one turn holds every unseen user message. Whenever the coalesce
    returns, its items are in sequence order, strictly after the boundary, at
    or before the cursor and non-empty; no non-empty message id occurs twice;
    and each user row past the boundary with non-empty content is there, by
    its id or, when it has none, as itself. *)
Theorem coalesce_complete messages s out c :
  0 <= s ->
  coalesce_pending messages None (PInt s) = Return (out, SeqCursor c) ->
  (exists qs, Forall2 (fun q it => it !! "seq" = Some (PInt q)) qs out /\
     StronglySorted Z.le qs /\ Forall (fun q => s < q <= c) qs) /\
  Forall (fun it => exists t, it !! "content" = Some (PStr t) /\ t <> []) out /\
  (exists ids, Forall2 (fun i it => it !! "id" = Some (PStr i)) ids out /\
     NoDup (filter (fun i => i <> []) ids)) /\
  (forall m q, m ∈ messages -> role_in USER_ROLES m = true -> seq_of m = Return q ->
     s < q -> content_of m <> [] ->
     exists it, it ∈ out /\ it !! "id" = Some (PStr (get_str repr m "id")) /\
       (get_str repr m "id" = [] -> it !! "seq" = Some (PInt q))).
Proof using Type.
  intros Hs Hc. destruct (coalesce_seq_inv _ _ _ _ Hs Hc) as (keyed & Hk & Hem & [= ->]).
  destruct (keyed_valid _ _ Hk) as [Hv Hin].
  set (adm := admitted s [] (sorted_by Z.leb fst keyed)) in *.
  assert (Forall2 (fun qm it => emits qm it /\ valid_user qm /\ s < qm.1 /\
            content_of qm.2 <> []) adm out) as Hem'.
  { apply Forall2_and_l; [exact Hem|]. intros qm Hqm.
    apply admitted_sub in Hqm as (Hqm & ? & ?). rewrite Forall_forall in Hv.
    split; [by apply Hv|done]. }
  split; [|split; [|split]].
  - exists adm.*1. split; [|split].
    + apply Forall2_fmap_l. eapply Forall2_impl; [exact Hem'|].
      intros [q m] it (He & [Hq _] & _). by destruct (item_of_lookup _ _ _ _ _ Hq He).
    + eapply StronglySorted_fmap; [|eapply StronglySorted_sublist;
        [apply admitted_sublist|by apply sorted_by_seq]].
      intros x y Hle. by apply Z.leb_le.
    + apply Forall_forall. intros q Hq. split; [|by apply foldl_max_ge].
      apply list_elem_of_fmap in Hq as (qm & -> & Hqm). by apply admitted_sub in Hqm as (_ & ? & _).
  - apply Forall_forall. intros it Hit.
    apply list_elem_of_lookup in Hit as [i Hi].
    destruct (Forall2_lookup_r _ _ _ _ _ Hem' Hi) as ([q m] & _ & He & [Hq _] & _ & Hct).
    destruct (item_of_lookup _ _ _ _ _ Hq He) as (_ & _ & ?). eauto.
  - exists ((fun qm => get_str repr qm.2 "id") <$> adm). split; [|apply admitted_ids_nodup].
    apply Forall2_fmap_l. eapply Forall2_impl; [exact Hem'|].
    intros [q m] it (He & [Hq _] & _). by destruct (item_of_lookup _ _ _ _ _ Hq He) as (_ & ? & _).
  - intros m q Hm Hr Hq Hlt Hct.
    assert ((q, m) ∈ sorted_by Z.leb fst keyed) as Hqm by (by apply Hin).
    destruct (admitted_complete s [] _ q m Hqm Hlt Hct) as [[_ ?%elem_of_nil]|(qm & Ha & Hid & Hsame)];
      [done|].
    fold adm in Ha. apply list_elem_of_lookup in Ha as [i Hi].
    destruct (Forall2_lookup_l _ _ _ _ _ Hem' Hi) as (it & Hit & He & [Hq' _] & _).
    destruct (item_of_lookup _ _ _ _ _ Hq' He) as (Hsq & Hi' & _).
    exists it. split; [by eapply list_elem_of_lookup_2|]. rewrite Hi', Hid. split; [done|].
    intros Hnil. rewrite Hsq. by rewrite (Hsame Hnil).
Qed.

(** The sequence path fails closed. With a valid boundary the coalesce
    raises exactly when some user row has no valid positive identity, and it
    then raises the identity error; otherwise it returns. *)
Theorem coalesce_fail_closed messages s :
  0 <= s ->
  (returns (coalesce_pending messages None (PInt s)) <->
     forall m, m ∈ messages -> role_in USER_ROLES m = true -> returns (seq_of m)) /\
  (forall e, coalesce_pending messages None (PInt s) = Raise e -> e = SEQ_ERROR).
Proof using Type.
  intros Hs. rewrite pending_eq by done.
  set (users := filter (fun m => role_in USER_ROLES m = true) messages).
  assert (forall keyed, with_seqs users = Return keyed ->
    returns (coalesce_loop (SinceSeq s) [] [] (SeqCursor 0) (sorted_by Z.leb fst keyed).*2)) as Hret.
  { intros keyed Hk. destruct (keyed_valid _ _ Hk) as [Hv _].
    destruct (loop_admitted s [] [] 0 _ Hv) as (items & _ & ->). by eexists. }
  split; [split|].
  - destruct (with_seqs users) as [keyed|] eqn:Ek; [|by intros [? ?]]. intros _ m Hm Hr.
    destruct (keyed_valid _ _ Ek) as [_ Hin]. apply with_seqs_valid in Ek as [Hrows Hf].
    assert (m ∈ keyed.*2) as Hmk by (rewrite Hrows; by apply list_elem_of_filter).
    apply list_elem_of_fmap in Hmk as (qm & -> & Hqm). rewrite Forall_forall in Hf.
    eexists. by apply Hf.
  - intros Hall. destruct (with_seqs_total users) as [keyed Hk].
    { apply Forall_forall. intros m Hm. apply list_elem_of_filter in Hm as [? ?].
      by apply Hall. }
    rewrite Hk. by apply Hret.
  - intros e. destruct (with_seqs users) as [keyed|e'] eqn:Ek; simpl.
    + intros He. destruct (Hret keyed eq_refl) as [r Hr]. by rewrite Hr in He.
    + intros [= <-]. clear Hret. clearbody users. revert e' Ek. induction users as [|m users IH]; simpl; intros e'; [done|].
      unfold seq_of at 1. destruct (int_identity _); [destruct (_ <=? 0)|]; simpl; try (by intros [= <-]).
      destruct (with_seqs users); simpl; [done|]. intros [= <-]. by apply IH.
Qed.

(** The cursor makes consumption exactly-once. When no two user rows share
    a non-empty id, coalescing the same rows again from the returned cursor
    (never below the old boundary) emits nothing. *)
Theorem coalesce_cursor_exact messages s out c :
  0 <= s ->
  (forall m m', m ∈ messages -> m' ∈ messages ->
     role_in USER_ROLES m = true -> role_in USER_ROLES m' = true ->
     get_str repr m "id" <> [] -> get_str repr m "id" = get_str repr m' "id" -> m = m') ->
  coalesce_pending messages None (PInt s) = Return (out, SeqCursor c) ->
  coalesce_pending messages None (PInt (Z.max s c)) = Return ([], SeqCursor 0).
Proof using Type.
  intros Hs Huniq Hc. destruct (coalesce_seq_inv _ _ _ _ Hs Hc) as (keyed & Hk & _ & [= ->]).
  destruct (keyed_valid _ _ Hk) as [Hv Hin].
  set (adm := admitted s [] (sorted_by Z.leb fst keyed)) in *.
  rewrite pending_eq by lia. rewrite Hk. simpl.
  destruct (loop_admitted (Z.max s (foldl Z.max 0 adm.*1)) [] [] 0 _ Hv) as (items & Hit & ->).
  destruct (admitted (Z.max _ _) _ _) as [|[q m] rest] eqn:Ea.
  { by apply Forall2_nil_inv_l in Hit as ->. }
  exfalso.
  assert ((q, m) ∈ admitted (Z.max s (foldl Z.max 0 adm.*1)) [] (sorted_by Z.leb fst keyed))
    as Hqm by (rewrite Ea; left).
  apply admitted_sub in Hqm as (Hqm & Hlt & Hct). simpl in *.
  destruct (admitted_complete s [] _ q m Hqm ltac:(lia) Hct)
    as [[_ ?%elem_of_nil]|([q' m'] & Ha & Hid & Hsame)]; [done|]. fold adm in Ha.
  assert (q' = q) as ->.
  { destruct (decide (get_str repr m "id" = [])) as [E|E]; [by injection (Hsame E)|].
    apply admitted_sub in Ha as (Ha & _ & _).
    apply Hin in Hqm as (Hm & Hr & Hq). apply Hin in Ha as (Hm' & Hr' & Hq').
    simpl in Hid. rewrite (Huniq m m') in Hq by done. rewrite Hq in Hq'. by injection Hq'. }
  assert (q ∈ adm.*1) as Hq by (apply list_elem_of_fmap; by exists (q, m')).
  apply (proj1 (foldl_max_ge adm.*1 0 q)) in Hq. lia.
Qed.
End Coalesce.

(** ** Witnesses *)

Definition ex_row (role id text : string) (q : Z) : row :=
  <["role" := PStr (u role)]> (<["id" := PStr (u id)]>
    (<["content" := PStr (u text)]> {["seq" := PInt q]})).

(** Two user messages around an assistant one, out of order. *)
Definition ex_rows : list row :=
  [ex_row "user" "m3" "later" 7; ex_row "assistant" "m2" "hi" 5; ex_row "human" "m1" "hello" 3].

Definition ex_coalesce : list row -> option pyfloat -> pyval -> outcome (list row * cursor) :=
  coalesce_pending (fun _ => []) (fun _ => None) (fun m => get m "content").

Definition cursor_of (o : outcome (list row * cursor)) : option Z :=
  match o with Return (_, SeqCursor c) => Some c | _ => None end.

Lemma ex_cursor : cursor_of (ex_coalesce ex_rows None (PInt 2)) = Some 7.
Proof. vm_compute. reflexivity. Qed.

Lemma coalesce_complete_witness :
  exists out c, ex_coalesce ex_rows None (PInt 2) = Return (out, SeqCursor c) /\
    exists it, it ∈ out /\ it !! "id" = Some (PStr (u "m3")).
Proof.
  pose proof ex_cursor as Hcur.
  destruct (ex_coalesce ex_rows None (PInt 2)) as [[out [c|t]]|e] eqn:E; [|discriminate..].
  exists out, c. split; [reflexivity|].
  destruct (coalesce_complete (fun _ => []) (fun _ => None) (fun m => get m "content")
              ex_rows 2 out c) as (_ & _ & _ & Hall); [lia | exact E |].
  assert (get_str (fun _ => []) (ex_row "user" "m3" "later" 7) "id" = u "m3") as Hm
    by (vm_compute; reflexivity).
  destruct (Hall (ex_row "user" "m3" "later" 7) 7) as (it & Hit & Hid & _).
  - unfold ex_rows. left.
  - vm_compute. reflexivity.
  - vm_compute. reflexivity.
  - lia.
  - vm_compute. congruence.
  - exists it. rewrite <- Hm. split; assumption.
Defined.

Lemma coalesce_fail_closed_witness :
  ~ returns (ex_coalesce [ex_row "user" "m1" "hello" 0] None (PInt 0)).
Proof.
  intros H.
  destruct (coalesce_fail_closed (fun _ => []) (fun _ => None) (fun m => get m "content")
              [ex_row "user" "m1" "hello" 0] 0) as [[Hret _] _]; [lia|].
  destruct (Hret H (ex_row "user" "m1" "hello" 0)) as [q Hq];
    [left | vm_compute; reflexivity |].
  vm_compute in Hq. discriminate.
Defined.

Lemma coalesce_cursor_exact_witness :
  ex_coalesce ex_rows None (PInt 7) = Return ([], SeqCursor 0).
Proof.
  pose proof ex_cursor as Hcur.
  destruct (ex_coalesce ex_rows None (PInt 2)) as [[out [c|t]]|e] eqn:E; [|discriminate..].
  pose proof (coalesce_cursor_exact (fun _ => []) (fun _ => None) (fun m => get m "content")
                ex_rows 2 out c) as H.
  injection Hcur as ->.
  apply H; [lia | | exact E]. clear.
  intros m m' Hm Hm' _ _ _ Heq. unfold ex_rows in Hm, Hm'.
  repeat (apply elem_of_cons in Hm as [->|Hm]); try (by apply elem_of_nil in Hm);
  repeat (apply elem_of_cons in Hm' as [->|Hm']); try (by apply elem_of_nil in Hm');
  solve [reflexivity | vm_compute in Heq; discriminate].
Defined.

End Coalesce.
