(* ===== verification/EnclaveBroker.v ===== *)
(** * Enclave admission broker
    ([backend/model_api_runtime/v2/enclave_broker.py])

    One permit set shared by the slot children of an instance: three pools with
    reservations, borrowing, FIFO order within a pool, and ownership of every
    grant by [(request_id, slot_generation)]. Operations run under the broker's
    lock, so a history is a sequence of whole operations; the callbacks an
    operation makes after unlocking are its output list. *)

From S2P Require Import Prelude PyValue.
Local Open Scope Z_scope.

Module Broker.

Inductive pool : Type := foreground | wake | heavy.

#[global] Instance pool_eq_dec : EqDecision pool.
Proof. solve_decision. Defined.

(** [_POOLS], and [_BORROW_PRIORITY]: the position in it. *)
Definition POOLS : list pool := [foreground; wake; heavy].
Definition BORROW_PRIORITY (p : pool) : Z :=
  match p with foreground => 0 | wake => 1 | heavy => 2 end.

Definition pool_name (p : pool) : pystr :=
  match p with foreground => u "foreground" | wake => u "wake" | heavy => u "heavy" end.
Definition pool_of_name (s : pystr) : option pool :=
  List.find (fun p => bool_decide (pool_name p = s)) POOLS.

Record EnclaveRequest : Type := mkRequest {
  request_id : pystr;
  req_pool : pool;
  slot_id : pystr;
  slot_generation : pystr;
}.

#[global] Instance request_eq_dec : EqDecision EnclaveRequest.
Proof. solve_decision. Defined.

(** The constructor with [__post_init__]. *)
Definition make_request (rid : pystr) (p : pyval) (sid gen : pystr) : outcome EnclaveRequest :=
  if bool_decide (rid = []) || bool_decide (sid = []) || bool_decide (gen = [])
  then Raise (ValueError "enclave request identity must be non-empty")
  else match p with
       | PStr s => match pool_of_name s with
                   | Some q => Return (mkRequest rid q sid gen)
                   | None => Raise (ValueError "invalid enclave request pool")
                   end
       | _ => Raise (ValueError "invalid enclave request pool")
       end.

(** ** Messages between a child and the broker *)

Definition acquire_message (r : EnclaveRequest) : row :=
  list_to_map [("v", PInt 1); ("t", PStr (u "enclave_acquire"));
               ("request_id", PStr (request_id r)); ("pool", PStr (pool_name (req_pool r)));
               ("slot_id", PStr (slot_id r)); ("slot_generation", PStr (slot_generation r))].

Definition release_message (rid gen : pystr) (cancel : bool) : row :=
  list_to_map [("v", PInt 1);
               ("t", PStr (if cancel then u "enclave_cancel" else u "enclave_release"));
               ("request_id", PStr rid); ("slot_generation", PStr gen)].

Definition grant_message (rid gen : pystr) : row :=
  list_to_map [("v", PInt 1); ("t", PStr (u "enclave_granted"));
               ("request_id", PStr rid); ("slot_generation", PStr gen)].

Inductive child_message : Type :=
| MsgAcquire (r : EnclaveRequest)
| MsgRelease (rid gen : pystr)
| MsgCancel (rid gen : pystr).

(** [v == 1]: also true of [True] and [1.0]. *)
Definition is_one (v : pyval) : bool :=
  match v with
  | PInt z => z =? 1
  | PBool b => b
  | PFloat (FNum t) => t =? fone
  | _ => false
  end.

(** Lists and dictionaries cannot be looked up in a set. *)
Definition unhashable (v : pyval) : bool :=
  match v with PList _ | PDict _ => true | _ => false end.

Definition keys_are (payload : row) (ks : list string) : bool :=
  bool_decide (dom payload = list_to_set (C := gset string) ks).

Section Decode.
Context (repr : pyval -> pystr).

Definition decode_child_message (payload : pyval + row) : outcome (option child_message) :=
  match payload with
  | inl _ => Return None
  | inr payload =>
      if negb (is_one (get payload "v")) then Return None else
      let kind := get payload "t" in
      let field k := py_str repr (get payload k) in
      if is_text kind "enclave_acquire" &&
         keys_are payload ["v"; "t"; "request_id"; "pool"; "slot_id"; "slot_generation"]
      then r ← make_request (field "request_id") (get payload "pool") (field "slot_id")
                            (field "slot_generation");
           Return (Some (MsgAcquire r))
      else if unhashable kind then Raise (TypeError "unhashable type")
      else if (is_text kind "enclave_release" || is_text kind "enclave_cancel") &&
              keys_are payload ["v"; "t"; "request_id"; "slot_generation"]
      then Return (Some (if is_text kind "enclave_cancel"
                         then MsgCancel (field "request_id") (field "slot_generation")
                         else MsgRelease (field "request_id") (field "slot_generation")))
      else Return None
  end.

Definition decode_grant_message (payload : pyval + row) : option (pystr * pystr) :=
  match payload with
  | inl _ => None
  | inr payload =>
      if negb (keys_are payload ["v"; "t"; "request_id"; "slot_generation"]) then None else
      if negb (is_one (get payload "v")) || negb (is_text (get payload "t") "enclave_granted")
      then None
      else Some (py_str repr (get payload "request_id"), py_str repr (get payload "slot_generation"))
  end.
End Decode.

(** ** Broker state *)

Record broker : Type := mkBroker {
  limit : Z;
  reservations : pool -> Z;
  granted : gmap pystr EnclaveRequest;
  waiters : list (Z * EnclaveRequest);
  sequence : Z;
  wait_started : gmap pystr Z;
  wait_samples_ms : pool -> list Z;
  clock_reads : nat;
}.

(** [deque(maxlen=256).append] *)
Definition deque_append (l : list Z) (x : Z) : list Z :=
  let l' := l ++ [x] in drop (length l' - 256) l'.

Definition new_broker (lim : Z) (res : pool -> option Z) : outcome broker :=
  let res p := default 0 (res p) in
  _ ← raise_if (lim <=? 0) (ValueError "enclave broker limit must be positive");
  _ ← raise_if (existsb (fun p => res p <? 0) POOLS)
        (ValueError "enclave reservations must be non-negative");
  _ ← raise_if (lim <? sumZ (res <$> POOLS)) (ValueError "enclave reservations exceed limit");
  Return (mkBroker lim res ∅ [] 0 ∅ (fun _ => []) 0).

(** [Counter(request.pool for request in self._granted.values())[p]] *)
Definition granted_count (st : broker) (p : pool) : Z :=
  Z.of_nat (size (filter (fun kv => req_pool kv.2 = p) (granted st))).

Definition waiting (st : broker) (p : pool) : bool :=
  existsb (fun w => bool_decide (req_pool w.2 = p)) (waiters st).

Definition reserved_deficit (st : broker) (p : pool) : bool :=
  waiting st p && (granted_count st p <? reservations st p).

(** [reserved_deficits or waiting_pools] *)
Definition eligible (st : broker) (p : pool) : bool :=
  if existsb (reserved_deficit st) POOLS then reserved_deficit st p else waiting st p.

(** [min(positions, key=(priority, sequence))]: the first least position. *)
Definition key_lt (a b : Z * Z) : bool :=
  (a.1 <? b.1) || ((a.1 =? b.1) && (a.2 <? b.2)).

Definition waiter_key (w : Z * EnclaveRequest) : Z * Z :=
  (BORROW_PRIORITY (req_pool w.2), w.1).

Fixpoint min_index (elig : pool -> bool) (i : nat) (best : option (nat * (Z * EnclaveRequest)))
    (ws : list (Z * EnclaveRequest)) : option (nat * (Z * EnclaveRequest)) :=
  match ws with
  | [] => best
  | w :: ws =>
      let best' :=
        if elig (req_pool w.2) then
          match best with
          | Some (_, b) => if key_lt (waiter_key w) (waiter_key b) then Some (i, w) else best
          | None => Some (i, w)
          end
        else best in
      min_index elig (S i) best' ws
  end.

Section Broker.
(** The [n]-th reading of the broker's clock. *)
Context (clock : nat -> Z).

(** One iteration of [_drain_locked]'s loop, [None] when its guard fails. *)
Definition drain_step (st : broker) : option (EnclaveRequest * broker) :=
  if (Z.of_nat (size (granted st)) <? limit st) && negb (bool_decide (waiters st = [])) then
    '(i, (_, r)) ← min_index (eligible st) 0 None (waiters st);
    let now0 := clock (clock_reads st) in
    let started := default now0 (wait_started st !! request_id r) in
    let now1 := clock (S (clock_reads st)) in
    let sample := Z.max 0 ((now1 - started) * 1000) in
    Some (r, {| limit := limit st; reservations := reservations st;
                granted := <[request_id r := r]> (granted st);
                waiters := delete i (waiters st);
                sequence := sequence st;
                wait_started := delete (request_id r) (wait_started st);
                wait_samples_ms := fun p =>
                  if decide (p = req_pool r)
                  then deque_append (wait_samples_ms st p) sample
                  else wait_samples_ms st p;
                clock_reads := S (S (clock_reads st)) |})
  else None.

Fixpoint drain_fuel (n : nat) (st : broker) : broker * list EnclaveRequest :=
  match n with
  | O => (st, [])
  | S n => match drain_step st with
           | None => (st, [])
           | Some (r, st') => let '(st'', rs) := drain_fuel n st' in (st'', r :: rs)
           end
  end.

(** The loop pops one waiter per iteration. *)
Definition drain_locked (st : broker) : broker * list EnclaveRequest :=
  drain_fuel (length (waiters st)) st.

(** The waiter [request] appends before draining. *)
Definition enqueue (r : EnclaveRequest) (st : broker) : broker :=
  {| limit := limit st; reservations := reservations st;
     granted := granted st;
     waiters := waiters st ++ [(sequence st + 1, r)];
     sequence := sequence st + 1;
     wait_started := <[request_id r := clock (clock_reads st)]> (wait_started st);
     wait_samples_ms := wait_samples_ms st;
     clock_reads := S (clock_reads st) |}.

(** [request]: the new state, the callbacks made, and the returned flag. *)
Definition request (r : EnclaveRequest) (st : broker) : broker * list EnclaveRequest * bool :=
  match granted st !! request_id r with
  | Some existing => (st, [], bool_decide (existing = r))
  | None =>
      if existsb (fun w => bool_decide (request_id w.2 = request_id r)) (waiters st)
      then (st, [], false)
      else
        let '(st2, callbacks) := drain_locked (enqueue r st) in
        (st2, callbacks, existsb (fun c => bool_decide (request_id c = request_id r)) callbacks)
  end.

Definition set_granted (st : broker) (g : gmap pystr EnclaveRequest) : broker :=
  {| limit := limit st; reservations := reservations st; granted := g;
     waiters := waiters st; sequence := sequence st; wait_started := wait_started st;
     wait_samples_ms := wait_samples_ms st; clock_reads := clock_reads st |}.

Definition set_waiting (st : broker) (ws : list (Z * EnclaveRequest)) (started : gmap pystr Z)
    : broker :=
  {| limit := limit st; reservations := reservations st; granted := granted st;
     waiters := ws; sequence := sequence st; wait_started := started;
     wait_samples_ms := wait_samples_ms st; clock_reads := clock_reads st |}.

(** Whether the grant of [rid] belongs to generation [gen]. *)
Definition owns (st : broker) (rid gen : pystr) : bool :=
  match granted st !! rid with
  | Some r => bool_decide (slot_generation r = gen)
  | None => false
  end.

Definition release (rid gen : pystr) (st : broker) : broker * list EnclaveRequest :=
  if owns st rid gen then drain_locked (set_granted st (delete rid (granted st)))
  else (st, []).

Definition is_request (rid gen : pystr) (w : Z * EnclaveRequest) : bool :=
  bool_decide (request_id w.2 = rid) && bool_decide (slot_generation w.2 = gen).

(** What [cancel] takes away: the waiter, and the grant when it is owned. *)
Definition withdraw (rid gen : pystr) (st : broker) : broker :=
  let st1 := set_waiting st (filter (fun w => is_request rid gen w = false) (waiters st))
               (if existsb (is_request rid gen) (waiters st)
                then delete rid (wait_started st) else wait_started st) in
  if owns st rid gen then set_granted st1 (delete rid (granted st)) else st1.

Definition cancel (rid gen : pystr) (st : broker) : broker * list EnclaveRequest * bool :=
  let removed := existsb (is_request rid gen) (waiters st) || owns st rid gen in
  if removed then let '(st3, cbs) := drain_locked (withdraw rid gen st) in (st3, cbs, true)
  else (withdraw rid gen st, [], false).

(** What [drop_generation] keeps. *)
Definition purge (gen : pystr) (st : broker) : broker :=
  let ws := filter (fun w => slot_generation w.2 <> gen) (waiters st) in
  let ids := (fun w => request_id w.2) <$> ws in
  set_waiting (set_granted st (filter (fun kv => slot_generation kv.2 <> gen) (granted st)))
    ws (filter (fun kv => kv.1 ∈ ids) (wait_started st)).

Definition drop_generation (gen : pystr) (st : broker) : broker * list EnclaveRequest :=
  drain_locked (purge gen st).
End Broker.

(** [snapshot]'s counts. *)
Definition snapshot_granted (st : broker) : list Z := granted_count st <$> POOLS.
Definition snapshot_waiting (st : broker) : list Z :=
  (fun p => Zlen (filter (fun w => req_pool w.2 = p) (waiters st))) <$> POOLS.

(** ** The pick of [_drain_locked] *)

Lemma min_index_spec elig ws i0 best :
  match min_index elig i0 best ws with
  | None => best = None /\ Forall (fun w => elig (req_pool w.2) = false) ws
  | Some (i, w) =>
      (best = Some (i, w) \/ (i0 <= i)%nat /\ ws !! (i - i0)%nat = Some w /\ elig (req_pool w.2) = true) /\
      (forall w', w' ∈ ws -> elig (req_pool w'.2) = true ->
         key_lt (waiter_key w') (waiter_key w) = false) /\
      (forall j b, best = Some (j, b) -> key_lt (waiter_key b) (waiter_key w) = false)
  end.
Proof.
  revert i0 best. induction ws as [|w ws IH]; intros i0 best; cbn [min_index].
  - destruct best as [[i w]|]; [|by split].
    split; [by left|]. split; [by intros ? ?%elem_of_nil|].
    intros j b [= -> ->]. unfold key_lt. lia.
  - set (best' := if elig (req_pool w.2) then _ else _).
    specialize (IH (S i0) best'). destruct (min_index elig (S i0) best' ws) as [[i v]|].
    + destruct IH as (Hin & Hmin & Hb). split; [|split].
      * destruct Hin as [Hbest|(Hle & Hlk & He)].
        2:{ right. split; [lia|]. replace (i - i0)%nat with (S (i - S i0)) by lia. done. }
        unfold best' in Hbest. destruct (elig (req_pool w.2)) eqn:Ew; [|by left].
        destruct best as [[j b]|].
        { destruct (key_lt (waiter_key w) (waiter_key b)); [|by left].
          injection Hbest as <- <-. right. split; [lia|]. by rewrite Nat.sub_diag. }
        injection Hbest as <- <-. right. split; [lia|]. by rewrite Nat.sub_diag.
      * intros w' Hw' He'. apply elem_of_cons in Hw' as [->|Hw']; [|by apply Hmin].
        unfold best' in Hb. rewrite He' in Hb. destruct best as [[j b]|]; [|by eapply Hb].
        destruct (key_lt (waiter_key w) (waiter_key b)) eqn:Elt; [by eapply Hb|].
        specialize (Hb j b eq_refl). unfold key_lt in *. lia.
      * intros j b ->. unfold best' in Hb.
        destruct (elig (req_pool w.2)); [|by eapply Hb].
        destruct (key_lt (waiter_key w) (waiter_key b)) eqn:Elt; [|by eapply Hb].
        specialize (Hb _ _ eq_refl). unfold key_lt in *. lia.
    + destruct IH as [Hbest Hall]. unfold best' in Hbest.
      destruct (elig (req_pool w.2)) eqn:Ew; [|by split; [|constructor]].
      destruct best as [[j b]|]; [|done].
      destruct (key_lt (waiter_key w) (waiter_key b)); done.
Qed.

Lemma waiting_true st p : waiting st p = true <-> exists w, w ∈ waiters st /\ req_pool w.2 = p.
Proof.
  unfold waiting. rewrite existsb_exists. split.
  - intros (w & Hw & Hp). bools. exists w. by rewrite list_elem_of_In.
  - intros (w & Hw & Hp). exists w. rewrite <- list_elem_of_In, bool_decide_eq_true. done.
Qed.

Lemma pool_in_POOLS p : In p POOLS.
Proof. destruct p; simpl; tauto. Qed.

Lemma eligible_waiting st p : eligible st p = true -> waiting st p = true.
Proof. unfold eligible, reserved_deficit. destruct (existsb _ _); intros H; by bools. Qed.

Lemma eligible_some st : waiters st <> [] -> exists w, w ∈ waiters st /\ eligible st (req_pool w.2) = true.
Proof.
  intros Hne. unfold eligible. destruct (existsb (reserved_deficit st) POOLS) eqn:E.
  - apply existsb_exists in E as (p & _ & Hp). pose proof Hp as Hw.
    unfold reserved_deficit in Hw. bools. apply waiting_true in H as (w & Hw & <-). by exists w.
  - destruct (waiters st) as [|w ws] eqn:Ews; [done|]. exists w. split; [left|].
    apply waiting_true. rewrite Ews. exists w. by split; [left|].
Qed.

(** ** Invariant *)

Record inv (st : broker) : Prop := {
  inv_limit : 0 < limit st;
  inv_size : Z.of_nat (size (granted st)) <= limit st;
  inv_keyed : map_Forall (fun k r => request_id r = k) (granted st);
  inv_fresh : Forall (fun w => granted st !! request_id w.2 = None) (waiters st);
  inv_ids : NoDup ((fun w => request_id w.2) <$> waiters st);
  inv_order : StronglySorted (fun a b => a.1 < b.1) (waiters st);
  inv_seq : Forall (fun w => w.1 <= sequence st) (waiters st);
  inv_started : forall k, is_Some (wait_started st !! k) <->
                  k ∈ (fun w => request_id w.2) <$> waiters st;
}.

(** No permit is idle while somebody waits. *)
Definition saturated (st : broker) : Prop :=
  waiters st = [] \/ Z.of_nat (size (granted st)) = limit st.

Section Proofs.
Context (clock : nat -> Z).

Lemma drain_step_some st r st' :
  drain_step clock st = Some (r, st') ->
  exists i w, waiters st !! i = Some w /\ w.2 = r /\ eligible st (req_pool r) = true /\
    (forall w', w' ∈ waiters st -> eligible st (req_pool w'.2) = true ->
       key_lt (waiter_key w') (waiter_key w) = false) /\
    Z.of_nat (size (granted st)) < limit st /\
    granted st' = <[request_id r := r]> (granted st) /\ waiters st' = delete i (waiters st) /\
    limit st' = limit st /\ sequence st' = sequence st /\
    reservations st' = reservations st /\
    wait_started st' = delete (request_id r) (wait_started st).
Proof using Type.
  unfold drain_step. destruct (_ && _) eqn:Eg; [|done]. bools.
  pose proof (min_index_spec (eligible st) (waiters st) 0 None) as Hm.
  destruct (min_index _ _ _ _) as [[i w]|]; simpl; [|done].
  destruct Hm as ([?|(_ & Hlk & He)] & Hmin & _); [done|]. rewrite Nat.sub_0_r in Hlk.
  destruct w as [q rr]. intros [= <- <-]. exists i, (q, rr). repeat split; done.
Qed.

Lemma drain_step_none st :
  Z.of_nat (size (granted st)) <= limit st -> drain_step clock st = None -> saturated st.
Proof using Type.
  intros Hle. unfold drain_step, saturated.
  destruct (Z.of_nat (size (granted st)) <? limit st) eqn:El; bools; [|right; lia].
  case_bool_decide as Ew; [by left|]. simpl.
  pose proof (min_index_spec (eligible st) (waiters st) 0 None) as Hm.
  destruct (min_index _ _ _ _) as [[i [q r]]|]; simpl; [done|].
  destruct Hm as [_ Hall]. destruct (eligible_some st Ew) as (w & Hw & He).
  rewrite Forall_forall in Hall. specialize (Hall w Hw). congruence.
Qed.

Lemma drain_step_inv st r st' : inv st -> drain_step clock st = Some (r, st') -> inv st'.
Proof using Type.
  intros Hi Hd.
  destruct (drain_step_some _ _ _ Hd) as (i & w & Hlk & Hr & _ & _ & Hsz & Hg & Hw & Hl & Hs & _ & Hst).
  assert (delete i (waiters st) `sublist_of` waiters st) as Hsub by apply sublist_delete.
  assert (waiters st ≡ₚ w :: delete i (waiters st)) as Hp by (by apply delete_Permutation).
  remember (delete i (waiters st)) as rest eqn:Er. clear Er.
  assert (granted st !! request_id r = None) as Hnone.
  { pose proof (inv_fresh _ Hi) as Hf. rewrite Forall_forall in Hf. rewrite <- Hr.
    apply Hf. by eapply list_elem_of_lookup_2. }
  pose proof (inv_ids _ Hi) as Hnd. rewrite Hp, fmap_cons, NoDup_cons, Hr in Hnd.
  destruct Hnd as [Hnin Hnd].
  split; rewrite ?Hg, ?Hw, ?Hl, ?Hs, ?Hst.
  - apply Hi.
  - rewrite map_size_insert_None by done. lia.
  - apply map_Forall_insert; [done|]. split; [done|apply Hi].
  - apply Forall_forall. intros v Hv. rewrite lookup_insert_ne.
    + pose proof (inv_fresh _ Hi) as Hf. rewrite Forall_forall in Hf. apply Hf.
      rewrite Hp. by right.
    + intros Heq. apply Hnin. rewrite Heq. apply list_elem_of_fmap. by exists v.
  - done.
  - eapply StronglySorted_sublist; [exact Hsub|apply Hi].
  - pose proof (inv_seq _ Hi) as Hq. rewrite Hp in Hq. by apply Forall_cons in Hq as [_ ?].
  - intros k. rewrite lookup_delete_is_Some, (inv_started _ Hi), Hp, fmap_cons, Hr. set_solver.
Qed.

Lemma drain_fuel_inv n st st' rs :
  inv st -> drain_fuel clock n st = (st', rs) -> inv st'.
Proof using Type.
  revert st st' rs. induction n as [|n IH]; simpl; intros st st' rs Hi; [by intros [= <- _]|].
  destruct (drain_step clock st) as [[r st1]|] eqn:E; [|by intros [= <- _]].
  destruct (drain_fuel clock n st1) as [st2 rs'] eqn:E2. intros [= <- _].
  eapply IH; [|exact E2]. by eapply drain_step_inv.
Qed.

(** The fuel [length waiters] runs the loop to its end. *)
Lemma drain_fuel_saturated n st st' rs :
  inv st -> (length (waiters st) <= n)%nat -> drain_fuel clock n st = (st', rs) -> saturated st'.
Proof using Type.
  revert st st' rs. induction n as [|n IH]; simpl; intros st st' rs Hi Hn.
  - intros [= <- _]. left. destruct (waiters st); [done|simpl in Hn; lia].
  - destruct (drain_step clock st) as [[r st1]|] eqn:E.
    + destruct (drain_fuel clock n st1) as [st2 rs'] eqn:E2. intros [= <- _].
      eapply IH; [by eapply drain_step_inv| |exact E2].
      destruct (drain_step_some _ _ _ E) as (i & w & Hlk & _ & _ & _ & _ & _ & -> & _).
      rewrite length_delete by eauto. apply lookup_lt_Some in Hlk. lia.
    + intros [= <- _]. apply drain_step_none; [apply Hi|done].
Qed.

Lemma drain_locked_inv st st' rs :
  inv st -> drain_locked clock st = (st', rs) -> inv st' /\ saturated st'.
Proof using Type.
  intros Hi Hd. split; [by eapply drain_fuel_inv|]. by eapply drain_fuel_saturated.
Qed.

Lemma inv_set_granted st g :
  inv st -> g ⊆ granted st -> inv (set_granted st g).
Proof using Type.
  intros [? ? Hk Hf ? ? ? ?] Hsub. split; simpl; try done.
  - apply map_subseteq_size in Hsub. lia.
  - intros k r Hr. apply Hk. by eapply lookup_weaken.
  - eapply Forall_impl; [exact Hf|]. simpl. intros w Hw.
    destruct (g !! request_id w.2) as [r|] eqn:E; [|done].
    eapply lookup_weaken in E; [|exact Hsub]. congruence.
Qed.

Lemma inv_set_waiting st ws started :
  inv st -> ws `sublist_of` waiters st ->
  (forall k, is_Some (started !! k) <-> k ∈ (fun w => request_id w.2) <$> ws) ->
  inv (set_waiting st ws started).
Proof using Type.
  intros [? ? ? Hf Hn Ho Hq ?] Hsub Hst.
  assert (forall w, w ∈ ws -> w ∈ waiters st) as Hin.
  { intros w Hw. eapply elem_of_submseteq; [exact Hw|]. by apply sublist_submseteq. }
  split; simpl; try done.
  - apply Forall_forall. rewrite Forall_forall in Hf. auto.
  - eapply sublist_NoDup; [exact Hn|]. by apply fmap_sublist.
  - by eapply StronglySorted_sublist.
  - apply Forall_forall. rewrite Forall_forall in Hq. auto.
Qed.

Lemma enqueue_inv r st :
  inv st -> granted st !! request_id r = None ->
  existsb (fun w => bool_decide (request_id w.2 = request_id r)) (waiters st) = false ->
  inv (enqueue clock r st).
Proof using Type.
  intros Hi Eg Ew.
  assert (request_id r ∉ (fun w => request_id w.2) <$> waiters st) as Hnin.
  { rewrite list_elem_of_fmap. intros (w & Heq & Hw).
    assert (existsb (fun w => bool_decide (request_id w.2 = request_id r)) (waiters st) = true) as Ht.
    { apply existsb_exists. exists w. rewrite <- list_elem_of_In, bool_decide_eq_true. done. }
    congruence. }
  destruct Hi as [? ? ? Hf Hn Ho Hq Hs]. split; simpl; try done.
  - apply Forall_app. split; [done|]. by constructor.
  - rewrite fmap_app. apply NoDup_app. split; [done|]. split; [set_solver|].
    apply NoDup_singleton.
  - apply StronglySorted_app. split; [|split; [done|repeat constructor]].
    intros x y Hx Hy. apply list_elem_of_singleton in Hy as ->. simpl.
    rewrite Forall_forall in Hq. specialize (Hq x Hx). lia.
  - apply Forall_app. split; [|repeat constructor; simpl; lia].
    eapply Forall_impl; [exact Hq|]. simpl. lia.
  - intros k. rewrite lookup_insert_is_Some, Hs, fmap_app. set_solver.
Qed.

Lemma request_inv r st st' cbs b :
  inv st -> saturated st -> request clock r st = (st', cbs, b) -> inv st' /\ saturated st'.
Proof using Type.
  intros Hi Hsat. unfold request. destruct (granted st !! request_id r) eqn:Eg.
  { by intros [= <- <- <-]. }
  destruct (existsb _ (waiters st)) eqn:Ew; [by intros [= <- <- <-]|].
  destruct (drain_locked clock (enqueue clock r st)) as [st2 cs] eqn:Ed. intros [= <- <- <-].
  eapply drain_locked_inv; [|exact Ed]. by apply enqueue_inv.
Qed.
Lemma release_inv rid gen st st' cbs :
  inv st -> saturated st -> release clock rid gen st = (st', cbs) -> inv st' /\ saturated st'.
Proof using Type.
  intros Hi Hsat. unfold release. destruct (owns st rid gen); [|by intros [= <- <-]].
  apply drain_locked_inv. apply inv_set_granted; [done|]. apply delete_subseteq.
Qed.

Lemma existsb_is_request st rid gen :
  existsb (is_request rid gen) (waiters st) = false ->
  filter (fun w => is_request rid gen w = false) (waiters st) = waiters st.
Proof using Type.
  induction (waiters st) as [|w ws IH]; simpl; [done|]. intros H. bools.
  rewrite filter_cons_True by done. f_equal. auto.
Qed.

Lemma cancel_waiting_inv rid gen st :
  inv st ->
  inv (set_waiting st (filter (fun w => is_request rid gen w = false) (waiters st))
         (if existsb (is_request rid gen) (waiters st)
          then delete rid (wait_started st) else wait_started st)).
Proof using Type.
  intros Hi. apply inv_set_waiting; [done|apply sublist_filter|].
  destruct (existsb (is_request rid gen) (waiters st)) eqn:Ee; intros k.
  2:{ rewrite existsb_is_request by done. apply Hi. }
  apply existsb_exists in Ee as (w0 & Hw0 & Hr0). rewrite <- list_elem_of_In in Hw0.
  unfold is_request in Hr0. bools.
  rewrite lookup_delete_is_Some, (inv_started _ Hi), !list_elem_of_fmap.
  split.
  - intros (Hne & w & -> & Hw). exists w. split; [done|].
    apply list_elem_of_filter. split; [|done]. unfold is_request.
    rewrite bool_decide_false; [done|]. by intros <-.
  - intros (w & -> & Hw). apply list_elem_of_filter in Hw as [Hf Hw].
    split; [|by exists w]. intros ->.
    (* the waiter with this id is the cancelled one, by uniqueness of ids *)
    assert (w = w0) as ->.
    { pose proof (inv_ids _ Hi) as Hnd.
      apply list_elem_of_lookup in Hw as [i Hi1]. apply list_elem_of_lookup in Hw0 as [j Hj].
      assert (i = j) as ->; [|congruence].
      eapply NoDup_lookup; [exact Hnd| |]; rewrite list_lookup_fmap.
      - by rewrite Hi1.
      - rewrite Hj. simpl. by f_equal. }
    unfold is_request in Hf. rewrite !bool_decide_true in Hf by done. done.
Qed.

Lemma withdraw_inv rid gen st : inv st -> inv (withdraw rid gen st).
Proof using Type.
  intros Hi. unfold withdraw. pose proof (cancel_waiting_inv rid gen st Hi) as H1.
  destruct (owns st rid gen); [|done].
  apply inv_set_granted; [done|]. apply delete_subseteq.
Qed.

Lemma withdraw_nothing rid gen st :
  existsb (is_request rid gen) (waiters st) = false -> owns st rid gen = false ->
  withdraw rid gen st = st.
Proof using Type.
  intros Hw Ho. unfold withdraw. rewrite Ho, Hw, existsb_is_request by done. by destruct st.
Qed.

Lemma cancel_inv rid gen st st' cbs b :
  inv st -> saturated st -> cancel clock rid gen st = (st', cbs, b) -> inv st' /\ saturated st'.
Proof using Type.
  intros Hi Hsat. unfold cancel.
  destruct (existsb (is_request rid gen) (waiters st) || owns st rid gen) eqn:Er.
  - destruct (drain_locked clock (withdraw rid gen st)) as [st3 cs] eqn:Ed. intros [= <- _ _].
    eapply drain_locked_inv; [|exact Ed]. by apply withdraw_inv.
  - bools. rewrite withdraw_nothing by done. by intros [= <- _ _].
Qed.

Lemma purge_inv gen st :
  inv st -> inv (purge gen st).
Proof using Type.
  intros Hi. unfold purge. apply inv_set_waiting; simpl.
  - apply inv_set_granted; [done|]. apply map_filter_subseteq.
  - apply sublist_filter.
  - intros k. rewrite map_lookup_filter. split.
    + intros [x Hx]. destruct (wait_started st !! k); simpl in Hx; [|done].
      case_guard as Hin; [exact Hin|done].
    + intros Hin. pose proof Hin as Hin'.
      apply list_elem_of_fmap in Hin' as (w & Hk & Hw). apply list_elem_of_filter in Hw as [_ Hw].
      destruct (proj2 (inv_started _ Hi k)) as [x Hx].
      { rewrite Hk. apply list_elem_of_fmap. by exists w. }
      rewrite Hx. simpl. case_guard; [by eexists|done].
Qed.

Lemma drop_generation_inv gen st st' cbs :
  inv st -> drop_generation clock gen st = (st', cbs) -> inv st' /\ saturated st'.
Proof using Type. intros Hi. apply drain_locked_inv. by apply purge_inv. Qed.

(** Draining only moves waiters to grants. *)
Lemma drain_keeps gen st st' cbs :
  inv st -> drain_locked clock st = (st', cbs) ->
  map_Forall (fun _ r => slot_generation r <> gen) (granted st) ->
  Forall (fun w => slot_generation w.2 <> gen) (waiters st) ->
  map_Forall (fun _ r => slot_generation r <> gen) (granted st') /\
  Forall (fun w => slot_generation w.2 <> gen) (waiters st') /\
  (forall k r, granted st !! k = Some r -> granted st' !! k = Some r).
Proof using Type.
  unfold drain_locked. generalize (length (waiters st)) as n. intros n. revert st cbs.
  induction n as [|n IH]; simpl; intros st cbs Hi; [by intros [= <- _]|].
  destruct (drain_step clock st) as [[r st1]|] eqn:E; [|by intros [= <- _]].
  destruct (drain_fuel clock n st1) as [st2 rs] eqn:E2. intros [= <- _] Hg Hw.
  pose proof (drain_step_inv _ _ _ Hi E) as Hi1.
  destruct (drain_step_some _ _ _ E) as (i & w & Hlk & Hr & _ & _ & _ & Hg1 & Hw1 & _).
  assert (w ∈ waiters st) as Hin by (by eapply list_elem_of_lookup_2).
  destruct (IH st1 rs Hi1 E2) as (? & ? & Hk).
  - rewrite Hg1. intros k x Hx. rewrite lookup_insert in Hx. case_decide; [|by eapply Hg].
    injection Hx as <-. rewrite <- Hr. rewrite Forall_forall in Hw. by apply Hw.
  - rewrite Hw1. by apply Forall_delete.
  - split; [done|]. split; [done|]. intros k x Hx. apply Hk. rewrite Hg1.
    rewrite lookup_insert_ne; [done|]. intros <-.
    pose proof (inv_fresh _ Hi) as Hf. rewrite Forall_forall in Hf. specialize (Hf w Hin).
    rewrite Hr in Hf. congruence.
Qed.

Lemma no_owner gen st rid :
  map_Forall (fun _ r => slot_generation r <> gen) (granted st) -> owns st rid gen = false.
Proof using Type.
  intros Hg. unfold owns. destruct (granted st !! rid) as [r|] eqn:E; [|done].
  apply bool_decide_false. by eapply Hg.
Qed.

Lemma no_waiter gen st rid :
  Forall (fun w => slot_generation w.2 <> gen) (waiters st) ->
  existsb (is_request rid gen) (waiters st) = false.
Proof using Type.
  induction 1 as [|w ws Hw _ IH]; simpl; [done|]. rewrite IH. unfold is_request.
  rewrite (bool_decide_false (slot_generation _ = _)) by done. by rewrite andb_false_r.
Qed.

(** ** Histories *)
Inductive step : broker -> broker -> Prop :=
| step_request r st st' cbs b : request clock r st = (st', cbs, b) -> step st st'
| step_release rid gen st st' cbs : release clock rid gen st = (st', cbs) -> step st st'
| step_cancel rid gen st st' cbs b : cancel clock rid gen st = (st', cbs, b) -> step st st'
| step_drop gen st st' cbs : drop_generation clock gen st = (st', cbs) -> step st st'.

Definition reachable (lim : Z) (res : pool -> option Z) (st : broker) : Prop :=
  exists st0, new_broker lim res = Return st0 /\ rtc step st0 st.

Lemma step_limit st st' : step st st' -> limit st' = limit st /\ reservations st' = reservations st.
Proof using Type.
  assert (forall n s s' rs, drain_fuel clock n s = (s', rs) ->
            limit s' = limit s /\ reservations s' = reservations s) as Hd.
  { induction n as [|n IH]; simpl; intros s s' rs; [by intros [= <- _]|].
    destruct (drain_step clock s) as [[r s1]|] eqn:E; [|by intros [= <- _]].
    destruct (drain_fuel clock n s1) as [s2 rs'] eqn:E2. intros [= <- _].
    apply IH in E2 as [-> ->].
    destruct (drain_step_some _ _ _ E) as (?&?&_&_&_&_&_&_&_&?&_&?&_). done. }
  assert (forall s s' rs, drain_locked clock s = (s', rs) ->
            limit s' = limit s /\ reservations s' = reservations s) as Hl
    by (intros s s' rs; apply Hd).
  destruct 1 as [r st st' cbs b H|rid gen st st' cbs H|rid gen st st' cbs b H|gen st st' cbs H].
  - unfold request in H. destruct (granted st !! _); [by injection H as <- _ _|].
    destruct (existsb _ _); [by injection H as <- _ _|].
    destruct (drain_locked _ _) as [s2 cs] eqn:E. injection H as <- _ _. by apply Hl in E.
  - unfold release in H. destruct (owns _ _ _); [by apply Hl in H|by injection H as <- _].
  - unfold cancel in H. destruct (_ || _).
    + destruct (drain_locked _ _) as [s3 cs] eqn:E. injection H as <- _ _.
      apply Hl in E. unfold withdraw in E. by destruct (owns st rid gen).
    + injection H as <- _ _. unfold withdraw. by destruct (owns st rid gen).
  - unfold drop_generation in H. by apply Hl in H.
Qed.

Lemma new_broker_inv lim res st : new_broker lim res = Return st -> inv st /\ saturated st.
Proof using Type.
  unfold new_broker. intros H.
  apply bind_return in H as (? & H1 & H). apply raise_if_return in H1. bools.
  apply bind_return in H as (? & _ & H). apply bind_return in H as (? & _ & H).
  injection H as <-. split; [|by left].
  split; simpl; [lia|rewrite map_size_empty; lia|apply map_Forall_empty|constructor..|].
  intros k. rewrite lookup_empty, elem_of_nil. split; [by intros []|done].
Qed.

Lemma reachable_inv lim res st : reachable lim res st -> inv st /\ saturated st.
Proof using Type.
  intros (st0 & H0 & Hr). apply new_broker_inv in H0.
  revert H0. induction Hr as [|x y z Hs _ IH]; [done|]. intros [Hi Hsat]. apply IH.
  destruct Hs; eauto using request_inv, release_inv, cancel_inv, drop_generation_inv.
Qed.

(** ** Properties *)

(** C36: permits are never over-issued and never idle. In every state reached by
    requests, releases, cancels and generation drops, at most [limit] grants
    are out, each under its own request id; nobody both waits and holds a
    permit or waits twice; and if somebody waits then every permit is out. *)
Theorem broker_safe lim res st :
  reachable lim res st ->
  Z.of_nat (size (granted st)) <= limit st /\
  (waiters st = [] \/ Z.of_nat (size (granted st)) = limit st) /\
  NoDup ((fun w => request_id w.2) <$> waiters st) /\
  Forall (fun w => granted st !! request_id w.2 = None) (waiters st) /\
  map_Forall (fun k r => request_id r = k) (granted st).
Proof using Type.
  intros Hr. destruct (reachable_inv _ _ _ Hr) as [[] Hsat]. by repeat split.
Qed.

(** The states a drain goes through: where an operation enters the loop, and
    after each of its iterations. *)
Inductive draining (lim : Z) (res : pool -> option Z) : broker -> Prop :=
| draining_request r st :
    reachable lim res st -> granted st !! request_id r = None ->
    existsb (fun w => bool_decide (request_id w.2 = request_id r)) (waiters st) = false ->
    draining lim res (enqueue clock r st)
| draining_release rid gen st :
    reachable lim res st -> owns st rid gen = true ->
    draining lim res (set_granted st (delete rid (granted st)))
| draining_cancel rid gen st :
    reachable lim res st -> draining lim res (withdraw rid gen st)
| draining_drop gen st :
    reachable lim res st -> draining lim res (purge gen st)
| draining_step st r st' :
    draining lim res st -> drain_step clock st = Some (r, st') -> draining lim res st'.

Lemma draining_inv lim res st : draining lim res st -> inv st.
Proof using Type.
  induction 1 as [r st Hr ? ?|rid gen st Hr _|rid gen st Hr|gen st Hr|st r st' _ IH Hd].
  1-4: destruct (reachable_inv _ _ _ Hr) as [Hi _].
  - by apply enqueue_inv.
  - apply inv_set_granted; [done|]. apply delete_subseteq.
  - by apply withdraw_inv.
  - by apply purge_inv.
  - by eapply drain_step_inv.
Qed.

(** The draining order. Whenever the broker hands out a permit, the grantee's
    pool is below its reservation if any waiting pool is; no waiter of an
    equally entitled pool with higher borrowing priority was passed over; and
    the grantee is the longest-waiting request of its own pool. *)
Theorem drain_order lim res st r st' :
  draining lim res st -> drain_step clock st = Some (r, st') ->
  ((exists p, reserved_deficit st p = true) -> reserved_deficit st (req_pool r) = true) /\
  (forall w, w ∈ waiters st -> eligible st (req_pool w.2) = true ->
     BORROW_PRIORITY (req_pool r) <= BORROW_PRIORITY (req_pool w.2)) /\
  (exists i q, waiters st !! i = Some (q, r) /\
     forall j w, waiters st !! j = Some w -> req_pool w.2 = req_pool r -> (i <= j)%nat).
Proof using Type.
  intros Hr Hd. pose proof (draining_inv _ _ _ Hr) as Hi.
  destruct (drain_step_some _ _ _ Hd) as (i & [q r'] & Hlk & Hr' & He & Hmin & _).
  simpl in Hr'. subst r'. split; [|split].
  - intros (p & Hp). unfold eligible in He.
    assert (existsb (reserved_deficit st) POOLS = true) as Hex
      by (apply existsb_exists; exists p; split; [apply pool_in_POOLS|done]).
    by rewrite Hex in He.
  - intros w Hw Hew. specialize (Hmin w Hw Hew). unfold key_lt, waiter_key in Hmin. simpl in Hmin.
    lia.
  - exists i, q. split; [done|]. intros j w Hj Hp.
    destruct (decide (j < i)%nat) as [Hlt|]; [|lia]. exfalso.
    assert (w.1 < q).
    { exact (elem_of_StronglySorted_lt _ _ j i w (q, r) (inv_order _ Hi) Hlt Hj Hlk). }
    assert (w ∈ waiters st) as Hw by (by eapply list_elem_of_lookup_2).
    specialize (Hmin w Hw). rewrite Hp in Hmin. specialize (Hmin He).
    unfold key_lt, waiter_key in Hmin. simpl in Hmin. rewrite Hp in Hmin. lia.
Qed.

(** A dead generation keeps nothing. After [drop_generation gen] no grant and
    no waiter of [gen] is left, every grant of another generation is intact,
    and a late release or cancel from [gen] changes nothing. *)
Theorem drop_generation_complete lim res st gen st' cbs :
  reachable lim res st -> drop_generation clock gen st = (st', cbs) ->
  map_Forall (fun _ r => slot_generation r <> gen) (granted st') /\
  Forall (fun w => slot_generation w.2 <> gen) (waiters st') /\
  (forall k r, granted st !! k = Some r -> slot_generation r <> gen -> granted st' !! k = Some r) /\
  (forall rid, release clock rid gen st' = (st', []) /\
     cancel clock rid gen st' = (st', [], false)).
Proof using Type.
  intros Hr Hd. destruct (reachable_inv _ _ _ Hr) as [Hi _].
  destruct (drain_keeps gen _ _ _ (purge_inv gen st Hi) Hd) as (Hg & Hw & Hk).
  { simpl. apply map_Forall_lookup. intros k r Hkr.
    by apply map_lookup_filter_Some in Hkr as [_ ?]. }
  { simpl. apply Forall_forall. intros w Hw. by apply list_elem_of_filter in Hw as [? _]. }
  repeat split; [done|done| | |].
  - intros k r Hkr Hne. apply Hk. simpl. by apply map_lookup_filter_Some.
  - unfold release. by rewrite (no_owner gen st' rid Hg).
  - unfold cancel. rewrite (no_owner gen st' rid Hg), (no_waiter gen st' rid Hw). simpl.
    by rewrite withdraw_nothing by auto using no_waiter, no_owner.
Qed.
End Proofs.

(** The wire messages round-trip. Every request with non-empty identity is
    recovered from its acquire message; release, cancel and grant messages
    decode to the identity they were built from. *)
Theorem message_roundtrip (repr : pyval -> pystr) (r : EnclaveRequest) (rid gen : pystr) :
  request_id r <> [] -> slot_id r <> [] -> slot_generation r <> [] ->
  decode_child_message repr (inr (acquire_message r)) = Return (Some (MsgAcquire r)) /\
  decode_child_message repr (inr (release_message rid gen false))
    = Return (Some (MsgRelease rid gen)) /\
  decode_child_message repr (inr (release_message rid gen true))
    = Return (Some (MsgCancel rid gen)) /\
  decode_grant_message repr (inr (grant_message rid gen)) = Some (rid, gen).
Proof.
  intros H1 H2 H3. split; [|split; [|split]].
  - unfold decode_child_message.
    assert (forall k v, acquire_message r !! k = Some v -> get (acquire_message r) k = v) as Hget
      by (intros k v Hk; unfold get; by rewrite Hk).
    rewrite (Hget "v" (PInt 1)), (Hget "t" (PStr (u "enclave_acquire"))),
      (Hget "request_id" (PStr (request_id r))), (Hget "pool" (PStr (pool_name (req_pool r)))),
      (Hget "slot_id" (PStr (slot_id r))), (Hget "slot_generation" (PStr (slot_generation r)))
      by (unfold acquire_message; simpl; by simplify_map_eq).
    assert (keys_are (acquire_message r)
      ["v"; "t"; "request_id"; "pool"; "slot_id"; "slot_generation"] = true) as ->
      by (destruct r; vm_compute; reflexivity).
    unfold make_request. simpl. rewrite !bool_decide_false by done. simpl.
    destruct r as [? [] ? ?]; reflexivity.
  - vm_compute. reflexivity.
  - vm_compute. reflexivity.
  - vm_compute. reflexivity.
Qed.

(** ** Witnesses *)

Definition ex_clock (n : nat) : Z := Z.of_nat n.
Definition ex_req (id : string) (p : pool) (gen : string) : EnclaveRequest :=
  mkRequest (u id) p (u "slot") (u gen).
Definition ex_res (p : pool) : option Z := match p with heavy => Some 1 | _ => None end.

Definition ex_new : broker := mkBroker 1 (fun p => default 0 (ex_res p)) ∅ [] 0 ∅ (fun _ => []) 0.

(** A foreground grant is out, a wake and a heavy request wait. *)
Definition ex_busy : broker :=
  (request ex_clock (ex_req "c" heavy "g2")
    (request ex_clock (ex_req "b" wake "g2")
      (request ex_clock (ex_req "a" foreground "g1") ex_new).1.1).1.1).1.1.

Lemma ex_busy_reachable : reachable ex_clock 1 ex_res ex_busy.
Proof.
  exists ex_new. split; [reflexivity|]. unfold ex_busy.
  assert (forall r st st', rtc (step ex_clock) st st' ->
            rtc (step ex_clock) st (request ex_clock r st').1.1) as Hreq.
  { intros r st st' Hs. eapply rtc_r; [exact Hs|].
    destruct (request ex_clock r st') as [[s c] b] eqn:E. by eapply step_request. }
  repeat apply Hreq. apply rtc_refl.
Qed.

Lemma broker_safe_witness :
  Z.of_nat (size (granted ex_busy)) <= limit ex_busy /\ length (waiters ex_busy) = 2%nat.
Proof.
  split; [|vm_compute; reflexivity].
  apply (broker_safe ex_clock 1 ex_res ex_busy). exact ex_busy_reachable.
Defined.

(** When the foreground grant is released, the heavy request is served first:
    its pool is below its reservation. *)
Lemma drain_order_witness :
  exists r st', drain_step ex_clock (set_granted ex_busy (delete (u "a") (granted ex_busy)))
    = Some (r, st') /\ req_pool r = heavy /\
    reserved_deficit (set_granted ex_busy (delete (u "a") (granted ex_busy))) (req_pool r) = true.
Proof.
  destruct (drain_step ex_clock (set_granted ex_busy (delete (u "a") (granted ex_busy))))
    as [[r st']|] eqn:E.
  2:{ assert (match drain_step ex_clock (set_granted ex_busy (delete (u "a") (granted ex_busy)))
              with None => false | _ => true end = true) as H by (vm_compute; reflexivity).
      rewrite E in H. discriminate. }
  exists r, st'. split; [reflexivity|].
  assert ((fun x : option (EnclaveRequest * broker) => option_map (fun y => req_pool y.1) x)
      (drain_step ex_clock (set_granted ex_busy (delete (u "a") (granted ex_busy))))
      = Some heavy) as Hp by (vm_compute; reflexivity).
  rewrite E in Hp. injection Hp as Hp. split; [exact Hp|].
  apply (drain_order ex_clock 1 ex_res _ r st').
  - apply (draining_release ex_clock 1 ex_res (u "a") (u "g1") ex_busy);
      [exact ex_busy_reachable | vm_compute; reflexivity].
  - exact E.
  - exists heavy. vm_compute. reflexivity.
Defined.

Lemma drop_generation_complete_witness :
  exists st' cbs, drop_generation ex_clock (u "g2") ex_busy = (st', cbs) /\
    Forall (fun w => slot_generation w.2 <> u "g2") (waiters st') /\
    granted st' !! u "a" = Some (ex_req "a" foreground "g1").
Proof.
  destruct (drop_generation ex_clock (u "g2") ex_busy) as [st' cbs] eqn:E.
  exists st', cbs. split; [reflexivity|].
  destruct (drop_generation_complete ex_clock 1 ex_res ex_busy (u "g2") st' cbs
              ex_busy_reachable E) as (_ & Hw & Hk & _).
  split; [exact Hw|]. apply Hk; [vm_compute; reflexivity | vm_compute; congruence].
Defined.

Lemma message_roundtrip_witness :
  decode_child_message (fun _ => []) (inr (acquire_message (ex_req "a" wake "g1")))
  = Return (Some (MsgAcquire (ex_req "a" wake "g1"))).
Proof.
  apply (message_roundtrip (fun _ => []) (ex_req "a" wake "g1") [] []);
    vm_compute; congruence.
Defined.

End Broker.
