(* ===== verification/ResultBudget.v ===== *)
(** * Tool-result budgets
    ([backend/capabilities/result_budget.py] and the batch water-fill of
    [backend/model_api_runtime/v2/tool_loop.py])

    [ResultBudget] holds the per-tool policy and the start-up validation of the
    configured caps; [WaterFill] the sharing of one batch's character budget
    and the normalisation of a batch of results. The process environment is an
    argument [env], text lengths are code-point counts. *)

From S2P Require Import Prelude PyValue.
Local Open Scope Z_scope.

Module ResultBudget.

Definition RESULT_KIND_METADATA_KEY : string := "result_budget_kind".
Definition OVERFLOW_RESULT_CONTENT : pystr := u "error: result_budget_exceeded".

Definition MEMORY_RESULT_CAPS : list (string * Z) :=
  [("memory_index", 6000); ("memory_search", 6000); ("memory_fetch", 12000)].

Definition CURSOR_MAX_CHARS : nat := 1024.

(** [_skeleton_chars] *)
Definition skeleton_chars (payload : pyval) : Z := Zlen (dumps float_repr_integral payload).

Definition xs (n : nat) : pyval := PStr (replicate n 120%N).

(** [MIN_RESULT_CAPS]: the smallest payload each producer can still emit. *)
Definition MIN_RESULT_CAPS : list (string * Z) :=
  [("history_search", skeleton_chars (PDict
      [(u "matches", PList []); (u "complete", PBool false); (u "scanned_count", PInt 0);
       (u "unavailable_count", PInt 0); (u "coverage_gap", PBool false);
       (u "next_cursor", xs CURSOR_MAX_CHARS)]));
   ("history_fetch", skeleton_chars (PDict
      [(u "anchor", PDict
          [(u "message_id", xs 64); (u "ts", PFloat (float_of_int 1720000000));
           (u "role", PStr (u "assistant")); (u "content", PStr []);
           (u "content_truncated", PBool true); (u "unavailable", PBool true);
           (u "content_type", PStr (u "file"))]);
       (u "before", PList []); (u "after", PList []); (u "unavailable_count", PInt 0);
       (u "omitted_before", PInt 0); (u "omitted_after", PInt 0)]));
   ("web_fetch", skeleton_chars (PDict
      [(u "url", xs 1000); (u "total_chars", PInt 300000); (u "offset", PInt 300000);
       (u "returned_chars", PInt 0); (u "next_offset", PNone); (u "has_more", PBool false);
       (u "source_truncated", PBool true); (u "text", PStr [])]));
   ("memory_index", 512); ("memory_search", 512); ("memory_fetch", 512)].

Definition ATOMIC_TOOL_NAMES : list string := MIN_RESULT_CAPS.*1.

(** [_ENV_BY_TOOL] has exactly these keys. *)
Definition ENV_BY_TOOL : list string :=
  ["history_search"; "history_fetch"; "web_fetch"; "memory_index"; "memory_search"; "memory_fetch"].

Record ResultBudget : Type := mkBudget {
  result_cap : Z;
  atomic_json : bool;
  extra_batch_budget : Z;
}.

Definition assoc {A} (l : list (string * A)) (k : string) : option A :=
  snd <$> List.find (fun kv => String.eqb kv.1 k) l.

(** [_int_env]: an unset, blank, unparsable or non-positive value falls back. *)
Definition int_env (env : string -> option pystr) (name : string) (dflt : Z) : Z :=
  match strip (default [] (env name)) with
  | [] => dflt
  | s => match py_int s with
         | Some v => if 0 <? v then v else dflt
         | None => dflt
         end
  end.

Definition for_tool (env : string -> option pystr) (name : string) : option ResultBudget :=
  match assoc MEMORY_RESULT_CAPS name with
  | Some cap => Some (mkBudget cap true cap)
  | None =>
      if String.eqb name "history_search" then
        Some (mkBudget (int_env env "FEEDLING_V2_HISTORY_SEARCH_RESULT_MAX_CHARS" 1800) true 0)
      else if String.eqb name "user_mcp" then
        Some (mkBudget (int_env env "FEEDLING_V2_USER_MCP_RESULT_MAX_CHARS" 8000) false 0)
      else if String.eqb name "history_fetch" then
        Some (mkBudget (int_env env "FEEDLING_V2_HISTORY_FETCH_RESULT_MAX_CHARS" 4500) true 2500)
      else if String.eqb name "web_fetch" then
        Some (mkBudget (int_env env "FEEDLING_V2_WEB_FETCH_RESULT_MAX_CHARS" 8000) true 6000)
      else None
  end.

(** The tool name carried by a metadata value, as text of the model. *)
Definition kind_name (s : pystr) : string :=
  String.string_of_list_ascii (Ascii.ascii_of_N <$> s).

(** [for_metadata]: [None] metadata, or the policy of its declared kind. Only
    ASCII kinds name a tool, so a kind with a wider code point has none. *)
Definition for_metadata (repr : pyval -> pystr) (env : string -> option pystr)
    (metadata : option row) : option ResultBudget :=
  match metadata with
  | None => None
  | Some md =>
      let s := get_str repr md RESULT_KIND_METADATA_KEY in
      if forallb (fun c => (c <? 256)%N) s then for_tool env (kind_name s) else None
  end.

(** One producer's checks in [validate_result_caps]. *)
Definition check_policy (batch_cap : Z) (name : string) (p : ResultBudget) : outcome unit :=
  if negb (bool_decide (name ∈ ENV_BY_TOOL)) then Raise KeyError else
  match assoc MIN_RESULT_CAPS name with
  | None => Raise KeyError
  | Some minimum =>
      if result_cap p <? minimum then Raise (RuntimeError "below the smallest legal payload")
      else if atomic_json p && (batch_cap + extra_batch_budget p <? result_cap p)
      then Raise (RuntimeError "exceeds what a batch can reserve for one atomic result")
      else Return tt
  end.

Fixpoint check_policies (env : string -> option pystr) (batch_cap : Z) (names : list string)
    : outcome unit :=
  match names with
  | [] => Return tt
  | n :: rest =>
      match for_tool env n with
      | None => check_policies env batch_cap rest
      | Some p => _ ← check_policy batch_cap n p; check_policies env batch_cap rest
      end
  end.

(** The atomic policies of the named tools, one per distinct name. *)
Definition atomic_policies (env : string -> option pystr) (names : list string)
    : list ResultBudget :=
  filter (fun p => atomic_json p = true) (omap (for_tool env) names).

(** [{name: ... for name in tool_names}]: each name once, first occurrence. *)
Fixpoint dict_keys (seen names : list string) : list string :=
  match names with
  | [] => []
  | n :: rest => if bool_decide (n ∈ seen) then dict_keys seen rest
                 else n :: dict_keys (n :: seen) rest
  end.

Definition validate_result_caps (env : string -> option pystr) (batch_cap : Z)
    (tool_names : list string) : outcome unit :=
  let names := dict_keys [] tool_names in
  _ ← check_policies env batch_cap names;
  let atomic := atomic_policies env names in
  if batch_cap + sumZ (extra_batch_budget <$> atomic) <? sumZ (result_cap <$> atomic)
  then Raise (RuntimeError "atomic result caps total more than a batch can hold")
  else Return tt.

End ResultBudget.

Module WaterFill.
Import ResultBudget.

(** ** [_result_quotas] *)

Definition set_all (value : nat -> Z) (ixs : list nat) (quotas : list Z) : list Z :=
  foldl (fun q i => <[i := value i]> q) quotas ixs.

Fixpoint quotas_loop (fuel : nat) (lengths quotas : list Z) (active : list nat) (remaining : Z)
    : list Z :=
  match fuel with
  | O => quotas
  | S fuel =>
      match active with
      | [] => quotas
      | _ =>
          let share := remaining / Zlen active in
          let short := filter (fun i => lengths !!! i <= share) active in
          match short with
          | [] =>
              let quotas := set_all (fun _ => share) active quotas in
              let remainder := remaining - share * Zlen active in
              set_all (fun _ => share + 1) (take (Z.to_nat remainder) active) quotas
          | _ =>
              quotas_loop fuel lengths
                (set_all (fun i => lengths !!! i) short quotas)
                (filter (fun i => i ∉ short) active)
                (remaining - sumZ ((fun i => lengths !!! i) <$> short))
          end
      end
  end.

(** Each iteration settles at least one index, so [len(lengths) + 1]
    iterations finish the loop. *)
Definition result_quotas (lengths : list Z) (batch_cap : Z) : list Z :=
  quotas_loop (S (length lengths)) lengths (replicate (length lengths) 0)
    (seq 0 (length lengths)) batch_cap.

(** ** [_batch_quotas] *)

Definition is_atomic (p : option ResultBudget) : bool :=
  match p with Some p => atomic_json p | None => false end.

Definition atomic_indexes (policies : list (option ResultBudget)) : list nat :=
  filter (fun i => is_atomic (default None (policies !! i)) = true) (seq 0 (length policies)).

Definition batch_quotas (contents : list pystr) (policies : list (option ResultBudget))
    (batch_cap : Z) : list Z :=
  let atomic := atomic_indexes policies in
  match atomic with
  | [] => result_quotas (Zlen <$> contents) batch_cap
  | _ =>
      let extra i := match default None (policies !! i) with
                     | Some p => extra_batch_budget p | None => 0 end in
      let len i := Zlen (default [] (contents !! i)) in
      let budget := batch_cap + sumZ (extra <$> atomic) in
      let reserved := sumZ (len <$> atomic) in
      let shared := filter (fun i => i ∉ atomic) (seq 0 (length contents)) in
      let shared_quotas := result_quotas (len <$> shared) (Z.max 0 (budget - reserved)) in
      let quotas := set_all len atomic (replicate (length contents) 0) in
      foldl (fun q iq => <[iq.1 := iq.2]> q) quotas (zip shared shared_quotas)
  end.

(** ** [_normalize_tool_results] *)

Record ToolResult : Type := mkResult {
  call_id : pystr;
  content : pystr;
  metadata : option row;
}.

Definition RESULT_TRUNCATION_MARKER : pystr := u "...[truncated]".

Definition truncate_result_content (content : pystr) (cap : Z) (marker : pystr) : pystr :=
  if Zlen content <=? cap then content
  else if cap <=? Zlen marker then take (Z.to_nat cap) marker
  else take (Z.to_nat (cap - Zlen marker)) content ++ marker.

Section Normalize.
Context (repr : pyval -> pystr) (env : string -> option pystr).

(** The truncation marker of one result: memory queries say what was cut. *)
Definition count_text (v : pyval) : pystr :=
  match v with PInt _ | PBool _ => py_str repr v | _ => u "?" end.

Definition marker_of (r : ToolResult) : pystr :=
  let md := default ∅ (metadata r) in
  let is_kind k := match get md "memory_query_kind" with
                   | PStr s => bool_decide (s = u k) | _ => false end in
  if is_kind "memory_index" || is_kind "memory_search" then
    u "...[memory result truncated; this query returned " ++
    count_text (get md "memory_returned") ++ u " of " ++
    count_text (get md "memory_total") ++
    u " total cards. Fetch visible ids or use memory_search with a narrower query.]"
  else RESULT_TRUNCATION_MARKER.

Definition policy_of (r : ToolResult) : option ResultBudget := for_metadata repr env (metadata r).

(** An atomic result over its own cap is replaced by a short valid error. *)
Definition guard_overflow (r : ToolResult) : ToolResult :=
  match policy_of r with
  | Some p => if atomic_json p && (result_cap p <? Zlen (content r))
              then mkResult (call_id r) OVERFLOW_RESULT_CONTENT (metadata r) else r
  | None => r
  end.

Definition individually_capped (per_result_cap : Z) (r : ToolResult) : pystr :=
  truncate_result_content (content r)
    (match policy_of r with Some p => result_cap p | None => per_result_cap end) (marker_of r).

Definition normalize_tool_results (results : list ToolResult) (per_result_cap batch_cap : Z)
    : list ToolResult :=
  let policies := policy_of <$> results in
  let results := guard_overflow <$> results in
  let capped := individually_capped per_result_cap <$> results in
  let quotas := batch_quotas capped policies batch_cap in
  zip_with (fun r cq => mkResult (call_id r) (truncate_result_content cq.1 cq.2 (marker_of r))
                          (metadata r))
           results (zip capped quotas).
End Normalize.

Example quotas_ex : result_quotas [10; 3; 50; 50] 60 = [10; 3; 24; 23].
Proof. vm_compute. reflexivity. Qed.


(** ** Lemmas on the index loops *)

Lemma length_set_all v ixs q : length (set_all v ixs q) = length q.
Proof.
  unfold set_all. revert q. induction ixs as [|i ixs IH]; intros q; simpl; [done|].
  by rewrite IH, length_insert.
Qed.

Lemma set_all_lookup v ixs q j :
  (j < length q)%nat ->
  set_all v ixs q !! j = if decide (j ∈ ixs) then Some (v j) else q !! j.
Proof.
  unfold set_all. revert q. induction ixs as [|i ixs IH]; intros q Hj; simpl.
  - destruct (decide (j ∈ [])) as [H|]; [by apply elem_of_nil in H|done].
  - rewrite IH by (by rewrite length_insert).
    destruct (decide (j ∈ ixs)) as [Hin|Hnin].
    + rewrite decide_True; [done|by right].
    + destruct (decide (i = j)) as [->|Hne].
      * rewrite list_lookup_insert_eq by done. rewrite decide_True; [done|left].
      * rewrite list_lookup_insert_ne by done. rewrite decide_False; [done|]. set_solver.
Qed.

(** ** What a fair fill is *)

Record filled (lengths : list Z) (cap : Z) (quotas : list Z) : Prop := {
  filled_length : length quotas = length lengths;
  filled_bounds : forall i q l, quotas !! i = Some q -> lengths !! i = Some l -> 0 <= q <= l;
  filled_sum : sumZ quotas = Z.min cap (sumZ lengths);
  filled_fair : forall i j q q' l, quotas !! i = Some q -> lengths !! i = Some l -> q < l ->
                  quotas !! j = Some q' -> q' <= q + 1;
  filled_stable : forall i j q q' l l', (i < j)%nat ->
                  quotas !! i = Some q -> lengths !! i = Some l -> q < l ->
                  quotas !! j = Some q' -> lengths !! j = Some l' -> q' < l' -> q' <= q;
}.

Local Ltac blia := cbv beta in *; lia.

(** A prefix of a strictly sorted list is closed downwards in it. *)
Lemma take_closed k (l : list nat) i j :
  StronglySorted lt l -> (i < j)%nat -> i ∈ l -> j ∈ take k l -> i ∈ take k l.
Proof.
  intros Hs Hij Hi Hj. rewrite <- (take_drop k l) in Hi, Hs.
  apply elem_of_app in Hi as [Hi|Hi]; [done|]. exfalso.
  apply list_elem_of_lookup in Hj as [a Ha]. apply list_elem_of_lookup in Hi as [b Hb].
  pose proof (lookup_lt_Some _ _ _ Ha) as Hal.
  assert (j < i)%nat; [|lia].
  eapply (elem_of_StronglySorted_lt lt _ a (length (take k l) + b)%nat); [exact Hs|lia| |].
  - by rewrite lookup_app_l.
  - rewrite lookup_app_r by lia. rewrite <- Hb. f_equal. lia.
Qed.

Section Fill.
Context (lengths : list Z) (cap : Z).
Context (Hlens : Forall (fun l => 0 <= l) lengths) (Hcap : 0 <= cap).

Local Abbreviation n := (length lengths).
Local Abbreviation L := (fun i : nat => lengths !!! i).

Lemma L_nonneg i : 0 <= L i.
Proof using Hlens.
  destruct (decide (i < n)%nat).
  - rewrite Forall_forall in Hlens. apply Hlens.
    eapply list_elem_of_lookup_2. by apply list_lookup_lookup_total_lt.
  - rewrite list_lookup_total_alt, lookup_ge_None_2 by lia. done.
Qed.

(** The loop invariant: settled indexes hold their full length, unsettled ones
    hold nothing, and the unsettled share never drops below a settled length. *)
Record loop_inv (quotas : list Z) (active : list nat) (remaining : Z) : Prop := {
  li_len : length quotas = n;
  li_active : active `sublist_of` seq 0 n;
  li_quotas : forall j, (j < n)%nat ->
      quotas !! j = Some (if decide (j ∈ active) then 0 else L j);
  li_sum : remaining + sumZ (L <$> filter (fun j => j ∉ active) (seq 0 n)) = cap;
  li_rem : 0 <= remaining;
  li_share : forall j, (j < n)%nat -> j ∉ active -> L j * Zlen active <= remaining;
}.

Lemma active_facts active :
  active `sublist_of` seq 0 n ->
  NoDup active /\ (forall j, j ∈ active -> (j < n)%nat) /\
  filter (fun j => j ∈ active) (seq 0 n) ≡ₚ active /\ StronglySorted lt active.
Proof using Type.
  intros Hsub. pose proof (NoDup_seq 0 n) as Hnd.
  assert (NoDup active) as Hna by (by eapply sublist_NoDup).
  assert (forall j, j ∈ active -> (j < n)%nat) as Hlt.
  { intros j Hj. assert (j ∈ seq 0 n) as Hs.
    { eapply elem_of_submseteq; [exact Hj|]. by apply sublist_submseteq. }
    apply elem_of_seq in Hs. lia. }
  split; [done|]. split; [done|]. split.
  - apply NoDup_Permutation; [by apply NoDup_filter|done|]. intros j.
    rewrite list_elem_of_filter, elem_of_seq. split; [tauto|]. intros Hj.
    specialize (Hlt j Hj). split; [done|lia].
  - eapply StronglySorted_sublist; [exact Hsub|]. clear.
    generalize 0%nat as k. induction n as [|m IH]; intros k; simpl; constructor; [apply IH|].
    apply Forall_forall. intros x Hx. apply elem_of_seq in Hx. lia.
Qed.

Lemma sum_split active (f : nat -> Z) :
  active `sublist_of` seq 0 n ->
  sumZ (f <$> seq 0 n) = sumZ (f <$> active) + sumZ (f <$> filter (fun j => j ∉ active) (seq 0 n)).
Proof using Type.
  intros Hsub. destruct (active_facts _ Hsub) as (_ & _ & Hp & _).
  by rewrite (sumZ_filter_split (fun j => j ∈ active) f (seq 0 n)), Hp.
Qed.

Lemma loop_inv_init : loop_inv (replicate n 0) (seq 0 n) cap.
Proof using Hcap.
  split.
  - by rewrite length_replicate.
  - done.
  - intros j Hj. rewrite lookup_replicate_2 by done.
    rewrite decide_True; [done|]. apply elem_of_seq. lia.
  - assert (filter (fun j => j ∉ seq 0 n) (seq 0 n) = []) as ->; [|simpl; lia].
    destruct (filter _ _) as [|x l] eqn:E; [done|].
    assert (x ∈ filter (fun j => j ∉ seq 0 n) (seq 0 n)) as Hx by (rewrite E; left).
    apply list_elem_of_filter in Hx as [? ?]. done.
  - done.
  - intros j Hj Hn. exfalso. apply Hn, elem_of_seq. lia.
Qed.

(** Settling the short results keeps the invariant. *)
Lemma loop_inv_step quotas active remaining :
  active <> [] -> loop_inv quotas active remaining ->
  let share := remaining / Zlen active in
  let short := filter (fun i => L i <= share) active in
  short <> [] ->
  loop_inv (set_all L short quotas) (filter (fun i => i ∉ short) active)
    (remaining - sumZ (L <$> short)) /\
  (length (filter (fun i => i ∉ short) active) < length active)%nat.
Proof using Hlens.
  intros Hne [Hlen Hsub Hq Hsum Hrem Hshare] share short Hshort.
  destruct (active_facts _ Hsub) as (Hnd & Hlt & _ & _).
  assert (0 < Zlen active) as Hpos by (destruct active; [done|rewrite Zlen_cons; pose proof (Zlen_nonneg active); lia]).
  set (rest := filter (fun i => i ∉ short) active).
  assert (forall i, i ∈ short -> i ∈ active /\ L i <= share) as Hsh.
  { intros i Hi. apply list_elem_of_filter in Hi as [? ?]. done. }
  assert (rest `sublist_of` active) as Hrs by apply sublist_filter.
  assert (Zlen active = Zlen short + Zlen rest /\
          sumZ (L <$> active) = sumZ (L <$> short) + sumZ (L <$> rest)) as [Hlens' Hsums].
  { assert (filter (fun i => i ∈ short) active ≡ₚ short) as Hp.
    { apply NoDup_Permutation; [by apply NoDup_filter|by apply NoDup_filter|].
      intros j. rewrite list_elem_of_filter. split; [tauto|]. intros Hj.
      split; [done|]. by apply Hsh. }
    pose proof (sumZ_filter_split (fun i => i ∈ short) L active) as H1.
    pose proof (sumZ_filter_split (fun i => i ∈ short) (fun _ => 1) active) as H2.
    rewrite Hp in H1, H2. fold rest in H1, H2. rewrite !sumZ_const in H2. split; lia. }
  assert (sumZ (L <$> short) <= share * Zlen short) as Hle.
  { rewrite <- sumZ_const. apply sumZ_le. intros i Hi. by apply Hsh. }
  assert (share * Zlen active <= remaining) as Hdiv.
  { unfold share. rewrite Z.mul_comm. apply Z.mul_div_le. lia. }
  assert (0 <= share) as Hsn by (apply Z.div_pos; lia).
  pose proof (Zlen_nonneg rest) as Hrn.
  assert (remaining - sumZ (L <$> short) >= share * Zlen rest) as Hge by nia.
  split; [split|].
  - by rewrite length_set_all.
  - by etransitivity.
  - intros j Hj. rewrite set_all_lookup by lia. rewrite Hq by done.
    assert (j ∈ rest <-> j ∈ active /\ j ∉ short) as Hr
      by (unfold rest; rewrite list_elem_of_filter; tauto).
    destruct (decide (j ∈ short)) as [Hs|Hs].
    + rewrite decide_False by tauto. done.
    + f_equal. destruct (decide (j ∈ active)), (decide (j ∈ rest)); tauto.
  - pose proof (sum_split active L Hsub) as S1.
    assert (rest `sublist_of` seq 0 n) as Hrs' by (by etransitivity).
    pose proof (sum_split rest L Hrs') as S2. lia.
  - nia.
  - intros j Hj Hn. destruct (decide (j ∈ active)) as [Ha|Ha].
    + assert (j ∈ short) as Hs.
      { destruct (decide (j ∈ short)); [done|]. exfalso. apply Hn.
        unfold rest. by apply list_elem_of_filter. }
      destruct (Hsh j Hs) as [_ Hjs].
      pose proof (Z.mul_le_mono_nonneg_r _ _ (Zlen rest) Hrn Hjs). lia.
    + specialize (Hshare j Hj Ha). assert (L j <= share) as Hjs.
      { apply Z.div_le_lower_bound; [lia|]. lia. }
      pose proof (Z.mul_le_mono_nonneg_r _ _ (Zlen rest) Hrn Hjs). lia.
  - assert (0 < Zlen short).
    { destruct short as [|x l]; [done|]. rewrite Zlen_cons. pose proof (Zlen_nonneg l). lia. }
    unfold Zlen in *. lia.
Qed.

(** When every unsettled result is longer than the share, the share and the
    first [remainder] extra characters close the fill. *)
Lemma loop_inv_final quotas active remaining :
  active <> [] -> loop_inv quotas active remaining ->
  let share := remaining / Zlen active in
  filter (fun i => L i <= share) active = [] ->
  filled lengths cap
    (set_all (fun _ => share + 1) (take (Z.to_nat (remaining - share * Zlen active)) active)
       (set_all (fun _ => share) active quotas)).
Proof using Hlens.
  intros Hne [Hlen Hsub Hq Hsum Hrem Hshare] share Hshort.
  destruct (active_facts _ Hsub) as (Hnd & Hlt & _ & Hsorted).
  assert (0 < Zlen active) as Hpos by (destruct active; [done|rewrite Zlen_cons; pose proof (Zlen_nonneg active); blia]).
  set (extra := take _ active). set (quotas' := set_all _ extra _).
  assert (forall i, i ∈ active -> share + 1 <= L i) as Hlong.
  { intros i Hi. destruct (decide (L i <= share)) as [Hs|]; [|blia].
    assert (i ∈ []) as Hf by (rewrite <- Hshort; by apply list_elem_of_filter).
    by apply elem_of_nil in Hf. }
  pose proof (Z.div_mod remaining (Zlen active) ltac:(blia)) as Hdm.
  pose proof (Z.mod_pos_bound remaining (Zlen active) Hpos) as Hmod.
  fold share in Hdm.
  assert (0 <= share) as Hsn by (apply Z.div_pos; blia).
  assert (Zlen extra = remaining - share * Zlen active) as Hextra.
  { unfold extra, Zlen in *. rewrite length_take. blia. }
  set (Q := fun j => if decide (j ∈ extra) then share + 1 else if decide (j ∈ active) then share else L j).
  assert (forall j, (j < n)%nat -> quotas' !! j = Some (Q j)) as HQ.
  { intros j Hj. unfold quotas'. rewrite set_all_lookup by (rewrite length_set_all; blia).
    rewrite set_all_lookup by blia. rewrite Hq by done. unfold Q. repeat case_decide; done. }
  assert (forall j, j ∈ extra -> j ∈ active) as Hea.
  { intros j Hj. eapply elem_of_submseteq; [exact Hj|]. apply sublist_submseteq, sublist_take. }
  assert (length quotas' = n) as Hlen' by (unfold quotas'; by rewrite !length_set_all).
  assert (forall i q l, quotas' !! i = Some q -> lengths !! i = Some l ->
            q = Q i /\ l = L i /\ (i < n)%nat) as Hread.
  { intros i q l Hi Hl. pose proof (lookup_lt_Some _ _ _ Hl) as Hi'. rewrite HQ in Hi by done.
    split; [congruence|]. split; [|done]. symmetry. by apply list_lookup_total_correct. }
  split.
  - done.
  - intros i q l Hi Hl. destruct (Hread _ _ _ Hi Hl) as (-> & -> & Hin).
    pose proof (L_nonneg i). unfold Q. repeat case_decide; [| |blia].
    + specialize (Hlong i (Hea i ltac:(done))). blia.
    + specialize (Hlong i ltac:(done)). blia.
  - rewrite (sumZ_positions quotas'), (sumZ_positions lengths), Hlen'.
    rewrite (sumZ_ext _ Q).
    2: { intros j Hj. apply elem_of_seq in Hj. apply list_lookup_total_correct, HQ. blia. }
    rewrite (sum_split active Q Hsub), (sum_split active L Hsub).
    assert (sumZ (Q <$> filter (fun j => j ∉ active) (seq 0 n)) =
            sumZ (L <$> filter (fun j => j ∉ active) (seq 0 n))) as ->.
    { apply sumZ_ext. intros j [Hj _]%list_elem_of_filter. unfold Q.
      rewrite !decide_False; [done|done|]. intros He. by apply Hj, Hea. }
    assert (sumZ (Q <$> active) = remaining) as ->.
    { rewrite (sumZ_filter_split (fun j => j ∈ extra)).
      assert (filter (fun j => j ∈ extra) active ≡ₚ extra) as Hp.
      { apply NoDup_Permutation; [by apply NoDup_filter| |].
        - eapply sublist_NoDup; [exact Hnd|]. apply sublist_take.
        - intros j. rewrite list_elem_of_filter. split; [tauto|]. auto. }
      pose proof (sumZ_filter_split (fun j => j ∈ extra) (fun _ => 1) active) as H2.
      rewrite (sumZ_ext Q (fun _ => share + 1)).
      2: { intros j [Hj _]%list_elem_of_filter. unfold Q. by rewrite decide_True. }
      rewrite (sumZ_ext Q (fun _ => share)).
      2: { intros j [Hj Ha]%list_elem_of_filter. unfold Q. rewrite decide_False, decide_True; done. }
      rewrite Hp in H2 |- *. rewrite !sumZ_const. do 3 rewrite sumZ_const in H2. cbv beta in *.
      set (others := filter (fun x => x ∉ extra) active) in *.
      replace (Zlen others) with (Zlen active - Zlen extra) by lia. rewrite Hextra. ring. }
    assert (sumZ ((fun _ => share + 1) <$> active) <= sumZ (L <$> active)) as Hge by (by apply sumZ_le).
    rewrite sumZ_const in Hge. blia.
  - intros i j q q' l Hi Hl Hql Hj. destruct (Hread _ _ _ Hi Hl) as (-> & -> & Hin).
    pose proof (lookup_lt_Some _ _ _ Hj) as Hjn. rewrite HQ in Hj by blia. injection Hj as <-.
    assert (i ∈ active) as Hia.
    { unfold Q in Hql. repeat case_decide; [by apply Hea|done|blia]. }
    assert (share <= Q i) as Hsi by (unfold Q; repeat case_decide; [blia|blia|done]).
    enough (Q j <= share + 1) by blia. unfold Q. repeat case_decide; [blia|blia|].
    enough (L j <= share) by blia. apply Z.div_le_lower_bound; [blia|].
    rewrite Z.mul_comm. apply Hshare; [blia|done].
  - intros i j q q' l l' Hij Hi Hl Hql Hj Hl' Hql'.
    destruct (Hread _ _ _ Hi Hl) as (-> & -> & Hin). destruct (Hread _ _ _ Hj Hl') as (-> & -> & Hjn).
    assert (i ∈ active) as Hia.
    { unfold Q in Hql. repeat case_decide; [by apply Hea|done|blia]. }
    assert (j ∈ active) as Hja.
    { unfold Q in Hql'. repeat case_decide; [by apply Hea|done|blia]. }
    unfold Q. destruct (decide (j ∈ extra)) as [Hje|Hje].
    + rewrite (decide_True (P := i ∈ extra)); [blia|].
      by apply (take_closed _ _ i j).
    + repeat case_decide; try done; blia.
Qed.

(** With the whole budget handed out, every result holds its full length. *)
Lemma loop_inv_done quotas remaining :
  loop_inv quotas [] remaining -> filled lengths cap quotas.
Proof using Hcap Hlens.
  intros [Hlen Hsub Hq Hsum Hrem Hshare].
  assert (quotas = lengths) as ->.
  { apply list_eq. intros j. destruct (decide (j < n)%nat) as [Hj|Hj].
    - rewrite Hq by done. rewrite decide_False by apply not_elem_of_nil.
      symmetry. by apply list_lookup_lookup_total_lt.
    - rewrite !lookup_ge_None_2 by lia. done. }
  pose proof (sum_split [] L Hsub) as Hs. rewrite <- (sumZ_positions lengths) in Hs.
  assert (remaining + sumZ lengths = cap) as Hb by (rewrite Hs; exact Hsum).
  clear Hs Hsum. split; try (intros; simplify_eq; lia).
  intros i q l Hi Hl. simplify_eq. rewrite Forall_forall in Hlens.
  assert (0 <= q); [|lia]. eapply Hlens, list_elem_of_lookup_2; eauto.
Qed.

Lemma quotas_loop_filled fuel quotas active remaining :
  (length active < fuel)%nat -> loop_inv quotas active remaining ->
  filled lengths cap (quotas_loop fuel lengths quotas active remaining).
Proof using Hcap Hlens.
  revert quotas active remaining. induction fuel as [|fuel IH]; intros quotas active remaining Hf Hi;
    [lia|].
  destruct (decide (active = [])) as [->|Hne]; [by eapply loop_inv_done|].
  pose proof (loop_inv_step quotas active remaining Hne Hi) as Hstep.
  pose proof (loop_inv_final quotas active remaining Hne Hi) as Hfin.
  assert (quotas_loop (S fuel) lengths quotas active remaining =
    let share := remaining / Zlen active in
    let short := filter (fun i => lengths !!! i <= share) active in
    match short with
    | [] => set_all (fun _ => share + 1) (take (Z.to_nat (remaining - share * Zlen active)) active)
              (set_all (fun _ => share) active quotas)
    | _ => quotas_loop fuel lengths (set_all L short quotas)
             (filter (fun i => i ∉ short) active) (remaining - sumZ (L <$> short))
    end) as -> by (destruct active; done).
  cbv zeta beta in *. revert Hstep Hfin. destruct (filter (fun i => lengths !!! i <= remaining / Zlen active) active)
    as [|x short] eqn:E.
  - intros _ Hfin. by apply Hfin.
  - intros Hstep _. destruct Hstep as [Hi' Hl]; [done|]. apply IH; [lia|done].
Qed.
End Fill.

Lemma result_quotas_filled lengths cap :
  Forall (fun l => 0 <= l) lengths -> 0 <= cap ->
  filled lengths cap (result_quotas lengths cap).
Proof.
  intros Hl Hc. apply quotas_loop_filled; [done|done|rewrite length_seq; lia|by apply loop_inv_init].
Qed.

(** ** A batch's quotas *)

Abbreviation put_all := (foldl (fun (q : list Z) (iq : nat * Z) => <[iq.1 := iq.2]> q)).

Lemma length_put_all q iqs : length (put_all q iqs) = length q.
Proof. revert q. induction iqs as [|iq iqs IH]; intros q; simpl; [done|]. by rewrite IH, length_insert. Qed.

Lemma put_all_other ixs qs q j : j ∉ ixs -> put_all q (zip ixs qs) !! j = q !! j.
Proof.
  revert qs q. induction ixs as [|i ixs IH]; intros [|x qs] q Hj; simpl; try done.
  rewrite IH by set_solver. apply list_lookup_insert_ne. set_solver.
Qed.

Lemma put_all_at ixs qs q k j x :
  NoDup ixs -> (forall i, i ∈ ixs -> (i < length q)%nat) ->
  ixs !! k = Some j -> qs !! k = Some x -> put_all q (zip ixs qs) !! j = Some x.
Proof.
  revert qs q k. induction ixs as [|i ixs IH]; intros [|y qs] q [|k] Hnd Hin Hk Hx; simpl in *;
    simplify_eq; apply NoDup_cons in Hnd as [Hi Hnd].
  - rewrite put_all_other by done. apply list_lookup_insert_eq. apply Hin. left.
  - eapply IH; [done| |done|done]. intros i' Hi'. rewrite length_insert. apply Hin. by right.
Qed.

Section Batch.
Context (contents : list pystr) (policies : list (option ResultBudget)) (batch_cap : Z).
Context (Hlen : length policies = length contents) (Hcap : 0 <= batch_cap).

Definition len_at (i : nat) : Z := Zlen (default [] (contents !! i)).
Definition extra_at (i : nat) : Z :=
  match default None (policies !! i) with Some p => extra_batch_budget p | None => 0 end.

(** The budget of the batch and what its atomic results take out of it. *)
Definition batch_budget : Z := batch_cap + sumZ (extra_at <$> atomic_indexes policies).
Definition batch_reserved : Z := sumZ (len_at <$> atomic_indexes policies).

Lemma elem_atomic i :
  i ∈ atomic_indexes policies <-> (i < length policies)%nat /\ is_atomic (default None (policies !! i)) = true.
Proof using Type.
  clear. unfold atomic_indexes. rewrite list_elem_of_filter, elem_of_seq. split; intros [? ?]; split; done || lia.
Qed.

Lemma lens_nonneg (ixs : list nat) : Forall (fun l => 0 <= l) (len_at <$> ixs).
Proof using Type. apply Forall_forall. intros x (i & -> & _)%list_elem_of_fmap. apply Zlen_nonneg. Qed.

Record fair_batch (quotas : list Z) : Prop := {
  fb_length : length quotas = length contents;
  fb_atomic : forall i, i ∈ atomic_indexes policies -> quotas !! i = Some (len_at i);
  fb_bounds : forall i q, quotas !! i = Some q -> 0 <= q <= len_at i;
  fb_total : sumZ quotas <= Z.max batch_budget batch_reserved;
}.

Lemma batch_quotas_no_atomic :
  atomic_indexes policies = [] -> fair_batch (result_quotas (Zlen <$> contents) batch_cap).
Proof using Hcap.
  clear Hlen. intros Hna.
  assert (Forall (fun l => 0 <= l) (Zlen <$> contents)) as Hnn.
  { apply Forall_forall. intros x (c & -> & _)%list_elem_of_fmap. apply Zlen_nonneg. }
  destruct (result_quotas_filled _ _ Hnn Hcap) as [H1 H2 H3 _ _].
  rewrite length_fmap in H1. split.
  - done.
  - rewrite Hna. intros i Hi. by apply elem_of_nil in Hi.
  - intros i q Hq. pose proof (lookup_lt_Some _ _ _ Hq) as Hi. rewrite H1 in Hi.
    apply lookup_lt_is_Some_2 in Hi as [c Hc]. unfold len_at. rewrite Hc. simpl.
    eapply H2; [exact Hq|]. by rewrite list_lookup_fmap, Hc.
  - rewrite H3. unfold batch_budget, batch_reserved. rewrite Hna. simpl. lia.
Qed.

Lemma batch_quotas_fair : fair_batch (batch_quotas contents policies batch_cap).
Proof using Hlen Hcap.
  destruct (decide (atomic_indexes policies = [])) as [Hna|Hna].
  { unfold batch_quotas. rewrite Hna. by apply batch_quotas_no_atomic. }
  set (atomic := atomic_indexes policies) in *.
  set (shared := filter (fun i => i ∉ atomic) (seq 0 (length contents))).
  set (sq := result_quotas (len_at <$> shared) (Z.max 0 (batch_budget - batch_reserved))).
  set (base := set_all len_at atomic (replicate (length contents) 0)).
  assert (batch_quotas contents policies batch_cap = put_all base (zip shared sq)) as ->.
  { unfold sq, shared, base, batch_quotas, batch_budget, batch_reserved. fold atomic.
    clearbody atomic. clear sq shared base. by destruct atomic. }
  assert (length base = length contents) as Hb
    by (unfold base; rewrite length_set_all; apply length_replicate).
  assert (NoDup shared) as Hnd by (apply NoDup_filter, NoDup_seq).
  assert (forall i, i ∈ shared -> (i < length base)%nat) as Hin.
  { intros i [_ Hi]%list_elem_of_filter. apply elem_of_seq in Hi. lia. }
  assert (forall i, i ∈ atomic -> (i < length contents)%nat) as Hain.
  { intros i Hi. apply elem_atomic in Hi. lia. }
  destruct (result_quotas_filled (len_at <$> shared) (Z.max 0 (batch_budget - batch_reserved))
              (lens_nonneg shared) ltac:(lia)) as [S1 S2 S3 _ _]. fold sq in S1, S2, S3.
  rewrite length_fmap in S1.
  assert (forall i, i ∈ atomic -> put_all base (zip shared sq) !! i = Some (len_at i)) as Hat.
  { intros i Hi. rewrite put_all_other.
    - unfold base. rewrite set_all_lookup by (rewrite length_replicate; auto). by rewrite decide_True.
    - by intros [Hni _]%list_elem_of_filter. }
  assert (forall k i, shared !! k = Some i ->
    exists q, sq !! k = Some q /\ put_all base (zip shared sq) !! i = Some q) as Hsh.
  { intros k i Hk. destruct (lookup_lt_is_Some_2 sq k) as [q Hq].
    { rewrite S1. by eapply lookup_lt_Some. }
    exists q. split; [done|]. by eapply put_all_at. }
  assert (length (put_all base (zip shared sq)) = length contents) as Hfl by (by rewrite length_put_all).
  split.
  - done.
  - done.
  - intros i q Hq. pose proof (lookup_lt_Some _ _ _ Hq) as Hi. rewrite Hfl in Hi.
    destruct (decide (i ∈ atomic)) as [Ha|Ha].
    + rewrite Hat in Hq by done. injection Hq as <-. unfold len_at.
      pose proof (Zlen_nonneg (default [] (contents !! i))). lia.
    + assert (i ∈ shared) as Hs by (apply list_elem_of_filter; split; [done|apply elem_of_seq; lia]).
      apply list_elem_of_lookup in Hs as [k Hk]. destruct (Hsh k i Hk) as (q' & Hk' & Hi').
      rewrite Hq in Hi'. injection Hi' as <-. eapply S2; [exact Hk'|].
      by rewrite list_lookup_fmap, Hk.
  - rewrite sumZ_positions, Hfl, (sumZ_filter_split (fun i => i ∈ atomic)).
    set (R := put_all base (zip shared sq)) in *.
    assert ((fun i => R !!! i) <$> shared = sq) as Hshq.
    { apply list_eq. intros k. rewrite list_lookup_fmap. destruct (shared !! k) as [i|] eqn:Ek; simpl.
      - destruct (Hsh k i Ek) as (q & -> & Hi). f_equal. by apply list_lookup_total_correct.
      - symmetry. apply lookup_ge_None in Ek. apply lookup_ge_None. lia. }
    assert (filter (fun i => i ∈ atomic) (seq 0 (length contents)) ≡ₚ atomic) as Hp.
    { apply NoDup_Permutation; [apply NoDup_filter, NoDup_seq|apply NoDup_filter, NoDup_seq|].
      intros i. rewrite list_elem_of_filter, elem_of_seq. split; [tauto|]. intros Hi.
      pose proof (Hain i Hi). split; [done|lia]. }
    rewrite Hp. rewrite (sumZ_ext _ len_at).
    2: { intros i Hi. apply list_lookup_total_correct. by apply Hat. }
    fold shared. rewrite Hshq, S3.
    pose proof (sumZ_nonneg _ (lens_nonneg shared)). unfold batch_reserved. fold atomic. lia.
Qed.
End Batch.

(** ** Normalised batches *)

Lemma Zlen_truncate c cap marker :
  0 <= cap -> Zlen (truncate_result_content c cap marker) = Z.min (Zlen c) cap.
Proof.
  intros Hcap. unfold truncate_result_content. case_goal; bools; [lia|]. case_goal; bools.
  - unfold Zlen in *. rewrite length_take. lia.
  - rewrite Zlen_app. unfold Zlen in *. rewrite length_take. lia.
Qed.

Lemma truncate_fits c cap marker : Zlen c <= cap -> truncate_result_content c cap marker = c.
Proof. intros H. unfold truncate_result_content. by rewrite (proj2 (Z.leb_le _ _) H). Qed.

Lemma assoc_elem {A} (l : list (string * A)) k v : assoc l k = Some v -> (k, v) ∈ l.
Proof.
  unfold assoc. intros (kv & H & ->)%fmap_Some. apply List.find_some in H as [Hin Hk].
  bools. destruct kv as [k' v]. simpl in *. subst. by apply list_elem_of_In.
Qed.

Section Normalized.
Context (repr : pyval -> pystr) (env : string -> option pystr).

Lemma int_env_pos name d : 0 < d -> 0 < int_env env name d.
Proof using Type. intros Hd. unfold int_env. repeat case_goal; bools; lia. Qed.

Lemma for_tool_bounds name p :
  for_tool env name = Some p -> 0 < result_cap p /\ 0 <= extra_batch_budget p.
Proof using Type.
  unfold for_tool. destruct (assoc MEMORY_RESULT_CAPS name) as [cap|] eqn:Ea.
  - intros [= <-]. apply assoc_elem in Ea. simpl.
    assert (Forall (fun kv => 0 < kv.2) MEMORY_RESULT_CAPS) as H by decided.
    rewrite Forall_forall in H. specialize (H _ Ea). simpl in H. lia.
  - repeat (destruct (String.eqb _ _); [intros [= <-]; split; [apply int_env_pos; lia|simpl; lia]|]).
    done.
Qed.

Lemma policy_bounds r p :
  policy_of repr env r = Some p -> 0 < result_cap p /\ 0 <= extra_batch_budget p.
Proof using Type.
  unfold policy_of, for_metadata. destruct (metadata r) as [md|]; [|done].
  case_goal; [apply for_tool_bounds|done].
Qed.

Lemma guard_policy r : policy_of repr env (guard_overflow repr env r) = policy_of repr env r.
Proof using Type.
  unfold guard_overflow. destruct (policy_of repr env r) as [p|] eqn:E; [|done].
  case_goal; [|done]. unfold policy_of in *. simpl. done.
Qed.

Definition atomic_at (results : list ToolResult) (i : nat) : bool :=
  is_atomic (default None ((policy_of repr env <$> results) !! i)).

(** The content an atomic result reaches the model with. *)
Lemma atomic_capped per r p :
  policy_of repr env r = Some p -> atomic_json p = true ->
  Zlen OVERFLOW_RESULT_CONTENT <= result_cap p ->
  individually_capped repr env per (guard_overflow repr env r) =
  if result_cap p <? Zlen (content r) then OVERFLOW_RESULT_CONTENT else content r.
Proof using Type.
  intros Hp Ha Hmin. unfold individually_capped. rewrite guard_policy, Hp.
  unfold guard_overflow. rewrite Hp, Ha. simpl.
  destruct (result_cap p <? Zlen (content r)) eqn:E; bools; by apply truncate_fits.
Qed.

Section Batch.
Context (results : list ToolResult) (per_result_cap batch_cap : Z).
Context (Hper : 0 <= per_result_cap) (Hbatch : 0 <= batch_cap).
Context (Hmin : forall r p, r ∈ results -> policy_of repr env r = Some p ->
                 atomic_json p = true -> Zlen OVERFLOW_RESULT_CONTENT <= result_cap p).

Local Abbreviation policies := (policy_of repr env <$> results).
Local Abbreviation cap_one r := (individually_capped repr env per_result_cap (guard_overflow repr env r)).
Local Abbreviation capped := (individually_capped repr env per_result_cap <$> (guard_overflow repr env <$> results)).
Local Abbreviation out := (normalize_tool_results repr env results per_result_cap batch_cap).
Local Abbreviation quotas := (batch_quotas capped policies batch_cap).

Lemma quotas_fair : fair_batch capped policies batch_cap quotas.
Proof using Hbatch. apply batch_quotas_fair; [|done]. by rewrite !length_fmap. Qed.

Lemma length_out : length out = length results.
Proof using Hbatch.
  destruct quotas_fair as [Hl _ _ _]. rewrite !length_fmap in Hl.
  unfold normalize_tool_results. cbv zeta.
  rewrite length_zip_with, length_zip_with, !length_fmap, Hl. lia.
Qed.

(** Every output is the capped input cut to its quota, which never exceeds the
    capped length: its length is the quota. *)
Lemma out_at i r :
  results !! i = Some r -> exists q,
    quotas !! i = Some q /\ 0 <= q <= Zlen (cap_one r) /\
    out !! i = Some (mkResult (call_id r)
                       (truncate_result_content (cap_one r) q (marker_of repr (guard_overflow repr env r)))
                       (metadata r)).
Proof using Hbatch.
  intros Hr. destruct quotas_fair as [Hl _ Hb _]. rewrite !length_fmap in Hl.
  destruct (lookup_lt_is_Some_2 quotas i) as [q Hq].
  { rewrite Hl. by eapply lookup_lt_Some. }
  exists q. split; [done|]. split.
  - pose proof (Hb _ _ Hq) as H. unfold len_at in H. by rewrite !list_lookup_fmap, Hr in H.
  - unfold normalize_tool_results. cbv zeta.
    rewrite lookup_zip_with, list_lookup_fmap, Hr. simpl.
    rewrite lookup_zip_with, !list_lookup_fmap, Hr. simpl. rewrite Hq. simpl. do 2 f_equal.
    + unfold guard_overflow. by repeat case_goal.
    + unfold guard_overflow. by repeat case_goal.
Qed.

Lemma out_lengths : Zlen ∘ content <$> out = quotas.
Proof using Hbatch.
  destruct quotas_fair as [Hl _ _ _]. rewrite !length_fmap in Hl.
  apply list_eq. intros i. rewrite list_lookup_fmap. destruct (results !! i) as [r|] eqn:Hr.
  - destruct (out_at i r Hr) as (q & Hq & Hb & Ho). rewrite Ho, Hq. simpl. f_equal.
    rewrite Zlen_truncate by lia. lia.
  - apply lookup_ge_None in Hr. rewrite !lookup_ge_None_2; [done|lia|rewrite length_out; lia].
Qed.

Lemma out_atomic i r p o :
  results !! i = Some r -> out !! i = Some o ->
  policy_of repr env r = Some p -> atomic_json p = true ->
  content o = cap_one r /\
  content o = if result_cap p <? Zlen (content r) then OVERFLOW_RESULT_CONTENT else content r.
Proof using Hbatch Hmin.
  intros Hr Ho Hp Ha. destruct (out_at i r Hr) as (q & Hq & Hb & Ho').
  rewrite Ho in Ho'. injection Ho' as ->. simpl.
  destruct quotas_fair as [_ Hat _ _].
  assert (q = Zlen (cap_one r)) as ->.
  { assert (quotas !! i = Some (len_at capped i)) as H.
    { apply Hat. apply elem_atomic. rewrite length_fmap, list_lookup_fmap, Hr. simpl.
      rewrite Hp. simpl. split; [by eapply lookup_lt_Some|done]. }
    rewrite Hq in H. injection H as ->. unfold len_at. by rewrite !list_lookup_fmap, Hr. }
  rewrite truncate_fits by done. split; [done|]. apply atomic_capped; [done|done|].
  eapply Hmin; [by eapply list_elem_of_lookup_2|done|done].
Qed.

Lemma out_reserved : batch_reserved (content <$> out) policies = batch_reserved capped policies.
Proof using Hbatch Hmin.
  unfold batch_reserved. apply sumZ_ext. intros i Hi. apply elem_atomic in Hi as [Hi Ha].
  rewrite length_fmap in Hi. apply lookup_lt_is_Some_2 in Hi as [r Hr].
  rewrite list_lookup_fmap, Hr in Ha. simpl in Ha.
  destruct (policy_of repr env r) as [p|] eqn:Hp; [|done].
  destruct (out_at i r Hr) as (q & _ & _ & Ho).
  destruct (out_atomic i r p _ Hr Ho Hp Ha) as [Hc _].
  unfold len_at. rewrite !list_lookup_fmap, Ho, Hr. simpl. simpl in Hc. by rewrite Hc.
Qed.
End Batch.
End Normalized.

(** ** What the model receives *)

(** The results of one tool round as they are appended to the conversation. *)
Record normalized (repr : pyval -> pystr) (env : string -> option pystr)
    (results : list ToolResult) (per_result_cap batch_cap : Z) (out : list ToolResult) : Prop := {
  nz_calls : call_id <$> out = call_id <$> results;
  nz_atomic : forall i r p o,
    results !! i = Some r -> out !! i = Some o ->
    policy_of repr env r = Some p -> atomic_json p = true ->
    content o = if result_cap p <? Zlen (content r) then OVERFLOW_RESULT_CONTENT else content r;
  nz_shared : forall i r o,
    results !! i = Some r -> out !! i = Some o -> is_atomic (policy_of repr env r) = false ->
    Zlen (content o) <=
      Z.min (Zlen (content r))
            (match policy_of repr env r with Some p => result_cap p | None => per_result_cap end);
  nz_total :
    sumZ (Zlen ∘ content <$> out) <=
    Z.max (batch_budget (policy_of repr env <$> results) batch_cap)
          (batch_reserved (content <$> out) (policy_of repr env <$> results));
}.

(** A round's tool results keep their calls and order; an atomic result
    reaches the model whole or as the fixed over-budget error, never as a cut
    JSON; any other is at most its own cap; and the total stays within the
    batch budget plus the atomic results' extras unless the atomic results
    alone exceed it. *)
Theorem normalize_tool_results_sound repr env results per_result_cap batch_cap :
  0 <= per_result_cap -> 0 <= batch_cap ->
  (forall r p, r ∈ results -> policy_of repr env r = Some p -> atomic_json p = true ->
     Zlen OVERFLOW_RESULT_CONTENT <= result_cap p) ->
  normalized repr env results per_result_cap batch_cap
    (normalize_tool_results repr env results per_result_cap batch_cap).
Proof.
  intros Hper Hbatch Hmin. split.
  - apply list_eq. intros i. rewrite !list_lookup_fmap. destruct (results !! i) as [r|] eqn:Hr.
    + destruct (out_at repr env results per_result_cap batch_cap Hbatch i r Hr) as (q & _ & _ & ->). done.
    + apply lookup_ge_None in Hr. rewrite lookup_ge_None_2; [done|]. by rewrite length_out.
  - intros i r p o Hr Ho Hp Ha. by eapply out_atomic.
  - intros i r o Hr Ho Ha.
    destruct (out_at repr env results per_result_cap batch_cap Hbatch i r Hr) as (q & _ & Hb & Ho').
    rewrite Ho in Ho'. injection Ho' as ->. simpl. rewrite Zlen_truncate by lia.
    unfold individually_capped in *. rewrite guard_policy in *.
    assert (guard_overflow repr env r = r) as Hg.
    { unfold guard_overflow. destruct (policy_of repr env r) as [p|]; [|done].
      simpl in Ha. by rewrite Ha. }
    rewrite Hg in *. destruct (policy_of repr env r) as [p|] eqn:Hp.
    + destruct (policy_bounds repr env r p Hp). rewrite Zlen_truncate in * by lia. lia.
    + rewrite Zlen_truncate in * by lia. lia.
  - rewrite out_lengths, out_reserved by done.
    by destruct (quotas_fair repr env results per_result_cap batch_cap Hbatch).
Qed.

(** A round with one history search, one long plain result and one small one. *)
Definition sample_kind (k : string) : option row := Some {[ RESULT_KIND_METADATA_KEY := PStr (u k) ]}.
Definition sample_round : list ToolResult :=
  [mkResult (u "a") (replicate 40 120%N) (sample_kind "history_search");
   mkResult (u "b") (replicate 90 121%N) None;
   mkResult (u "c") (replicate 5 122%N) None].

Definition no_env : string -> option pystr := fun _ => None.
Definition no_repr : pyval -> pystr := fun _ => [].

Lemma normalize_tool_results_sound_witness :
  normalized no_repr no_env sample_round 50 80
    (normalize_tool_results no_repr no_env sample_round 50 80).
Proof.
  apply normalize_tool_results_sound; [lia|lia|].
  intros r p Hr Hp Ha. repeat (apply elem_of_cons in Hr as [->|Hr]).
  - apply (f_equal (fun o => match o with Some p => result_cap p | None => 0 end)) in Hp.
    transitivity 1800; [decided|]. apply Z.eq_le_incl. rewrite <- Hp. vm_compute. reflexivity.
  - vm_compute in Hp. discriminate Hp.
  - vm_compute in Hp. discriminate Hp.
  - by apply elem_of_nil in Hr.
Defined.

(** C37: the water-fill gives every result between nothing and its length, hands
    out exactly the budget (or everything, when it fits), leaves no cut result
    more than one character below any other, and gives the odd characters to
    the earlier results. *)
Theorem result_quotas_water_fill lengths batch_cap :
  Forall (fun l => 0 <= l) lengths -> 0 <= batch_cap ->
  filled lengths batch_cap (result_quotas lengths batch_cap).
Proof. apply result_quotas_filled. Qed.

Lemma result_quotas_water_fill_witness :
  filled [10; 3; 50; 50] 60 (result_quotas [10; 3; 50; 50] 60).
Proof. apply result_quotas_water_fill; [decided|lia]. Defined.

(** ** The start-up validation *)

Lemma check_policies_each env cap names n p :
  check_policies env cap names = Return tt -> n ∈ names -> for_tool env n = Some p ->
  check_policy cap n p = Return tt.
Proof.
  intros H Hn Hp. revert H. induction Hn as [n names|n m names Hn IH]; simpl.
  - rewrite Hp. intros ([] & H & _)%bind_return. done.
  - destruct (for_tool env m); [|by apply IH]. intros ([] & _ & H)%bind_return. by apply IH.
Qed.

Lemma dict_keys_elem seen names n : n ∈ names -> n ∉ seen -> n ∈ dict_keys seen names.
Proof.
  revert seen. induction names as [|m names IH]; intros seen Hn Hs; [by apply elem_of_nil in Hn|].
  simpl. case_bool_decide as Hm.
  - apply elem_of_cons in Hn as [->|Hn]; [done|]. by apply IH.
  - destruct (decide (n = m)) as [->|Hne]; [left|]. right. apply IH; set_solver.
Qed.

Lemma validated_policy env batch_cap names n p :
  validate_result_caps env batch_cap names = Return tt -> n ∈ names -> for_tool env n = Some p ->
  atomic_json p = true ->
  Zlen OVERFLOW_RESULT_CONTENT <= result_cap p <= batch_cap + extra_batch_budget p.
Proof.
  unfold validate_result_caps. intros ([] & H & _)%bind_return Hn Hp Ha.
  assert (n ∈ dict_keys [] names) as Hd by (apply dict_keys_elem; [done|apply not_elem_of_nil]).
  pose proof (check_policies_each _ _ _ _ _ H Hd Hp) as Hc. revert Hc. unfold check_policy.
  case_goal; [done|]. destruct (assoc MIN_RESULT_CAPS n) as [m|] eqn:Em; [|done].
  rewrite Ha. simpl. repeat case_goal; [done|done|]. intros _. bools.
  assert (Forall (fun kv => Zlen OVERFLOW_RESULT_CONTENT <= kv.2) MIN_RESULT_CAPS) as Hmin by decided.
  rewrite Forall_forall in Hmin. specialize (Hmin _ (assoc_elem _ _ _ Em)). simpl in Hmin. lia.
Qed.

(** With caps that start-up validation accepted, a round that carries one
    atomic result of a live tool never exceeds the batch budget, and that result
    reaches the model whole whenever it is within its own cap. *)
Theorem validated_round_fits repr env results per_result_cap batch_cap names i r n p :
  validate_result_caps env batch_cap names = Return tt ->
  0 <= per_result_cap -> 0 <= batch_cap ->
  atomic_indexes (policy_of repr env <$> results) = [i] ->
  results !! i = Some r -> n ∈ names ->
  for_tool env n = Some p -> policy_of repr env r = Some p ->
  let out := normalize_tool_results repr env results per_result_cap batch_cap in
  sumZ (Zlen ∘ content <$> out) <= batch_cap + extra_batch_budget p /\
  (Zlen (content r) <= result_cap p -> content <$> out !! i = Some (content r)).
Proof.
  intros Hv Hper Hbatch Hone Hr Hn Hp Hpr out.
  assert (atomic_json p = true) as Ha.
  { assert (i ∈ atomic_indexes (policy_of repr env <$> results)) as Hi by (rewrite Hone; left).
    apply elem_atomic in Hi as [_ Hi]. by rewrite list_lookup_fmap, Hr in Hi; simpl in Hi; rewrite Hpr in Hi. }
  destruct (validated_policy _ _ _ _ _ Hv Hn Hp Ha) as [Hlo Hhi].
  assert (forall r' p', r' ∈ results -> policy_of repr env r' = Some p' -> atomic_json p' = true ->
            Zlen OVERFLOW_RESULT_CONTENT <= result_cap p') as Hmin.
  { intros r' p' [j Hj]%list_elem_of_lookup Hp' Ha'.
    assert (j ∈ atomic_indexes (policy_of repr env <$> results)) as Hi.
    { apply elem_atomic. rewrite length_fmap, list_lookup_fmap, Hj. simpl. rewrite Hp'.
      split; [by eapply lookup_lt_Some|done]. }
    rewrite Hone in Hi. apply list_elem_of_singleton in Hi as ->.
    rewrite Hr in Hj. injection Hj as <-. by rewrite Hpr in Hp'; injection Hp' as <-. }
  destruct (out_at repr env results per_result_cap batch_cap Hbatch i r Hr) as (q & _ & _ & Ho).
  destruct (out_atomic repr env results per_result_cap batch_cap Hbatch Hmin i r p _ Hr Ho Hpr Ha) as [_ Hc].
  fold out in Ho. split.
  - unfold out. rewrite out_lengths by done.
    destruct (quotas_fair repr env results per_result_cap batch_cap Hbatch) as [_ _ _ Ht].
    rewrite <- (out_reserved repr env results per_result_cap batch_cap Hbatch Hmin) in Ht. fold out in Ht.
    unfold batch_budget, batch_reserved in Ht. rewrite Hone in Ht. simpl in Ht.
    unfold len_at, extra_at in Ht. rewrite !list_lookup_fmap, Ho, Hr in Ht. simpl in Ht.
    rewrite Hpr in Ht. simpl in Hc. rewrite Hc in Ht. unfold out in Ht.
    destruct (result_cap p <? Zlen (content r)) eqn:E; bools; lia.
  - intros Hfit. rewrite Ho. simpl. simpl in Hc. rewrite Hc.
    by rewrite (proj2 (Z.ltb_ge _ _) Hfit).
Qed.

Lemma validated_round_fits_witness :
  let out := normalize_tool_results no_repr no_env sample_round 4000 8000 in
  sumZ (Zlen ∘ content <$> out) <= 8000 + 0 /\
  (Zlen (replicate 40 120%N) <= 1800 -> content <$> out !! 0%nat = Some (replicate 40 120%N)).
Proof.
  apply (validated_round_fits no_repr no_env sample_round 4000 8000 ATOMIC_TOOL_NAMES 0%nat
           (mkResult (u "a") (replicate 40 120%N) (sample_kind "history_search"))
           "history_search" (mkBudget 1800 true 0)); try lia; try decided; vm_compute; reflexivity.
Defined.

(** ** Rounds with several atomic results *)

Definition wide_history_env (name : string) : option pystr :=
  if String.eqb name "FEEDLING_V2_HISTORY_SEARCH_RESULT_MAX_CHARS" then Some (u "8000")
  else if String.eqb name "FEEDLING_V2_HISTORY_FETCH_RESULT_MAX_CHARS" then Some (u "7000")
  else if String.eqb name "FEEDLING_V2_WEB_FETCH_RESULT_MAX_CHARS" then Some (u "1500")
  else None.

Definition history_round : list ToolResult :=
  [mkResult (u "a") (replicate 8000 120%N) (sample_kind "history_search");
   mkResult (u "b") (replicate 7000 120%N) (sample_kind "history_fetch")].

(** The validation only adds up the caps of all atomic tools together, so
    it accepts a configuration in which a search and a fetch in one round total
    4,500 characters more than that round's budget. *)
Theorem validated_subset_overflows :
  validate_result_caps wide_history_env 8000 ATOMIC_TOOL_NAMES = Return tt /\
  batch_budget (policy_of no_repr wide_history_env <$> history_round) 8000 = 10500 /\
  sumZ (Zlen ∘ content <$> normalize_tool_results no_repr wide_history_env history_round 4000 8000)
    = 15000.
Proof. split; [|split]; vm_compute; reflexivity. Qed.

End WaterFill.
