(* ===== verification/CaptureFailure.v ===== *)
(** * The memory-capture failure valve ([backend/memory/capture_failure.py])

    What one failed capture does to the user's capture state: which failures
    count, when a batch that keeps failing is skipped, and where the cursor
    goes. The capture document is the record [state] of the values its readers
    obtain from it (absent numbers read as zero); instants and durations are
    integers in microseconds. [classify] has [str.lower] and the text classifier of
    [notices.agent_call_failure], which is applied to the stripped reason. *)

From S2P Require Import Prelude PyValue.
Local Open Scope Z_scope.

Module CaptureFailure.

Definition CAPTURE_POISON_SKIP_AFTER : Z := 3.
Definition CAPTURE_TRANSIENT_SKIP_AFTER : Z := 6.
Definition SECOND : Z := 1000000.
Definition CAPTURE_ACCOUNT_SKIP_AFTER : Z := 7 * 86400 * SECOND.
Definition ACCOUNT_CLOCK_GAP_RESET : Z := 24 * 3600 * SECOND.

Definition DETERMINISTIC_FAILURE_KINDS : list pystr :=
  [u "json_decode_error"; u "no_json_object"; u "not_an_object"; u "invalid_card";
   u "format_error"; u "missing_cards_list"].

Definition V2_FAILURE_SCOPE : pystr := u "extraction_failed:".

Definition ACCOUNT_FAILURE_KINDS : list pystr :=
  [u "auth_invalid"; u "quota_insufficient"; u "model_not_found"; u "rate_limited";
   u "upstream_unavailable"].

Definition ACCOUNT_ERROR_CONTRACT_CODES : list pystr :=
  [u "quota_insufficient"; u "provider_account_expired"; u "auth_invalid"; u "model_not_found";
   u "rate_limited"; u "upstream_unavailable"; u "resident_agent_cli_logged_out";
   u "cli_config_invalid"].

Definition OUR_SIDE_FAILURE_PREFIXES : list pystr :=
  [u "database_pool_timeout"; u "capture_memory_write_failed"; u "memory_write_rejected";
   u "lease_timeout"; u "slot_watchdog_timeout"; u "watchdog_requeue_exhausted"].

Definition PROVIDER_SETUP_ACCOUNT_CODE : pystr := u "provider_setup".

(** The capture document. *)
Record state : Type := mkState {
  fail_streak : Z;
  parse_fail_streak : Z;
  window_fail_count : Z;
  account_fail_since : Z;
  fail_window_key : pystr;
  last_failed_at : Z;
  account_code : pystr;
  skipped_windows : Z;
  last_skipped_at : Z;
  captured_message_id : pystr;
  captured_ts : Z;
  captured_seq : option Z;
  seq_initialized : option bool;
  failed_job_id : pystr;
  pending_key : pystr;
}.

(** The window of messages one capture was extracting. *)
Record window : Type := mkWindow {
  after_message_id : pystr;
  after_seq : option Z;
  until_message_id : pystr;
  until_ts : Z;
  through_seq : Z;
}.

Definition clip (s : pystr) : pystr := take 160 s.

(** ** What the failure is *)

(** [str.lower] of ASCII text. *)
Definition ascii_lower (s : pystr) : pystr :=
  (fun c => if (65 <=? c)%N && (c <=? 90)%N then (c + 32)%N else c) <$> s.

(** The functions of text the classification uses: [str.lower], and the error code of a failure's text. *)
Record texts : Type := mkTexts {
  str_lower : pystr -> pystr;
  text_error_code : pystr -> pystr;
}.

Section Classify.
Context (classify : texts).

(** The reason without the scope prefix of the extraction runtime. *)
Definition failure_kind (reason : pystr) : pystr :=
  let text := str_lower classify (strip reason) in
  if startswith V2_FAILURE_SCOPE text then drop (length V2_FAILURE_SCOPE) text else text.

Definition has_prefix (ps : list pystr) (s : pystr) : bool := existsb (fun p => startswith p s) ps.

Definition account_error_code (reason : pystr) : pystr :=
  let kind := failure_kind reason in
  if has_prefix DETERMINISTIC_FAILURE_KINDS kind then []
  else if has_prefix OUR_SIDE_FAILURE_PREFIXES kind then []
  else if bool_decide (kind ∈ ACCOUNT_FAILURE_KINDS) then kind
  else if startswith (PROVIDER_SETUP_ACCOUNT_CODE ++ u ":") kind then PROVIDER_SETUP_ACCOUNT_CODE
  else let code := text_error_code classify (strip reason) in
       if bool_decide (code ∈ ACCOUNT_ERROR_CONTRACT_CODES) then code else [].

Inductive failure_kinds : Type := parse | account | other.

#[global] Instance failure_kinds_eq_dec : EqDecision failure_kinds.
Proof. solve_decision. Defined.

Definition failure_class (reason : pystr) : failure_kinds :=
  if has_prefix DETERMINISTIC_FAILURE_KINDS (failure_kind reason) then parse
  else match account_error_code reason with [] => other | _ => account end.

Definition skip_threshold_for (reason : pystr) : Z :=
  if has_prefix DETERMINISTIC_FAILURE_KINDS (failure_kind reason)
  then CAPTURE_POISON_SKIP_AFTER else CAPTURE_TRANSIENT_SKIP_AFTER.

(** ** Which window it is *)

Definition window_key (w : option window) : pystr :=
  match w with
  | None => []
  | Some w =>
      match clip (after_message_id w) with
      | _ :: _ => u "after:" ++ clip (after_message_id w)
      | [] =>
          match after_seq w with
          | Some s => u "after_seq:" ++ str_of_Z (Z.max 0 s)
          | None =>
              let until := clip (until_message_id w) in
              if negb (bool_decide (until = [])) || negb (through_seq w =? 0)
              then u "until:" ++ until ++ u "|" ++ str_of_Z (through_seq w) else []
          end
      end
  end.

(** ** The patches *)

(** [poison_skip_patch]: the cursor moves past the window. *)
Definition poison_skip_patch (st : state) (w : window) (now threshold : Z) : option state :=
  match clip (until_message_id w) with
  | [] => None
  | until_id =>
      if fail_streak st + 1 <? threshold then None
      else
        let through := Z.max 0 (through_seq w) in
        Some (mkState 0 0 0 0 [] (last_failed_at st) (account_code st)
                (Z.max 0 (skipped_windows st) + 1) now until_id (until_ts w)
                (Some through) (Some (0 <? through)) (failed_job_id st) (pending_key st))
  end.

Definition windowless_failure_patch (st : state) (now : Z) (reason : pystr) : state :=
  mkState (fail_streak st + 1)
    (if decide (failure_class reason = parse) then parse_fail_streak st else 0)
    (window_fail_count st) (account_fail_since st) (fail_window_key st) now
    (account_error_code reason) (skipped_windows st) (last_skipped_at st)
    (captured_message_id st) (captured_ts st) (captured_seq st) (seq_initialized st)
    (failed_job_id st) (pending_key st).

(** [account_failure_clock] *)
Definition account_failure_clock (since last_failed now : Z) (is_account : bool) : Z * bool :=
  let since := if negb (since =? 0) && negb (last_failed =? 0)
                  && (ACCOUNT_CLOCK_GAP_RESET <? now - last_failed) then 0 else since in
  let since := if is_account then (if since =? 0 then now else since) else since in
  (since, is_account && (0 <? since) && (CAPTURE_ACCOUNT_SKIP_AFTER <=? now - since)).

(** [capture_failure_patch]: the patched state, the streak and whether the
    batch was skipped. *)
Definition capture_failure_patch (st : state) (w : option window) (now : Z) (reason : pystr)
    : state * Z * bool :=
  let key := window_key w in
  match key, w with
  | _ :: _, Some w =>
      let same := bool_decide (key = fail_window_key st) in
      let kind := failure_class reason in
      let is_account := bool_decide (kind = account) in
      let streak := if same then fail_streak st + 1 else 1 in
      let prev_parse := if same then parse_fail_streak st else 0 in
      let prev_count := if same then window_fail_count st else 0 in
      let parse_streak := if decide (kind = parse) then prev_parse + 1 else 0 in
      let window_count := if is_account then prev_count else prev_count + 1 in
      let prev_since := if same then account_fail_since st else 0 in
      let '(account_since, account_expired) :=
        account_failure_clock prev_since (last_failed_at st) now is_account in
      let skip :=
        if account_expired
           || (negb is_account && ((CAPTURE_POISON_SKIP_AFTER <=? parse_streak)
                                   || (CAPTURE_TRANSIENT_SKIP_AFTER <=? window_count)))
        then poison_skip_patch st w now 1 else None in
      let code := if is_account then account_error_code reason else [] in
      match skip with
      | Some s =>
          (mkState (fail_streak s) (parse_fail_streak s) (window_fail_count s)
             (account_fail_since s) (fail_window_key s) now code (skipped_windows s)
             (last_skipped_at s) (captured_message_id s) (captured_ts s) (captured_seq s)
             (seq_initialized s) (failed_job_id s) (pending_key s), streak, true)
      | None =>
          (mkState streak parse_streak window_count account_since key now code
             (skipped_windows st) (last_skipped_at st) (captured_message_id st) (captured_ts st)
             (captured_seq st) (seq_initialized st) (failed_job_id st) (pending_key st),
           streak, false)
      end
  | _, _ =>
      let st' := windowless_failure_patch st now reason in (st', fail_streak st', false)
  end.

(** [SUCCESS_RESET_PATCH] *)
Definition success_reset (st : state) : state :=
  mkState 0 0 0 0 [] 0 [] (skipped_windows st) (last_skipped_at st) (captured_message_id st)
    (captured_ts st) (captured_seq st) (seq_initialized st) (failed_job_id st) (pending_key st).

(** [_capture_failed_state] of [jobs_store]: the state after a failure of
    [job_id], and whether its batch was skipped. A failure that does not count
    (a cancelled run) only clears the pending marker. *)
Definition capture_failed_state (st : state) (job_id error : pystr) (increment_backoff : bool)
    (w : option window) (now : Z) : state * bool :=
  let '(failed, skipped) :=
    if increment_backoff then
      match w with
      | Some _ => let '(s, _, skip) := capture_failure_patch st w now error in (s, skip)
      | None => (windowless_failure_patch st now error, false)
      end
    else (st, false) in
  (mkState (fail_streak failed) (parse_fail_streak failed) (window_fail_count failed)
     (account_fail_since failed) (fail_window_key failed) (last_failed_at failed)
     (account_code failed) (skipped_windows failed) (last_skipped_at failed)
     (captured_message_id failed) (captured_ts failed) (captured_seq failed)
     (seq_initialized failed)
     (if increment_backoff then job_id else failed_job_id failed) [], skipped).

(** ** The cursor *)

(** [window_from_batch_row]: the window of a stored batch. *)
Definition window_from_batch_row (w : window) : window :=
  mkWindow (clip (after_message_id w)) (Some (Z.max 0 (default 0 (after_seq w))))
    (clip (until_message_id w)) (until_ts w) (Z.max 0 (through_seq w)).

(** [frontier_seq]: the later of the stored and the translated position. *)
Definition frontier_seq (st : state) (translate_message_id : pystr -> Z) : Z :=
  let stored_usable :=
    match seq_initialized st with
    | Some b => b
    | None => bool_decide (is_Some (captured_seq st))
    end in
  let stored := if stored_usable then Z.max 0 (default 0 (captured_seq st)) else 0 in
  let translated := match captured_message_id st with
                    | [] => 0 | m => Z.max 0 (translate_message_id m) end in
  Z.max stored translated.

(** ** Backoff ([backend/proactive/capture_jobs.py]) *)

Definition failure_backoff (base cap : Z) (streak : Z) : Z :=
  if streak <=? 0 then 0
  else let base := Z.max SECOND base in
       let cap := Z.max base cap in
       Z.min (base * 2 ^ Z.min (streak - 1) 16) cap.

Definition in_failure_backoff (base cap streak last_failed now : Z) : bool :=
  (0 <? streak) && (0 <? last_failed) && (now - last_failed <? failure_backoff base cap streak).
End Classify.

(** ** Histories of failures *)

Record failure : Type := mkFailure {
  f_window : option window;
  f_reason : pystr;
  f_now : Z;
}.

Section History.
Context (classify : texts).

Local Abbreviation cls f := (failure_class classify (f_reason f)).
Local Abbreviation fkey f := (window_key (f_window f)).

Definition step (st : state) (f : failure) : state * bool :=
  let '(st', _, skip) := capture_failure_patch classify st (f_window f) (f_now f) (f_reason f) in
  (st', skip).

(** Failures in order from a clean state; the history lists them latest first,
    each with whether it skipped its batch. *)
Inductive played : list (failure * bool) -> state -> Prop :=
| played_clean st : played [] (success_reset st)
| played_next h st f : played h st -> played ((f, (step st f).2) :: h) (step st f).1.

(** The consecutive parse failures of window [k] at the end of a history. *)
Fixpoint parse_run (k : pystr) (h : list (failure * bool)) : Z :=
  match h with
  | [] => 0
  | (f, skipped) :: rest =>
      match fkey f with
      | [] => if decide (cls f = parse) then parse_run k rest else 0
      | k' => if skipped then 0
              else if decide (k' = k /\ cls f = parse) then parse_run k rest + 1 else 0
      end
  end.

(** The failures of window [k] that are not the account's, since another window
    failed or a batch was skipped. *)
Fixpoint count_run (k : pystr) (h : list (failure * bool)) : Z :=
  match h with
  | [] => 0
  | (f, skipped) :: rest =>
      match fkey f with
      | [] => count_run k rest
      | k' => if skipped then 0
              else if decide (k' = k)
                   then (if decide (cls f = account) then count_run k rest else count_run k rest + 1)
                   else 0
      end
  end.

(** The counters are exactly what the history says of the recorded window, and
    the account clock is the time of an account failure of that window. *)
Record counters (h : list (failure * bool)) (st : state) : Prop := {
  c_parse : forall k, k <> [] ->
    (if decide (k = fail_window_key st) then parse_fail_streak st else 0) = parse_run k h;
  c_count : forall k, k <> [] ->
    (if decide (k = fail_window_key st) then window_fail_count st else 0) = count_run k h;
  c_since : account_fail_since st <> 0 -> exists f s,
    (f, s) ∈ h /\ fkey f = fail_window_key st /\ cls f = account /\ f_now f = account_fail_since st;
  c_streak : 0 <= fail_streak st;
}.

(** A failure of a known window, case by case. *)
Lemma step_windowed st f w :
  f_window f = Some w -> fkey f <> [] ->
  let same := bool_decide (fkey f = fail_window_key st) in
  let acc := bool_decide (cls f = account) in
  let parse_streak := if decide (cls f = parse)
                      then (if same then parse_fail_streak st else 0) + 1 else 0 in
  let count := if acc then (if same then window_fail_count st else 0)
               else (if same then window_fail_count st else 0) + 1 in
  let '(since, expired) := account_failure_clock (if same then account_fail_since st else 0)
                             (last_failed_at st) (f_now f) acc in
  let due := expired || (negb acc && ((CAPTURE_POISON_SKIP_AFTER <=? parse_streak)
                                      || (CAPTURE_TRANSIENT_SKIP_AFTER <=? count))) in
  (step st f).2 = due && bool_decide (clip (until_message_id w) <> []) && (1 <=? fail_streak st + 1) /\
  if (step st f).2 then
    fail_window_key (step st f).1 = [] /\ parse_fail_streak (step st f).1 = 0 /\
    window_fail_count (step st f).1 = 0 /\ account_fail_since (step st f).1 = 0 /\
    captured_message_id (step st f).1 = clip (until_message_id w) /\
    captured_seq (step st f).1 = Some (Z.max 0 (through_seq w)) /\
    seq_initialized (step st f).1 = Some (0 <? Z.max 0 (through_seq w)) /\
    fail_streak (step st f).1 = 0
  else
    fail_window_key (step st f).1 = fkey f /\ parse_fail_streak (step st f).1 = parse_streak /\
    window_fail_count (step st f).1 = count /\ account_fail_since (step st f).1 = since.
Proof using Type.
  intros Hw Hk. unfold step, capture_failure_patch. cbv zeta.
  destruct (fkey f) as [|c k] eqn:Ek; [done|]. rewrite Hw.
  destruct (account_failure_clock _ _ _ _) as [since expired].
  destruct (expired || _) eqn:Edue; simpl; [|by rewrite ?andb_false_l].
  unfold poison_skip_patch. destruct (clip (until_message_id w)) as [|m ms] eqn:Eu; simpl.
  - done.
  - destruct (Z.ltb_spec (fail_streak st + 1) 1); simpl.
    + split; [|done]. symmetry. apply Z.leb_gt. lia.
    + split; [|done]. symmetry. apply Z.leb_le. lia.
Qed.

Lemma step_windowless st f :
  fkey f = [] -> step st f = (windowless_failure_patch classify st (f_now f) (f_reason f), false).
Proof using Type. intros Hk. unfold step, capture_failure_patch. by rewrite Hk. Qed.

Lemma fkey_window f : fkey f <> [] -> exists w, f_window f = Some w.
Proof using Type. unfold window_key. destruct (f_window f) as [w|]; [eauto|done]. Qed.

Lemma step_streak st f : 0 <= fail_streak st -> 0 <= fail_streak (step st f).1.
Proof using Type.
  intros H. unfold step, capture_failure_patch, poison_skip_patch, windowless_failure_patch.
  cbv zeta. repeat case_goal; simplify_eq; simpl; try lia.
  all: repeat match goal with H : context [bool_decide ?P] |- _ => destruct (bool_decide P) end;
       simplify_eq; simpl; lia.
Qed.

Lemma clock_cases since last now acc since' expired :
  account_failure_clock since last now acc = (since', expired) ->
  (since' = 0 \/ since' = since \/ (acc = true /\ since' = now)) /\
  (expired = true -> acc = true /\ 0 < since' /\ CAPTURE_ACCOUNT_SKIP_AFTER <= now - since').
Proof using Type.
  unfold account_failure_clock. set (s0 := if _ && _ && _ then 0 else since). intros [= <- <-].
  assert (s0 = 0 \/ s0 = since) as Hs0 by (unfold s0; case_goal; auto).
  clearbody s0. split.
  - destruct acc; [|tauto]. destruct (Z.eqb_spec s0 0); tauto.
  - intros H. bools. subst acc. tauto.
Qed.

Lemma counters_clean st : counters [] (success_reset st).
Proof using Type.
  split; simpl; try (intros k Hk; by rewrite decide_False); [done|lia].
Qed.

Lemma counters_windowless h st f :
  counters h st -> fkey f = [] -> counters ((f, false) :: h) (step st f).1.
Proof using Type.
  intros [Hp Hc Hs Hn] Hk. rewrite step_windowless by done. split; simpl.
  - intros k Hne. rewrite Hk. specialize (Hp k Hne). destruct (decide (cls f = parse)); [done|].
    by case_decide.
  - intros k Hne. rewrite Hk. by apply Hc.
  - intros H. destruct (Hs H) as (f0 & s & Hin & H0). exists f0, s. split; [by right|done].
  - lia.
Qed.

Lemma counters_windowed h st f :
  counters h st -> fkey f <> [] -> counters ((f, (step st f).2) :: h) (step st f).1.
Proof using Type.
  intros [Hp Hc Hs Hn] Hk. destruct (fkey_window f Hk) as [w Hw].
  pose proof (step_windowed st f w Hw Hk) as H. cbv zeta in H.
  pose proof (step_streak st f Hn) as Hn'.
  set (same := bool_decide (fkey f = fail_window_key st)) in *.
  assert ((if same then parse_fail_streak st else 0) = parse_run (fkey f) h) as Ep.
  { rewrite <- Hp by done. apply if_bool_decide. }
  assert ((if same then window_fail_count st else 0) = count_run (fkey f) h) as Ec.
  { rewrite <- Hc by done. apply if_bool_decide. }
  rewrite Ep, Ec in H.
  destruct (account_failure_clock _ _ _ _) as [since expired] eqn:Eclk in H.
  destruct (clock_cases _ _ _ _ _ _ Eclk) as [Hsince _].
  destruct H as [_ H]. destruct (step st f) as [st' skip]. simpl in *. destruct skip.
  - destruct H as (K & P & C & A & _). split; simpl; rewrite ?K, ?P, ?C, ?A.
    + intros k Hne. rewrite decide_False by done. destruct (fkey f); [done|]. done.
    + intros k Hne. rewrite decide_False by done. destruct (fkey f); [done|]. done.
    + done.
    + done.
  - destruct H as (K & P & C & A). split; simpl; rewrite ?K, ?P, ?C, ?A.
    + intros k Hne. destruct (fkey f) as [|c k'] eqn:Ek; [done|].
      destruct (decide (k = c :: k')) as [->|Hd].
      * repeat case_decide; tauto || done.
      * rewrite decide_False by (intros [? _]; congruence). done.
    + intros k Hne. destruct (fkey f) as [|c k'] eqn:Ek; [done|].
      destruct (decide (k = c :: k')) as [->|Hd].
      * rewrite (decide_True (P := c :: k' = c :: k')) by done.
        apply if_bool_decide.
      * rewrite decide_False by congruence. done.
    + intros Hne. destruct Hsince as [?|[E|[E ->]]]; [done| |].
      * unfold same in E. case_bool_decide as Hsm; [|congruence]. rewrite E in Hne |- *.
        destruct (Hs Hne) as (f0 & s0 & Hin & H0 & H1 & H2). exists f0, s0.
        split; [by right|]. rewrite Hsm. done.
      * exists f, false. split; [left|]. apply bool_decide_eq_true in E. done.
    + done.
Qed.

Lemma played_counters h st : played h st -> counters h st.
Proof using Type.
  induction 1 as [st|h st f Hp IH]; [apply counters_clean|].
  destruct (decide (fkey f = [])) as [Hk|Hk]; [|by apply counters_windowed].
  pose proof (counters_windowless h st f IH Hk) as H. by rewrite step_windowless in * by done.
Qed.
End History.

(** ** When a batch is given up *)

Lemma skip_iff classify h st f :
  played classify h st -> failure_class classify (f_reason f) <> account ->
  (step classify st f).2 = true <->
  exists w, f_window f = Some w /\ window_key (f_window f) <> [] /\
    clip (until_message_id w) <> [] /\
    (CAPTURE_POISON_SKIP_AFTER <= parse_run classify (window_key (f_window f)) ((f, false) :: h) \/
     CAPTURE_TRANSIENT_SKIP_AFTER <= count_run classify (window_key (f_window f)) ((f, false) :: h)).
Proof.
  intros Hplay Hna. pose proof (played_counters _ _ _ Hplay) as [Hp Hc _ Hn].
  destruct (decide (window_key (f_window f) = [])) as [Hk|Hk].
  { rewrite step_windowless by done. split; [done|]. by intros (w & _ & ? & _). }
  destruct (fkey_window f Hk) as [w Hw].
  pose proof (step_windowed classify st f w Hw Hk) as H. cbv zeta in H.
  destruct (account_failure_clock _ _ _ _) as [since expired] eqn:Eclk in H.
  destruct (clock_cases _ _ _ _ _ _ Eclk) as [_ Hexp]. destruct H as [-> _].
  rewrite !if_bool_decide, (Hp _ Hk), (Hc _ Hk), (bool_decide_false _ Hna).
  rewrite !(decide_False (P := failure_class classify (f_reason f) = account)) by done.
  simpl. destruct (window_key (f_window f)) as [|c k] eqn:Ek; [done|].
  rewrite (decide_True (P := c :: k = c :: k)) by done.
  rewrite !(decide_False (P := failure_class classify (f_reason f) = account)) by done.
  rewrite (decide_ext (c :: k = c :: k /\ failure_class classify (f_reason f) = parse)
             (failure_class classify (f_reason f) = parse)) by tauto.
  assert (expired = false) as ->.
  { destruct expired; [|done]. destruct Hexp as [E _]; [done|]. by apply bool_decide_eq_true in E. }
  assert ((1 <=? fail_streak st + 1) = true) as -> by (apply Z.leb_le; lia).
  rewrite andb_true_r. simpl. rewrite andb_true_iff, orb_true_iff, !Z.leb_le, bool_decide_eq_true.
  split.
  - intros [Hd Hu]. exists w. done.
  - intros (w' & Hw' & _ & Hu & Hd). rewrite Hw in Hw'. injection Hw' as <-. done.
Qed.

(** After any sequence of failures, a failure that is not the account's
    gives its batch up exactly when the batch has a known end and the history
    shows three parse failures of it in a row or six such failures since
    another window failed; a failure of no known window never does. *)
Theorem skip_exactly_when_due classify h st f :
  played classify h st -> failure_class classify (f_reason f) <> account ->
  (step classify st f).2 = true <->
  exists w, f_window f = Some w /\ window_key (f_window f) <> [] /\
    clip (until_message_id w) <> [] /\
    (CAPTURE_POISON_SKIP_AFTER <= parse_run classify (window_key (f_window f)) ((f, false) :: h) \/
     CAPTURE_TRANSIENT_SKIP_AFTER <= count_run classify (window_key (f_window f)) ((f, false) :: h)).
Proof. apply skip_iff. Qed.

(** Lower case of ASCII, and no text with a code. *)
Definition no_classify : texts := mkTexts ascii_lower (fun _ => []).
Definition clean : state := mkState 0 0 0 0 [] 0 [] 0 0 [] 0 None None [] [].
Definition win (until : string) : window := mkWindow (u "m10") (Some 10) (u until) 50 12.
Definition bad_json (until : string) (t : Z) : failure :=
  mkFailure (Some (win until)) (u "extraction_failed:json_decode_error") t.

Lemma played_from classify st h (fs : list failure) :
  played classify h st ->
  exists h', length h' = length fs /\
    played classify (h' ++ h) (foldl (fun s f => (step classify s f).1) st fs).
Proof.
  revert st h. induction fs as [|f fs IH]; intros st h Hp; simpl; [by exists []|].
  destruct (IH _ _ (played_next classify h st f Hp)) as (h' & Hl & Hp').
  exists (h' ++ [(f, (step classify st f).2)]). rewrite length_app. simpl. split; [lia|].
  by rewrite <- app_assoc.
Qed.

(** The end of the window moves between the attempts; the third parse failure
    of the same start gives it up. *)
Lemma skip_exactly_when_due_witness :
  (step no_classify (step no_classify (step no_classify (success_reset clean) (bad_json "a" 1)).1
     (bad_json "b" 2)).1 (bad_json "c" 3)).2 = true.
Proof.
  apply (skip_exactly_when_due no_classify
    [(bad_json "b" 2, false); (bad_json "a" 1, false)]).
  - apply (played_next no_classify [(bad_json "a" 1, false)]
             (step no_classify (success_reset clean) (bad_json "a" 1)).1 (bad_json "b" 2)).
    apply (played_next no_classify [] (success_reset clean) (bad_json "a" 1)). constructor.
  - decided.
  - exists (win "c"). split; [done|]. split; [decided|]. split; [decided|]. left. decided.
Defined.

(** A batch is given up for the account's sake only when an account failure
    of the same window was recorded at least seven days before. *)
Theorem account_skip_after_seven_days classify h st f :
  played classify h st -> failure_class classify (f_reason f) = account ->
  (step classify st f).2 = true ->
  exists f0 s, (f0, s) ∈ h /\ window_key (f_window f0) = window_key (f_window f) /\
    failure_class classify (f_reason f0) = account /\
    CAPTURE_ACCOUNT_SKIP_AFTER <= f_now f - f_now f0.
Proof.
  intros Hplay Ha Hskip. pose proof (played_counters _ _ _ Hplay) as [_ _ Hs _].
  destruct (decide (window_key (f_window f) = [])) as [Hk|Hk];
    [by rewrite step_windowless in Hskip by done|].
  destruct (fkey_window f Hk) as [w Hw].
  pose proof (step_windowed classify st f w Hw Hk) as H. cbv zeta in H.
  destruct (account_failure_clock _ _ _ _) as [since expired] eqn:Eclk in H.
  destruct (clock_cases _ _ _ _ _ _ Eclk) as [Hsince Hexp]. destruct H as [Hd _].
  rewrite Hskip, (bool_decide_true _ Ha) in Hd. simpl in Hd. rewrite orb_false_r in Hd.
  symmetry in Hd. bools. destruct Hexp as (_ & Hpos & Hdue); [done|].
  destruct Hsince as [?|[E|[_ ->]]]; [lia| |unfold CAPTURE_ACCOUNT_SKIP_AFTER, SECOND in *; lia].
  rewrite if_bool_decide in E. destruct (decide _) as [Esame|] in E; [|lia]. subst since.
  destruct (Hs ltac:(lia)) as (f0 & s & Hin & Hk0 & Ha0 & Hn0). exists f0, s.
  rewrite Hk0, Hn0. done.
Qed.

Definition broke (d : Z) : failure :=
  mkFailure (Some (win "a")) (u "quota_insufficient") (d * SECOND).

Fixpoint daily (n : nat) (t : Z) : list failure :=
  match n with O => [] | S n => broke t :: daily n (t + 86400) end.

Lemma account_skip_after_seven_days_witness :
  exists f0 s (h : list (failure * bool)), (f0, s) ∈ h /\ window_key (f_window f0) = window_key (f_window (broke 604801)) /\
    failure_class no_classify (f_reason f0) = account /\
    CAPTURE_ACCOUNT_SKIP_AFTER <= f_now (broke 604801) - f_now f0.
Proof.
  destruct (played_from no_classify _ _ (daily 7 1) (played_clean no_classify clean)) as (h & _ & Hp).
  destruct (account_skip_after_seven_days no_classify (h ++ [])
              (foldl (fun s f => (step no_classify s f).1) (success_reset clean) (daily 7 1))
              (broke 604801)) as (f0 & s & H).
  - exact Hp.
  - vm_compute. reflexivity.
  - vm_compute. reflexivity.
  - exists f0, s, (h ++ []). exact H.
Defined.

(** C38: six failures in a row of one window with a known end, none of them the
    account's, always give some batch up: a bad window cannot block a user's
    memory for ever. *)
Theorem window_never_blocks classify h st f1 f2 f3 f4 f5 f6 :
  played classify h st ->
  (forall f, f ∈ [f1; f2; f3; f4; f5; f6] -> failure_class classify (f_reason f) <> account /\
     window_key (f_window f) = window_key (f_window f1) /\
     exists w, f_window f = Some w /\ clip (until_message_id w) <> []) ->
  window_key (f_window f1) <> [] ->
  exists n f, [f1; f2; f3; f4; f5; f6] !! n = Some f /\
    (step classify (foldl (fun s f => (step classify s f).1) st (take n [f1; f2; f3; f4; f5; f6]))
       f).2 = true.
Proof.
  intros Hplay Hf Hk.
  set (fs := [f1; f2; f3; f4; f5; f6]) in *.
  assert (forall n, (n <= 6)%nat ->
    (exists m f, fs !! m = Some f /\
       (step classify (foldl (fun s f => (step classify s f).1) st (take m fs)) f).2 = true) \/
    exists h', played classify h' (foldl (fun s f => (step classify s f).1) st (take n fs)) /\
      Z.of_nat n <= count_run classify (window_key (f_window f1)) h') as Hn.
  { induction n as [|n IH]; intros Hle.
    - right. exists h. split; [done|]. pose proof (played_counters _ _ _ Hplay) as [_ Hc _ _].
      clear -Hk. induction h as [|[f s] h IH]; simpl; [lia|].
      destruct (window_key (f_window f)); [done|]. repeat case_goal; lia.
    - destruct IH as [Hs|(h' & Hp & Hcount)]; [lia|by left|].
      destruct (lookup_lt_is_Some_2 fs n ltac:(simpl; lia)) as [f Hfn].
      rewrite (take_S_r fs n f Hfn), foldl_app. simpl.
      destruct (step classify (foldl _ st (take n fs)) f) as [st' skip] eqn:Es.
      destruct skip.
      + left. exists n, f. split; [done|]. by rewrite Es.
      + right. exists ((f, false) :: h'). split.
        * pose proof (played_next classify h' _ f Hp) as H. by rewrite Es in H.
        * destruct (Hf f) as (Hna & Hkey & _); [by eapply list_elem_of_lookup_2|].
          simpl. rewrite Hkey. destruct (window_key (f_window f1)) eqn:E; [done|].
          rewrite (decide_True (P := _ :: _ = _ :: _)) by done. rewrite decide_False by done. lia. }
  destruct (Hn 5%nat ltac:(lia)) as [Hs|(h' & Hp & Hcount)]; [done|].
  exists 5%nat, f6. split; [done|]. destruct (Hf f6) as (Hna & Hkey & w & Hw & Hu).
  { apply list_elem_of_lookup. by exists 5%nat. }
  apply (skip_iff classify h'); [done|done|]. exists w. rewrite Hkey. split; [done|].
  split; [done|]. split; [done|]. right. simpl. rewrite Hkey.
  destruct (window_key (f_window f1)) eqn:E; [done|].
  rewrite (decide_True (P := _ :: _ = _ :: _)) by done. rewrite decide_False by done.
  unfold CAPTURE_TRANSIENT_SKIP_AFTER. lia.
Qed.

Definition write_failed (t : Z) : failure :=
  mkFailure (Some (win "a")) (u "capture_memory_write_failed") t.

Lemma window_never_blocks_witness :
  exists n f, [write_failed 1; write_failed 2; write_failed 3; write_failed 4; write_failed 5;
               write_failed 6] !! n = Some f /\
    (step no_classify (foldl (fun s f => (step no_classify s f).1) (success_reset clean)
       (take n [write_failed 1; write_failed 2; write_failed 3; write_failed 4; write_failed 5;
                write_failed 6])) f).2 = true.
Proof.
  apply (window_never_blocks no_classify [] (success_reset clean)).
  - constructor.
  - intros f Hf. repeat (apply elem_of_cons in Hf as [->|Hf]); [..|by apply elem_of_nil in Hf];
      (split; [decided|split; [reflexivity|exists (win "a"); split; [reflexivity|decided]]]).
  - decided.
Defined.

(** Giving a batch up puts the reading frontier at the end of that batch
    (the later of its sequence number and its last message's position), with
    all failure counters of the window cleared. *)
Theorem skip_moves_frontier classify st w now reason st' streak translate :
  capture_failure_patch classify st (Some w) now reason = (st', streak, true) ->
  frontier_seq st' translate =
    Z.max (Z.max 0 (through_seq w)) (Z.max 0 (translate (clip (until_message_id w)))) /\
  fail_streak st' = 0 /\ parse_fail_streak st' = 0 /\ window_fail_count st' = 0 /\
  account_fail_since st' = 0 /\ in_failure_backoff 0 0 (fail_streak st') (last_failed_at st') now = false.
Proof.
  intros H. set (f := mkFailure (Some w) reason now).
  assert (step classify st f = (st', true)) as Hstep.
  { unfold step, f. cbn [f_window f_now f_reason]. by rewrite H. }
  destruct (decide (window_key (f_window f) = [])) as [Hk|Hk].
  { by rewrite step_windowless in Hstep by done. }
  pose proof (step_windowed classify st f w eq_refl Hk) as Hw. cbv zeta in Hw.
  destruct (account_failure_clock _ _ _ _) as [since expired] in Hw.
  rewrite Hstep in Hw. simpl in Hw. destruct Hw as [Hd (K & P & C & A & M & S & I & Hz)].
  assert (clip (until_message_id w) <> []) as Hu.
  { symmetry in Hd. bools. done. }
  split; [|rewrite Hz; done].
  unfold frontier_seq. rewrite M, S, I. destruct (clip (until_message_id w)) as [|c m]; [done|]. simpl.
  destruct (Z.ltb_spec 0 (Z.max 0 (through_seq w))); simpl; lia.
Qed.

Lemma skip_moves_frontier_witness :
  exists st', frontier_seq st' (fun _ => 7) = 12 /\ fail_streak st' = 0.
Proof.
  pose (st := (step no_classify (step no_classify (success_reset clean) (bad_json "a" 1)).1
                 (bad_json "b" 2)).1).
  pose (r := capture_failure_patch no_classify st (Some (win "c")) 3
               (u "extraction_failed:json_decode_error")).
  exists r.1.1.
  destruct (skip_moves_frontier no_classify st (win "c") 3 (u "extraction_failed:json_decode_error")
              r.1.1 r.1.2 (fun _ => 7)) as (Hf & Hs & _).
  - vm_compute. reflexivity.
  - split; [|exact Hs]. rewrite Hf. vm_compute. reflexivity.
Defined.

(** The account clock resets on an idle gap of a day only when the failure
    after the gap has a window: a crash recovery in between (no window) hides
    the gap, and two account failures a week apart give the batch up. *)
Theorem crash_hides_idle_gap :
  let crash := mkFailure None (u "lease_timeout") (604800 * SECOND) in
  let after fs := foldl (fun s f => (step no_classify s f).1) (success_reset clean) fs in
  (step no_classify (after [broke 1]) (broke 604801)).2 = false /\
  (step no_classify (after [broke 1; crash]) (broke 604801)).2 = true.
Proof. split; vm_compute; reflexivity. Qed.

End CaptureFailure.
