(* ===== verification/JobTable.v ===== *)
(** * The job tables of hosted runtime V2

    The rows the queue of [backend/model_api_runtime/v2/jobs_store.py] keeps in
    PostgreSQL, as one state record [db]. [agent_jobs] is the list of its rows
    in primary-key order (keys come from a sequence, rows are never deleted by
    the queue); an [UPDATE ... SET ... WHERE ...] is [update_jobs] with the
    column assignments as data, evaluated on the old row. Instants are integers
    in microseconds, the resolution of [timestamptz]; a [NULL] is [None]. *)

From S2P Require Import Prelude PyValue CaptureFailure.
Local Open Scope Z_scope.

Module Jobs.

(** ** [agent_jobs] *)

Inductive status : Type :=
| pending | claimed | running | completed | failed | superseded | expired.

#[global] Instance status_eq_dec : EqDecision status.
Proof. solve_decision. Defined.

Record job : Type := mkJob {
  j_id : Z;
  j_user : string;
  j_lane : string;
  j_reason : option string;
  j_trace : option string;
  j_priority : Z;
  j_status : status;
  j_created_at : Z;
  j_available_at : Z;
  j_queue_deadline : option Z;
  j_deadline : option Z;
  j_claimed_by : option string;
  j_claimed_at : option Z;
  j_started_at : option Z;
  j_finished_at : option Z;
  j_lease : option Z;
  j_generation : option Z;
  j_input : Z;
  j_attempts : Z;
  j_error : option string;
  j_wake_result : option string;
  j_wake_reason : option string;
}.

(** One column assignment of an [UPDATE agent_jobs SET ...]. *)
Inductive assign : Type :=
| SetStatus (v : status)
| SetCreated (v : Z)
| SetAvailable (v : Z)
| SetQueueDeadline (v : option Z)
| SetDeadline (v : option Z)
| SetClaimedBy (v : option string)
| SetClaimedAt (v : option Z)
| SetStarted (v : option Z)
| SetFinished (v : option Z)
| SetLease (v : option Z)
| SetGeneration (v : option Z)
| SetInput (v : Z)
| SetAttempts (v : Z)
| SetError (v : option string)
| SetWakeResult (v : option string)
| SetWakeReason (v : option string).

Definition apply_assign (j : job) (a : assign) : job :=
  match a with
  | SetStatus v => mkJob (j_id j) (j_user j) (j_lane j) (j_reason j) (j_trace j) (j_priority j)
      v (j_created_at j) (j_available_at j) (j_queue_deadline j) (j_deadline j) (j_claimed_by j)
      (j_claimed_at j) (j_started_at j) (j_finished_at j) (j_lease j) (j_generation j) (j_input
      j) (j_attempts j) (j_error j) (j_wake_result j) (j_wake_reason j)
  | SetCreated v => mkJob (j_id j) (j_user j) (j_lane j) (j_reason j) (j_trace j) (j_priority j)
      (j_status j) v (j_available_at j) (j_queue_deadline j) (j_deadline j) (j_claimed_by j)
      (j_claimed_at j) (j_started_at j) (j_finished_at j) (j_lease j) (j_generation j) (j_input
      j) (j_attempts j) (j_error j) (j_wake_result j) (j_wake_reason j)
  | SetAvailable v => mkJob (j_id j) (j_user j) (j_lane j) (j_reason j) (j_trace j) (j_priority
      j) (j_status j) (j_created_at j) v (j_queue_deadline j) (j_deadline j) (j_claimed_by j)
      (j_claimed_at j) (j_started_at j) (j_finished_at j) (j_lease j) (j_generation j) (j_input
      j) (j_attempts j) (j_error j) (j_wake_result j) (j_wake_reason j)
  | SetQueueDeadline v => mkJob (j_id j) (j_user j) (j_lane j) (j_reason j) (j_trace j)
      (j_priority j) (j_status j) (j_created_at j) (j_available_at j) v (j_deadline j)
      (j_claimed_by j) (j_claimed_at j) (j_started_at j) (j_finished_at j) (j_lease j)
      (j_generation j) (j_input j) (j_attempts j) (j_error j) (j_wake_result j) (j_wake_reason
      j)
  | SetDeadline v => mkJob (j_id j) (j_user j) (j_lane j) (j_reason j) (j_trace j) (j_priority
      j) (j_status j) (j_created_at j) (j_available_at j) (j_queue_deadline j) v (j_claimed_by
      j) (j_claimed_at j) (j_started_at j) (j_finished_at j) (j_lease j) (j_generation j)
      (j_input j) (j_attempts j) (j_error j) (j_wake_result j) (j_wake_reason j)
  | SetClaimedBy v => mkJob (j_id j) (j_user j) (j_lane j) (j_reason j) (j_trace j) (j_priority
      j) (j_status j) (j_created_at j) (j_available_at j) (j_queue_deadline j) (j_deadline j) v
      (j_claimed_at j) (j_started_at j) (j_finished_at j) (j_lease j) (j_generation j) (j_input
      j) (j_attempts j) (j_error j) (j_wake_result j) (j_wake_reason j)
  | SetClaimedAt v => mkJob (j_id j) (j_user j) (j_lane j) (j_reason j) (j_trace j) (j_priority
      j) (j_status j) (j_created_at j) (j_available_at j) (j_queue_deadline j) (j_deadline j)
      (j_claimed_by j) v (j_started_at j) (j_finished_at j) (j_lease j) (j_generation j)
      (j_input j) (j_attempts j) (j_error j) (j_wake_result j) (j_wake_reason j)
  | SetStarted v => mkJob (j_id j) (j_user j) (j_lane j) (j_reason j) (j_trace j) (j_priority j)
      (j_status j) (j_created_at j) (j_available_at j) (j_queue_deadline j) (j_deadline j)
      (j_claimed_by j) (j_claimed_at j) v (j_finished_at j) (j_lease j) (j_generation j)
      (j_input j) (j_attempts j) (j_error j) (j_wake_result j) (j_wake_reason j)
  | SetFinished v => mkJob (j_id j) (j_user j) (j_lane j) (j_reason j) (j_trace j) (j_priority
      j) (j_status j) (j_created_at j) (j_available_at j) (j_queue_deadline j) (j_deadline j)
      (j_claimed_by j) (j_claimed_at j) (j_started_at j) v (j_lease j) (j_generation j) (j_input
      j) (j_attempts j) (j_error j) (j_wake_result j) (j_wake_reason j)
  | SetLease v => mkJob (j_id j) (j_user j) (j_lane j) (j_reason j) (j_trace j) (j_priority j)
      (j_status j) (j_created_at j) (j_available_at j) (j_queue_deadline j) (j_deadline j)
      (j_claimed_by j) (j_claimed_at j) (j_started_at j) (j_finished_at j) v (j_generation j)
      (j_input j) (j_attempts j) (j_error j) (j_wake_result j) (j_wake_reason j)
  | SetGeneration v => mkJob (j_id j) (j_user j) (j_lane j) (j_reason j) (j_trace j) (j_priority
      j) (j_status j) (j_created_at j) (j_available_at j) (j_queue_deadline j) (j_deadline j)
      (j_claimed_by j) (j_claimed_at j) (j_started_at j) (j_finished_at j) (j_lease j) v
      (j_input j) (j_attempts j) (j_error j) (j_wake_result j) (j_wake_reason j)
  | SetInput v => mkJob (j_id j) (j_user j) (j_lane j) (j_reason j) (j_trace j) (j_priority j)
      (j_status j) (j_created_at j) (j_available_at j) (j_queue_deadline j) (j_deadline j)
      (j_claimed_by j) (j_claimed_at j) (j_started_at j) (j_finished_at j) (j_lease j)
      (j_generation j) v (j_attempts j) (j_error j) (j_wake_result j) (j_wake_reason j)
  | SetAttempts v => mkJob (j_id j) (j_user j) (j_lane j) (j_reason j) (j_trace j) (j_priority
      j) (j_status j) (j_created_at j) (j_available_at j) (j_queue_deadline j) (j_deadline j)
      (j_claimed_by j) (j_claimed_at j) (j_started_at j) (j_finished_at j) (j_lease j)
      (j_generation j) (j_input j) v (j_error j) (j_wake_result j) (j_wake_reason j)
  | SetError v => mkJob (j_id j) (j_user j) (j_lane j) (j_reason j) (j_trace j) (j_priority j)
      (j_status j) (j_created_at j) (j_available_at j) (j_queue_deadline j) (j_deadline j)
      (j_claimed_by j) (j_claimed_at j) (j_started_at j) (j_finished_at j) (j_lease j)
      (j_generation j) (j_input j) (j_attempts j) v (j_wake_result j) (j_wake_reason j)
  | SetWakeResult v => mkJob (j_id j) (j_user j) (j_lane j) (j_reason j) (j_trace j) (j_priority
      j) (j_status j) (j_created_at j) (j_available_at j) (j_queue_deadline j) (j_deadline j)
      (j_claimed_by j) (j_claimed_at j) (j_started_at j) (j_finished_at j) (j_lease j)
      (j_generation j) (j_input j) (j_attempts j) (j_error j) v (j_wake_reason j)
  | SetWakeReason v => mkJob (j_id j) (j_user j) (j_lane j) (j_reason j) (j_trace j) (j_priority
      j) (j_status j) (j_created_at j) (j_available_at j) (j_queue_deadline j) (j_deadline j)
      (j_claimed_by j) (j_claimed_at j) (j_started_at j) (j_finished_at j) (j_lease j)
      (j_generation j) (j_input j) (j_attempts j) (j_error j) (j_wake_result j) v
  end.


(** [status IN ('pending','claimed','running')] and its owned part. *)
Definition is_active (s : status) : bool :=
  match s with pending | claimed | running => true | _ => false end.
Definition is_owned (s : status) : bool :=
  match s with claimed | running => true | _ => false end.
Definition terminal (s : status) : bool := negb (is_active s).

Definition active (j : job) : bool := is_active (j_status j).
Definition owned (j : job) : bool := is_owned (j_status j).

(** ** The other tables *)

(** [v2_terminal_failure_outbox], one row per job. *)
Record failure_row : Type := mkFailureRow {
  fr_job : Z;
  fr_user : string;
  fr_code : string;
  fr_class : string;
  fr_route : option (Z * Z);
  fr_seq : option Z;
  fr_parent : option string;
}.

(** [v2_trajectory_reviews], one row per source job. *)
Inductive review_status : Type := r_pending | r_running | r_completed | r_failed.

#[global] Instance review_status_eq_dec : EqDecision review_status.
Proof. solve_decision. Defined.

Record review : Type := mkReview {
  rv_source : Z;
  rv_user : string;
  rv_status : review_status;
  rv_attempts : Z;
  rv_claimed_by : option Z;
  rv_error : option string;
  rv_finished : option Z;
  rv_created : Z;
}.

(** [v2_mcp_mutation_attempts] *)
Record mcp_attempt : Type := mkMcp {
  mcp_job : Z;
  mcp_outcome : option string;
  mcp_resolved : option Z;
}.

(** [v2_job_recovery_events] *)
Record recovery_event : Type := mkEvent {
  ev_job : Z;
  ev_attempts : Z;
  ev_lane : string;
  ev_recovery : string;
  ev_reason : string;
}.

(** [v2_wake_schedule] *)
Record wake_row : Type := mkWake {
  w_fail_streak : Z;
  w_fail_user_seq : Z;
  w_backoff_until : option Z;
  w_provider_streak : Z;
  w_opened_at : option Z;
  w_reason : string;
  w_reset_at : option Z;
  w_payment_cooldown : option Z;
  w_followup : option (Z * Z * Z);
}.

Definition wake_default : wake_row := mkWake 0 0 None 0 None "" None None None.

(** The columns of [chat_messages] the queue reads. *)
Record chat_row : Type := mkChat {
  cm_user : string;
  cm_seq : Z;
  cm_msg : string;
  cm_role : string;
  cm_source : string;
  cm_ts : Z;
  cm_wake_kind : string;
}.

(** [user_logs]: the wake-context rows bound to a job by [item_key]. *)
Record log_row : Type := mkLog {
  lg_user : string;
  lg_stream : string;
  lg_seq : Z;
  lg_job : Z;
}.

(** [user_blobs] of kind [proactive_settings]: the flag, or a document that is
    not an object. *)
Inductive settings_row : Type := CaptureFlag (enabled : bool) | NotAnObject.

(** [runtime_state]: the last completed perception glance (its fingerprint and
    source job), or ordering metadata that is not a number. *)
Inductive glance_row : Type := NoGlance | Glance (fingerprint : string) (source : Z) | BadGlance.

(** ** The database *)

Record db : Type := mkDb {
  d_jobs : list job;
  d_next : Z;
  d_runtime : gmap string (string * Z);
  d_users : list string;
  d_failures : list failure_row;
  d_streams : list (Z * string);
  d_reviews : list review;
  d_mcp : list mcp_attempt;
  d_effects : list (Z * string);
  d_events : list recovery_event;
  d_wake : gmap string wake_row;
  d_routes : gmap string (Z * Z);
  d_chat : list chat_row;
  d_logs : list log_row;
  d_capture : gmap string CaptureFailure.state;
  d_settings : gmap string settings_row;
  d_beats : gmap string Z;
  d_glance : gmap string glance_row;
}.

Definition set_jobs (v : list job) (d : db) : db := mkDb v (d_next d) (d_runtime d) (d_users d)
    (d_failures d) (d_streams d) (d_reviews d) (d_mcp d) (d_effects d) (d_events d) (d_wake d)
    (d_routes d) (d_chat d) (d_logs d) (d_capture d) (d_settings d) (d_beats d) (d_glance d).
Definition set_next (v : Z) (d : db) : db := mkDb (d_jobs d) v (d_runtime d) (d_users d)
    (d_failures d) (d_streams d) (d_reviews d) (d_mcp d) (d_effects d) (d_events d) (d_wake d)
    (d_routes d) (d_chat d) (d_logs d) (d_capture d) (d_settings d) (d_beats d) (d_glance d).
Definition set_failures (v : list failure_row) (d : db) : db := mkDb (d_jobs d) (d_next d)
    (d_runtime d) (d_users d) v (d_streams d) (d_reviews d) (d_mcp d) (d_effects d) (d_events d)
    (d_wake d) (d_routes d) (d_chat d) (d_logs d) (d_capture d) (d_settings d) (d_beats d) (d_glance d).
Definition set_streams (v : list (Z * string)) (d : db) : db := mkDb (d_jobs d) (d_next d)
    (d_runtime d) (d_users d) (d_failures d) v (d_reviews d) (d_mcp d) (d_effects d) (d_events
    d) (d_wake d) (d_routes d) (d_chat d) (d_logs d) (d_capture d) (d_settings d) (d_beats d) (d_glance d).
Definition set_reviews (v : list review) (d : db) : db := mkDb (d_jobs d) (d_next d) (d_runtime
    d) (d_users d) (d_failures d) (d_streams d) v (d_mcp d) (d_effects d) (d_events d) (d_wake
    d) (d_routes d) (d_chat d) (d_logs d) (d_capture d) (d_settings d) (d_beats d) (d_glance d).
Definition set_mcp (v : list mcp_attempt) (d : db) : db := mkDb (d_jobs d) (d_next d) (d_runtime
    d) (d_users d) (d_failures d) (d_streams d) (d_reviews d) v (d_effects d) (d_events d)
    (d_wake d) (d_routes d) (d_chat d) (d_logs d) (d_capture d) (d_settings d) (d_beats d) (d_glance d).
Definition set_effects (v : list (Z * string)) (d : db) : db := mkDb (d_jobs d) (d_next d)
    (d_runtime d) (d_users d) (d_failures d) (d_streams d) (d_reviews d) (d_mcp d) v (d_events d)
    (d_wake d) (d_routes d) (d_chat d) (d_logs d) (d_capture d) (d_settings d) (d_beats d) (d_glance d).
Definition set_runtime (v : gmap string (string * Z)) (d : db) : db := mkDb (d_jobs d) (d_next d)
    v (d_users d) (d_failures d) (d_streams d) (d_reviews d) (d_mcp d) (d_effects d) (d_events d)
    (d_wake d) (d_routes d) (d_chat d) (d_logs d) (d_capture d) (d_settings d) (d_beats d) (d_glance d).
Definition set_events (v : list recovery_event) (d : db) : db := mkDb (d_jobs d) (d_next d)
    (d_runtime d) (d_users d) (d_failures d) (d_streams d) (d_reviews d) (d_mcp d) (d_effects d)
    v (d_wake d) (d_routes d) (d_chat d) (d_logs d) (d_capture d) (d_settings d) (d_beats d) (d_glance d).
Definition set_wake (v : gmap string wake_row) (d : db) : db := mkDb (d_jobs d) (d_next d)
    (d_runtime d) (d_users d) (d_failures d) (d_streams d) (d_reviews d) (d_mcp d) (d_effects d)
    (d_events d) v (d_routes d) (d_chat d) (d_logs d) (d_capture d) (d_settings d) (d_beats d) (d_glance d).
Definition set_logs (v : list log_row) (d : db) : db := mkDb (d_jobs d) (d_next d) (d_runtime d)
    (d_users d) (d_failures d) (d_streams d) (d_reviews d) (d_mcp d) (d_effects d) (d_events d)
    (d_wake d) (d_routes d) (d_chat d) v (d_capture d) (d_settings d) (d_beats d) (d_glance d).
Definition set_capture (v : gmap string CaptureFailure.state) (d : db) : db := mkDb (d_jobs d)
    (d_next d) (d_runtime d) (d_users d) (d_failures d) (d_streams d) (d_reviews d) (d_mcp d)
    (d_effects d) (d_events d) (d_wake d) (d_routes d) (d_chat d) (d_logs d) v (d_settings d)
    (d_beats d) (d_glance d).
Definition set_glance (v : gmap string glance_row) (d : db) : db := mkDb (d_jobs d) (d_next d)
    (d_runtime d) (d_users d) (d_failures d) (d_streams d) (d_reviews d) (d_mcp d) (d_effects d)
    (d_events d) (d_wake d) (d_routes d) (d_chat d) (d_logs d) (d_capture d) (d_settings d)
    (d_beats d) v.

Definition set_routes (v : gmap string (Z * Z)) (d : db) : db := mkDb (d_jobs d) (d_next d)
    (d_runtime d) (d_users d) (d_failures d) (d_streams d) (d_reviews d) (d_mcp d) (d_effects d)
    (d_events d) (d_wake d) v (d_chat d) (d_logs d) (d_capture d) (d_settings d) (d_beats d) (d_glance d).
Definition set_chat (v : list chat_row) (d : db) : db := mkDb (d_jobs d) (d_next d) (d_runtime d)
    (d_users d) (d_failures d) (d_streams d) (d_reviews d) (d_mcp d) (d_effects d) (d_events d)
    (d_wake d) (d_routes d) v (d_logs d) (d_capture d) (d_settings d) (d_beats d) (d_glance d).

(** ** Statements on [agent_jobs] *)

Definition apply_assigns (l : list assign) (j : job) : job := foldl apply_assign j l.

(** [UPDATE agent_jobs SET sets WHERE p] *)
Definition update_jobs (p : job -> bool) (sets : job -> list assign) (d : db) : db :=
  set_jobs ((fun j => if p j then apply_assigns (sets j) j else j) <$> d_jobs d) d.

(** [SELECT * FROM agent_jobs WHERE p ORDER BY id] *)
Definition select_jobs (p : job -> bool) (d : db) : list job := filter (fun j => p j = true) (d_jobs d).

Definition select_job (p : job -> bool) (d : db) : option job := head (select_jobs p d).

(** The row with primary key [i]. *)
Definition job_at (i : Z) (d : db) : option job := List.find (fun j => j_id j =? i) (d_jobs d).

(** The partial unique index [ux_agent_jobs_singleflight]. *)
Definition key_taken (user lane : string) (d : db) : bool :=
  existsb (fun j => String.eqb (j_user j) user && String.eqb (j_lane j) lane && active j) (d_jobs d).

(** [INSERT INTO agent_jobs ... VALUES (..., 'pending', ...) RETURNING id];
    the unique index rejects a second active row of a user and lane. *)
Definition insert_job (user lane : string) (reason trace : option string) (prio : Z)
    (qdeadline gen : option Z) (now : Z) (d : db) : outcome (Z * db) :=
  if key_taken user lane d then Raise (IntegrityError "ux_agent_jobs_singleflight")
  else
    let j := mkJob (d_next d) user lane reason trace prio pending now now qdeadline None None None
               None None None gen 0 0 None None None in
    Return (d_next d, set_next (d_next d + 1) (set_jobs (d_jobs d ++ [j]) d)).

(** ** SQL comparisons: a comparison with [NULL] is not true. *)

Definition later (o : option Z) (t : Z) : bool := match o with Some x => t <? x | None => false end.
Definition reached (o : option Z) (t : Z) : bool := match o with Some x => x <=? t | None => false end.
Definition is_owner (j : job) (w : string) : bool := bool_decide (j_claimed_by j = Some w).
Definition has_generation (j : job) (g : Z) : bool := bool_decide (j_generation j = Some g).

(** [COALESCE(a, b)] *)
Definition coalesce (a b : option Z) : option Z := match a with Some _ => a | None => b end.

(** [v2_runtime_state] of a user, when it is hosted by V2. *)
Definition v2_generation (user : string) (d : db) : option Z :=
  match d_runtime d !! user with
  | Some (st, gen) => if String.eqb st "v2" then Some gen else None
  | None => None
  end.

End Jobs.
Export Jobs.
