(* ===== verification/WakeSchedule.v ===== *)
(** * Wake circuit and failure backoff
    ([backend/model_api_runtime/v2/wake_circuit.py] and the wake-schedule
    statements of [jobs_store.py])

    Both live in the user's [v2_wake_schedule] row and change in the terminal
    transaction of the job that caused them. *)

From S2P Require Import Prelude PyValue JobTable.
Local Open Scope Z_scope.

Module Wake.

Definition FAILURE_THRESHOLD : Z := 3.
Definition ERROR_CLASSES : list string :=
  ["quota_insufficient"; "auth_invalid"; "provider_account_expired"].
Definition LANES : list string := ["heartbeat"; "screen_watch"].
Definition RESET_REASONS : list string :=
  ["new_chat"; "credential_saved"; "route_activated"; "setup_saved"].
Definition FAIL_BACKOFF_WAKE_LANES : list string := ["heartbeat"].

(** [INSERT INTO v2_wake_schedule (user_id) ... ON CONFLICT DO NOTHING] *)
Definition ensure_row (user : string) (d : db) : db :=
  match d_wake d !! user with
  | Some _ => d
  | None => set_wake (<[user := wake_default]> (d_wake d)) d
  end.

(** [COALESCE(started_at, claimed_at, created_at)] of the job, [NULL] when it
    is gone. *)
Definition job_began (i : Z) (d : db) : option Z :=
  match job_at i d with
  | Some j => Some (match coalesce (j_started_at j) (j_claimed_at j) with
                    | Some t => t | None => j_created_at j end)
  | None => None
  end.

(** The circuit half of the schedule row after one wake result. *)
Definition circuit_update (targeted : bool) (error_class : string) (clk : Z) (w : wake_row)
    : wake_row :=
  let opens := targeted && (FAILURE_THRESHOLD <=? w_provider_streak w + 1) in
  mkWake (w_fail_streak w) (w_fail_user_seq w) (w_backoff_until w)
    (if targeted then Z.min (w_provider_streak w + 1) FAILURE_THRESHOLD else 0)
    (if opens then Some clk else None)
    (if opens then error_class else "")
    (w_reset_at w) (w_payment_cooldown w) (w_followup w).

(** The row is updated only while the circuit is closed and the job began
    after the last reset. *)
Definition circuit_applies (began : option Z) (w : wake_row) : bool :=
  match w_opened_at w with
  | Some _ => false
  | None => match w_reset_at w with
            | None => true
            | Some r => match began with Some b => r <? b | None => false end
            end
  end.

Definition record_result_on_cursor (user lane : string) (job_id : Z) (error_class : string)
    (clk : Z) (d : db) : db * bool :=
  if negb (bool_decide (lane ∈ LANES)) then (d, false)
  else
    let targeted := bool_decide (error_class ∈ ERROR_CLASSES) in
    let d := if targeted then ensure_row user d else d in
    match d_wake d !! user with
    | None => (d, false)
    | Some w =>
        if circuit_applies (job_began job_id d) w then
          let w' := circuit_update targeted error_class clk w in
          (set_wake (<[user := w']> (d_wake d)) d, bool_decide (is_Some (w_opened_at w')))
        else (d, false)
    end.

Definition is_open (user : string) (d : db) : bool :=
  match d_wake d !! user with Some w => bool_decide (is_Some (w_opened_at w)) | None => false end.

(** [reset], its database part; a database error is logged and answers
    [False], leaving the schedule as it was. *)
Definition reset (user reason : string) (clk : Z) (d : db) : outcome (db * bool) :=
  if negb (bool_decide (reason ∈ RESET_REASONS))
  then Raise (ValueError "invalid wake circuit reset reason")
  else
    match v2_generation user d with
    | None => Return (d, false)
    | Some _ =>
        let d := ensure_row user d in
        match d_wake d !! user with
        | None => Return (d, false)
        | Some w =>
            let w' := mkWake 0 (w_fail_user_seq w) None 0 None "" (Some clk) None (w_followup w) in
            Return (set_wake (<[user := w']> (d_wake d)) d, bool_decide (is_Some (w_opened_at w)))
        end
    end.

(** ** Failure backoff *)

Definition genuine (user : string) (m : chat_row) : bool :=
  String.eqb (cm_user m) user && bool_decide (cm_role m ∈ ["user"; "human"])
  && negb (bool_decide (cm_source m ∈ ["verify_ping"; "resident_maintenance"])).

Definition latest_genuine_user_seq (user : string) (d : db) : Z :=
  foldr Z.max 0 (cm_seq <$> filter (fun m => genuine user m = true) (d_chat d)).

Definition clear_wake_backoff (user : string) (d : db) : db :=
  match d_wake d !! user with
  | None => d
  | Some w =>
      set_wake (<[user := mkWake 0 (latest_genuine_user_seq user d) None (w_provider_streak w)
                            (w_opened_at w) (w_reason w) (w_reset_at w) (w_payment_cooldown w)
                            (w_followup w)]> (d_wake d)) d
  end.

Definition backoff_delay (base cap streak : Z) : Z := Z.min (base * 2 ^ Z.min (streak - 1) 62) cap.

Definition arm_wake_backoff (user : string) (now base cap : Z) (d : db) : db :=
  let base := Z.max 0 base in
  let cap := Z.max 0 cap in
  if (base <=? 0) || (cap <=? 0) then d
  else
    let d := ensure_row user d in
    match d_wake d !! user with
    | None => d
    | Some w =>
        let user_seq := latest_genuine_user_seq user d in
        let streak := (if w_fail_user_seq w <? user_seq then 0 else w_fail_streak w) + 1 in
        set_wake (<[user := mkWake streak user_seq (Some (now + backoff_delay base cap streak))
                              (w_provider_streak w) (w_opened_at w) (w_reason w) (w_reset_at w)
                              (w_payment_cooldown w) (w_followup w)]> (d_wake d)) d
    end.

(** ** The circuit over a sequence of results *)

Record result : Type := mkResult {
  r_lane : string;
  r_job : Z;
  r_class : string;
  r_clk : Z;
}.

Definition record_all (user : string) (rs : list result) (d : db) : db :=
  foldl (fun d r => (record_result_on_cursor user (r_lane r) (r_job r) (r_class r) (r_clk r) d).1) d rs.

Definition targets (r : result) : bool := bool_decide (r_class r ∈ ERROR_CLASSES).

(** A result counts when its lane is a wake lane and its job began after the
    user's last reset. *)
Definition counts (user : string) (d : db) (r : result) : Prop :=
  r_lane r ∈ LANES /\
  forall w t, d_wake d !! user = Some w -> w_reset_at w = Some t ->
    exists b, job_began (r_job r) d = Some b /\ t < b.

(** Three targeted failures next to each other. *)
Definition three_in_a_row (rs : list result) : Prop :=
  exists pre a b c post, rs = pre ++ [a; b; c] ++ post /\
    targets a = true /\ targets b = true /\ targets c = true.

(** The targeted failures at the end of a sequence. *)
Definition trailing (rs : list result) : Z :=
  foldl (fun n r => if targets r then n + 1 else 0) 0 rs.

Lemma trailing_snoc rs r : trailing (rs ++ [r]) = if targets r then trailing rs + 1 else 0.
Proof. unfold trailing. by rewrite foldl_app. Qed.

Lemma trailing_nonneg rs : 0 <= trailing rs.
Proof.
  induction rs as [|r rs IH] using rev_ind; [done|]. rewrite trailing_snoc. case_goal; lia.
Qed.

Lemma trailing_suffix rs (n : nat) :
  Z.of_nat n <= trailing rs -> exists pre post, rs = pre ++ post /\ length post = n /\
    Forall (fun r => targets r = true) post.
Proof.
  revert n. induction rs as [|r rs IH] using rev_ind; intros n Hn.
  - assert (n = 0%nat) as -> by (unfold trailing in Hn; simpl in Hn; lia). by exists [], [].
  - destruct n as [|n]; [exists (rs ++ [r]), []; by rewrite app_nil_r|].
    rewrite trailing_snoc in Hn. destruct (targets r) eqn:Er; [|lia].
    destruct (IH n ltac:(lia)) as (pre & post & -> & Hl & Hf).
    exists pre, (post ++ [r]). rewrite <- app_assoc. split; [done|].
    rewrite length_app. simpl. split; [lia|]. apply Forall_app. by repeat constructor.
Qed.

Lemma trailing_three pre a b c :
  targets a = true -> targets b = true -> targets c = true -> 3 <= trailing (pre ++ [a; b; c]).
Proof.
  intros Ha Hb Hc. change [a; b; c] with ([a] ++ [b] ++ [c]). rewrite !app_assoc, !trailing_snoc.
  rewrite Ha, Hb, Hc. pose proof (trailing_nonneg pre). lia.
Qed.

(** One counted result on a row. *)
Lemma record_counted user r d :
  counts user d r ->
  let '(d', opened) := record_result_on_cursor user (r_lane r) (r_job r) (r_class r) (r_clk r) d in
  d_jobs d' = d_jobs d /\
  match d_wake d !! user with
  | Some w =>
      d_wake d' !! user = Some (match w_opened_at w with
                                | Some _ => w
                                | None => circuit_update (targets r) (r_class r) (r_clk r) w
                                end)
  | None => if targets r
            then d_wake d' !! user = Some (circuit_update true (r_class r) (r_clk r) wake_default)
            else d_wake d' !! user = None
  end /\
  opened = negb (is_open user d) && is_open user d'.
Proof.
  intros [Hl Hb]. unfold record_result_on_cursor. rewrite bool_decide_true by done. simpl.
  fold (targets r). destruct (d_wake d !! user) as [w|] eqn:Ew.
  - assert ((if targets r then ensure_row user d else d) = d) as ->.
    { destruct (targets r); [|done]. unfold ensure_row. by rewrite Ew. }
    rewrite Ew. unfold is_open. rewrite Ew. unfold circuit_applies.
    destruct (w_opened_at w) as [o|] eqn:Eo; simpl.
    { split; [done|]. split; [done|]. by rewrite ?bool_decide_true. }
    assert (match w_reset_at w with
            | Some t => match job_began (r_job r) d with Some b => t <? b | None => false end
            | None => true end = true) as ->.
    { destruct (w_reset_at w) as [t|] eqn:Er; [|done].
      destruct (Hb w t eq_refl Er) as (b & -> & Hlt). by apply Z.ltb_lt. }
    simpl. rewrite lookup_insert_eq. done.
  - destruct (targets r) eqn:Et; simpl.
    + unfold ensure_row. rewrite Ew. simpl. rewrite lookup_insert_eq. simpl.
      rewrite lookup_insert_eq. split; [done|]. split; [done|].
      unfold is_open. simpl. by rewrite Ew, lookup_insert_eq.
    + rewrite Ew. unfold is_open. by rewrite Ew.
Qed.

Lemma counts_stable user r r' d :
  counts user d r -> counts user d r' ->
  counts user (record_result_on_cursor user (r_lane r) (r_job r) (r_class r) (r_clk r) d).1 r'.
Proof.
  intros Hr [Hl Hb]. pose proof (record_counted user r d Hr) as H.
  destruct (record_result_on_cursor _ _ _ _ _ d) as [d' opened]. destruct H as (Hj & Hw & _).
  split; [done|]. intros w' t Hw' Ht. simpl in *.
  assert (job_began (r_job r') d' = job_began (r_job r') d) as ->
    by (unfold job_began, job_at; by rewrite Hj).
  destruct (d_wake d !! user) as [w|] eqn:Ew.
  - rewrite Hw' in Hw. injection Hw as ->. eapply (Hb w t); [done|].
    destruct (w_opened_at w); [done|]. exact Ht.
  - destruct (targets r); rewrite Hw' in Hw; [|done]. injection Hw as ->. done.
Qed.

Definition three_at (rs : list result) (i : nat) : bool :=
  match drop i rs with a :: b :: c :: _ => targets a && targets b && targets c | _ => false end.

#[global] Instance three_dec rs : Decision (three_in_a_row rs).
Proof.
  destruct (decide (Exists (fun i => three_at rs i = true) (seq 0 (length rs)))) as [e|n];
    [left|right].
  - apply Exists_exists in e as (i & _ & Hi). unfold three_at in Hi.
    destruct (drop i rs) as [|a [|b [|c post]]] eqn:Ed; try done. bools.
    exists (take i rs), a, b, c, post. split; [|done].
    change ([a; b; c] ++ post) with (a :: b :: c :: post). rewrite <- Ed. by rewrite take_drop.
  - intros (pre & a & b & c & post & -> & Ha & Hb & Hc). apply n. apply Exists_exists.
    exists (length pre). split.
    + apply elem_of_seq. rewrite length_app. simpl. lia.
    + unfold three_at. rewrite drop_app_length. simpl. by rewrite Ha, Hb, Hc.
Defined.

(** The circuit of a user: closed with its counter, or open. *)
Definition circuit_state (user : string) (rs : list result) (d : db) : Prop :=
  if decide (three_in_a_row rs) then is_open user d = true
  else is_open user d = false /\
       match d_wake d !! user with
       | Some w => w_opened_at w = None /\ w_provider_streak w = trailing rs
       | None => trailing rs = 0
       end.


Lemma three_snoc rs r :
  three_in_a_row (rs ++ [r]) <->
  three_in_a_row rs \/ (targets r = true /\ 2 <= trailing rs).
Proof.
  split.
  - intros (pre & a & b & c & post & E & Ha & Hb & Hc).
    destruct post as [|x post] using rev_ind.
    + right. change ([a; b; c] ++ []) with ([a; b] ++ [c]) in E. rewrite app_assoc in E.
      apply app_inj_tail in E as [-> ->]. split; [done|].
      change [a; b] with ([a] ++ [b]). rewrite app_assoc, !trailing_snoc, Ha, Hb.
      pose proof (trailing_nonneg pre). lia.
    + left. rewrite !app_assoc in E. apply app_inj_tail in E as [-> _].
      exists pre, a, b, c, post. by rewrite app_assoc.
  - intros [(pre & a & b & c & post & -> & H)|[Hr Ht]].
    + exists pre, a, b, c, (post ++ [r]). by rewrite <- !app_assoc.
    + destruct (trailing_suffix rs 2 Ht) as (pre & post & -> & Hl & Hf).
      destruct post as [|a [|b [|? ?]]]; try done.
      apply Forall_cons in Hf as [Ha Hf]. apply Forall_cons in Hf as [Hb _].
      exists pre, a, b, r, []. rewrite app_nil_r, <- app_assoc. done.
Qed.

Lemma circuit_step user rs r d :
  counts user d r -> circuit_state user rs d ->
  circuit_state user (rs ++ [r])
    (record_result_on_cursor user (r_lane r) (r_job r) (r_class r) (r_clk r) d).1.
Proof.
  intros Hc Hst. pose proof (record_counted user r d Hc) as H.
  destruct (record_result_on_cursor _ _ _ _ _ d) as [d' opened]. destruct H as (_ & Hw & _). simpl.
  unfold circuit_state in *. rewrite (decide_ext _ _ _ _ (three_snoc rs r)). unfold is_open in *.
  destruct (decide (three_in_a_row rs)) as [H3|H3].
  - rewrite decide_True by tauto. destruct (d_wake d !! user) as [w|]; [|done].
    rewrite Hw. destruct (w_opened_at w) eqn:Eo; [by rewrite Eo|discriminate Hst].
  - pose proof (trailing_nonneg rs). destruct Hst as [_ Hst]. rewrite trailing_snoc.
    assert (forall w, w_opened_at w = None -> w_provider_streak w = trailing rs ->
      d_wake d' !! user = Some (circuit_update (targets r) (r_class r) (r_clk r) w) ->
      if decide (three_in_a_row rs \/ targets r = true /\ 2 <= trailing rs)
      then match d_wake d' !! user with Some w => bool_decide (is_Some (w_opened_at w)) | None => false end = true
      else match d_wake d' !! user with Some w => bool_decide (is_Some (w_opened_at w)) | None => false end = false /\
           match d_wake d' !! user with
           | Some w => w_opened_at w = None /\
               w_provider_streak w = if targets r then trailing rs + 1 else 0
           | None => (if targets r then trailing rs + 1 else 0) = 0 end) as Hrow.
    { intros w Ho Hs ->. unfold circuit_update, FAILURE_THRESHOLD. simpl. rewrite Hs.
      destruct (targets r); simpl.
      - destruct (Z.leb_spec 3 (trailing rs + 1)).
        + rewrite decide_True by (right; split; [done|lia]). done.
        + rewrite decide_False by (intros [?|[_ ?]]; [done|lia]). split; [done|]. split; [done|]. lia.
      - rewrite decide_False by (intros [?|[? _]]; done). done. }
    destruct (d_wake d !! user) as [w|] eqn:Ew.
    + destruct Hst as [Ho Hs]. rewrite Ho in Hw. by apply (Hrow w).
    + destruct (targets r) eqn:Et.
      * apply (Hrow wake_default); [done|by rewrite Hst|done].
      * rewrite Hw, decide_False by (intros [?|[? _]]; done). done.
Qed.

(** A closed circuit with no failures counted. *)
Definition closed_clean (user : string) (d : db) : Prop :=
  match d_wake d !! user with
  | Some w => w_opened_at w = None /\ w_provider_streak w = 0
  | None => True
  end.

(** Over any sequence of wake results of jobs begun after the last reset,
    starting with a clean circuit, the circuit is open at the end exactly when
    three results next to each other failed with a targeted account error; other
    outcomes clear a closed streak and never close an open circuit. *)
Theorem circuit_opens_exactly_on_three user rs d :
  closed_clean user d -> (forall r, r ∈ rs -> counts user d r) ->
  is_open user (record_all user rs d) = true <-> three_in_a_row rs.
Proof.
  intros Hclean Hc.
  assert (circuit_state user rs (record_all user rs d) /\
          forall r, counts user d r -> counts user (record_all user rs d) r) as [Hst _].
  { induction rs as [|r rs IH] using rev_ind.
    - split; [|done]. unfold circuit_state. rewrite decide_False by (intros (pre & ? & ? & ? & ? & E & _); by destruct pre).
      unfold closed_clean, is_open in *. simpl. destruct (d_wake d !! user) as [w|]; [|done].
      destruct Hclean as [-> ->]. done.
    - destruct IH as [IH Hk]; [intros r' Hr'; apply Hc; set_solver|].
      unfold record_all. rewrite foldl_app. simpl. fold (record_all user rs d).
      assert (counts user (record_all user rs d) r) as Hr by (apply Hk, Hc; set_solver).
      split; [by apply circuit_step|]. intros r' Hr'. apply counts_stable; [done|by apply Hk]. }
  unfold circuit_state in Hst. destruct (decide (three_in_a_row rs)) as [H3|H3]; [done|].
  destruct Hst as [-> _]. split; done.
Qed.

Definition wake_job (i t : Z) : job :=
  mkJob i "u" "heartbeat" None None 50 running t t None None (Some "w") (Some t) (Some t) None
    None (Some 1) 0 0 None None None.

Definition sample_db : db :=
  mkDb [wake_job 1 10] 2 {["u" := ("v2"%string, 1)]} ["u"%string] [] [] [] [] [] []
    {["u" := mkWake 0 0 None 0 None "" (Some 5) None None]} ∅ [] [] ∅ ∅ ∅ ∅.

Definition quota (t : Z) : result := mkResult "heartbeat" 1 "quota_insufficient" t.
Definition timeout (t : Z) : result := mkResult "screen_watch" 1 "provider_timeout" t.

Lemma circuit_opens_exactly_on_three_witness :
  is_open "u" (record_all "u" [quota 20; timeout 21; quota 22; quota 23; quota 24] sample_db) = true.
Proof.
  apply circuit_opens_exactly_on_three.
  - split; reflexivity.
  - intros r Hr. split.
    + repeat (apply elem_of_cons in Hr as [->|Hr]); [decided..|by apply elem_of_nil in Hr].
    + intros w t Hw Ht. exists 10. split.
      * repeat (apply elem_of_cons in Hr as [->|Hr]); [reflexivity..|by apply elem_of_nil in Hr].
      * assert (d_wake sample_db !! "u"%string = Some (mkWake 0 0 None 0 None "" (Some 5) None None))
          as E by reflexivity.
        rewrite E in Hw. injection Hw as <-. simpl in Ht. injection Ht as <-. lia.
  - exists [quota 20; timeout 21], (quota 22), (quota 23), (quota 24), [].
    split; [reflexivity|]. split; [decided|]. split; decided.
Defined.

(** A user's reset fences the past: a result of a job that began no later
    than the reset changes nothing and does not report an opening, and the reset
    itself reports exactly whether it closed an open circuit. *)
Theorem reset_fences_old_results user reason clk d d1 was_open lane job_id class t :
  reset user reason clk d = Return (d1, was_open) -> v2_generation user d <> None ->
  (exists b, job_began job_id d1 = Some b /\ b <= clk) ->
  was_open = is_open user d /\ is_open user d1 = false /\
  record_result_on_cursor user lane job_id class t d1 = (d1, false).
Proof.
  intros Hr Hv (b & Hb & Hle). unfold reset in Hr.
  destruct (negb _); [done|]. destruct (v2_generation user d); [|done].
  unfold ensure_row in Hr.
  assert (exists w, d_wake d1 !! user = Some w /\ w_opened_at w = None /\ w_reset_at w = Some clk /\
            was_open = is_open user d) as (w & Hw & Ho & Ht & Hwas).
  { unfold is_open. destruct (d_wake d !! user) as [w|] eqn:Ew.
    - rewrite Ew in Hr. injection Hr as <- <-. eexists. simpl. by rewrite lookup_insert_eq.
    - simpl in Hr. rewrite lookup_insert_eq in Hr. injection Hr as <- <-.
      eexists. simpl. by rewrite lookup_insert_eq. }
  split; [done|]. split.
  { unfold is_open. by rewrite Hw, Ho. }
  unfold record_result_on_cursor. destruct (negb _); [done|].
  assert ((if bool_decide (class ∈ ERROR_CLASSES) then ensure_row user d1 else d1) = d1) as ->.
  { destruct (bool_decide _); [|done]. unfold ensure_row. by rewrite Hw. }
  rewrite Hw. unfold circuit_applies. rewrite Ho, Ht, Hb.
  by destruct (Z.ltb_spec clk b); [lia|].
Qed.

Lemma reset_fences_old_results_witness :
  exists d1, record_result_on_cursor "u" "heartbeat" 1 "auth_invalid" 40 d1 = (d1, false) /\
    is_open "u" d1 = false.
Proof.
  destruct (reset "u" "new_chat" 30 (record_all "u" [quota 20; quota 22; quota 23] sample_db))
    as [[d1 was]|e] eqn:E.
  - exists d1.
    assert (d1 = match reset "u" "new_chat" 30 (record_all "u" [quota 20; quota 22; quota 23] sample_db)
                 with Return (d, _) => d | Raise _ => d1 end) as Hd1 by (by rewrite E).
    destruct (reset_fences_old_results "u" "new_chat" 30 _ d1 was "heartbeat" 1 "auth_invalid" 40 E)
      as (_ & Ho & Hr).
    + vm_compute. discriminate.
    + exists 10. split; [|lia]. rewrite Hd1. vm_compute. reflexivity.
    + done.
  - exfalso. apply (f_equal (fun o => match o with Return _ => true | Raise _ => false end)) in E.
    vm_compute in E. discriminate E.
Defined.

(** Consecutive failed wakes of a user at the given instants. *)
Definition arm_all (user : string) (base cap : Z) (nows : list Z) (d : db) : db :=
  foldl (fun d now => arm_wake_backoff user now base cap d) d nows.

Lemma arm_row user now base cap d :
  0 < base -> 0 < cap ->
  let w := default wake_default (d_wake d !! user) in
  let seq := latest_genuine_user_seq user d in
  let streak := (if w_fail_user_seq w <? seq then 0 else w_fail_streak w) + 1 in
  d_chat (arm_wake_backoff user now base cap d) = d_chat d /\
  d_wake (arm_wake_backoff user now base cap d) !! user =
    Some (mkWake streak seq (Some (now + backoff_delay base cap streak)) (w_provider_streak w)
            (w_opened_at w) (w_reason w) (w_reset_at w) (w_payment_cooldown w) (w_followup w)).
Proof.
  intros Hb Hcap. unfold arm_wake_backoff. rewrite !Z.max_r by lia.
  rewrite (proj2 (Z.leb_gt _ _) Hb), (proj2 (Z.leb_gt _ _) Hcap). simpl.
  unfold ensure_row. destruct (d_wake d !! user) as [w|] eqn:Ew; simpl.
  - rewrite Ew. simpl. by rewrite lookup_insert_eq.
  - rewrite lookup_insert_eq. simpl. by rewrite lookup_insert_eq.
Qed.

Lemma arm_all_row user base cap nows d :
  0 < base -> 0 < cap -> nows <> [] ->
  let w := default wake_default (d_wake d !! user) in
  (w_fail_streak w = 0 \/ w_fail_user_seq w < latest_genuine_user_seq user d) ->
  exists w', d_chat (arm_all user base cap nows d) = d_chat d /\
    d_wake (arm_all user base cap nows d) !! user = Some w' /\
    w_fail_streak w' = Zlen nows /\ w_fail_user_seq w' = latest_genuine_user_seq user d /\
    w_backoff_until w' = (fun now => now + backoff_delay base cap (Zlen nows)) <$> last nows.
Proof.
  intros Hb Hcap Hne w Hw. induction nows as [|now nows IH] using rev_ind; [done|].
  unfold arm_all. rewrite foldl_app. simpl. fold (arm_all user base cap nows d).
  destruct (arm_row user now base cap (arm_all user base cap nows d) Hb Hcap) as [Hchat Hrow].
  rewrite Hrow, Hchat, last_snoc. rewrite Zlen_app.
  change (Zlen [now]) with 1. destruct (decide (nows = [])) as [->|Hn].
  - eexists. split; [done|]. split; [done|]. simpl. fold w.
    assert ((if w_fail_user_seq w <? latest_genuine_user_seq user d then 0 else w_fail_streak w) = 0) as ->.
    { destruct (Z.ltb_spec (w_fail_user_seq w) (latest_genuine_user_seq user d)); [done|]. lia. }
    done.
  - destruct (IH Hn) as (w' & Hc & Hw' & Hs & Hseq & _). rewrite Hw'. simpl.
    assert (latest_genuine_user_seq user (arm_all user base cap nows d) =
            latest_genuine_user_seq user d) as -> by (unfold latest_genuine_user_seq; by rewrite Hc).
    eexists. split; [done|]. split; [done|]. simpl. rewrite Hseq, Z.ltb_irrefl, Hs. done.
Qed.

(** Without a new user message in between, the n-th failed wake in a row
    after a cleared streak (or after a user message) delays the next one by
    [base * 2^(n-1)], never more than the cap. *)
Theorem wake_backoff_doubles user base cap d nows now :
  0 < base -> 0 < cap ->
  (let w := default wake_default (d_wake d !! user) in
   w_fail_streak w = 0 \/ w_fail_user_seq w < latest_genuine_user_seq user d) ->
  exists w, d_wake (arm_all user base cap (nows ++ [now]) d) !! user = Some w /\
    w_fail_streak w = Zlen nows + 1 /\
    w_backoff_until w = Some (now + Z.min (base * 2 ^ Z.min (Zlen nows) 62) cap).
Proof.
  intros Hb Hcap Hstart.
  destruct (arm_all_row user base cap (nows ++ [now]) d Hb Hcap ltac:(by destruct nows) Hstart)
    as (w & _ & Hw & Hs & _ & Hu).
  exists w. split; [done|]. rewrite Zlen_app in Hs, Hu. change (Zlen [now]) with 1 in *.
  split; [done|]. rewrite Hu, last_snoc. simpl. unfold backoff_delay. do 3 f_equal.
  f_equal. f_equal. lia.
Qed.

Lemma wake_backoff_doubles_witness :
  exists w, d_wake (arm_all "u" 600 3600 ([10; 700; 2000; 5000] ++ [9000]) sample_db) !! "u"%string = Some w /\
    w_fail_streak w = Zlen [10; 700; 2000; 5000] + 1 /\
    w_backoff_until w = Some (9000 + Z.min (600 * 2 ^ Z.min (Zlen [10; 700; 2000; 5000]) 62) 3600).
Proof. apply wake_backoff_doubles; [lia|lia|]. left. reflexivity. Defined.

End Wake.
