(* ===== verification/JobQueue.v ===== *)
(** * The job queue of hosted runtime V2
    ([backend/model_api_runtime/v2/jobs_store.py])

    One definition per transaction of the queue, on the tables of [JobTable].
    A transaction runs on the state its row locks protect, so it is one step;
    [now] is the transaction's [now()], [clk] the [clock_timestamp()] its
    statements read. Notifications, traces and the copies written to the shadow
    database after the commit are not part of the state; where the code hands
    rows to them, the rows are part of the result. *)

From S2P Require Import Prelude PyValue CaptureFailure JobTable WakeSchedule.
Local Open Scope Z_scope.

Module Queue.

(** ** Configuration *)

Definition LANES : list string :=
  ["chat"; "manual_wake"; "heartbeat"; "scheduled"; "capture"; "maintenance"; "dream"; "profile";
   "screen_watch"; "trajectory_review"].

Definition LANE_PRIORITY (lane : string) : Z :=
  if bool_decide (lane ∈ ["chat"; "manual_wake"]) then 100
  else if bool_decide (lane ∈ ["heartbeat"; "scheduled"; "screen_watch"]) then 50
  else if bool_decide (lane ∈ ["capture"; "maintenance"; "dream"; "profile"]) then 10
  else if bool_decide (lane ∈ ["trajectory_review"]) then 1 else 0.

Definition DURABLE_TOOL_EFFECT_TYPES : list string :=
  ["memory_encrypted_v1"; "identity_encrypted_v1"; "schedule_encrypted_v1";
   "workspace_encrypted_v1"; "workspace_batch_encrypted_v1"].

Definition PRISTINE_GUARDED_WAKE_LANES : list string := ["heartbeat"; "manual_wake"; "screen_watch"].
Definition TRAJECTORY_REVIEW_LANE : string := "trajectory_review".
Definition TRAJECTORY_REVIEW_MAX_ATTEMPTS : Z := 3.
Definition GENERAL_WATCHDOG_REQUEUE_EXHAUSTED : string := "watchdog_requeue_exhausted".
Definition FLEET_POOLS : list string := ["foreground"; "wake"; "heavy"].

(** The settings of one process: its environment, the registered public error
    classes, and the numbers read from the environment at import. *)
Record config : Type := mkConfig {
  env : string -> option pystr;
  error_classes : list string;
  pending_chat_ttl : Z;
  running_ttl : Z;
  scheduled_requeue_max : Z;
  general_requeue_max : Z;
  capture_owner_dead : Z;
  capture_backoff_base : Z;
  capture_backoff_cap : Z;
  classify_failure : CaptureFailure.texts;
}.

(** [_positive_int_env] *)
Definition positive_int_env (env : string -> option pystr) (name : string) (dflt : pystr)
    : outcome Z :=
  match py_int (strip (default dflt (env name))) with
  | None => Raise (RuntimeError "must be an integer > 0")
  | Some v => if v <=? 0 then Raise (RuntimeError "must be an integer > 0") else Return v
  end.

(** ** Error codes *)

Definition code_char (c : Ascii.ascii) : bool :=
  let n := Ascii.N_of_ascii c in
  ((97 <=? n)%N && (n <=? 122)%N) || ((48 <=? n)%N && (n <=? 57)%N)
  || (n =? 95)%N || (n =? 58)%N || (n =? 45)%N.

(** [_terminal_error_code]: [[a-z0-9_:-]{1,120}], else the fallback code. *)
Definition terminal_error_code (error : string) : string :=
  let cs := String.list_ascii_of_string error in
  if forallb code_char cs && (1 <=? Zlen cs) && (Zlen cs <=? 120) then error else "runtime_failed".

Definition s_strip (s : string) : string :=
  String.string_of_list_ascii (Ascii.ascii_of_N <$> strip (u s)).

Definition contains (sub s : string) : bool :=
  match String.index 0 sub s with Some _ => true | None => false end.

Definition ends_with (suf s : string) : bool :=
  String.eqb (String.substring (String.length s - String.length suf) (String.length suf) s) suf.

Section Queue.
Context (cfg : config).

Definition terminal_error_class (error error_class : string) : string :=
  let candidate := s_strip error_class in
  if bool_decide (candidate ∈ error_classes cfg) then candidate
  else
    let code := terminal_error_code error in
    if String.eqb code "queue_timeout" then "platform_queue_timeout"
    else if bool_decide (code ∈ ["slot_watchdog_timeout"; "lease_timeout"; "runtime_expired"])
    then "platform_execution_timeout"
    else if bool_decide (code ∈ ["provider_timeout"; "provider_transport_timeout"])
    then "provider_timeout"
    else if contains "prompt_frontier_exhausted" code then "context_overflow"
    else if String.eqb code "wake_failed:choice_invalid" then "reply_parse_failed"
    else if ends_with ":empty_reply" code then "provider_empty_reply"
    else "unknown".

(** [str(error)[:500]] *)
Definition clip500 (s : string) : string := String.substring 0 500 s.

(** ** The user-visible failure outbox *)

(** The latest genuine user message, the frontier of a failed chat turn. *)
Definition latest_input (user : string) (d : db) : option chat_row :=
  foldl (fun best m =>
           if Wake.genuine user m
           then match best with
                | Some b => if cm_seq b <? cm_seq m then Some m else best
                | None => Some m
                end
           else best) None (d_chat d).

Definition queue_terminal_failure (job_id : Z) (user error error_class : string) (d : db) : db :=
  match job_at job_id d with
  | Some j =>
      if String.eqb (j_user j) user && bool_decide (j_lane j ∈ ["chat"; "scheduled"])
         && negb (existsb (fun f => fr_job f =? job_id) (d_failures d))
      then
        let input := if String.eqb (j_lane j) "chat" then latest_input user d else None in
        set_failures (d_failures d ++
          [mkFailureRow job_id user (terminal_error_code error)
             (terminal_error_class error error_class) (d_routes d !! user)
             (cm_seq <$> input) (cm_msg <$> input)]) d
      else d
  | None => d
  end.

(** ** Failure reviews *)

Definition trajectory_review_admission_cap : Z :=
  match py_int (strip (default (u "64") (env cfg "FEEDLING_V2_TRAJECTORY_REVIEW_MAX_ACTIVE"))) with
  | Some v => if (1 <=? v) && (v <=? 10000) then v else 0
  | None => 0
  end.

Definition trajectory_review_enabled : bool :=
  bool_decide (CaptureFailure.str_lower (classify_failure cfg) (strip (default (u "0")
                 (env cfg "FEEDLING_V2_TRAJECTORY_REVIEW_ENABLED")))
               ∈ [u "1"; u "true"; u "yes"; u "on"])
  && negb (trajectory_review_admission_cap =? 0).

Definition review_active (r : review) : bool :=
  match rv_status r with r_pending | r_running => true | _ => false end.

Definition review_admission_available (d : db) : bool :=
  trajectory_review_enabled
  && (Zlen (filter (fun r => review_active r = true) (d_reviews d)) <? trajectory_review_admission_cap).

(** [_ensure_review_runner_on_cursor]: one runner per user with a backlog. *)
Definition ensure_review_runner (user : string) (now : Z) (d : db) : db * bool :=
  if negb trajectory_review_enabled then (d, false)
  else
    match v2_generation user d with
    | None => (d, false)
    | Some gen =>
        if existsb (fun r => String.eqb (rv_user r) user && bool_decide (rv_status r = r_pending))
             (d_reviews d)
        then
          match insert_job user TRAJECTORY_REVIEW_LANE (Some "terminal_failure_review") None
                  (LANE_PRIORITY TRAJECTORY_REVIEW_LANE) None (Some gen) now d with
          | Return (_, d') => (d', true)
          | Raise _ => (d, false)
          end
        else (d, false)
    end.

Definition queue_failure_review (source : Z) (now : Z) (d : db) : db * bool :=
  match job_at source d with
  | None => (d, false)
  | Some j =>
      let d := if existsb (fun s => s.1 =? source) (d_streams d) then d
               else set_streams (d_streams d ++ [(source, j_user j)]) d in
      if review_admission_available d
         && bool_decide (j_status j ∈ [failed; expired])
         && negb (String.eqb (j_lane j) TRAJECTORY_REVIEW_LANE)
         && bool_decide (is_Some (v2_generation (j_user j) d))
         && negb (existsb (fun r => rv_source r =? source) (d_reviews d))
      then
        let d := set_reviews (d_reviews d ++
                   [mkReview source (j_user j) r_pending 0 None None None now]) d in
        ((ensure_review_runner (j_user j) now d).1, true)
      else (d, false)
  end.

(** The review row a lost runner gives back. *)
Definition release_review (now : Z) (r : review) : review :=
  let again := rv_attempts r <? TRAJECTORY_REVIEW_MAX_ATTEMPTS in
  mkReview (rv_source r) (rv_user r) (if again then r_pending else r_failed) (rv_attempts r) None
    (if again then rv_error r
     else match rv_error r with Some e => Some e | None => Some "review_runner_failed"%string end)
    (if again then None else Some now) (rv_created r).

Definition held_by (runner : Z) (r : review) : bool :=
  bool_decide (rv_claimed_by r = Some runner) && bool_decide (rv_status r = r_running).

Definition recover_review_runner (runner now : Z) (d : db) : db * list (string * Z) :=
  match job_at runner d with
  | Some j =>
      if String.eqb (j_lane j) TRAJECTORY_REVIEW_LANE then
        let held := filter (fun r => held_by runner r = true) (d_reviews d) in
        let d := set_reviews ((fun r => if held_by runner r then release_review now r else r)
                              <$> d_reviews d) d in
        (foldl (fun d r => (ensure_review_runner (rv_user r) now d).1) d held,
         (fun r => (rv_user r, rv_source r)) <$> held)
      else (d, [])
  | None => (d, [])
  end.

(** [reconcile_failure_review_runners]: recreate missing runners, oldest
    backlog first, at most [limit] users. *)
Definition wants_runner (d : db) (r : review) : bool :=
  bool_decide (rv_status r = r_pending) && (rv_attempts r <? TRAJECTORY_REVIEW_MAX_ATTEMPTS)
  && bool_decide (is_Some (v2_generation (rv_user r) d))
  && negb (key_taken (rv_user r) TRAJECTORY_REVIEW_LANE d).

(** [GROUP BY user_id ORDER BY MIN(created_at), user_id] *)
Definition backlog_leb (a b : Z * string) : bool :=
  (a.1 <? b.1) || ((a.1 =? b.1) && String.leb a.2 b.2).

Definition users_by_oldest (rs : list review) : list string :=
  foldl (fun us r => if bool_decide (rv_user r ∈ us) then us else us ++ [rv_user r]) []
    (sorted_by backlog_leb (fun r => (rv_created r, rv_user r)) rs).

Definition reconcile_failure_review_runners (limit now : Z) (d : db) : outcome (db * Z) :=
  if negb ((1 <=? limit) && (limit <=? 1000))
  then Raise (ValueError "failure review reconcile limit must be 1..1000")
  else if negb trajectory_review_enabled then Return (d, 0)
  else
    let users := take (Z.to_nat limit)
                   (users_by_oldest (filter (fun r => wants_runner d r = true) (d_reviews d))) in
    Return (foldl (fun acc user =>
                     let '(d', made) := ensure_review_runner user now acc.1 in
                     (d', acc.2 + if made then 1 else 0)) (d, 0) users).

(** ** Replay safety *)

(** [_turn_is_pristine_on_cursor]: the turn left no durable or remote write. *)
Definition pristine (job_id : Z) (d : db) : bool :=
  negb (existsb (fun a => mcp_job a =? job_id) (d_mcp d))
  && negb (existsb (fun e => (e.1 =? job_id) && bool_decide (e.2 ∈ DURABLE_TOOL_EFFECT_TYPES))
             (d_effects d)).

Definition mcp_unresolved (job_id : Z) (d : db) : bool :=
  existsb (fun a => (mcp_job a =? job_id)
                    && bool_decide (mcp_outcome a ∈ [None; Some "unknown"%string])) (d_mcp d).

(** Dangling remote writes of a dead turn are recorded as unknown. *)
Definition resolve_mcp (hit : Z -> bool) (clk : Z) (d : db) : db :=
  set_mcp ((fun a => if hit (mcp_job a) && bool_decide (mcp_outcome a = None)
                     then mkMcp (mcp_job a) (Some "unknown"%string) (Some clk) else a) <$> d_mcp d) d.

Definition terminal_label (job_id : Z) (label : string) (d : db) : string :=
  if mcp_unresolved job_id d then "mcp_mutation_outcome_unknown" else label.

(** ** Deadlines *)

Definition queue_deadline (j : job) : option Z :=
  coalesce (j_queue_deadline j)
    (coalesce (j_deadline j)
       (if String.eqb (j_lane j) "chat" then Some (j_created_at j + pending_chat_ttl cfg) else None)).

Definition lease_deadline (j : job) : option Z := coalesce (j_lease j) (j_deadline j).

Definition stale (clk : Z) (j : job) : bool :=
  if bool_decide (j_status j = pending) then reached (queue_deadline j) clk
  else reached (lease_deadline j) clk.

(** The columns every return to [pending] clears. *)
Definition release_claim : list assign :=
  [SetClaimedBy None; SetClaimedAt None; SetStarted None; SetFinished None; SetLease None;
   SetDeadline None].

(** The columns a recovered terminal row clears. *)
Definition drop_claim : list assign :=
  [SetClaimedBy None; SetClaimedAt None; SetStarted None; SetLease None; SetDeadline None].

(** ** Enqueue *)

Definition generation_stale (existing : job) (expected : option Z) : bool :=
  match expected with
  | None => false
  | Some g => negb (bool_decide (j_generation existing = Some g))
  end.

Definition coalesce_or_insert (user lane : string) (reason trace : option string) (prio : Z)
    (deadline_at expected : option Z) (now clk : Z) (d : db) : outcome (Z * bool * db) :=
  let existing := select_job (fun j => String.eqb (j_user j) user && String.eqb (j_lane j) lane
                                       && active j) d in
  let insert d :=
    let qd := match deadline_at with
              | Some _ => deadline_at
              | None => if String.eqb lane "chat" then Some (now + pending_chat_ttl cfg) else None
              end in
    '(i, d) ← insert_job user lane reason trace prio qd expected now d; Return (i, false, d) in
  match existing with
  | None => insert d
  | Some e =>
      let is_row j := j_id j =? j_id e in
      if generation_stale e expected then
        insert (update_jobs is_row (fun _ => [SetStatus superseded; SetFinished (Some now);
                                              SetError (Some "stale_runtime_generation"%string)]) d)
      else if stale clk e then
        let label := if bool_decide (j_status e = pending) then "queue_timeout"%string
                     else "lease_timeout"%string in
        let d := update_jobs is_row (fun j => [SetStatus expired; SetFinished (Some now);
                                               SetAttempts (j_attempts j + 1); SetError (Some label)]) d in
        let d := queue_terminal_failure (j_id e) user label "" d in
        insert (queue_failure_review (j_id e) now d).1
      else
        Return (j_id e, true, update_jobs is_row (fun j => [SetInput (j_input j + 1)]) d)
  end.

(** [_trace_id_for_enqueue]; [fresh] is the generated correlation id. *)
Definition trace_id_for_enqueue (lane : string) (trace : option string) (fresh : string)
    : option string :=
  if String.eqb lane "chat" then trace
  else let supplied := s_strip (default "" trace) in
       Some (if String.eqb supplied "" then fresh else supplied).

(** ** Capture crashes *)

(** [_capture_allowed_for_crash_accounting_on_cursor]. [lock] is what
    [pg_try_advisory_xact_lock] answers and [reread] the settings row read again
    under the lock. *)
Definition capture_allowed (user : string) (lock : bool) (reread : option settings_row) (d : db)
    : bool :=
  let flag s := match s with CaptureFlag b => b | NotAnObject => false end in
  match d_settings d !! user with
  | Some s => flag s
  | None => if negb lock then true
            else match reread with Some s => flag s | None => true end
  end.

(** The wall clock and lock answers one recovery transaction observes. *)
Record observed : Type := mkObserved {
  ob_now : Z;
  ob_clk : Z;
  ob_wall : Z;
  ob_lock : bool;
  ob_reread : option settings_row;
}.

(** [_record_capture_crash_failure_on_cursor]: the crash counts once, without a
    window, unless a newer capture already ran, the runtime moved on or capture
    is off. *)
Definition record_capture_crash (ob : observed) (j : job) (error : string) (d : db)
    : db * option CaptureFailure.state :=
  let user := j_user j in
  match d_runtime d !! user with
  | Some (st, gen) =>
      if String.eqb st "v2" && (default 0 (j_generation j) =? gen)
         && negb (existsb (fun k => String.eqb (j_user k) user && String.eqb (j_lane k) "capture"
                                    && (j_id j <? j_id k) && negb (bool_decide (j_status k = pending)))
                    (d_jobs d))
         && capture_allowed user (ob_lock ob) (ob_reread ob) d
      then
        let before := default (CaptureFailure.mkState 0 0 0 0 [] 0 [] 0 0 [] 0 None None [] [])
                        (d_capture d !! user) in
        let after := (CaptureFailure.capture_failed_state (classify_failure cfg) before
                        (str_of_Z (j_id j)) (u error) true None (ob_wall ob)).1 in
        (set_capture (<[user := after]> (d_capture d)) d, Some after)
      else (d, None)
  | None => (d, None)
  end.

(** [_expire_overdue_capture_on_cursor] *)
Definition expire_overdue_capture (ob : observed) (e : job) (d : db)
    : option (db * job * list (string * Z) * option CaptureFailure.state) :=
  match job_at (j_id e) d with
  | Some j =>
      if owned j then
        let label := terminal_label (j_id e) "lease_timeout" d in
        let d := update_jobs (fun k => j_id k =? j_id e)
                   (fun k => [SetStatus expired; SetFinished (Some (ob_now ob));
                              SetAttempts (j_attempts k + 1); SetError (Some label)]) d in
        let d := resolve_mcp (fun i => i =? j_id e) (ob_clk ob) d in
        let '(d, failed_state) := record_capture_crash ob e label d in
        let '(d, reviews) := recover_review_runner (j_id e) (ob_now ob) d in
        let d := (queue_failure_review (j_id e) (ob_now ob) d).1 in
        match job_at (j_id e) d with
        | Some row => Some (d, row, reviews, failed_state)
        | None => None
        end
      else None
  | None => None
  end.

(** [_capture_backoff_armed_on_cursor] *)
Definition capture_backoff_armed (user : string) (wall : Z) (d : db) : bool :=
  match d_capture d !! user with
  | Some st => CaptureFailure.in_failure_backoff (capture_backoff_base cfg) (capture_backoff_cap cfg)
                 (CaptureFailure.fail_streak st) (CaptureFailure.last_failed_at st) wall
  | None => false
  end.

Inductive disposition : Type := created | coalesced_active | expired_deferred | backoff_deferred.

#[global] Instance disposition_eq_dec : EqDecision disposition.
Proof. solve_decision. Defined.

(** [_enqueue_capture_once] *)
Definition enqueue_capture_once (ob : observed) (user : string) (reason trace : option string)
    (prio : Z) (deadline_at expected backoff_now : option Z) (d : db)
    : outcome (option Z * disposition * db) :=
  let effective := match expected with Some _ => expected | None => v2_generation user d end in
  let existing := select_job (fun j => String.eqb (j_user j) user && String.eqb (j_lane j) "capture"
                                       && active j) d in
  let rest :=
    let replaces := match existing with None => true | Some e => generation_stale e effective end in
    if replaces && match backoff_now with Some t => capture_backoff_armed user t d | None => false end
    then Return (None, backoff_deferred, d)
    else
      '(i, merged, d) ← coalesce_or_insert user "capture" reason trace prio deadline_at effective
                          (ob_now ob) (ob_clk ob) d;
      Return (Some i, if (merged : bool) then coalesced_active else created, d) in
  match existing with
  | Some e =>
      if owned e && negb (generation_stale e effective) then
        if reached (lease_deadline e) (ob_clk ob) then
          match expire_overdue_capture ob e d with
          | Some (d, _, _, _) => Return (Some (j_id e), expired_deferred, d)
          | None => Return (Some (j_id e), expired_deferred, d)
          end
        else Return (Some (j_id e), coalesced_active,
                     update_jobs (fun j => j_id j =? j_id e) (fun j => [SetInput (j_input j + 1)]) d)
      else rest
  | None => rest
  end.

(** A transaction retried while the unique index rejects it, [n] times at most,
    the last one without a handler. *)
Fixpoint retried {A} (n : nat) (txn : outcome A) : outcome A :=
  match n with
  | O => txn
  | S n => match txn with
           | Raise (IntegrityError _) => retried n txn
           | r => r
           end
  end.

(** [enqueue_job] *)
Definition enqueue_job (ob : observed) (user lane : string) (reason trace : option string)
    (fresh_trace : string) (prio deadline_at expected : option Z) (d : db) : outcome (Z * bool * db) :=
  if negb (bool_decide (lane ∈ LANES)) then Raise (ValueError "unknown lane")
  else
    let trace := trace_id_for_enqueue lane trace fresh_trace in
    let prio := default (LANE_PRIORITY lane) prio in
    if String.eqb lane "capture" then
      '(i, disp, d) ← retried 3 (enqueue_capture_once ob user reason trace prio deadline_at expected None d);
      match i with
      | Some i => Return (i, negb (bool_decide (disp = created)), d)
      | None => Raise (RuntimeError "capture enqueue deferred without a job id")
      end
    else
      let effective := match expected with Some _ => expected | None => v2_generation user d end in
      retried 3 (coalesce_or_insert user lane reason trace prio deadline_at effective
                   (ob_now ob) (ob_clk ob) d).

(** ** Claim *)

(** A pending row a worker may take: available, inside its queue deadline, in
    an allowed lane, of a user with no claimed or running row. *)
Definition busy (user : string) (d : db) : bool :=
  existsb (fun j => String.eqb (j_user j) user && owned j) (d_jobs d).

Definition in_queue (t : Z) (j : job) : bool :=
  match queue_deadline j with Some q => t <? q | None => true end.

Definition claimable (lanes : option (list string)) (now clk : Z) (d : db) (j : job) : bool :=
  bool_decide (j_user j ∈ d_users d) && bool_decide (j_status j = pending)
  && (j_available_at j <=? clk) && in_queue now j
  && match lanes with Some ls => bool_decide (j_lane j ∈ ls) | None => true end
  && negb (busy (j_user j) d).

(** [ORDER BY priority DESC, created_at LIMIT 1]; rows that tie are taken in
    key order. *)
Definition before (a b : job) : bool :=
  (j_priority b <? j_priority a)
  || ((j_priority a =? j_priority b) && (j_created_at a <? j_created_at b)).

Definition pick (l : list job) : option job :=
  foldl (fun best j => match best with
                       | Some b => if before j b then Some j else best
                       | None => Some j
                       end) None l.

(** The second statement of a claim: claim the row, or supersede it when its
    generation is stale; [None] when it no longer satisfies the predicate. *)
Inductive claim_result : Type :=
| Locked0
| Superseded (d : db)
| Claimed (j : job) (d : db).

Definition claim_sql (worker : string) (id gen now clk : Z) (d : db) : claim_result :=
  match job_at id d with
  | Some j =>
      if bool_decide (j_status j = pending) && (j_available_at j <=? clk) && in_queue clk j
         && negb (busy (j_user j) d)
      then
        let is_row k := j_id k =? id in
        if match j_generation j with Some g => g =? gen | None => true end then
          let d' := update_jobs is_row
            (fun k => [SetStatus claimed; SetClaimedBy (Some worker); SetClaimedAt (Some clk);
                       SetGeneration (coalesce (j_generation k) (Some gen));
                       SetLease (Some (clk + running_ttl cfg));
                       SetDeadline (Some (clk + running_ttl cfg))]) d in
          match job_at id d' with Some j' => Claimed j' d' | None => Locked0 end
        else
          Superseded (update_jobs is_row
            (fun _ => [SetStatus superseded; SetFinished (Some now);
                       SetError (Some "stale_runtime_generation"%string)]) d)
      else Locked0
  | None => Locked0
  end.

Definition retire (id now : Z) (d : db) : db :=
  update_jobs (fun k => j_id k =? id)
    (fun _ => [SetStatus superseded; SetFinished (Some now);
               SetError (Some "runtime_state_not_v2"%string)]) d.

(** One turn of the claim loop. *)
Inductive claim_turn : Type :=
| Idle (d : db)
| Again (d : db)
| Got (j : job) (d : db).

(** [skipped]: another session holds the lock of the picked row when the second
    statement runs, which then sees no row ([SKIP LOCKED]). *)
Definition claim_once (worker : string) (lanes : option (list string)) (now clk1 clk2 : Z)
    (skipped : bool) (d : db) : claim_turn :=
  match pick (select_jobs (claimable lanes now clk1 d) d) with
  | Some head =>
      match d_runtime d !! j_user head with
      | Some (st, gen) =>
          if String.eqb st "v2" then
            if skipped then Again d
            else
              match claim_sql worker (j_id head) gen now clk2 d with
              | Locked0 => Again d
              | Superseded d => Again d
              | Claimed j d => Got j d
              end
          else Again (retire (j_id head) now d)
      | None =>
          (* the head has no state row: retire the first such row *)
          match pick (select_jobs (fun j => claimable lanes now clk1 d j
                        && negb (bool_decide (is_Some (d_runtime d !! j_user j)))) d) with
          | Some orphan => Again (retire (j_id orphan) now d)
          | None => Idle d
          end
      end
  | None => Idle d
  end.

(** What the k-th turn of the loop meets: the three clock readings, whether the
    picked row is locked by another session, and what other sessions commit
    before the next turn. *)
Record turn_env : Type := mkTurn {
  t_now : Z;
  t_clk1 : Z;
  t_clk2 : Z;
  t_skipped : bool;
  t_others : db -> db;
}.

(** The loop. [None] is a loop that has not ended within its fuel. *)
Fixpoint claim_next_job (fuel : nat) (worker : string) (lanes : option (list string))
    (turn : nat -> turn_env) (k : nat) (d : db) : option (db * option job) :=
  match fuel with
  | O => None
  | S fuel =>
      let t := turn k in
      match claim_once worker lanes (t_now t) (t_clk1 t) (t_clk2 t) (t_skipped t) d with
      | Idle d => Some (d, None)
      | Got j d => Some (d, Some j)
      | Again d => claim_next_job fuel worker lanes turn (S k) (t_others t d)
      end
  end.

(** ** Leases and ownership *)

Definition claim_live (clk : Z) (c : Z * string) (j : job) : bool :=
  (j_id j =? c.1) && is_owner j c.2 && owned j && later (j_lease j) clk.

Definition valid_active_claims (claims : list (Z * string)) (clk : Z) (d : db) : list (Z * string) :=
  filter (fun c => existsb (claim_live clk c) (d_jobs d) = true) claims.

Definition valid_reconcile_claims (claims : list (Z * string)) (clk : Z) (d : db)
    : list (Z * string) :=
  filter (fun c => existsb (fun j => (j_id j =? c.1) && is_owner j c.2 &&
            ((owned j && later (j_lease j) clk)
             || bool_decide (j_status j ∈ [completed; failed]))) (d_jobs d) = true) claims.

(** The generation of the job's user, when the job exists and its user is
    hosted by V2. *)
Definition job_generation (id : Z) (d : db) : option Z :=
  match job_at id d with Some j => v2_generation (j_user j) d | None => None end.

(** [cur.rowcount == 1] of an update on one key. *)
Definition update_one (p : job -> bool) (sets : job -> list assign) (d : db) : db * bool :=
  match select_job p d with Some _ => (update_jobs p sets d, true) | None => (d, false) end.

Definition mark_running (id : Z) (worker : string) (clk : Z) (d : db) : db * bool :=
  match job_generation id d with
  | None => (d, false)
  | Some gen =>
      update_one (fun j => (j_id j =? id) && bool_decide (j_status j = claimed)
                           && match j_lease j with None => true | Some l => clk <? l end
                           && is_owner j worker && has_generation j gen)
        (fun _ => [SetStatus running; SetStarted (Some clk); SetLease (Some (clk + running_ttl cfg));
                   SetDeadline (Some (clk + running_ttl cfg))]) d
  end.

(** The fence of the owner's own updates. *)
Definition owns_live (id : Z) (worker : string) (t : Z) (j : job) : bool :=
  (j_id j =? id) && owned j && is_owner j worker && later (j_lease j) t.

Definition renew_job_lease (id : Z) (worker : string) (ttl clk : Z) (d : db) : db * bool :=
  match job_generation id d with
  | None => (d, false)
  | Some gen =>
      update_one (fun j => owns_live id worker clk j && has_generation j gen)
        (fun _ => [SetLease (Some (clk + ttl)); SetDeadline (Some (clk + ttl))]) d
  end.

Definition mark_completed (id : Z) (worker : string) (clear_backoff : bool)
    (wake_result wake_reason : option string) (now clk : Z) (d : db) : db * bool :=
  match select_job (owns_live id worker now) d with
  | None => (d, false)
  | Some j =>
      let d := update_jobs (owns_live id worker now)
                 (fun _ => [SetStatus completed; SetFinished (Some now); SetWakeResult wake_result;
                            SetWakeReason wake_reason]) d in
      let d := (Wake.record_result_on_cursor (j_user j) (j_lane j) id "" clk d).1 in
      let d := if clear_backoff && bool_decide (j_lane j ∈ Wake.FAIL_BACKOFF_WAKE_LANES)
               then Wake.clear_wake_backoff (j_user j) d else d in
      (d, true)
  end.

(** [mark_failed]; the result carries the reviews to copy and whether the wake
    circuit opened. *)
Definition mark_failed (id : Z) (worker error error_class : string) (backoff : option (Z * Z * Z))
    (now clk : Z) (d : db) : db * option (list (string * Z) * bool) :=
  match select_job (owns_live id worker now) d with
  | None => (d, None)
  | Some j =>
      let d := update_jobs (owns_live id worker now)
                 (fun k => [SetStatus failed; SetFinished (Some now);
                            SetError (Some (clip500 error)); SetAttempts (j_attempts k + 1)]) d in
      let d := if bool_decide (j_lane j ∈ ["chat"; "scheduled"])
               then queue_terminal_failure id (j_user j) error error_class d else d in
      let d := match backoff with
               | Some (wall, base, cap) =>
                   if bool_decide (j_lane j ∈ Wake.FAIL_BACKOFF_WAKE_LANES)
                   then Wake.arm_wake_backoff (j_user j) wall base cap d else d
               | None => d
               end in
      let '(d, opened) := Wake.record_result_on_cursor (j_user j) (j_lane j) id error_class clk d in
      let '(d, reviews) := recover_review_runner id now d in
      ((queue_failure_review id now d).1, Some (reviews, opened))
  end.

Definition reschedule_owned_job (id : Z) (worker error : string) (available_at clk : Z) (d : db)
    : db * bool :=
  match job_generation id d with
  | None => (d, false)
  | Some gen =>
      update_one (fun j => owns_live id worker clk j && has_generation j gen)
        (fun k => [SetStatus pending; SetAvailable available_at; SetError (Some (clip500 error));
                   SetAttempts (j_attempts k + 1)] ++ release_claim) d
  end.

Definition reschedule_pristine_scheduled_failure (id : Z) (worker error : string)
    (available_at expected_attempts max_attempts clk : Z) (d : db) : outcome (db * bool) :=
  if expected_attempts <? 0 then Raise (ValueError "expected_attempt_count must be non-negative")
  else if max_attempts <=? 0 then Raise (ValueError "max_attempts must be positive")
  else
    match job_generation id d with
    | None => Return (d, false)
    | Some gen =>
        Return (update_one (fun j => owns_live id worker clk j && String.eqb (j_lane j) "scheduled"
                                     && has_generation j gen
                                     && (j_attempts j =? expected_attempts)
                                     && (j_attempts j <? max_attempts - 1)
                                     && pristine id d)
                  (fun k => [SetStatus pending; SetAvailable available_at;
                             SetError (Some (clip500 error)); SetAttempts (j_attempts k + 1)]
                            ++ release_claim) d)
    end.

Definition make_pending_job_ready (user lane : string) (clk : Z) (d : db) : db * bool :=
  match v2_generation user d with
  | None => (d, false)
  | Some gen =>
      update_one (fun j => String.eqb (j_user j) user && String.eqb (j_lane j) lane
                           && bool_decide (j_status j = pending) && (clk <? j_available_at j)
                           && has_generation j gen)
        (fun _ => [SetAvailable clk]) d
  end.

Definition mark_expired (id : Z) (error : string) (now : Z) (d : db) : db * list (string * Z) :=
  match job_at id d with
  | None => (d, [])
  | Some j =>
      let d := update_jobs (fun k => j_id k =? id)
                 (fun _ => [SetStatus expired; SetFinished (Some now); SetError (Some (clip500 error))]) d in
      let d := if bool_decide (j_lane j ∈ ["chat"; "scheduled"])
               then queue_terminal_failure id (j_user j) error "" d else d in
      let '(d, reviews) := recover_review_runner id now d in
      ((queue_failure_review id now d).1, reviews)
  end.

(** ** Recovery of killed and overdue claims *)

Inductive recovery : Type := r_terminal | r_requeued.

#[global] Instance recovery_eq_dec : EqDecision recovery.
Proof. solve_decision. Defined.

Definition recovery_name (r : recovery) : string :=
  match r with r_terminal => "terminal" | r_requeued => "requeued" end.

Definition record_recovery_event (id : Z) (lane : string) (r : recovery) (reason : string) (d : db)
    : outcome db :=
  match job_at id d with
  | Some j => Return (set_events (d_events d ++
                [mkEvent id (j_attempts j) lane (recovery_name r) (clip500 reason)]) d)
  | None => Raise (RuntimeError "recovered job missing while recording recovery event")
  end.

(** The claim a recovery transition is fenced by. *)
Definition claims (id : Z) (worker : string) (j : job) : bool :=
  (j_id j =? id) && is_owner j worker && owned j.

(** [_general_watchdog_recover_on_cursor]; [on_terminal] runs between the
    terminal update and the reviews. *)
Definition general_watchdog_recover {A} (id : Z) (worker reason : string) (now : Z)
    (on_terminal : db -> db * option A) (d : db)
    : option (db * recovery * list (string * Z) * option A) :=
  match update_one (fun j => claims id worker j && (String.eqb (j_lane j) TRAJECTORY_REVIEW_LANE
                             || (j_attempts j <? general_requeue_max cfg)))
          (fun k => [SetStatus pending; SetCreated now; SetError (Some (clip500 reason));
                     SetAttempts (j_attempts k + 1)] ++ release_claim) d with
  | (d, true) => let '(d, reviews) := recover_review_runner id now d in
                 Some (d, r_requeued, reviews, None)
  | (_, false) =>
      match update_one (claims id worker)
              (fun k => [SetStatus expired; SetFinished (Some now);
                         SetError (Some GENERAL_WATCHDOG_REQUEUE_EXHAUSTED);
                         SetAttempts (j_attempts k + 1)] ++ drop_claim) d with
      | (d, true) =>
          let '(d, a) := on_terminal d in
          let '(d, reviews) := recover_review_runner id now d in
          Some ((queue_failure_review id now d).1, r_terminal, reviews, a)
      | (_, false) => None
      end
  end.

(** Expire a dead claim: the terminal update with the label chosen from the
    remote writes it may have left, the dangling ones marked unknown. *)
Definition expire_claim (id : Z) (worker label : string) (now clk : Z) (d : db) : db :=
  let d := update_jobs (claims id worker)
             (fun k => [SetStatus expired; SetFinished (Some now);
                        SetError (Some (terminal_label id label d));
                        SetAttempts (j_attempts k + 1)] ++ drop_claim) d in
  resolve_mcp (fun i => i =? id) clk d.

Record recovered : Type := mkRecovered {
  rc_db : db;
  rc_lane : string;
  rc_recovery : recovery;
  rc_reviews : list (string * Z);
  rc_capture : option CaptureFailure.state;
}.

(** [_recover_capture_claim] in watchdog mode. *)
Definition recover_capture_watchdog (ob : observed) (id : Z) (user worker : string) (attempts : Z)
    (reason : string) (d : db) : outcome (option recovered) :=
  match job_at id d with
  | Some j =>
      if String.eqb (j_lane j) "capture" && String.eqb (j_user j) user && owned j
         && String.eqb (default "" (j_claimed_by j)) worker && (j_attempts j =? attempts)
      then
        match general_watchdog_recover id worker reason (ob_now ob)
                (record_capture_crash ob j GENERAL_WATCHDOG_REQUEUE_EXHAUSTED) d with
        | Some (d, r, reviews, failed_state) =>
            d ← record_recovery_event id "capture" r reason d;
            Return (Some (mkRecovered d "capture" r reviews failed_state))
        | None => Return None
        end
      else Return None
  | None => Return None
  end.

(** [recover_killed_job]: recover exactly the claim a killed slot still held. *)
Definition recover_killed_job (ob : observed) (id : Z) (worker reason : string) (d : db)
    : outcome (option recovered) :=
  let now := ob_now ob in
  match select_job (claims id worker) d with
  | None => Return None
  | Some j =>
      let lane := j_lane j in
      if String.eqb lane "capture"
      then recover_capture_watchdog ob id (j_user j) worker (j_attempts j) reason d
      else
        let finish r reviews d :=
          d ← record_recovery_event id lane r reason d;
          Return (Some (mkRecovered d lane r reviews None)) in
        let reviewed d :=
          let '(d, reviews) := recover_review_runner id now d in
          finish r_terminal reviews (queue_failure_review id now d).1 in
        if String.eqb lane "chat" then
          let d := update_jobs (claims id worker)
                     (fun k => [SetStatus expired; SetFinished (Some now);
                                SetError (Some (clip500 reason)); SetAttempts (j_attempts k + 1)]
                               ++ drop_claim) d in
          reviewed (queue_terminal_failure id (j_user j) reason "" d)
        else if String.eqb lane "scheduled" then
          match update_one (fun k => claims id worker k && String.eqb (j_lane k) "scheduled"
                                     && (j_attempts k <? scheduled_requeue_max cfg) && pristine id d)
                  (fun k => [SetStatus pending; SetCreated now; SetError (Some (clip500 reason));
                             SetAttempts (j_attempts k + 1); SetQueueDeadline None] ++ release_claim) d with
          | (d, true) => finish r_requeued [] d
          | (_, false) =>
              let label := terminal_label id (clip500 reason) d in
              let d := expire_claim id worker (clip500 reason) now (ob_clk ob) d in
              reviewed (queue_terminal_failure id (j_user j) label "" d)
          end
        else if bool_decide (lane ∈ PRISTINE_GUARDED_WAKE_LANES) && negb (pristine id d) then
          reviewed (expire_claim id worker "wake_replay_unsafe" now (ob_clk ob) d)
        else
          match general_watchdog_recover id worker reason now (fun d => (d, @None unit)) d with
          | Some (d, r, reviews, _) => finish r reviews d
          | None => Return None
          end
  end.

(** [_recover_capture_claim] in lease mode, for one candidate of the reaper. *)
Definition recover_capture_lease (ob : observed) (due : Z) (candidate : job) (d : db)
    : option (db * job * list (string * Z) * option CaptureFailure.state) :=
  match job_at (j_id candidate) d with
  | Some j =>
      if String.eqb (j_lane j) "capture" && String.eqb (j_user j) (j_user candidate) && owned j
         && String.eqb (default "" (j_claimed_by j)) (default "" (j_claimed_by candidate))
         && (j_attempts j =? j_attempts candidate) && reached (lease_deadline j) due
      then expire_overdue_capture ob j d
      else None
  | None => None
  end.

(** [reap_stuck_job_rows]; [due] is the injected epoch or [now()]. *)
Definition overdue_owned (due : Z) (j : job) : bool := owned j && reached (lease_deadline j) due.

Definition reap_requeues (due : Z) (d : db) (j : job) : bool :=
  String.eqb (j_lane j) "scheduled" && overdue_owned due j
  && (j_attempts j <? scheduled_requeue_max cfg) && pristine (j_id j) d.

Definition reap_expires (due : Z) (j : job) : bool :=
  (bool_decide (j_status j = pending) && reached (queue_deadline j) due)
  || (overdue_owned due j && negb (String.eqb (j_lane j) "capture")).

Definition reap_label (d : db) (j : job) : string :=
  terminal_label (j_id j)
    (if bool_decide (j_status j = pending) then "queue_timeout" else "lease_timeout") d.

(** What the reaper does for one row it expired. *)
Definition settle_reaped (now : Z) (acc : db * list (string * Z)) (j : job)
    : db * list (string * Z) :=
  let d := if bool_decide (j_lane j ∈ ["chat"; "scheduled"])
           then queue_terminal_failure (j_id j) (j_user j) (default "" (j_error j)) "" acc.1
           else acc.1 in
  let '(d, reviews) := recover_review_runner (j_id j) now d in
  ((queue_failure_review (j_id j) now d).1, acc.2 ++ reviews).

(** The reaper's first transaction: every lane but capture. *)
Definition reap_rows (ob : observed) (due : Z) (d : db) : db * list job * list (string * Z) :=
  let now := ob_now ob in
  let d := update_jobs (reap_requeues due d)
             (fun k => [SetStatus pending; SetAttempts (j_attempts k + 1);
                        SetError (Some "scheduled_lease_timeout_requeued"%string);
                        SetQueueDeadline None; SetCreated now] ++ release_claim) d in
  let hit := select_jobs (reap_expires due) d in
  let rows := (fun j => apply_assigns
                 [SetStatus expired; SetFinished (Some now); SetAttempts (j_attempts j + 1);
                  SetError (Some (reap_label d j))] j) <$> hit in
  let d := update_jobs (reap_expires due)
             (fun k => [SetStatus expired; SetFinished (Some now); SetAttempts (j_attempts k + 1);
                        SetError (Some (reap_label d k))]) d in
  let d := resolve_mcp (fun i => existsb (fun j => j_id j =? i) hit) (ob_clk ob) d in
  let '(d, reviews) := foldl (settle_reaped now) (d, []) rows in
  (d, rows, reviews).

(** [_reap_overdue_capture_claims]: the candidates are read without a lock and
    recovered in one transaction each. *)
Definition reap_overdue_capture_claims (ob : observed) (due : Z) (d : db) : db * list job :=
  foldl (fun acc c => match recover_capture_lease ob due c acc.1 with
                      | Some (d, row, _, _) => (d, acc.2 ++ [row])
                      | None => acc
                      end) (d, [])
    (select_jobs (fun j => String.eqb (j_lane j) "capture" && overdue_owned due j) d).

(** The call when nothing else commits between its transactions; the
    transactions one by one are steps of the queue in [JobSafety]. *)
Definition reap_stuck_job_rows (ob : observed) (due : Z) (d : db) : db * list job * list (string * Z) :=
  let '(d, rows, reviews) := reap_rows ob due d in
  let '(d, reaped) := reap_overdue_capture_claims ob due d in
  (d, rows ++ reaped, reviews).

(** ** Preemption by foreground chat *)

(** [fleet_claim_owner]: [worker:pool-N:32 hex digits]. *)
Definition is_digit (c : Ascii.ascii) : bool :=
  let n := Ascii.N_of_ascii c in (48 <=? n)%N && (n <=? 57)%N.
Definition is_hex (c : Ascii.ascii) : bool :=
  let n := Ascii.N_of_ascii c in is_digit c || ((97 <=? n)%N && (n <=? 102)%N).

(** The text before the last occurrence of [c] and the text after it. *)
Fixpoint rsplit (c : Ascii.ascii) (s : list Ascii.ascii) : option (list Ascii.ascii * list Ascii.ascii) :=
  match s with
  | [] => None
  | x :: t =>
      match rsplit c t with
      | Some (a, b) => Some (x :: a, b)
      | None => if Ascii.eqb x c then Some ([], t) else None
      end
  end.

Definition fleet_claim_owner (claimed_by : option string) : option (string * string) :=
  let s := String.list_ascii_of_string (default "" claimed_by) in
  match rsplit (Ascii.ascii_of_N 58) s with
  | Some (front, gen) =>
      if (Zlen gen =? 32) && forallb is_hex gen then
        match rsplit (Ascii.ascii_of_N 58) front with
        | Some (worker, slot) =>
            match rsplit (Ascii.ascii_of_N 45) slot with
            | Some (pool, index) =>
                let pool := String.string_of_list_ascii pool in
                if bool_decide (pool ∈ FLEET_POOLS) && forallb is_digit index
                   && negb (bool_decide (index = [])) && negb (bool_decide (worker = []))
                   && forallb (fun c => negb (Ascii.N_of_ascii c =? 10)%N) worker
                then Some (String.string_of_list_ascii worker, pool) else None
            | None => None
            end
        | None => None
        end
      else None
  | None => None
  end.

(** [_capture_owner_dead_sql]: the owner registered a heartbeat and none of its
    family has beaten within the window, the claim being older than it. *)
Definition capture_owner_dead_sql (j : job) (clk : Z) (d : db) : bool :=
  match fleet_claim_owner (j_claimed_by j) with
  | None => false
  | Some (worker, pool) =>
      let beat name := d_beats d !! String.append worker (String.append ":" name) in
      bool_decide (is_Some (beat pool))
      && negb (existsb (fun name => later (beat name) (clk - capture_owner_dead cfg))
                 (FLEET_POOLS ++ ["genesis"%string]))
      && match j_claimed_at j with Some t => t <=? clk - capture_owner_dead cfg | None => false end
  end.

Record preempted : Type := mkPreempted {
  pr_job : Z;
  pr_lane : string;
  pr_claimed_by : option string;
  pr_recovery : recovery;
  pr_reviews : list (string * Z);
  pr_capture : option CaptureFailure.state;
}.

(** One row of [preempt_active_for_chat_on_cursor], already locked. *)
Definition preempt_row (ob : observed) (row : job) (d : db) : outcome (db * preempted) :=
  let now := ob_now ob in
  let is_row k := (j_id k =? j_id row) && bool_decide (j_status k = j_status row)
                  && bool_decide (j_claimed_by k = j_claimed_by row) in
  let lane := j_lane row in
  if String.eqb lane "capture" && owned row
     && (reached (lease_deadline row) (ob_clk ob) || capture_owner_dead_sql row (ob_clk ob) d)
  then
    match expire_overdue_capture ob row d with
    | Some (d, _, reviews, failed_state) =>
        Return (d, mkPreempted (j_id row) "capture" (j_claimed_by row) r_terminal reviews failed_state)
    | None => Raise (RuntimeError "active job ownership changed while preempting job")
    end
  else if String.eqb lane "capture" || (String.eqb lane "scheduled" && pristine (j_id row) d) then
    match update_one is_row
            (fun _ => [SetStatus pending; SetError (Some "foreground_chat_preempted"%string);
                       SetCreated now] ++ release_claim) d with
    | (d, true) => Return (d, mkPreempted (j_id row) lane (j_claimed_by row) r_requeued [] None)
    | (_, false) => Raise (RuntimeError "active job ownership changed while preempting job")
    end
  else
    let unsafe := String.eqb lane "scheduled" in
    let label := if unsafe then terminal_label (j_id row) "foreground_chat_preempted" d
                 else "foreground_chat_preempted"%string in
    match update_one is_row
            (fun _ => [SetStatus (if unsafe then expired else superseded); SetFinished (Some now);
                       SetError (Some label)] ++ drop_claim) d with
    | (d, true) =>
        if unsafe then
          let d := resolve_mcp (fun i => i =? j_id row) (ob_clk ob) d in
          let d := queue_terminal_failure (j_id row) (j_user row) label "platform_execution_timeout" d in
          let '(d, reviews) := recover_review_runner (j_id row) now d in
          Return ((queue_failure_review (j_id row) now d).1,
                  mkPreempted (j_id row) lane (j_claimed_by row) r_terminal reviews None)
        else Return (d, mkPreempted (j_id row) lane (j_claimed_by row) r_terminal [] None)
    | (_, false) => Raise (RuntimeError "active job ownership changed while preempting job")
    end.

Fixpoint preempt_rows (ob : observed) (rows : list job) (d : db) : outcome (db * list preempted) :=
  match rows with
  | [] => Return (d, [])
  | row :: rest =>
      '(d, p) ← preempt_row ob row d;
      '(d, ps) ← preempt_rows ob rest d;
      Return (d, p :: ps)
  end.

Definition preempt_active_for_chat (ob : observed) (user : string) (d : db)
    : outcome (db * list preempted) :=
  preempt_rows ob (select_jobs (fun j => String.eqb (j_user j) user
                                         && negb (String.eqb (j_lane j) "chat") && active j) d) d.

(** ** Wake inputs and successors *)

(** [enqueue_job_with_context_log]: the job and its input context commit
    together; [log_seq] is the sequence value the log row receives. *)
Definition enqueue_job_with_context_log (ob : observed) (user lane : string)
    (reason trace : option string) (fresh_trace stream : string) (prio : option Z) (log_seq : Z)
    (d : db) : outcome (Z * bool * db) :=
  if negb (bool_decide (lane ∈ LANES)) then Raise (ValueError "unknown lane")
  else if String.eqb (s_strip stream) "" then Raise (ValueError "context_stream is required")
  else
    '(i, merged, d) ←
      match retried 3
        (coalesce_or_insert user lane reason (trace_id_for_enqueue lane trace fresh_trace)
           (default (LANE_PRIORITY lane) prio) None (v2_generation user d) (ob_now ob) (ob_clk ob) d)
      with
      | Raise (IntegrityError _) => Raise (RuntimeError "could not atomically enqueue job context")
      | r => r
      end;
    Return (i, merged, set_logs (d_logs d ++ [mkLog user stream log_seq i]) d).

(** [_set_followup_marker_on_cursor] *)
Definition set_followup_marker (user : string) (source consumed generation : Z) (d : db)
    : outcome db :=
  let d := Wake.ensure_row user d in
  match d_wake d !! user with
  | None => Raise (RuntimeError "follow-up schedule row missing")
  | Some w =>
      match w_followup w with
      | Some (_, s, _) => if s =? source then Return tt
                          else Raise (RuntimeError "conflicting heartbeat follow-up marker source")
      | None => Return tt
      end ≫= fun _ =>
      match w_followup w with
      | Some (_, _, c) => if c =? Z.max 0 consumed then Return tt
                          else Raise (RuntimeError "conflicting heartbeat follow-up marker cursor")
      | None => Return tt
      end ≫= fun _ =>
      Return (set_wake (<[user := mkWake (w_fail_streak w) (w_fail_user_seq w) (w_backoff_until w)
                 (w_provider_streak w) (w_opened_at w) (w_reason w) (w_reset_at w)
                 (w_payment_cooldown w) (Some (Z.max 1 generation, source, Z.max 0 consumed))]>
                 (d_wake d)) d)
  end.

Definition late_log (user stream : string) (source consumed : Z) (l : log_row) : bool :=
  String.eqb (lg_user l) user && String.eqb (lg_stream l) stream && (lg_job l =? source)
  && (consumed <? lg_seq l).

(** [_merge_followup_marker_on_cursor] *)
Definition merge_followup_marker (user : string) (successor : Z) (stream : string) (d : db)
    : outcome db :=
  match d_wake d !! user with
  | Some w =>
      match w_followup w with
      | Some (gen, source, consumed) =>
          let moved := filter (fun l => late_log user stream source (Z.max 0 consumed) l = true) (d_logs d) in
          match moved with
          | [] => Raise (RuntimeError "heartbeat follow-up marker has no late context")
          | _ =>
              let d := set_logs ((fun l => if late_log user stream source (Z.max 0 consumed) l
                                           then mkLog (lg_user l) (lg_stream l) (lg_seq l) successor
                                           else l) <$> d_logs d) d in
              let d := update_jobs (fun j => j_id j =? successor)
                         (fun j => [SetInput (j_input j + Z.max 1 gen)]) d in
              Return (set_wake (<[user := mkWake (w_fail_streak w) (w_fail_user_seq w)
                (w_backoff_until w) (w_provider_streak w) (w_opened_at w) (w_reason w)
                (w_reset_at w) (w_payment_cooldown w) None]> (d_wake d)) d)
          end
      | None => Raise (RuntimeError "heartbeat follow-up marker missing during merge")
      end
  | None => Raise (RuntimeError "heartbeat follow-up marker missing during merge")
  end.

(** A glance fingerprint is 64 hex digits. *)
Definition valid_fingerprint (s : string) : bool :=
  let cs := String.list_ascii_of_string s in (Zlen cs =? 64) && forallb is_hex cs.

(** [_merge_completed_perception_glance_on_cursor]: never replaced by an older
    source. *)
Definition merge_glance (user : string) (source : Z) (fingerprint : string) (d : db) : outcome db :=
  if negb (valid_fingerprint fingerprint)
  then Raise (ValueError "completed perception glance fingerprint is invalid")
  else if source <=? 0 then Raise (ValueError "completed perception glance source is invalid")
  else
    let adopt := set_glance (<[user := Glance fingerprint source]> (d_glance d)) d in
    Return (match d_glance d !! user with
            | None | Some NoGlance => adopt
            | Some (Glance _ s) => if s <=? source then adopt else d
            | Some BadGlance => d
            end).

Definition merge_glance_opt (user : string) (source : Z) (fp : option string) (d : db) : outcome db :=
  match fp with Some f => merge_glance user source f d | None => Return d end.

(** [finish_wake_job]: complete the heartbeat and hand inputs that arrived after
    the worker read them to one successor. [wall] is the process clock the lease
    is compared with. *)
Definition finish_wake_job (id : Z) (worker : string) (observed_gen : Z) (stream : string)
    (consumed : Z) (clear_backoff : bool) (fingerprint wake_result wake_reason : option string)
    (now clk wall : Z) (d : db) : outcome (db * bool * option Z) :=
  _ ← match fingerprint with
      | Some f => if valid_fingerprint f then Return tt
                  else Raise (ValueError "completed perception glance fingerprint is invalid")
      | None => Return tt
      end;
  match job_generation id d with
  | None => Return (d, false, None)
  | Some gen =>
      match select_job (fun j => (j_id j =? id) && is_owner j worker) d with
      | None => Return (d, false, None)
      | Some j =>
          let user := j_user j in
          let cleared d := if clear_backoff then Wake.clear_wake_backoff user d else d in
          if negb (String.eqb (j_lane j) "heartbeat") || negb (has_generation j gen)
          then Return (d, false, None)
          else if bool_decide (j_status j = completed) then
            d ← merge_glance_opt user id fingerprint d;
            Return (cleared d, true, None)
          else if negb (owned j) || negb (later (j_lease j) wall) then Return (d, false, None)
          else
            let late := observed_gen <? j_input j in
            let d := update_jobs (fun k => j_id k =? id)
                       (fun _ => [SetStatus completed; SetFinished (Some now);
                                  SetWakeResult wake_result; SetWakeReason wake_reason]) d in
            d ← merge_glance_opt user id fingerprint d;
            let d := cleared d in
            let d := (Wake.record_result_on_cursor user "heartbeat" id "" clk d).1 in
            if late then
              let count := Zlen (filter (fun l => late_log user stream id (Z.max 0 consumed) l = true)
                                   (d_logs d)) in
              d ← (if 0 <? count
                   then set_followup_marker user id (Z.max 0 consumed) (j_input j - observed_gen) d
                   else Return d);
              '(succ, d) ← insert_job user "heartbeat" (Some "coalesced_perception_followup") None
                             (j_priority j) None (Some gen) now d;
              d ← (if 0 <? count then merge_followup_marker user succ stream d else Return d);
              Return (d, true, Some succ)
            else Return (d, true, None)
      end
  end.

(** ** Review runners *)

Definition claim_failure_review (user : string) (runner : Z) (worker : string) (now : Z) (d : db)
    : db * option review :=
  if negb trajectory_review_enabled then (d, None)
  else
    match select_job (fun j => owns_live runner worker now j && String.eqb (j_user j) user
                               && String.eqb (j_lane j) TRAJECTORY_REVIEW_LANE) d with
    | None => (d, None)
    | Some _ =>
        let waiting := filter (fun r => String.eqb (rv_user r) user
                                 && bool_decide (rv_status r = r_pending)
                                 && (rv_attempts r <? TRAJECTORY_REVIEW_MAX_ATTEMPTS) = true)
                         (d_reviews d) in
        match head (sorted_by (fun a b => (a.1 <? b.1) || ((a.1 =? b.1) && (a.2 <=? b.2)))
                      (fun r => (rv_created r, rv_source r)) waiting) with
        | None => (d, None)
        | Some r =>
            let r' := mkReview (rv_source r) (rv_user r) r_running (rv_attempts r + 1) (Some runner)
                        None None (rv_created r) in
            (set_reviews ((fun x => if rv_source x =? rv_source r then r' else x) <$> d_reviews d) d,
             Some r')
        end
    end.
End Queue.
End Queue.
