(* ===== verification/JobInv.v ===== *)
(** * What every transaction of the job queue keeps

    [wf] is the invariant of the job table: keys in order below the sequence,
    one active row per user and lane (the partial unique index), one claimed or
    running row per user, and an owner, lease and generation on each of them.
    [evolves] relates the table before and after a transaction: rows keep their
    identity, counters only grow, terminal rows never change again, and new rows
    start pending. *)

From S2P Require Import Prelude PyValue CaptureFailure JobTable WakeSchedule JobQueue.
Local Open Scope Z_scope.

Module Inv.
Import Queue.

Definition job_key (j : job) : string * string := (j_user j, j_lane j).

Definition owned_fields (j : job) : Prop :=
  is_Some (j_claimed_by j) /\ is_Some (j_lease j) /\ is_Some (j_generation j).

Record wf (d : db) : Prop := {
  wf_sorted : StronglySorted Z.lt (j_id <$> d_jobs d);
  wf_next : forall j, j ∈ d_jobs d -> j_id j < d_next d;
  wf_single : NoDup (job_key <$> filter (fun j => active j = true) (d_jobs d));
  wf_owner : NoDup (j_user <$> filter (fun j => owned j = true) (d_jobs d));
  wf_fields : forall j, j ∈ d_jobs d -> owned j = true -> owned_fields j;
}.

(** One row before and after. *)
Record row_evolves (j j' : job) : Prop := {
  re_id : j_id j' = j_id j;
  re_user : j_user j' = j_user j;
  re_lane : j_lane j' = j_lane j;
  re_priority : j_priority j' = j_priority j;
  re_attempts : j_attempts j <= j_attempts j';
  re_input : j_input j <= j_input j';
  re_terminal : active j = false -> j' = j;
}.

Definition fresh_row (d : db) (j : job) : Prop := j_status j = pending /\ d_next d <= j_id j.

(** The owners of [d'] owned the same rows in [d]: nothing was claimed. *)
Definition owners_kept (d d' : db) : Prop :=
  forall j' w, j' ∈ d_jobs d' -> j_claimed_by j' = Some w ->
    exists j, j ∈ d_jobs d /\ j_id j = j_id j' /\ j_claimed_by j = Some w.

Record evolves (d d' : db) : Prop := {
  ev_next : d_next d <= d_next d';
  ev_rows : exists old new, d_jobs d' = old ++ new /\
              Forall2 row_evolves (d_jobs d) old /\ Forall (fun j => d_next d <= j_id j) new;
  ev_owners : owners_kept d d';
}.

(** The part of it a claim keeps too. *)
Definition history (d d' : db) : Prop :=
  d_next d <= d_next d' /\
  exists old new, d_jobs d' = old ++ new /\
    Forall2 row_evolves (d_jobs d) old /\ Forall (fun j => d_next d <= j_id j) new.

(** The two together: the shape of every operation's lemma. *)
Definition keeps (d d' : db) : Prop := wf d -> wf d' /\ evolves d d'.

#[global] Instance row_evolves_preorder : PreOrder row_evolves.
Proof.
  split.
  - intros j. split; try done; lia.
  - intros a b c [H1 H2 H3 H4 H5 H6 H7] [G1 G2 G3 G4 G5 G6 G7]. split; try congruence; try lia.
    intros Ha. rewrite G7 by (by rewrite H7). by apply H7.
Qed.

Lemma evolves_history d d' : evolves d d' -> history d d'.
Proof. by intros [H1 H2 _]. Qed.

#[global] Instance history_preorder : PreOrder history.
Proof.
  split.
  - intros d. split; [lia|]. exists (d_jobs d), []. rewrite app_nil_r. split; [done|]. split; [|done].
    apply Forall2_same_length_lookup. split; [done|]. intros i x y Hx Hy. simplify_eq. reflexivity.
  - intros a b c [Hn1 (o1 & n1 & E1 & F1 & G1)] [Hn2 (o2 & n2 & E2 & F2 & G2)]. split; [lia|].
    rewrite E1 in F2. apply Forall2_app_inv_l in F2 as (o3 & o4 & F3 & F4 & ->).
    exists o3, (o4 ++ n2). rewrite E2, <- app_assoc. split; [done|]. split.
    + by transitivity o1.
    + apply Forall_app. split.
      * clear -G1 F4. revert G1. induction F4 as [|x y l k H HF IH]; intros G; constructor.
        -- apply Forall_cons in G as [G _]. rewrite (re_id _ _ H). done.
        -- apply IH. by apply Forall_cons in G as [_ G].
      * eapply Forall_impl; [exact G2|]. simpl. lia.
Qed.

#[global] Instance owners_kept_preorder : PreOrder owners_kept.
Proof.
  split; [intros d j w Hj Hw; eauto|]. intros a b c H1 H2 j w Hj Hw.
  destruct (H2 j w Hj Hw) as (k & Hk & Hid & Hkw). destruct (H1 k w Hk Hkw) as (x & Hx & Hid' & Hxw).
  exists x. split; [done|]. split; [congruence|done].
Qed.

Lemma evolves_refl d : evolves d d.
Proof. destruct (reflexivity (R := history) d) as [H1 H2]. split; [done|done|reflexivity]. Qed.

Lemma evolves_trans a b c : evolves a b -> evolves b c -> evolves a c.
Proof.
  intros H1 H2. destruct (transitivity (evolves_history _ _ H1) (evolves_history _ _ H2)) as [H3 H4].
  split; [done|done|]. etransitivity; [exact (ev_owners _ _ H1)|exact (ev_owners _ _ H2)].
Qed.

#[global] Instance keeps_preorder : PreOrder keeps.
Proof.
  split.
  - intros d H. split; [done|]. apply evolves_refl.
  - intros a b c H1 H2 Ha. destruct (H1 Ha) as [Hb E1]. destruct (H2 Hb) as [Hc E2].
    split; [done|]. by eapply evolves_trans.
Qed.

(** ** Statements that leave the job table alone *)

Definition same_jobs (d d' : db) : Prop := d_jobs d' = d_jobs d /\ d_next d' = d_next d.

Lemma keeps_same_jobs d d' : same_jobs d d' -> keeps d d'.
Proof.
  intros [Hj Hn] [H1 H2 H3 H4 H5]. split.
  - split; rewrite ?Hj, ?Hn; done.
  - destruct (evolves_refl d) as [E1 E2 E3]. split; [lia|by rewrite Hj|].
    intros j w. rewrite Hj. apply E3.
Qed.

(** ** Updates *)

Lemma apply_assigns_identity sets j :
  let j' := apply_assigns sets j in
  j_id j' = j_id j /\ j_user j' = j_user j /\ j_lane j' = j_lane j /\ j_priority j' = j_priority j.
Proof.
  unfold apply_assigns. revert j. induction sets as [|a sets IH]; intros j; simpl; [done|].
  destruct (IH (apply_assign j a)) as (-> & -> & -> & ->). by destruct a.
Qed.

(** What a [SET] list must satisfy on a row it is applied to. *)
Record gentle (j j' : job) : Prop := {
  gt_active : active j = true;
  gt_owned : owned j' = true -> owned j = true /\ owned_fields j';
  gt_attempts : j_attempts j <= j_attempts j';
  gt_input : j_input j <= j_input j';
  gt_owner : j_claimed_by j' = j_claimed_by j \/ j_claimed_by j' = None;
}.

Lemma gentle_row_evolves j sets :
  gentle j (apply_assigns sets j) -> row_evolves j (apply_assigns sets j).
Proof.
  intros [Ha _ Hat Hin _]. destruct (apply_assigns_identity sets j) as (H1 & H2 & H3 & H4).
  split; try done. congruence.
Qed.

(** The keys of a filtered table after a row-wise map that never adds a hit. *)
Lemma filter_map_sublist {K} (key : job -> K) (P : job -> bool) (g : job -> job) (l : list job) :
  (forall j, j ∈ l -> key (g j) = key j /\ (P (g j) = true -> P j = true)) ->
  key <$> filter (fun j => P j = true) (g <$> l) `sublist_of`
  key <$> filter (fun j => P j = true) l.
Proof.
  induction l as [|j l IH]; intros H; [done|]. rewrite fmap_cons, !filter_cons.
  destruct (H j ltac:(left)) as [Hk HP]. specialize (IH (fun j' Hj' => H j' (list_elem_of_further _ _ _ Hj'))).
  destruct (decide (P (g j) = true)) as [Hg|Hg].
  - rewrite decide_True by auto. rewrite !fmap_cons, Hk. by apply sublist_skip.
  - case_decide; [rewrite fmap_cons; by apply sublist_cons|done].
Qed.

Lemma map_same_ids (g : job -> job) (l : list job) :
  (forall j, j ∈ l -> j_id (g j) = j_id j) -> j_id <$> (g <$> l) = j_id <$> l.
Proof.
  induction l as [|j l IH]; intros H; [done|]. rewrite !fmap_cons, H by left.
  f_equal. apply IH. intros j' Hj'. apply H. by right.
Qed.

Lemma keeps_update p sets d :
  (forall j, j ∈ d_jobs d -> p j = true -> wf d -> gentle j (apply_assigns (sets j) j)) ->
  keeps d (update_jobs p sets d).
Proof.
  intros H Hwf. pose proof Hwf as [H1 H2 H3 H4 H5].
  set (g := fun j => if p j then apply_assigns (sets j) j else j).
  assert (forall j, j ∈ d_jobs d -> row_evolves j (g j)) as Hrow.
  { intros j Hj. unfold g. destruct (p j) eqn:E; [|reflexivity]. by apply gentle_row_evolves, H. }
  assert (d_jobs (update_jobs p sets d) = g <$> d_jobs d) as Hjobs by done.
  split; [split; rewrite ?Hjobs|].
  - rewrite map_same_ids; [done|]. intros j Hj. by apply re_id, Hrow.
  - intros j' (j & -> & Hj)%list_elem_of_fmap. rewrite (re_id _ _ (Hrow j Hj)). by apply H2.
  - eapply sublist_NoDup; [exact H3|]. apply filter_map_sublist. intros j Hj. split.
    + unfold job_key. by rewrite (re_user _ _ (Hrow j Hj)), (re_lane _ _ (Hrow j Hj)).
    + unfold g. destruct (p j) eqn:E; [|done]. intros _. by apply (H j Hj E Hwf).
  - eapply sublist_NoDup; [exact H4|]. apply filter_map_sublist. intros j Hj. split.
    + apply (re_user _ _ (Hrow j Hj)).
    + unfold g. destruct (p j) eqn:E; [|done]. intros Ho. by apply (H j Hj E Hwf).
  - intros j' (j & -> & Hj)%list_elem_of_fmap. unfold g. destruct (p j) eqn:E; [|by apply H5].
    intros Ho. by apply (H j Hj E Hwf).
  - split; [simpl; lia| |].
    + exists (g <$> d_jobs d), []. rewrite app_nil_r. split; [done|].
      split; [|done]. apply Forall2_fmap_r, Forall_Forall2_diag, Forall_forall. done.
    + intros j' w (j & -> & Hj)%list_elem_of_fmap Hw. exists j. split; [done|].
      split; [symmetry; by apply re_id, Hrow|]. destruct (p j) eqn:E; [|done].
      destruct (gt_owner _ _ (H j Hj E Hwf)) as [Ho|Ho]; congruence.
Qed.

(** ** One row *)

Lemma job_at_elem i d j : job_at i d = Some j -> j ∈ d_jobs d /\ j_id j = i.
Proof. unfold job_at. intros [H E]%List.find_some. bools. by rewrite list_elem_of_In. Qed.

Lemma job_at_split d i j :
  wf d -> job_at i d = Some j -> exists l1 l2, d_jobs d = l1 ++ j :: l2 /\ j_id j = i /\
    (forall k, k ∈ l1 ++ l2 -> j_id k <> i).
Proof.
  intros Hwf Hj. destruct (job_at_elem _ _ _ Hj) as [Hin Hid].
  apply list_elem_of_split in Hin as (l1 & l2 & E). exists l1, l2. split; [done|]. split; [done|].
  intros k Hk Heq. pose proof (wf_sorted _ Hwf) as Hs. rewrite E, fmap_app, fmap_cons in Hs.
  assert (NoDup ((j_id <$> l1) ++ j_id j :: (j_id <$> l2))) as Hnd.
  { clear -Hs. induction Hs as [|x l Hs IH Hx]; constructor; [|done].
    intros Hin. rewrite Forall_forall in Hx. specialize (Hx _ Hin). lia. }
  apply NoDup_app in Hnd as (_ & Hd & Hnd). apply NoDup_cons in Hnd as [Hnd _].
  apply elem_of_app in Hk as [Hk|Hk].
  - apply (Hd (j_id k)); [by apply list_elem_of_fmap_2|]. rewrite Heq, Hid. left.
  - apply Hnd. rewrite Hid, <- Heq. by apply list_elem_of_fmap_2.
Qed.

Lemma job_at_unique d j : wf d -> j ∈ d_jobs d -> job_at (j_id j) d = Some j.
Proof.
  intros Hwf Hin. unfold job_at.
  destruct (List.find (fun k => j_id k =? j_id j) (d_jobs d)) as [k|] eqn:E.
  - destruct (job_at_split d (j_id j) k Hwf E) as (l1 & l2 & El & Hid & Hother).
    rewrite El in Hin. apply elem_of_app in Hin as [Hin|[->|Hin]%elem_of_cons]; [| done |].
    + exfalso. apply (Hother j); [apply elem_of_app; by left|done].
    + exfalso. apply (Hother j); [apply elem_of_app; by right|done].
  - exfalso. pose proof (List.find_none _ _ E j) as H. apply list_elem_of_In in Hin.
    specialize (H Hin). simpl in H. rewrite Z.eqb_refl in H. done.
Qed.

(** An update keyed by the primary key changes that row alone. *)
Lemma update_at d i j p sets :
  wf d -> job_at i d = Some j -> p j = true -> (forall k, p k = true -> j_id k = i) ->
  exists l1 l2, d_jobs d = l1 ++ j :: l2 /\ (forall k, k ∈ l1 ++ l2 -> j_id k <> i) /\
    d_jobs (update_jobs p sets d) = l1 ++ apply_assigns (sets j) j :: l2 /\
    job_at i (update_jobs p sets d) = Some (apply_assigns (sets j) j).
Proof.
  intros Hwf Hj Hp Honly. destruct (job_at_split _ _ _ Hwf Hj) as (l1 & l2 & E & Hid & Hother).
  exists l1, l2. split; [done|]. split; [done|].
  assert (forall l : list job, (forall k, k ∈ l -> j_id k <> i) ->
            (fun k => if p k then apply_assigns (sets k) k else k) <$> l = l) as Hskip.
  { induction l as [|k l IH]; intros H; [done|]. rewrite fmap_cons, IH by (intros; apply H; by right).
    destruct (p k) eqn:Ek; [|done]. exfalso. apply (H k); [left|by apply Honly]. }
  assert (d_jobs (update_jobs p sets d) = l1 ++ apply_assigns (sets j) j :: l2) as Hjobs.
  { simpl. rewrite E, fmap_app, fmap_cons, Hp.
    rewrite !Hskip; [done| |]; intros k Hk; apply Hother, elem_of_app; auto. }
  split; [done|]. unfold job_at. rewrite Hjobs.
  assert (j_id (apply_assigns (sets j) j) = i) as Hid'.
  { by destruct (apply_assigns_identity (sets j) j) as (-> & _). }
  clear -Hother Hid'. induction l1 as [|k l1 IH]; simpl.
  - by rewrite (proj2 (Z.eqb_eq _ _) Hid').
  - rewrite (proj2 (Z.eqb_neq _ _) (Hother k ltac:(left))). apply IH.
    intros k' Hk'. apply Hother. by right.
Qed.

(** ** Insertion *)

Lemma key_taken_false user lane d :
  key_taken user lane d = false ->
  (user, lane) ∉ job_key <$> filter (fun j => active j = true) (d_jobs d).
Proof.
  intros H (j & E & [Ha Hin]%list_elem_of_filter)%list_elem_of_fmap. unfold job_key in E.
  injection E as -> ->. unfold key_taken in H.
  rewrite <- not_true_iff_false in H. apply H. apply List.existsb_exists. exists j.
  rewrite <- list_elem_of_In. split; [done|]. by rewrite !String.eqb_refl, Ha.
Qed.

Lemma key_taken_true user lane d :
  key_taken user lane d = true ->
  exists j, j ∈ d_jobs d /\ j_user j = user /\ j_lane j = lane /\ active j = true.
Proof.
  intros H. apply List.existsb_exists in H as (j & Hin & H). bools. exists j.
  by rewrite list_elem_of_In.
Qed.

Definition new_row (i : Z) (user lane : string) (reason trace : option string) (prio : Z)
    (qd gen : option Z) (now : Z) : job :=
  mkJob i user lane reason trace prio pending now now qd None None None None None None gen 0 0 None
    None None.

Lemma insert_job_spec user lane reason trace prio qd gen now d i d' :
  insert_job user lane reason trace prio qd gen now d = Return (i, d') ->
  key_taken user lane d = false /\ i = d_next d /\ d_next d' = d_next d + 1 /\
  d_jobs d' = d_jobs d ++ [new_row i user lane reason trace prio qd gen now].
Proof.
  unfold insert_job. destruct (key_taken user lane d); [done|]. by intros [= <- <-].
Qed.

Lemma keeps_insert user lane reason trace prio qd gen now d i d' :
  insert_job user lane reason trace prio qd gen now d = Return (i, d') -> keeps d d'.
Proof.
  intros (Hfree & -> & Hn & Hj)%insert_job_spec [H1 H2 H3 H4 H5].
  set (j := new_row _ _ _ _ _ _ _ _ _) in Hj. split; [split|].
  - rewrite Hj, fmap_app. simpl. clear -H1 H2.
    induction (d_jobs d) as [|k l IH]; simpl in *; [repeat constructor|].
    apply StronglySorted_inv in H1 as [Hs Hk]. constructor.
    + apply IH; [done|]. intros k' Hk'. apply H2. by right.
    + apply Forall_app. split; [done|]. repeat constructor. apply H2. left.
  - rewrite Hj, Hn. intros k [Hk|Hk]%elem_of_app; [specialize (H2 k Hk); lia|].
    apply list_elem_of_singleton in Hk as ->. simpl. lia.
  - rewrite Hj, filter_app, fmap_app. simpl. apply NoDup_app. split; [done|]. split.
    + intros k Hk Hk'. apply (key_taken_false _ _ _ Hfree). simpl in Hk'.
      apply list_elem_of_singleton in Hk' as ->. done.
    + repeat constructor. apply not_elem_of_nil.
  - rewrite Hj, filter_app, fmap_app. simpl. by rewrite app_nil_r.
  - rewrite Hj. intros k [Hk|Hk]%elem_of_app; [by apply H5|].
    by apply list_elem_of_singleton in Hk as ->.
  - split; [lia| |].
    + exists (d_jobs d), [j]. split; [done|]. split.
      * apply Forall2_same_length_lookup. split; [done|]. intros n x y Hx Hy. simplify_eq. reflexivity.
      * repeat constructor. simpl. lia.
    + intros k w. rewrite Hj. intros [Hk|Hk]%elem_of_app Hw; [by exists k|].
      apply list_elem_of_singleton in Hk as ->. done.
Qed.

(** ** Helpers of the operations *)

Lemma owned_active j : owned j = true -> active j = true.
Proof. unfold owned, active. by destruct (j_status j). Qed.

Lemma pending_active j : j_status j = pending -> active j = true.
Proof. unfold active. by intros ->. Qed.

Lemma select_job_elem p d j : select_job p d = Some j -> j ∈ d_jobs d /\ p j = true.
Proof.
  unfold select_job, select_jobs. intros H. apply head_Some_elem_of in H.
  by apply list_elem_of_filter in H as [? ?].
Qed.

Lemma busy_false user d :
  busy user d = false -> user ∉ j_user <$> filter (fun j => owned j = true) (d_jobs d).
Proof.
  intros H (j & -> & [Ho Hin]%list_elem_of_filter)%list_elem_of_fmap.
  rewrite <- not_true_iff_false in H. apply H. apply List.existsb_exists. exists j.
  rewrite <- list_elem_of_In. split; [done|]. by rewrite String.eqb_refl, Ho.
Qed.

(** Goals [gentle j (apply_assigns [...] j)]: the row is active by the guard
    and the assignments only release or terminate it. *)
Ltac gentle_goal :=
  split; simpl;
  [ first [assumption | by apply owned_active | by apply pending_active]
  | try (intros ?; discriminate) | try lia | try lia | first [by left|by right] ].

Lemma same_jobs_terminal_failure cfg i user e c d : same_jobs d (queue_terminal_failure cfg i user e c d).
Proof. unfold queue_terminal_failure. repeat case_goal; done. Qed.

Lemma same_jobs_resolve_mcp hit clk d : same_jobs d (resolve_mcp hit clk d).
Proof. done. Qed.

Lemma same_jobs_record_result user lane i c clk d :
  same_jobs d (Wake.record_result_on_cursor user lane i c clk d).1.
Proof. unfold Wake.record_result_on_cursor, Wake.ensure_row. repeat case_goal; done. Qed.

Lemma same_jobs_clear_backoff user d : same_jobs d (Wake.clear_wake_backoff user d).
Proof. unfold Wake.clear_wake_backoff. by case_goal. Qed.

Lemma same_jobs_arm_backoff user now b c d : same_jobs d (Wake.arm_wake_backoff user now b c d).
Proof. unfold Wake.arm_wake_backoff, Wake.ensure_row. repeat case_goal; done. Qed.

Lemma keeps_terminal_failure cfg i user e c d : keeps d (queue_terminal_failure cfg i user e c d).
Proof. apply keeps_same_jobs, same_jobs_terminal_failure. Qed.

Lemma keeps_resolve_mcp hit clk d : keeps d (resolve_mcp hit clk d).
Proof. apply keeps_same_jobs, same_jobs_resolve_mcp. Qed.

Lemma keeps_record_result user lane i c clk d :
  keeps d (Wake.record_result_on_cursor user lane i c clk d).1.
Proof. apply keeps_same_jobs, same_jobs_record_result. Qed.

Lemma keeps_clear_backoff user d : keeps d (Wake.clear_wake_backoff user d).
Proof. apply keeps_same_jobs, same_jobs_clear_backoff. Qed.

Lemma keeps_arm_backoff user now b c d : keeps d (Wake.arm_wake_backoff user now b c d).
Proof. apply keeps_same_jobs, same_jobs_arm_backoff. Qed.

Lemma keeps_ensure_runner cfg user now d : keeps d (ensure_review_runner cfg user now d).1.
Proof.
  unfold ensure_review_runner. case_goal; [reflexivity|].
  destruct (v2_generation user d); [|reflexivity]. case_goal; [|reflexivity].
  destruct (insert_job _ _ _ _ _ _ _ _ d) as [[i d']|e] eqn:Ei; [|reflexivity].
  by eapply keeps_insert.
Qed.

Lemma keeps_failure_review cfg i now d : keeps d (queue_failure_review cfg i now d).1.
Proof.
  unfold queue_failure_review. destruct (job_at i d) as [j|]; [|reflexivity].
  set (d1 := if existsb _ _ then d else _).
  assert (same_jobs d d1) as H1 by (unfold d1; by case_goal).
  case_goal; simpl; [|by apply keeps_same_jobs].
  transitivity d1; [by apply keeps_same_jobs|].
  transitivity (set_reviews (d_reviews d1 ++ [mkReview i (j_user j) r_pending 0 None None None now]) d1);
    [by apply keeps_same_jobs|]. apply keeps_ensure_runner.
Qed.

Lemma keeps_ensure_runners cfg now rs d :
  keeps d (foldl (fun d r => (ensure_review_runner cfg (rv_user r) now d).1) d rs).
Proof.
  revert d. induction rs as [|r rs IH]; intros d; simpl; [reflexivity|].
  etransitivity; [apply keeps_ensure_runner|apply IH].
Qed.

Lemma keeps_recover_runner cfg i now d : keeps d (recover_review_runner cfg i now d).1.
Proof.
  unfold recover_review_runner. destruct (job_at i d) as [j|]; [|reflexivity].
  case_goal; [|reflexivity]. simpl. etransitivity; [|apply keeps_ensure_runners].
  by apply keeps_same_jobs.
Qed.

Lemma keeps_record_crash cfg ob j e d : keeps d (record_capture_crash cfg ob j e d).1.
Proof. apply keeps_same_jobs. unfold record_capture_crash. repeat case_goal; done. Qed.

#[local] Hint Resolve keeps_terminal_failure keeps_resolve_mcp keeps_record_result
  keeps_clear_backoff keeps_arm_backoff keeps_ensure_runner keeps_failure_review
  keeps_recover_runner keeps_record_crash : feed.

Lemma keeps_update_one p sets d :
  (forall j, j ∈ d_jobs d -> p j = true -> wf d -> gentle j (apply_assigns (sets j) j)) ->
  keeps d (update_one p sets d).1.
Proof. intros H. unfold update_one. case_goal; simpl; [by apply keeps_update|reflexivity]. Qed.

(** ** Claims *)

Lemma owner_insert l1 j j' l2 :
  owned j = false -> owned j' = true -> j_user j' = j_user j ->
  j_user j ∉ j_user <$> filter (fun k => owned k = true) (l1 ++ j :: l2) ->
  NoDup (j_user <$> filter (fun k => owned k = true) (l1 ++ j :: l2)) ->
  NoDup (j_user <$> filter (fun k => owned k = true) (l1 ++ j' :: l2)).
Proof.
  intros Ho Ho' Hu Hni Hnd. rewrite !filter_app, !filter_cons in *.
  rewrite decide_False in Hnd, Hni by congruence. rewrite decide_True by done.
  rewrite !fmap_app in *. rewrite fmap_cons, Hu.
  rewrite <- Permutation_middle. by constructor.
Qed.

(** A claim: the history goes on, and [worker] on row [i] is the only new owner. *)
Definition claim_keeps (worker : string) (i : Z) (d d' : db) : Prop :=
  wf d -> wf d' /\ history d d' /\
  forall k w, k ∈ d_jobs d' -> j_claimed_by k = Some w ->
    (j_id k = i /\ w = worker) \/
    exists k0, k0 ∈ d_jobs d /\ j_id k0 = j_id k /\ j_claimed_by k0 = Some w.

Lemma keeps_claimed cfg worker i gen now clk d j d' :
  claim_sql cfg worker i gen now clk d = Claimed j d' -> claim_keeps worker i d d'.
Proof.
  unfold claim_sql. destruct (job_at i d) as [k|] eqn:Ej; [|done]. case_goal; [|done]. bools.
  destruct (match j_generation k with Some g => g =? gen | None => true end); [|done].
  set (sets := fun k : job => [SetStatus claimed; _; _; _; _; _]). intros Hc Hwf.
  destruct (update_at d i k (fun k => j_id k =? i) sets Hwf Ej) as (l1 & l2 & E & Hother & E' & Hat).
  { apply Z.eqb_eq. by destruct (job_at_elem _ _ _ Ej). }
  { intros k' Hk'. by bools. }
  rewrite Hat in Hc. injection Hc as <- <-. set (k' := apply_assigns (sets k) k) in *.
  destruct (apply_assigns_identity (sets k) k) as (Hid & Hu & Hl & Hp). fold k' in Hid, Hu, Hl, Hp.
  assert (active k = true) as Hact by (by apply pending_active).
  assert (owned k = false) as Hown by (unfold owned; by rewrite H).
  destruct Hwf as [H1' H2' H3' H4' H5'].
  assert (row_evolves k k') as Hrow by (split; try done; simpl; (lia || congruence)).
  split; [split|].
  - rewrite E'. rewrite E in H1'. rewrite fmap_app, fmap_cons in *. by rewrite Hid.
  - rewrite E'. intros x Hx. rewrite E in H2'. simpl.
    apply elem_of_app in Hx as [Hx|[->|Hx]%elem_of_cons].
    + apply H2'. apply elem_of_app. by left.
    + rewrite Hid. apply H2'. apply elem_of_app. right. left.
    + apply H2'. apply elem_of_app. right. by right.
  - rewrite E'. rewrite E in H3'. rewrite !filter_app, !filter_cons in *.
    rewrite decide_True in H3' by done. rewrite decide_True by done.
    rewrite !fmap_app, !fmap_cons in *. unfold job_key at 2. by rewrite Hu, Hl.
  - rewrite E'. eapply (owner_insert l1 k k' l2); [done|done|done| |].
    + rewrite <- E. by apply busy_false.
    + by rewrite <- E.
  - rewrite E'. rewrite E in H5'. intros x Hx Hox.
    apply elem_of_app in Hx as [Hx|[->|Hx]%elem_of_cons].
    + apply H5'; [apply elem_of_app; by left|done].
    + repeat split; simpl; [done|done|]. unfold coalesce. by case_goal.
    + apply H5'; [apply elem_of_app; right; by right|done].
  - split.
    + split; [simpl; lia|]. exists (l1 ++ k' :: l2), []. rewrite app_nil_r. split; [done|]. split; [|done].
      rewrite E. apply Forall2_app; [|constructor; [done|]];
        apply Forall2_same_length_lookup; (split; [done|]); intros n x y Hx Hy; simplify_eq; reflexivity.
    + rewrite E'. intros x w Hx Hw. apply elem_of_app in Hx as [Hx|[->|Hx]%elem_of_cons].
      * right. exists x. split; [|done]. rewrite E. apply elem_of_app. by left.
      * left. split; [|by injection Hw]. destruct (job_at_elem _ _ _ Ej) as [_ <-]. done.
      * right. exists x. split; [|done]. rewrite E. apply elem_of_app. right. by right.
Qed.

(** ** The operations *)

Section Operations.
Context (cfg : config).

Lemma keeps_expire_row i now label d :
  (forall j, job_at i d = Some j -> active j = true) ->
  keeps d (update_jobs (fun k => j_id k =? i)
             (fun k => [SetStatus expired; SetFinished (Some now); SetAttempts (j_attempts k + 1);
                        SetError label]) d).
Proof using Type.
  intros H. apply keeps_update. intros j Hj Hp Hwf. bools. subst i.
  assert (active j = true) as Ha by (apply H; by apply job_at_unique). gentle_goal.
Qed.

Lemma keeps_supersede i now label d :
  (forall j, job_at i d = Some j -> active j = true) ->
  keeps d (update_jobs (fun k => j_id k =? i)
             (fun _ => [SetStatus superseded; SetFinished (Some now); SetError label]) d).
Proof using Type.
  intros H. apply keeps_update. intros j Hj Hp Hwf. bools. subst i.
  assert (active j = true) as Ha by (apply H; by apply job_at_unique). gentle_goal.
Qed.

Lemma keeps_count_input i d :
  (forall j, job_at i d = Some j -> active j = true) ->
  keeps d (update_jobs (fun k => j_id k =? i) (fun k => [SetInput (j_input k + 1)]) d).
Proof using Type.
  intros H. apply keeps_update. intros j Hj Hp Hwf. bools. subst i.
  assert (active j = true) as Ha by (apply H; by apply job_at_unique). split; simpl; [done| |lia|lia|by left].
  intros Ho. split; [exact Ho|]. exact (wf_fields _ Hwf j Hj Ho).
Qed.

(** The row selected by a predicate is the row its key denotes. *)
Lemma select_job_at p d j k :
  wf d -> select_job p d = Some j -> job_at (j_id j) d = Some k -> k = j.
Proof using Type.
  intros Hwf Hs Hk. destruct (select_job_elem _ _ _ Hs) as [Hin _].
  rewrite (job_at_unique _ _ Hwf Hin) in Hk. by injection Hk.
Qed.

Lemma keeps_wf_cond d d' : (wf d -> keeps d d') -> keeps d d'.
Proof using Type. intros H Hwf. by apply H. Qed.

Lemma keeps_coalesce user lane reason trace prio dl ex now clk d i m d' :
  coalesce_or_insert cfg user lane reason trace prio dl ex now clk d = Return (i, m, d') ->
  keeps d d'.
Proof using Type.
  intros H. apply keeps_wf_cond. intros Hwf. revert H. unfold coalesce_or_insert.
  destruct (select_job _ d) as [e|] eqn:Es.
  - assert (forall j, job_at (j_id e) d = Some j -> active j = true) as Hact.
    { intros j Hj. rewrite (select_job_at _ _ _ _ Hwf Es Hj).
      destruct (select_job_elem _ _ _ Es) as [_ Hp]. by bools. }
    case_goal; [|case_goal].
    + intros ([i' d1] & Hi & [= <- <- <-])%bind_return.
      etransitivity; [by eapply keeps_supersede|]. by eapply keeps_insert.
    + intros ([i' d1] & Hi & [= <- <- <-])%bind_return.
      etransitivity; [by eapply (keeps_expire_row (j_id e) now)|].
      etransitivity; [apply keeps_terminal_failure|].
      etransitivity; [apply keeps_failure_review|]. by eapply keeps_insert.
    + intros [= <- <- <-]. by apply keeps_count_input.
  - intros ([i' d1] & Hi & [= <- <- <-])%bind_return. by eapply keeps_insert.
Qed.

Lemma keeps_expire_capture ob e d d' row rs fs :
  wf d -> expire_overdue_capture cfg ob e d = Some (d', row, rs, fs) -> keeps d d'.
Proof using Type.
  intros Hwf. unfold expire_overdue_capture. destruct (job_at (j_id e) d) as [j|] eqn:Ej; [|done].
  destruct (owned j) eqn:Eo; [|done].
  destruct (record_capture_crash _ _ _ _ _) as [d2 fs'] eqn:E2.
  destruct (recover_review_runner _ _ _ _) as [d3 rs'] eqn:E3.
  destruct (job_at (j_id e) _) as [row'|] in |- *; [|done]. intros [= <- <- <- <-].
  etransitivity; [|apply keeps_failure_review].
  etransitivity; [|eapply eq_ind; [apply keeps_recover_runner|by rewrite E3]].
  etransitivity; [|eapply eq_ind; [apply keeps_record_crash|by rewrite E2]].
  etransitivity; [|apply keeps_resolve_mcp]. apply keeps_expire_row.
  intros j' Hj'. rewrite Ej in Hj'. injection Hj' as <-. by apply owned_active.
Qed.

Lemma retried_return {A} n (txn : outcome A) a : retried n txn = Return a -> txn = Return a.
Proof using Type.
  induction n as [|n IH]; simpl; [done|]. destruct txn as [x|[]]; try done.
Qed.

Lemma keeps_enqueue_capture ob user reason trace prio dl ex bn d i disp d' :
  enqueue_capture_once cfg ob user reason trace prio dl ex bn d = Return (i, disp, d') -> keeps d d'.
Proof using Type.
  intros H. apply keeps_wf_cond. intros Hwf. revert H. unfold enqueue_capture_once.
  set (ex' := match ex with Some _ => ex | None => _ end).
  set (rest := if _ && _ then Return _ else _).
  assert (forall i disp d', rest = Return (i, disp, d') -> keeps d d') as Hrest.
  { intros i' disp' d1. unfold rest. destruct (_ && _); [by intros [= <- <- <-]|].
    intros ([[i1 m1] d2] & Hc & [= <- <- <-])%bind_return. by eapply keeps_coalesce. }
  clearbody rest. destruct (select_job _ d) as [e|] eqn:Es; [|by apply Hrest].
  case_goal; [|by apply Hrest]. case_goal.
  - destruct (expire_overdue_capture cfg ob e d) as [[[[d1 row] rs] fs]|] eqn:Ee.
    + intros [= <- <- <-]. by eapply keeps_expire_capture.
    + by intros [= <- <- <-].
  - intros [= <- <- <-]. apply keeps_count_input. intros j Hj.
    rewrite (select_job_at _ _ _ _ Hwf Es Hj). destruct (select_job_elem _ _ _ Es) as [_ Hp]. by bools.
Qed.

Lemma keeps_enqueue ob user lane reason trace fresh prio dl ex d i m d' :
  enqueue_job cfg ob user lane reason trace fresh prio dl ex d = Return (i, m, d') -> keeps d d'.
Proof using Type.
  unfold enqueue_job. case_goal; [done|]. case_goal.
  - intros ([[i1 disp] d1] & Hc & H)%bind_return. destruct i1; [|done]. injection H as <- <- <-.
    apply retried_return in Hc. by eapply keeps_enqueue_capture.
  - intros H%retried_return. by eapply keeps_coalesce.
Qed.

Lemma pick_from l b j :
  foldl (fun best j => match best with
                       | Some b => if before j b then Some j else best
                       | None => Some j end) (Some b) l = Some j -> j = b \/ j ∈ l.
Proof using Type.
  revert b. induction l as [|x l IH]; intros b; simpl; [intros [= ->]; by left|].
  destruct (before x b); intros [->|H]%IH; [right; left|right; by right|by left|right; by right].
Qed.

Lemma pick_elem l j : pick l = Some j -> j ∈ l.
Proof using Type.
  destruct l as [|x l]; [done|]. unfold pick. simpl. intros [->|H]%pick_from; [left|by right].
Qed.

Lemma keeps_retire i now d :
  (forall j, job_at i d = Some j -> active j = true) -> keeps d (retire i now d).
Proof using Type. apply keeps_supersede. Qed.

Lemma keeps_claim_sql worker i gen now clk d :
  match claim_sql cfg worker i gen now clk d with
  | Locked0 => True
  | Superseded d' => keeps d d'
  | Claimed _ d' => claim_keeps worker i d d'
  end.
Proof using Type.
  destruct (claim_sql cfg worker i gen now clk d) as [|d'|j d'] eqn:E; [done| |by eapply keeps_claimed].
  revert E. unfold claim_sql. destruct (job_at i d) as [j|] eqn:Ej; [|done]. case_goal; [|done].
  repeat case_goal; try done; intros [= <-]; apply keeps_supersede;
    intros j' Hj'; rewrite Ej in Hj'; injection Hj' as <-; bools; by apply pending_active.
Qed.

Lemma keeps_claim_once worker lanes now c1 c2 sk d :
  match claim_once cfg worker lanes now c1 c2 sk d with
  | Idle d' | Again d' => keeps d d'
  | Got j d' => exists i, claim_keeps worker i d d'
  end.
Proof using Type.
  unfold claim_once.
  assert (forall p j, pick (select_jobs p d) = Some j -> p j = true /\ j ∈ d_jobs d) as Hpick.
  { intros p j Hj. apply pick_elem in Hj. by apply list_elem_of_filter in Hj. }
  assert (forall j, claimable cfg lanes now c1 d j = true -> j ∈ d_jobs d ->
            keeps d (retire (j_id j) now d)) as Hretire.
  { intros j Hc Hin. apply keeps_wf_cond. intros Hwf. apply keeps_retire. intros k Hk.
    rewrite (job_at_unique _ _ Hwf Hin) in Hk. injection Hk as <-.
    unfold claimable in Hc. bools. by apply pending_active. }
  destruct (pick _) as [h|] eqn:Eh; [|reflexivity]. destruct (Hpick _ _ Eh) as [Hc Hin].
  destruct (d_runtime d !! j_user h) as [[st gen]|].
  - destruct (String.eqb st "v2"); [|by apply Hretire]. destruct sk; [reflexivity|].
    pose proof (keeps_claim_sql worker (j_id h) gen now c2 d) as H.
    destruct (claim_sql cfg worker (j_id h) gen now c2 d); [done..|by exists (j_id h)].
  - destruct (pick (select_jobs (fun j => _ && negb _) d)) as [o|] eqn:Eo; [|reflexivity].
    destruct (Hpick _ _ Eo) as [Hc' Hin']. bools. by apply Hretire.
Qed.

(** The updates of a live owner. *)
Lemma owns_live_owned i w t j : owns_live i w t j = true -> owned j = true /\ j_id j = i.
Proof using Type. unfold owns_live. intros. by bools. Qed.

Lemma claims_owned i w j : claims i w j = true -> owned j = true /\ j_id j = i.
Proof using Type. unfold claims. intros. by bools. Qed.

Lemma keeps_mark_running i w clk d : keeps d (mark_running cfg i w clk d).1.
Proof using Type.
  unfold mark_running. destruct (job_generation i d); [|reflexivity].
  apply keeps_update_one. intros j Hj Hp Hwf. bools.
  assert (owned j = true) as Ho by (unfold owned; by rewrite H3).
  split; simpl; [by apply owned_active| |lia|lia|by left]. intros _. split; [done|].
  destruct (wf_fields _ Hwf j Hj Ho) as (H1' & _ & H3'). repeat split; simpl; done.
Qed.

Lemma keeps_renew i w ttl clk d : keeps d (renew_job_lease i w ttl clk d).1.
Proof using Type.
  unfold renew_job_lease. destruct (job_generation i d); [|reflexivity].
  apply keeps_update_one. intros j Hj Hp Hwf. bools. apply owns_live_owned in H as [Ho _].
  split; simpl; [by apply owned_active| |lia|lia|by left]. intros _. split; [done|].
  destruct (wf_fields _ Hwf j Hj Ho) as (H1' & _ & H3'). repeat split; simpl; done.
Qed.

Lemma keeps_mark_completed i w cb r1 r2 now clk d : keeps d (mark_completed i w cb r1 r2 now clk d).1.
Proof using Type.
  unfold mark_completed. destruct (select_job _ d) as [j|]; [|reflexivity]. simpl.
  set (d1 := update_jobs _ _ d).
  assert (keeps d d1) as H1.
  { apply keeps_update. intros k Hk Hp _. apply owns_live_owned in Hp as [Ho _]. gentle_goal. }
  set (d2 := (Wake.record_result_on_cursor _ _ _ _ _ d1).1).
  assert (keeps d d2) as H2 by (etransitivity; [exact H1|apply keeps_record_result]).
  case_goal; [|done]. etransitivity; [exact H2|apply keeps_clear_backoff].
Qed.

Lemma keeps_mark_failed i w e c b now clk d : keeps d (mark_failed cfg i w e c b now clk d).1.
Proof using Type.
  unfold mark_failed. destruct (select_job _ d) as [j|]; [|reflexivity].
  set (d1 := update_jobs _ _ d).
  assert (keeps d d1) as H1.
  { apply keeps_update. intros k Hk Hp _. apply owns_live_owned in Hp as [Ho _]. gentle_goal. }
  set (d2 := if bool_decide _ then queue_terminal_failure _ _ _ _ _ d1 else d1).
  assert (keeps d d2) as H2.
  { unfold d2. case_goal; [|done]. etransitivity; [exact H1|apply keeps_terminal_failure]. }
  set (d3 := match b with Some _ => _ | None => d2 end).
  assert (keeps d d3) as H3.
  { unfold d3. destruct b as [[[wall base] cap]|]; [|done]. case_goal; [|done].
    etransitivity; [exact H2|apply keeps_arm_backoff]. }
  clearbody d1 d2 d3.
  pose proof (keeps_record_result (j_user j) (j_lane j) i c clk d3) as H4.
  destruct (Wake.record_result_on_cursor _ _ _ _ _ d3) as [d4 opened].
  pose proof (keeps_recover_runner cfg i now d4) as H5.
  destruct (recover_review_runner cfg i now d4) as [d5 rs]. simpl in *.
  etransitivity; [exact H3|]. etransitivity; [exact H4|]. etransitivity; [exact H5|].
  apply keeps_failure_review.
Qed.

Lemma keeps_reschedule i w e t clk d : keeps d (reschedule_owned_job i w e t clk d).1.
Proof using Type.
  unfold reschedule_owned_job. destruct (job_generation i d); [|reflexivity].
  apply keeps_update_one. intros j Hj Hp _. bools. apply owns_live_owned in H as [Ho _]. gentle_goal.
Qed.

Lemma keeps_reschedule_pristine i w e t ea ma clk d d' b :
  reschedule_pristine_scheduled_failure i w e t ea ma clk d = Return (d', b) -> keeps d d'.
Proof using Type.
  unfold reschedule_pristine_scheduled_failure. case_goal; [done|]. case_goal; [done|].
  destruct (job_generation i d); [|by intros [= <- <-]]. intros [= Hu].
  change d' with (d', b).1. rewrite <- Hu. apply keeps_update_one. intros j Hj Hp _. bools.
  match goal with H : owns_live _ _ _ _ = true |- _ => apply owns_live_owned in H as [Ho _] end.
  gentle_goal.
Qed.

Lemma keeps_make_ready user lane clk d : keeps d (make_pending_job_ready user lane clk d).1.
Proof using Type.
  unfold make_pending_job_ready. destruct (v2_generation user d); [|reflexivity].
  apply keeps_update_one. intros j Hj Hp Hwf. bools.
  assert (active j = true) as Ha by (by apply pending_active).
  split; simpl; [done| |lia|lia|by left]. unfold owned. simpl. by rewrite H2.
Qed.

(** ** Recovery *)

Lemma update_one_true p sets d d' : update_one p sets d = (d', true) -> d' = update_jobs p sets d.
Proof using Type. unfold update_one. case_goal; [by intros [= <-]|done]. Qed.

Lemma keeps_general {A} i w reason now (f : db -> db * option A) d d' r rs a :
  (forall d, keeps d (f d).1) ->
  general_watchdog_recover cfg i w reason now f d = Some (d', r, rs, a) -> keeps d d'.
Proof using Type.
  intros Hf. unfold general_watchdog_recover.
  destruct (update_one _ _ d) as [d1 [|]] eqn:E1.
  - apply update_one_true in E1. subst d1. destruct (recover_review_runner _ _ _ _) as [d2 rs'] eqn:E2.
    intros [= <- <- <- <-].
    etransitivity; [|eapply eq_ind; [apply keeps_recover_runner|by rewrite E2]].
    apply keeps_update. intros j Hj Hp _. bools.
    match goal with H : claims _ _ _ = true |- _ => apply claims_owned in H as [Ho _] end. gentle_goal.
  - destruct (update_one (claims i w) _ d) as [d3 [|]] eqn:E3; [|done].
    apply update_one_true in E3. subst d3.
    set (d3 := update_jobs _ _ d) in *.
    assert (keeps d d3) as H3.
    { apply keeps_update. intros j Hj Hp _. apply claims_owned in Hp as [Ho _]. gentle_goal. }
    clearbody d3. pose proof (Hf d3) as H4. destruct (f d3) as [d4 a'].
    pose proof (keeps_recover_runner cfg i now d4) as H5.
    destruct (recover_review_runner cfg i now d4) as [d5 rs']. simpl in *. intros [= <- <- <- <-].
    etransitivity; [exact H3|]. etransitivity; [exact H4|]. etransitivity; [exact H5|].
    apply keeps_failure_review.
Qed.

Lemma keeps_event i lane r reason d d' : record_recovery_event i lane r reason d = Return d' -> keeps d d'.
Proof using Type.
  unfold record_recovery_event. case_goal; [|done]. intros [= <-]. by apply keeps_same_jobs.
Qed.

Lemma keeps_expire_claim i w label now clk d : keeps d (expire_claim i w label now clk d).
Proof using Type.
  unfold expire_claim. etransitivity; [|apply keeps_resolve_mcp].
  apply keeps_update. intros j Hj Hp _. apply claims_owned in Hp as [Ho _]. gentle_goal.
Qed.

Lemma keeps_recover_capture_watchdog ob i user w a reason d r :
  recover_capture_watchdog cfg ob i user w a reason d = Return (Some r) -> keeps d (rc_db r).
Proof using Type.
  unfold recover_capture_watchdog. destruct (job_at i d) as [j|]; [|done]. case_goal; [|done].
  destruct (general_watchdog_recover _ _ _ _ _ _ _) as [[[[d1 r1] rs] fs]|] eqn:Eg; [|done].
  intros (d2 & He & [= <-])%bind_return. simpl.
  etransitivity; [|by eapply keeps_event]. eapply keeps_general; [|exact Eg].
  intros d'. apply keeps_record_crash.
Qed.

Lemma keeps_recover_killed ob i w reason d r :
  recover_killed_job cfg ob i w reason d = Return (Some r) -> keeps d (rc_db r).
Proof using Type.
  unfold recover_killed_job. destruct (select_job _ d) as [j|] eqn:Es; [|done].
  case_goal; [apply keeps_recover_capture_watchdog|].
  assert (forall rec rs d0, keeps d d0 ->
    (d1 ← record_recovery_event i (j_lane j) rec reason d0;
     Return (Some (mkRecovered d1 (j_lane j) rec rs None))) = Return (Some r) ->
    keeps d (rc_db r)) as Hfinish.
  { intros rec rs d0 H0 (d1 & He & [= <-])%bind_return. simpl.
    etransitivity; [exact H0|]. by eapply keeps_event. }
  assert (forall d0, keeps d d0 ->
    (let '(d1, rs) := recover_review_runner cfg i (ob_now ob) d0 in
     d2 ← record_recovery_event i (j_lane j) r_terminal reason (queue_failure_review cfg i (ob_now ob) d1).1;
     Return (Some (mkRecovered d2 (j_lane j) r_terminal rs None))) = Return (Some r) ->
    keeps d (rc_db r)) as Hreviewed.
  { intros d0 H0. pose proof (keeps_recover_runner cfg i (ob_now ob) d0) as H1.
    destruct (recover_review_runner cfg i (ob_now ob) d0) as [d1 rs]. apply Hfinish.
    etransitivity; [exact H0|]. etransitivity; [exact H1|]. apply keeps_failure_review. }
  case_goal; [|case_goal; [|case_goal]].
  - apply Hreviewed. etransitivity; [|apply keeps_terminal_failure].
    apply keeps_update. intros k Hk Hp _. apply claims_owned in Hp as [Ho _]. gentle_goal.
  - destruct (update_one _ _ d) as [d1 [|]] eqn:Eu.
    + apply update_one_true in Eu. subst d1. apply Hfinish. apply keeps_update. intros k Hk Hp _. bools.
      match goal with H : claims _ _ _ = true |- _ => apply claims_owned in H as [Ho _] end. gentle_goal.
    + apply Hreviewed. etransitivity; [|apply keeps_terminal_failure]. apply keeps_expire_claim.
  - apply Hreviewed. apply keeps_expire_claim.
  - destruct (general_watchdog_recover _ _ _ _ _ _ _) as [[[[d1 r1] rs] fs]|] eqn:Eg; [|done].
    apply Hfinish. eapply keeps_general; [|exact Eg]. reflexivity.
Qed.

Lemma keeps_settle_all now rows acc :
  keeps acc.1 (foldl (settle_reaped cfg now) acc rows).1.
Proof using Type.
  revert acc. induction rows as [|j rows IH]; intros [d rs]; simpl; [reflexivity|].
  etransitivity; [|apply IH]. unfold settle_reaped. simpl.
  set (d1 := if bool_decide _ then _ else d).
  assert (keeps d d1) as H1 by (unfold d1; case_goal; [apply keeps_terminal_failure|reflexivity]).
  clearbody d1. pose proof (keeps_recover_runner cfg (j_id j) now d1) as H2.
  destruct (recover_review_runner cfg (j_id j) now d1) as [d2 rs2]. simpl in *.
  etransitivity; [exact H1|]. etransitivity; [exact H2|]. apply keeps_failure_review.
Qed.

Lemma reap_requeues_owned due d j : reap_requeues cfg due d j = true -> owned j = true.
Proof using Type. unfold reap_requeues, overdue_owned. intros. by bools. Qed.

Lemma reap_expires_active due j : reap_expires cfg due j = true -> active j = true.
Proof using Type.
  unfold reap_expires, overdue_owned. intros [H|H]%orb_true_iff; bools;
    [by apply pending_active|by apply owned_active].
Qed.

Lemma keeps_reap_rows ob due d : keeps d (reap_rows cfg ob due d).1.1.
Proof using Type.
  unfold reap_rows.
  set (d1 := update_jobs (reap_requeues cfg due d) _ d).
  assert (keeps d d1) as H1.
  { apply keeps_update. intros j Hj Hp _. apply reap_requeues_owned in Hp. gentle_goal. }
  set (d2 := update_jobs (reap_expires cfg due) _ d1).
  assert (keeps d1 d2) as H2.
  { apply keeps_update. intros j Hj Hp _. apply reap_expires_active in Hp. gentle_goal. }
  set (rows := _ <$> select_jobs (reap_expires cfg due) d1).
  set (d3 := resolve_mcp _ _ d2).
  assert (keeps d d3) as H3 by (etransitivity; [exact H1|etransitivity; [exact H2|apply keeps_resolve_mcp]]).
  clearbody d3 rows.
  pose proof (keeps_settle_all (ob_now ob) rows (d3, [])) as H4.
  destruct (foldl (settle_reaped cfg (ob_now ob)) (d3, []) rows) as [d4 reviews]. simpl in *.
  by etransitivity.
Qed.

Lemma keeps_reap_capture ob due c d d' row rs fs :
  recover_capture_lease cfg ob due c d = Some (d', row, rs, fs) -> keeps d d'.
Proof using Type.
  unfold recover_capture_lease. destruct (job_at _ d) as [j|]; [|done].
  case_goal; [|done]. intros H. apply keeps_wf_cond. intros Hwf. by eapply keeps_expire_capture.
Qed.

Lemma keeps_preempt_row ob row d d' p :
  active row = true -> preempt_row cfg ob row d = Return (d', p) -> keeps d d'.
Proof using Type.
  intros Hact H. apply keeps_wf_cond. intros Hwf. revert H. unfold preempt_row.
  assert (forall k, (j_id k =? j_id row) && bool_decide (j_status k = j_status row)
                    && bool_decide (j_claimed_by k = j_claimed_by row) = true -> active k = true) as Hk.
  { intros k H. bools. unfold active in *. congruence. }
  case_goal; [|case_goal].
  - destruct (expire_overdue_capture cfg ob row d) as [[[[d1 row1] rs] fs]|] eqn:Ee; [|done].
    intros [= <- <-]. by eapply keeps_expire_capture.
  - destruct (update_one _ _ d) as [d1 [|]] eqn:E1; [|done]. apply update_one_true in E1. subst d1.
    intros [= <- <-]. apply keeps_update. intros k Hin Hp _. apply Hk in Hp. gentle_goal.
  - destruct (update_one _ _ d) as [d1 [|]] eqn:E1; [|done]. apply update_one_true in E1. subst d1.
    set (d1 := update_jobs _ _ d).
    assert (keeps d d1) as H1.
    { apply keeps_update. intros k Hin Hp _. apply Hk in Hp.
      destruct (String.eqb (j_lane row) "scheduled"); gentle_goal. }
    clearbody d1. case_goal; [|by intros [= <- <-]].
    set (d2 := queue_terminal_failure _ _ _ _ _ _).
    assert (keeps d d2) as H2.
    { etransitivity; [exact H1|]. etransitivity; [apply keeps_resolve_mcp|apply keeps_terminal_failure]. }
    clearbody d2. pose proof (keeps_recover_runner cfg (j_id row) (ob_now ob) d2) as H3.
    destruct (recover_review_runner cfg (j_id row) (ob_now ob) d2) as [d3 rs]. simpl in H3.
    intros [= <- <-]. etransitivity; [exact H2|]. etransitivity; [exact H3|]. apply keeps_failure_review.
Qed.

Lemma keeps_preempt_rows ob rows d d' ps :
  (forall j, j ∈ rows -> active j = true) -> preempt_rows cfg ob rows d = Return (d', ps) -> keeps d d'.
Proof using Type.
  revert d d' ps. induction rows as [|row rows IH]; intros d d' ps Hact; simpl; [by intros [= <- <-]|].
  intros ([d1 p] & H1 & ([d2 ps'] & H2 & [= <- <-])%bind_return)%bind_return.
  etransitivity; [eapply keeps_preempt_row; [|exact H1]; apply Hact; left|].
  eapply IH; [|exact H2]. intros j Hj. apply Hact. by right.
Qed.

Lemma keeps_preempt ob user d d' ps : preempt_active_for_chat cfg ob user d = Return (d', ps) -> keeps d d'.
Proof using Type.
  apply keeps_preempt_rows. intros j [Hp _]%list_elem_of_filter. by bools.
Qed.

(** ** Wake inputs and reviews *)

Lemma keeps_context_log ob user lane reason trace fresh stream prio seq d i m d' :
  enqueue_job_with_context_log cfg ob user lane reason trace fresh stream prio seq d
    = Return (i, m, d') -> keeps d d'.
Proof using Type.
  unfold enqueue_job_with_context_log. case_goal; [done|]. case_goal; [done|].
  intros ([[i1 m1] d1] & Hc & [= <- <- <-])%bind_return.
  assert (keeps d d1) as H1.
  { destruct (retried 3 _) as [x|[]] eqn:Er in Hc; try done. injection Hc as ->.
    apply retried_return in Er. by eapply keeps_coalesce. }
  etransitivity; [exact H1|]. by apply keeps_same_jobs.
Qed.

Lemma keeps_glance user i fp d d' : merge_glance_opt user i fp d = Return d' -> keeps d d'.
Proof using Type.
  unfold merge_glance_opt, merge_glance. destruct fp as [f|]; [|by intros [= <-]].
  case_goal; [done|]. case_goal; [done|]. intros [= <-]. apply keeps_same_jobs.
  destruct (d_glance d !! user) as [[]|]; try done. by case_goal.
Qed.

Lemma keeps_set_marker user a b c d d' : set_followup_marker user a b c d = Return d' -> keeps d d'.
Proof using Type.
  unfold set_followup_marker, Wake.ensure_row. intros H. apply keeps_same_jobs. revert H.
  destruct (d_wake d !! user) as [w|] eqn:Ew.
  - rewrite Ew. intros (? & _ & (? & _ & [= <-])%bind_return)%bind_return. done.
  - case_goal; [|done]. intros (? & _ & (? & _ & [= <-])%bind_return)%bind_return. done.
Qed.

Lemma keeps_merge_marker user succ stream d d' :
  (forall j, job_at succ d = Some j -> active j = true) ->
  merge_followup_marker user succ stream d = Return d' -> keeps d d'.
Proof using Type.
  intros Hact. unfold merge_followup_marker. destruct (d_wake d !! user) as [w|]; [|done].
  destruct (w_followup w) as [[[gen source] consumed]|]; [|done].
  destruct (filter _ (d_logs d)); [done|]. intros [= <-].
  set (d1 := set_logs _ d). transitivity d1; [by apply keeps_same_jobs|].
  assert (forall j, job_at succ d1 = Some j -> active j = true) as Hact1 by exact Hact.
  clearbody d1.
  transitivity (update_jobs (fun j => j_id j =? succ) (fun j => [SetInput (j_input j + Z.max 1 gen)]) d1);
    [|by apply keeps_same_jobs].
  apply keeps_update. intros j Hj Hp Hwf. bools. subst succ.
  assert (active j = true) as Ha by (apply Hact1; by apply job_at_unique).
  split; simpl; [done| |lia|lia|by left]. intros Ho. split; [exact Ho|]. exact (wf_fields _ Hwf j Hj Ho).
Qed.

Lemma keeps_finish_wake i w og stream consumed cb fp r1 r2 now clk wall d d' b succ :
  finish_wake_job i w og stream consumed cb fp r1 r2 now clk wall d = Return (d', b, succ) ->
  keeps d d'.
Proof using Type.
  unfold finish_wake_job. intros (? & _ & H)%bind_return. revert H.
  destruct (job_generation i d) as [gen|]; [|by intros [= <- <- <-]].
  destruct (select_job _ d) as [j|] eqn:Es; [|by intros [= <- <- <-]].
  destruct (select_job_elem _ _ _ Es) as [Hin Hid]. bools.
  assert (forall d0, keeps d0 (if cb then Wake.clear_wake_backoff (j_user j) d0 else d0)) as Hclear.
  { intros d0. destruct cb; [apply keeps_clear_backoff|reflexivity]. }
  case_goal; [by intros [= <- <- <-]|]. case_goal.
  { intros (d1 & Hg & [= <- <- <-])%bind_return.
    etransitivity; [by eapply keeps_glance|apply Hclear]. }
  case_goal; [by intros [= <- <- <-]|].
  match goal with H : negb (owned j) || _ = false |- _ => apply orb_false_iff in H as [Hown _] end.
  apply negb_false_iff in Hown.
  set (d1 := update_jobs _ _ d).
  intros (d2 & Hg & Hrest)%bind_return. apply keeps_wf_cond. intros Hwf.
  assert (keeps d d1) as H1.
  { apply keeps_update. intros k Hk Hp _. bools.
    assert (k = j) as ->.
    { assert (j_id k = j_id j) as E' by congruence.
      pose proof (job_at_unique _ _ Hwf Hk) as A. rewrite E', (job_at_unique _ _ Hwf Hin) in A.
      by injection A. }
    assert (active j = true) as Ha by (by apply owned_active). gentle_goal. }
  clearbody d1.
  assert (keeps d d2) as H2 by (etransitivity; [exact H1|by eapply keeps_glance]).
  set (d3 := if cb then _ else d2) in Hrest.
  assert (keeps d d3) as H3 by (etransitivity; [exact H2|apply Hclear]). clearbody d3.
  set (d4 := (Wake.record_result_on_cursor _ _ _ _ _ d3).1) in Hrest.
  assert (keeps d d4) as H4 by (etransitivity; [exact H3|apply keeps_record_result]). clearbody d4.
  destruct (og <? j_input j); [|by injection Hrest as <- <- <-].
  apply bind_return in Hrest as (d5 & H5 & Hrest).
  assert (keeps d d5) as H5'.
  { etransitivity; [exact H4|]. revert H5. case_goal; [apply keeps_set_marker|by intros [= <-]]. }
  apply bind_return in Hrest as ([s d6] & H6 & Hrest).
  apply bind_return in Hrest as (d7 & H7 & [= <- <- <-]).
  assert (keeps d d6) as H6' by (etransitivity; [exact H5'|by eapply keeps_insert]).
  etransitivity; [exact H6'|]. revert H7. case_goal; [|by intros [= <-]].
  apply keeps_merge_marker. intros k Hk. destruct (H5' Hwf) as [Hwf5 _]. destruct (H6' Hwf) as [Hwf6 _].
  apply insert_job_spec in H6 as (_ & -> & _ & Hjobs).
  destruct (job_at_elem _ _ _ Hk) as [Hkin Hkid]. rewrite Hjobs in Hkin.
  apply elem_of_app in Hkin as [Hkin|Hkin].
  - pose proof (wf_next _ Hwf5 k Hkin). lia.
  - by apply list_elem_of_singleton in Hkin as ->.
Qed.

Lemma keeps_claim_review user runner w now d : keeps d (claim_failure_review cfg user runner w now d).1.
Proof using Type.
  apply keeps_same_jobs. unfold claim_failure_review. repeat case_goal; done.
Qed.

Lemma keeps_reconcile limit now d d' n :
  reconcile_failure_review_runners cfg limit now d = Return (d', n) -> keeps d d'.
Proof using Type.
  unfold reconcile_failure_review_runners. case_goal; [done|]. case_goal; [by intros [= <- <-]|].
  intros [= H]. change d' with (d', n).1. rewrite <- H. generalize (take (Z.to_nat limit)
    (users_by_oldest (filter (fun r => wants_runner d r = true) (d_reviews d)))). clear.
  intros us. change d with (d, 0).1 at 1. generalize (d, 0).
  induction us as [|user us IH]; intros acc; simpl; [reflexivity|].
  etransitivity; [|apply IH]. pose proof (keeps_ensure_runner cfg user now acc.1) as H.
  by destruct (ensure_review_runner cfg user now acc.1).
Qed.

(** [mark_expired] has no status guard, so it keeps the table's invariant but
    not the finality of terminal rows. *)
Lemma wf_mark_expired i e now d : wf d -> wf (mark_expired cfg i e now d).1.
Proof using Type.
  intros Hwf. unfold mark_expired. destruct (job_at i d) as [j|] eqn:Ej; [|done].
  set (d1 := update_jobs _ _ d).
  assert (wf d1) as H1.
  { destruct Hwf as [H1 H2 H3 H4 H5]. unfold d1.
    set (g := fun k => if j_id k =? i then apply_assigns [SetStatus expired; SetFinished (Some now);
                         SetError (Some (clip500 e))] k else k).
    assert (forall k, j_id (g k) = j_id k /\ job_key (g k) = job_key k /\ j_user (g k) = j_user k /\
              (active (g k) = true -> active k = true) /\ (owned (g k) = true -> owned k = true /\ g k = k)) as Hg.
    { intros k. unfold g. by case_goal. }
    split; simpl; fold g.
    - rewrite map_same_ids; [done|]. intros k _. by destruct (Hg k).
    - intros k' (k & -> & Hk)%list_elem_of_fmap. change (j_id (g k) < d_next d).
      destruct (Hg k) as (-> & _). by apply H2.
    - eapply sublist_NoDup; [exact H3|]. apply (filter_map_sublist job_key active g). intros k _.
      destruct (Hg k) as (_ & A & _ & B & _). done.
    - eapply sublist_NoDup; [exact H4|]. apply (filter_map_sublist j_user owned g). intros k _.
      destruct (Hg k) as (_ & _ & A & _ & B). split; [done|]. intros Ho. by apply B.
    - intros k' (k & -> & Hk)%list_elem_of_fmap Ho. change (owned_fields (g k)).
      destruct (Hg k) as (_ & _ & _ & _ & B). destruct (B Ho) as [Ho' ->]. by apply H5. }
  set (d2 := if bool_decide _ then _ else d1).
  assert (wf d2) as H2 by (unfold d2; case_goal; [by apply keeps_terminal_failure|done]).
  clearbody d1 d2. pose proof (keeps_recover_runner cfg i now d2) as H3.
  destruct (recover_review_runner cfg i now d2) as [d3 rs]. simpl in *.
  apply keeps_failure_review. by apply H3.
Qed.
End Operations.
End Inv.
