(* ===== verification/JobFinish.v ===== *)
(** * How jobs end ([backend/model_api_runtime/v2/jobs_store.py],
    [effect_outbox.py] and the chat clear of [backend/db.py])

    The transactions that end a job outside the queue's own completion, failure
    and recovery calls: the chat turn that finishes or hands over to a
    successor, the publication of a final reply, the capture runs, the failure
    review runners and the clearing of a chat history. Each is a function of
    [db]. The prepared capture batches, the memory cards and the trajectory
    events are other tables: what a transaction reads from them is an argument,
    what it writes there is left out. *)

From S2P Require Import Prelude PyValue CaptureFailure JobTable WakeSchedule JobQueue JobInv.
Local Open Scope Z_scope.

Module Finish.
Import Queue Inv.

Definition REPLY_SOURCE_LANES : list string :=
  ["chat"; "heartbeat"; "scheduled"; "manual_wake"; "screen_watch"].
Definition LEGACY_FINAL_REGENERATION_REASON : string := "legacy_final_regeneration".

(** [UPDATE model_api_routes SET last_runtime_error='', updated_at=now()] on the
    user's active route. *)
Definition clear_route_error (user : string) (now : Z) (d : db) : db :=
  set_routes (alter (fun r => (r.1, now)) user (d_routes d)) d.

(** ** Chat turns *)

Section Finish.
Context (cfg : config).

(** [finish_chat_job]: complete the owned turn and, when inputs arrived after
    the worker read them or the caller asks for it, insert its successor in the
    same transaction. *)
Definition finish_chat_job (id : Z) (worker : string) (observed_gen : Z) (force_successor : bool)
    (now clk : Z) (d : db) : outcome (db * bool * option Z) :=
  match job_generation id d with
  | None => Return (d, false, None)
  | Some gen =>
      match select_job (fun j => (j_id j =? id) && is_owner j worker
                                 && bool_decide (j_status j = running)) d with
      | None => Return (d, false, None)
      | Some j =>
          if negb (String.eqb (j_lane j) "chat") || negb (later (j_lease j) clk)
             || negb (has_generation j gen)
          then Return (d, false, None)
          else
            let d := update_jobs (fun k => j_id k =? id)
                       (fun _ => [SetStatus completed; SetFinished (Some now)]) d in
            let d := if force_successor then d else clear_route_error (j_user j) now d in
            if force_successor || (observed_gen <? j_input j) then
              '(succ, d) ← insert_job (j_user j) "chat" (Some "coalesced_followup") None (j_priority j)
                             (Some (now + pending_chat_ttl cfg)) (Some gen) now d;
              Return (d, true, Some succ)
            else Return (d, true, None)
      end
  end.

(** [_complete_final_reply_job_on_cursor]: the transaction that publishes a
    final reply completes its source job. *)
Definition complete_final_reply_job (user : string) (jid : option Z) (owner : option string)
    (input : option Z) (fingerprint : option string) (now : Z) (d : db) : outcome (Z * db) :=
  let is_source j := bool_decide (Some (j_id j) = jid) && String.eqb (j_user j) user
                     && bool_decide (j_lane j ∈ REPLY_SOURCE_LANES) && bool_decide (j_status j = running)
                     && bool_decide (is_Some owner) && bool_decide (j_claimed_by j = owner)
                     && bool_decide (Some (j_input j) = input) in
  match select_job is_source d with
  | None => Raise (RuntimeError "final reply source job completion lost ownership")
  | Some j =>
      let d := update_jobs is_source (fun _ => [SetStatus completed; SetFinished (Some now)]) d in
      d ← match fingerprint with
          | None => Return d
          | Some f =>
              if String.eqb (j_lane j) "heartbeat" then merge_glance user (j_id j) f d
              else Raise (RuntimeError "perception glance fingerprint source is not a heartbeat")
          end;
      let d := if String.eqb (j_lane j) "chat" then clear_route_error user now d else d in
      Return (j_id j, d)
  end.

(** [_handoff_legacy_chat_final_on_cursor]; [ttl] is [PENDING_CHAT_TTL_SEC]. *)
Definition handoff_legacy_chat_final (ttl : Z) (user : string) (jid : option Z) (owner : option string)
    (gen now : Z) (d : db) : outcome db :=
  match owner with
  | None | Some "" => Return d
  | Some o =>
      let is_source j := bool_decide (Some (j_id j) = jid) && String.eqb (j_user j) user
                         && String.eqb (j_lane j) "chat" && bool_decide (j_status j = running)
                         && is_owner j o in
      match select_job is_source d with
      | None => Return d
      | Some j =>
          let d := update_jobs is_source (fun _ => [SetStatus completed; SetFinished (Some now);
                     SetError (Some LEGACY_FINAL_REGENERATION_REASON)]) d in
          '(_, d) ← insert_job user "chat" (Some LEGACY_FINAL_REGENERATION_REASON) None (j_priority j)
                      (Some (now + ttl)) (Some gen) now d;
          Return d
      end
  end.

(** ** Capture runs *)

(** [_capture_owned_job_on_cursor] *)
Definition capture_owned_job (id : Z) (user worker : string) (clk : Z) (d : db) : option job :=
  match v2_generation user d with
  | None => None
  | Some gen =>
      match job_at id d with
      | Some j =>
          if String.eqb (j_user j) user && String.eqb (j_lane j) "capture" && owned j
             && String.eqb (default "" (j_claimed_by j)) worker && later (j_lease j) clk
             && (default 0 (j_generation j) =? gen)
          then Some j else None
      | None => None
      end
  end.

(** The capture document of the user, inserted empty when there is none. *)
Definition capture_state (user : string) (d : db) : CaptureFailure.state :=
  default (CaptureFailure.mkState 0 0 0 0 [] 0 [] 0 0 [] 0 None None [] []) (d_capture d !! user).

(** [_capture_fail_on_cursor]: the failure and the state it leaves commit
    together. [wall] is [time.time()]. *)
Definition capture_fail (id : Z) (user worker error : string) (increment_backoff : bool)
    (window : option CaptureFailure.window) (now wall : Z) (d : db) : outcome db :=
  let failed_state := (CaptureFailure.capture_failed_state (classify_failure cfg) (capture_state user d)
                         (str_of_Z id) (u error) increment_backoff window wall).1 in
  let d := set_capture (<[user := failed_state]> (d_capture d)) d in
  match update_one (owns_live id worker now)
          (fun k => [SetStatus failed; SetFinished (Some now);
                     SetError (Some (terminal_error_code error)); SetAttempts (j_attempts k + 1)]) d with
  | (d, true) => Return d
  | (_, false) => Raise (RuntimeError "capture ownership lost at failure commit")
  end.

(** [fail_capture_job] *)
Definition fail_capture_job (id : Z) (user worker error : string) (window : option CaptureFailure.window)
    (now clk wall : Z) (d : db) : outcome (db * bool) :=
  match capture_owned_job id user worker clk d with
  | None => Return (d, false)
  | Some _ => d ← capture_fail id user worker error true window now wall d; Return (d, true)
  end.

(** [cancel_capture_job] *)
Definition cancel_capture_job (id : Z) (user worker error : string) (now clk wall : Z) (d : db)
    : outcome (db * bool) :=
  match capture_owned_job id user worker clk d with
  | None => Return (d, false)
  | Some _ => d ← capture_fail id user worker error false None now wall d; Return (d, true)
  end.

(** [_capture_allowed_on_cursor] *)
Definition capture_allowed_on_cursor (user : string) (d : db) : bool :=
  match d_settings d !! user with
  | None => true
  | Some NotAnObject => false
  | Some (CaptureFlag b) => b
  end.

(** [prepare_capture_batch], the part on the job; [halted] is the global halt.
    The answer is the reason of a rejection. *)
Definition prepare_capture_batch (id : Z) (user worker : string) (after_seq through_seq : Z)
    (halted : bool) (now clk wall : Z) (d : db) : outcome (db * option string) :=
  if through_seq <=? after_seq then Raise (ValueError "capture batch must advance the frontier")
  else
    match capture_owned_job id user worker clk d with
    | None => Return (d, None)
    | Some _ =>
        if halted then
          d ← capture_fail id user worker "turns_halted" false None now wall d;
          Return (d, Some "turns_halted"%string)
        else if negb (capture_allowed_on_cursor user d) then
          d ← capture_fail id user worker "capture_disabled" false None now wall d;
          Return (d, Some "capture_disabled"%string)
        else Return (d, None)
    end.

(** [authorize_capture_provider_call], the part on the job: a run that may not
    disclose is cancelled, otherwise the job is left alone for the whole call. *)
Definition authorize_capture_provider_call (id : Z) (user worker : string) (halted : bool)
    (now clk wall : Z) (d : db) : outcome (db * bool) :=
  let cancelled error :=
    match capture_owned_job id user worker clk d with
    | None => Return (d, false)
    | Some _ => d ← capture_fail id user worker error false None now wall d; Return (d, false)
    end in
  if halted then cancelled "turns_halted"%string
  else if negb (capture_allowed_on_cursor user d) then cancelled "capture_disabled"%string
  else Return (d, bool_decide (is_Some (capture_owned_job id user worker clk d))).

(** [commit_capture_batch], the part on the job and the capture document.
    [batch] is the prepared batch of the job's generation, [seq_of] the sequence
    number of a message, [rejection] the verdict of checking the batch against
    the memory cards. *)
Definition commit_capture_batch (id : Z) (user worker : string) (halted : bool)
    (batch : option CaptureFailure.window) (seq_of : pystr -> Z) (rejection : option string)
    (now clk wall : Z) (d : db) : outcome (db * bool) :=
  match capture_owned_job id user worker clk d with
  | None => Return (d, false)
  | Some _ =>
      let fail error incr w := d ← capture_fail id user worker error incr w now wall d; Return (d, false) in
      let st := capture_state user d in
      if halted then fail "turns_halted"%string false None
      else if negb (capture_allowed_on_cursor user d) then fail "capture_disabled"%string false None
      else
        match batch with
        | None => fail "capture_batch_unavailable"%string true None
        | Some w =>
            if negb (CaptureFailure.frontier_seq st seq_of =? default 0 (CaptureFailure.after_seq w))
            then fail "capture_frontier_changed"%string true None
            else
              match rejection with
              | Some r => fail r true (Some (CaptureFailure.window_from_batch_row w))
              | None =>
                  let st := CaptureFailure.mkState 0 0 0 0 [] 0 []
                              (CaptureFailure.skipped_windows st) (CaptureFailure.last_skipped_at st)
                              (CaptureFailure.until_message_id w) (CaptureFailure.until_ts w)
                              (Some (CaptureFailure.through_seq w)) (Some true)
                              (CaptureFailure.failed_job_id st) [] in
                  match update_one (owns_live id worker now)
                          (fun _ => [SetStatus completed; SetFinished (Some now)])
                          (set_capture (<[user := st]> (d_capture d)) d) with
                  | (d, true) => Return (d, true)
                  | (_, false) => Raise (RuntimeError "capture ownership lost at commit")
                  end
              end
        end
  end.

(** [complete_capture_no_work]: nothing to extract, so the failures recorded
    for the vanished batch are forgotten. *)
Definition complete_capture_no_work (id : Z) (user worker : string) (now clk : Z) (d : db)
    : outcome (db * bool) :=
  match capture_owned_job id user worker clk d with
  | None => Return (d, false)
  | Some _ =>
      let d := match d_capture d !! user with
               | Some st => set_capture (<[user := CaptureFailure.success_reset st]> (d_capture d)) d
               | None => d
               end in
      match update_one (owns_live id worker now)
              (fun _ => [SetStatus completed; SetFinished (Some now)]) d with
      | (d, true) => Return (d, true)
      | (_, false) => Raise (RuntimeError "capture ownership lost at no-work completion")
      end
  end.

(** ** Failure reviews *)

(** What a review ended with: an envelope over the events read up to an index,
    or an error. *)
Inductive review_result : Type :=
| ReviewEnvelope (captured_next_event_index : Z)
| ReviewError (error_code : string).

Inductive review_settled : Type := ReviewLost | ReviewSettled (status : review_status) (advanced : bool).

(** [finish_failure_review]; [next_index] is the [next_event_index] of the
    source's trajectory stream. *)
Definition finish_failure_review (runner source : Z) (user worker : string) (r : review_result)
    (next_index now : Z) (d : db) : outcome (db * review_settled) :=
  match r with
  | ReviewEnvelope n => if n <? 0 then Raise (ValueError "captured trajectory frontier required") else Return tt
  | ReviewError _ => Return tt
  end ≫= fun _ =>
  let lost := Return (d, ReviewLost) in
  let is_runner j := owns_live runner worker now j && String.eqb (j_user j) user
                     && String.eqb (j_lane j) TRAJECTORY_REVIEW_LANE in
  match v2_generation user d with
  | None => lost
  | Some gen =>
      match select_job (fun j => is_runner j && has_generation j gen) d with
      | None => lost
      | Some _ =>
          if negb (existsb (fun s => (s.1 =? source) && String.eqb s.2 user) (d_streams d)) then lost
          else
            match List.find (fun v => (rv_source v =? source) && String.eqb (rv_user v) user
                                      && held_by runner v) (d_reviews d) with
            | None => lost
            | Some v =>
                let advanced := match r with ReviewEnvelope n => negb (next_index =? n) | _ => false end in
                let '(st, err) :=
                  match r with
                  | ReviewEnvelope _ => if advanced then (r_pending, Some "trajectory_frontier_advanced"%string)
                                        else (r_completed, None)
                  | ReviewError code =>
                      (if rv_attempts v <? TRAJECTORY_REVIEW_MAX_ATTEMPTS then r_pending else r_failed,
                       Some (terminal_error_code code))
                  end in
                let settle x := mkReview (rv_source x) (rv_user x) st
                                  (if advanced then Z.max (rv_attempts x - 1) 0 else rv_attempts x) None err
                                  (if bool_decide (st = r_pending) then None else Some now) (rv_created x) in
                let d := set_reviews ((fun x => if rv_source x =? source then settle x else x)
                                      <$> d_reviews d) d in
                match update_one is_runner (fun _ => [SetStatus completed; SetFinished (Some now)]) d with
                | (d, true) => Return ((ensure_review_runner cfg user now d).1, ReviewSettled st advanced)
                | (_, false) => Raise (RuntimeError "trajectory review runner ownership lost")
                end
            end
      end
  end.

(** [finish_empty_failure_review_runner] *)
Definition finish_empty_failure_review_runner (runner : Z) (user worker : string) (now : Z) (d : db)
    : db * bool :=
  match update_one (fun j => owns_live runner worker now j && String.eqb (j_user j) user
                             && String.eqb (j_lane j) TRAJECTORY_REVIEW_LANE)
          (fun _ => [SetStatus completed; SetFinished (Some now)]) d with
  | (d, true) => ((ensure_review_runner cfg user now d).1, true)
  | (d, false) => (d, false)
  end.

(** ** Clearing a chat history *)

(** The job tables' part of [chat_clear]: the generation advances, every active
    job of the user loses its owner, pending and running reviews fail, and the
    rows derived from the cleared turns are deleted. *)
Definition chat_clear (user : string) (now : Z) (d : db) : db :=
  let of_user i := existsb (fun j => (j_id j =? i) && String.eqb (j_user j) user) (d_jobs d) in
  let runtime := match d_runtime d !! user with
                 | Some (st, gen) => <[user := (st, gen + 1)]> (d_runtime d)
                 | None => if bool_decide (user ∈ d_users d)
                           then <[user := ("resident"%string, 2)]> (d_runtime d) else d_runtime d
                 end in
  let d := set_runtime runtime d in
  let d := update_jobs (fun j => String.eqb (j_user j) user && active j)
             (fun j => [SetStatus superseded; SetError (Some "chat_history_cleared"%string);
                        SetClaimedBy None; SetLease None;
                        SetFinished (coalesce (j_finished_at j) (Some now))]) d in
  let d := set_reviews ((fun r => if String.eqb (rv_user r) user && review_active r
                                  then mkReview (rv_source r) (rv_user r) r_failed (rv_attempts r) None
                                         (Some "chat_history_cleared"%string)
                                         (coalesce (rv_finished r) (Some now)) (rv_created r)
                                  else r) <$> d_reviews d) d in
  let d := set_failures (filter (fun f => fr_user f <> user) (d_failures d)) d in
  let d := set_capture (delete user (d_capture d)) d in
  let d := set_effects (filter (fun e => of_user e.1 = false) (d_effects d)) d in
  let d := set_mcp (filter (fun a => of_user (mcp_job a) = false) (d_mcp d)) d in
  let d := set_glance (delete user (d_glance d)) d in
  clear_route_error user now (set_chat (filter (fun m => cm_user m <> user) (d_chat d)) d).
End Finish.

(** ** What an ending does to the job table *)

(** A row before and after its end: it keeps its owner or loses it, and fails
    only in the capture lane. *)
Record settled (j j' : job) : Prop := {
  se_active : active j = true;
  se_ended : active j' = false;
  se_attempts : j_attempts j <= j_attempts j';
  se_input : j_input j <= j_input j';
  se_owner : j_claimed_by j' = j_claimed_by j \/ j_claimed_by j' = None;
  se_failed : j_status j' ∈ [failed; expired] -> j_lane j = "capture"%string;
}.

(** The statements endings are made of. *)
Inductive ends : db -> db -> Prop :=
| en_same d d' : same_jobs d d' -> ends d d'
| en_rows p sets d :
    (forall j, j ∈ d_jobs d -> wf d -> p j = true -> settled j (apply_assigns (sets j) j)) ->
    ends d (update_jobs p sets d)
| en_insert user lane reason trace prio qd gen now d i d' :
    insert_job user lane reason trace prio qd gen now d = Return (i, d') -> ends d d'
| en_trans d d1 d' : ends d d1 -> ends d1 d' -> ends d d'.

#[global] Instance ends_preorder : PreOrder ends.
Proof. split; [intros d; by apply en_same|intros a b c; apply en_trans]. Qed.

Lemma keeps_ends d d' : ends d d' -> keeps d d'.
Proof.
  induction 1 as [d d' H|p sets d H|? ? ? ? ? ? ? ? d i d' H|d d1 d' _ IH1 _ IH2].
  - by apply keeps_same_jobs.
  - apply keeps_update. intros j Hj Hp Hwf. destruct (H j Hj Hwf Hp) as [Ha He Hat Hin Hown _].
    split; [done| |done|done|done]. intros Ho. exfalso. by rewrite owned_active in He.
  - by eapply keeps_insert.
  - by etransitivity.
Qed.

Lemma ends_runner cfg user now d : ends d (ensure_review_runner cfg user now d).1.
Proof.
  unfold ensure_review_runner. case_goal; [reflexivity|].
  destruct (v2_generation user d); [|reflexivity]. case_goal; [|reflexivity].
  destruct (insert_job _ _ _ _ _ _ _ _ d) as [[i d']|e] eqn:Ei; [|reflexivity]. by eapply en_insert.
Qed.

Lemma ends_update_one p sets d d' b :
  (forall j, j ∈ d_jobs d -> wf d -> p j = true -> settled j (apply_assigns (sets j) j)) ->
  update_one p sets d = (d', b) -> ends d d'.
Proof.
  intros H. unfold update_one. destruct (select_job p d); intros [= <- _]; [by apply en_rows|reflexivity].
Qed.

Ltac settled_goal Ho :=
  split; simpl;
  [ first [by apply owned_active|exact Ho] | done | lia | lia | first [by left|by right]
  | try (intros HH; exfalso; set_solver) ].

Section Ends.
Context (cfg : config).

Lemma ends_finish_chat i w og force now clk d d' b succ :
  finish_chat_job cfg i w og force now clk d = Return (d', b, succ) -> ends d d'.
Proof using Type.
  unfold finish_chat_job. destruct (job_generation i d) as [gen|]; [|by intros [= <- _ _]].
  destruct (select_job _ d) as [j|] eqn:Es; [|by intros [= <- _ _]].
  destruct (select_job_elem _ _ _ Es) as [Hin Hp]. bools.
  case_goal; [by intros [= <- _ _]|]. set (d1 := update_jobs _ _ d).
  assert (ends d d1) as K1.
  { apply en_rows. intros k Hk Hwf Hid. bools.
    assert (k = j) as ->.
    { pose proof (job_at_unique _ _ Hwf Hk) as A. assert (j_id k = j_id j) as E' by congruence.
      rewrite E', (job_at_unique _ _ Hwf Hin) in A. by injection A. }
    assert (owned j = true) as Ho by (unfold owned; match goal with X : j_status j = running |- _ => by rewrite X end). settled_goal Ho. }
  clearbody d1. set (d2 := if force then d1 else _).
  assert (ends d d2) as K2 by (etransitivity; [exact K1|apply en_same; unfold d2; by destruct force]).
  clearbody d2. case_goal; [|by intros [= <- _ _]].
  intros ([s d3] & Hi & [= <- _ _])%bind_return. etransitivity; [exact K2|by eapply en_insert].
Qed.

Lemma ends_final_reply user jid owner input fp now d i d' :
  complete_final_reply_job user jid owner input fp now d = Return (i, d') -> ends d d'.
Proof using Type.
  unfold complete_final_reply_job. set (p := fun j : job => _).
  destruct (select_job p d) as [j|]; [|done]. intros (d2 & Hg & [= _ <-])%bind_return.
  assert (ends d (update_jobs p (fun _ => [SetStatus completed; SetFinished (Some now)]) d)) as H1.
  { apply en_rows. intros k _ _ Hk. unfold p in Hk. bools.
    assert (owned k = true) as Ho by (unfold owned; match goal with X : j_status k = running |- _ => by rewrite X end).
    settled_goal Ho. }
  etransitivity; [exact H1|]. transitivity d2; [|apply en_same; by case_goal].
  apply en_same. destruct fp as [f|]; [|by injection Hg as <-].
  destruct (String.eqb (j_lane j) "heartbeat"); [|done]. unfold merge_glance in Hg.
  destruct (negb _); [done|]. destruct (_ <=? 0); [done|]. injection Hg as <-. repeat case_goal; done.
Qed.

Lemma ends_handoff ttl user jid owner gen now d d' :
  handoff_legacy_chat_final ttl user jid owner gen now d = Return d' -> ends d d'.
Proof using Type.
  unfold handoff_legacy_chat_final. destruct owner as [[|c o]|]; [by intros [= <-]| |by intros [= <-]].
  set (p := fun j : job => _). destruct (select_job p d) as [j|]; [|by intros [= <-]].
  intros ([s d2] & Hi & [= <-])%bind_return. etransitivity; [|by eapply en_insert].
  apply en_rows. intros k _ _ Hk. unfold p in Hk. bools.
  assert (owned k = true) as Ho by (unfold owned; match goal with X : j_status k = running |- _ => by rewrite X end).
  settled_goal Ho.
Qed.

(** A live owner's row ends in completion. *)
Lemma ends_owner_completes p i w now d d' b :
  (forall j, p j = true -> owns_live i w now j = true) ->
  update_one p (fun _ => [SetStatus completed; SetFinished (Some now)]) d = (d', b) -> ends d d'.
Proof using Type.
  intros Hp. apply (ends_update_one p). intros k _ _ Hk. apply Hp, owns_live_owned in Hk as [Ho _].
  settled_goal Ho.
Qed.

Lemma capture_owned_spec i user w clk d j :
  capture_owned_job i user w clk d = Some j ->
  job_at i d = Some j /\ j_user j = user /\ j_lane j = "capture"%string /\ owned j = true /\
  default ""%string (j_claimed_by j) = w.
Proof using Type.
  unfold capture_owned_job. destruct (v2_generation user d); [|done].
  destruct (job_at i d) as [k|]; [|done]. case_goal; [|done]. intros [= <-]. by bools.
Qed.

Lemma ends_capture_fail i user w e incr win now wall d d' j :
  job_at i d = Some j -> j_lane j = "capture"%string ->
  capture_fail cfg i user w e incr win now wall d = Return d' -> ends d d'.
Proof using Type.
  intros Hj Hl. unfold capture_fail. set (d1 := set_capture _ d).
  destruct (update_one _ _ d1) as [d2 [|]] eqn:Eu; [|done]. intros [= <-].
  transitivity d1; [by apply en_same|]. eapply ends_update_one; [|exact Eu].
  intros k Hk Hwf Ho. apply owns_live_owned in Ho as [Ho Hid].
  assert (k = j) as ->.
  { pose proof (job_at_unique _ _ Hwf Hk) as A. rewrite Hid in A. change (job_at i d = Some k) in A. congruence. }
  settled_goal Ho. done.
Qed.

Lemma ends_fail_capture i user w e win now clk wall d d' b :
  fail_capture_job cfg i user w e win now clk wall d = Return (d', b) -> ends d d'.
Proof using Type.
  unfold fail_capture_job. destruct (capture_owned_job i user w clk d) as [j|] eqn:Ej; [|by intros [= <- _]].
  apply capture_owned_spec in Ej as (Hj & _ & Hl & _). intros (d1 & H & [= <- _])%bind_return.
  by eapply ends_capture_fail.
Qed.

Lemma ends_cancel_capture i user w e now clk wall d d' b :
  cancel_capture_job cfg i user w e now clk wall d = Return (d', b) -> ends d d'.
Proof using Type.
  unfold cancel_capture_job. destruct (capture_owned_job i user w clk d) as [j|] eqn:Ej; [|by intros [= <- _]].
  apply capture_owned_spec in Ej as (Hj & _ & Hl & _). intros (d1 & H & [= <- _])%bind_return.
  by eapply ends_capture_fail.
Qed.

Lemma ends_prepare_capture i user w a t halted now clk wall d d' r :
  prepare_capture_batch cfg i user w a t halted now clk wall d = Return (d', r) -> ends d d'.
Proof using Type.
  unfold prepare_capture_batch. case_goal; [done|].
  destruct (capture_owned_job i user w clk d) as [j|] eqn:Ej; [|by intros [= <- _]].
  apply capture_owned_spec in Ej as (Hj & _ & Hl & _). case_goal; [|case_goal; [|by intros [= <- _]]];
    intros (d1 & H & [= <- _])%bind_return; by eapply ends_capture_fail.
Qed.

Lemma ends_authorize_capture i user w halted now clk wall d d' b :
  authorize_capture_provider_call cfg i user w halted now clk wall d = Return (d', b) -> ends d d'.
Proof using Type.
  unfold authorize_capture_provider_call.
  destruct (capture_owned_job i user w clk d) as [j|] eqn:Ej.
  - apply capture_owned_spec in Ej as (Hj & _ & Hl & _). case_goal; [|case_goal; [|by intros [= <- _]]];
      intros (d1 & H & [= <- _])%bind_return; by eapply ends_capture_fail.
  - repeat case_goal; by intros [= <- _].
Qed.

Lemma ends_commit_capture i user w halted batch seq_of rej now clk wall d d' b :
  commit_capture_batch cfg i user w halted batch seq_of rej now clk wall d = Return (d', b) -> ends d d'.
Proof using Type.
  unfold commit_capture_batch. destruct (capture_owned_job i user w clk d) as [j|] eqn:Ej; [|by intros [= <- _]].
  apply capture_owned_spec in Ej as (Hj & _ & Hl & _).
  assert (forall e incr win, (d1 ← capture_fail cfg i user w e incr win now wall d; Return (d1, false))
            = Return (d', b) -> ends d d') as Hfail.
  { intros e incr win (d1 & H & [= <- _])%bind_return. by eapply ends_capture_fail. }
  case_goal; [by apply Hfail|]. case_goal; [by apply Hfail|]. destruct batch as [win|]; [|by apply Hfail].
  case_goal; [by apply Hfail|]. destruct rej as [r|]; [by apply Hfail|].
  destruct (update_one _ _ _) as [d1 [|]] eqn:Eu; [|done]. intros [= <- _].
  apply ends_owner_completes with (i := i) (w := w) in Eu; [|done]. etransitivity; [|exact Eu]. by apply en_same.
Qed.

Lemma ends_capture_no_work i user w now clk d d' b :
  complete_capture_no_work i user w now clk d = Return (d', b) -> ends d d'.
Proof using Type.
  unfold complete_capture_no_work. destruct (capture_owned_job i user w clk d) as [j|]; [|by intros [= <- _]].
  set (d1 := match d_capture d !! user with Some _ => _ | None => d end).
  assert (same_jobs d d1) as H1 by (unfold d1; by case_goal). clearbody d1.
  destruct (update_one _ _ _) as [d2 [|]] eqn:Eu; [|done]. intros [= <- _].
  apply ends_owner_completes with (i := i) (w := w) in Eu; [|done]. etransitivity; [|exact Eu]. by apply en_same.
Qed.

Lemma ends_finish_review i src user w r n now d d' o :
  finish_failure_review cfg i src user w r n now d = Return (d', o) -> ends d d'.
Proof using Type.
  unfold finish_failure_review. intros (? & _ & H)%bind_return. revert H.
  destruct (v2_generation user d) as [gen|]; [|by intros [= <- _]].
  destruct (select_job _ d) as [j|]; [|by intros [= <- _]]. case_goal; [by intros [= <- _]|].
  destruct (List.find _ _) as [v|]; [|by intros [= <- _]].
  destruct (match r with ReviewEnvelope _ => _ | ReviewError _ => _ end) as [st err].
  destruct (update_one _ _ _) as [d1 [|]] eqn:Eu; [|done]. intros [= <- _].
  apply ends_owner_completes with (i := i) (w := w) in Eu; [|intros k Hk; by bools].
  etransitivity; [|apply ends_runner]. etransitivity; [|exact Eu]. by apply en_same.
Qed.

Lemma ends_finish_empty_review i user w now d :
  ends d (finish_empty_failure_review_runner cfg i user w now d).1.
Proof using Type.
  unfold finish_empty_failure_review_runner. destruct (update_one _ _ d) as [d1 b] eqn:Eu.
  apply ends_owner_completes with (i := i) (w := w) in Eu; [|intros k Hk; by bools].
  destruct b; [|done]. simpl. etransitivity; [exact Eu|apply ends_runner].
Qed.

Lemma ends_chat_clear user now d : ends d (chat_clear user now d).
Proof using Type.
  unfold chat_clear. set (rt := match d_runtime d !! user with Some _ => _ | None => _ end).
  transitivity (set_runtime rt d); [by apply en_same|].
  set (d1 := update_jobs _ _ (set_runtime rt d)). transitivity d1; [|by apply en_same].
  apply en_rows. intros k _ _ Hk. bools. settled_goal H0.
Qed.
End Ends.

Create HintDb ends.
#[export] Hint Resolve ends_finish_chat ends_final_reply ends_handoff ends_fail_capture ends_cancel_capture
  ends_prepare_capture ends_authorize_capture ends_commit_capture ends_capture_no_work
  ends_finish_review ends_finish_empty_review ends_chat_clear : ends.
End Finish.
