(* ===== verification/JobSafety.v ===== *)
(** * Safety of the job queue

    The queue as a transition system over its transactions, and what holds in
    every reachable state: one active job per user and lane and one running job
    per user, rows whose end is final, claims fenced once they are recovered. *)

From S2P Require Import Prelude PyValue CaptureFailure JobTable WakeSchedule JobQueue JobInv JobFinish.
Local Open Scope Z_scope.

Module Safety.
Import Queue Inv Finish.

(** ** The transition system *)

(** One committed transaction. [st_env] is any write to the other tables
    (messages, effects, heartbeats, settings, a runtime cutover); a claim's
    second statement may run for any candidate picked earlier, whatever was
    committed in between; the reaper's transactions are steps of their own. *)
Inductive qstep (cfg : config) : db -> db -> Prop :=
| st_env d d' : same_jobs d d' -> qstep cfg d d'
| st_enqueue ob user lane reason trace fresh prio dl ex d i m d' :
    enqueue_job cfg ob user lane reason trace fresh prio dl ex d = Return (i, m, d') -> qstep cfg d d'
| st_enqueue_log ob user lane reason trace fresh stream prio seq d i m d' :
    enqueue_job_with_context_log cfg ob user lane reason trace fresh stream prio seq d
      = Return (i, m, d') -> qstep cfg d d'
| st_enqueue_capture ob user reason trace prio dl ex bn d i disp d' :
    enqueue_capture_once cfg ob user reason trace prio dl ex bn d = Return (i, disp, d') -> qstep cfg d d'
| st_claim worker i gen now clk d j d' :
    claim_sql cfg worker i gen now clk d = Claimed j d' -> qstep cfg d d'
| st_supersede worker i gen now clk d d' :
    claim_sql cfg worker i gen now clk d = Superseded d' -> qstep cfg d d'
| st_claim_turn worker lanes now c1 c2 sk d d' :
    claim_once cfg worker lanes now c1 c2 sk d = Again d' -> qstep cfg d d'
| st_running i w clk d : qstep cfg d (mark_running cfg i w clk d).1
| st_renew i w ttl clk d : qstep cfg d (renew_job_lease i w ttl clk d).1
| st_completed i w cb r1 r2 now clk d : qstep cfg d (mark_completed i w cb r1 r2 now clk d).1
| st_failed i w e c b now clk d : qstep cfg d (mark_failed cfg i w e c b now clk d).1
| st_reschedule i w e t clk d : qstep cfg d (reschedule_owned_job i w e t clk d).1
| st_reschedule_pristine i w e t ea ma clk d d' b :
    reschedule_pristine_scheduled_failure i w e t ea ma clk d = Return (d', b) -> qstep cfg d d'
| st_ready user lane clk d : qstep cfg d (make_pending_job_ready user lane clk d).1
| st_recover ob i w reason d r :
    recover_killed_job cfg ob i w reason d = Return (Some r) -> qstep cfg d (rc_db r)
| st_reap_rows ob due d : qstep cfg d (reap_rows cfg ob due d).1.1
| st_reap_capture ob due c d d' row rs fs :
    recover_capture_lease cfg ob due c d = Some (d', row, rs, fs) -> qstep cfg d d'
| st_preempt ob user d d' ps : preempt_active_for_chat cfg ob user d = Return (d', ps) -> qstep cfg d d'
| st_finish_wake i w og stream consumed cb fp r1 r2 now clk wall d d' b succ :
    finish_wake_job i w og stream consumed cb fp r1 r2 now clk wall d = Return (d', b, succ) ->
    qstep cfg d d'
| st_finish_chat i w og force now clk d d' b succ :
    finish_chat_job cfg i w og force now clk d = Return (d', b, succ) -> qstep cfg d d'
| st_final_reply user jid owner input fp now d i d' :
    complete_final_reply_job user jid owner input fp now d = Return (i, d') -> qstep cfg d d'
| st_legacy_handoff ttl user jid owner gen now d d' :
    handoff_legacy_chat_final ttl user jid owner gen now d = Return d' -> qstep cfg d d'
| st_fail_capture i user w e win now clk wall d d' b :
    fail_capture_job cfg i user w e win now clk wall d = Return (d', b) -> qstep cfg d d'
| st_cancel_capture i user w e now clk wall d d' b :
    cancel_capture_job cfg i user w e now clk wall d = Return (d', b) -> qstep cfg d d'
| st_prepare_capture i user w a t halted now clk wall d d' r :
    prepare_capture_batch cfg i user w a t halted now clk wall d = Return (d', r) -> qstep cfg d d'
| st_authorize_capture i user w halted now clk wall d d' b :
    authorize_capture_provider_call cfg i user w halted now clk wall d = Return (d', b) -> qstep cfg d d'
| st_commit_capture i user w halted batch seq_of rej now clk wall d d' b :
    commit_capture_batch cfg i user w halted batch seq_of rej now clk wall d = Return (d', b) -> qstep cfg d d'
| st_capture_no_work i user w now clk d d' b :
    complete_capture_no_work i user w now clk d = Return (d', b) -> qstep cfg d d'
| st_claim_review user runner w now d : qstep cfg d (claim_failure_review cfg user runner w now d).1
| st_finish_review i src user w r n now d d' o :
    finish_failure_review cfg i src user w r n now d = Return (d', o) -> qstep cfg d d'
| st_finish_empty_review i user w now d :
    qstep cfg d (finish_empty_failure_review_runner cfg i user w now d).1
| st_reconcile limit now d d' n :
    reconcile_failure_review_runners cfg limit now d = Return (d', n) -> qstep cfg d d'
| st_chat_clear user now d : qstep cfg d (chat_clear user now d).

(** Every step but a claim keeps the invariant and gives nobody a row. *)
Lemma step_kinds cfg d d' :
  qstep cfg d d' ->
  keeps d d' \/ exists worker i gen now clk j, claim_sql cfg worker i gen now clk d = Claimed j d'.
Proof.
  destruct 1; try (left; apply keeps_ends; by eauto with ends).
  - left. by apply keeps_same_jobs.
  - left. by eapply keeps_enqueue.
  - left. by eapply keeps_context_log.
  - left. by eapply keeps_enqueue_capture.
  - right. by eauto 10.
  - left. pose proof (keeps_claim_sql cfg worker i gen now clk d) as Hk. by rewrite H in Hk.
  - left. pose proof (keeps_claim_once cfg worker lanes now c1 c2 sk d) as Hk. by rewrite H in Hk.
  - left. apply keeps_mark_running.
  - left. apply keeps_renew.
  - left. apply keeps_mark_completed.
  - left. apply keeps_mark_failed.
  - left. apply keeps_reschedule.
  - left. by eapply keeps_reschedule_pristine.
  - left. apply keeps_make_ready.
  - left. by eapply keeps_recover_killed.
  - left. apply keeps_reap_rows.
  - left. by eapply keeps_reap_capture.
  - left. by eapply keeps_preempt.
  - left. by eapply keeps_finish_wake.
  - left. apply keeps_claim_review.
  - left. by eapply keeps_reconcile.
Qed.

Lemma step_history cfg d d' : wf d -> qstep cfg d d' -> wf d' /\ history d d'.
Proof.
  intros Hwf [Hk|(w & i & gen & now & clk & j & Hc)]%step_kinds.
  - destruct (Hk Hwf) as [Hwf' Hev]. split; [done|]. by apply evolves_history.
  - by destruct (keeps_claimed _ _ _ _ _ _ _ _ _ Hc Hwf) as (? & ? & _).
Qed.

(** A database whose job table is still empty. *)
Definition initial (d : db) : Prop := d_jobs d = [].

Inductive reachable (cfg : config) : db -> Prop :=
| reach_init d : initial d -> reachable cfg d
| reach_step d d' : reachable cfg d -> qstep cfg d d' -> reachable cfg d'
| reach_expired i e now d : reachable cfg d -> reachable cfg (mark_expired cfg i e now d).1.

Lemma reachable_wf cfg d : reachable cfg d -> wf d.
Proof.
  induction 1 as [d H|d d' H IH Hs|i e now d H IH].
  - split; rewrite H; try (by constructor); intros j Hj; by apply elem_of_nil in Hj.
  - by destruct (step_history _ _ _ IH Hs).
  - by apply wf_mark_expired.
Qed.

Lemma NoDup_fmap_filter_inj {K} (f : job -> K) (P : job -> bool) l j k :
  NoDup (f <$> filter (fun j => P j = true) l) -> j ∈ l -> k ∈ l -> P j = true -> P k = true ->
  f j = f k -> j = k.
Proof.
  intros Hnd Hj Hk HPj HPk E.
  assert (forall m : list job, NoDup (f <$> m) -> j ∈ m -> k ∈ m -> j = k) as H.
  { induction m as [|x m IH]; intros Hm Hjm Hkm; [by apply elem_of_nil in Hjm|].
    rewrite fmap_cons in Hm. apply NoDup_cons in Hm as [Hx Hm].
    apply elem_of_cons in Hjm as [->|Hjm], Hkm as [->|Hkm]; [done| | |by apply IH].
    - exfalso. apply Hx. rewrite E. by apply list_elem_of_fmap_2.
    - exfalso. apply Hx. rewrite <- E. by apply list_elem_of_fmap_2. }
  eapply H; [exact Hnd| |]; by apply list_elem_of_filter.
Qed.

(** C1: in every reachable state of the queue, whatever transactions ran in
    whatever order, a user has at most one pending, claimed or running job in a
    lane and at most one claimed or running job over all lanes. *)
Theorem single_flight cfg d j k :
  reachable cfg d -> j ∈ d_jobs d -> k ∈ d_jobs d -> j_user j = j_user k ->
  (active j = true -> active k = true -> j_lane j = j_lane k -> j = k) /\
  (owned j = true -> owned k = true -> j = k).
Proof.
  intros Hr Hj Hk Hu. destruct (reachable_wf _ _ Hr) as [_ _ Hs Ho _]. split.
  - intros Aj Ak Hl. eapply (NoDup_fmap_filter_inj job_key active); try done.
    unfold job_key. congruence.
  - intros Oj Ok. by eapply (NoDup_fmap_filter_inj j_user owned).
Qed.

Definition sample_cfg : config :=
  mkConfig (fun _ => None) ["provider_timeout"%string] 120 300 3 3 120 600 21600 CaptureFailure.no_classify.

Definition empty_db : db :=
  mkDb [] 1 {["u" := ("v2"%string, 4)]} ["u"%string] [] [] [] [] [] [] ∅ ∅ [] [] ∅ ∅ ∅ ∅.

Definition at_time (t : Z) : observed := mkObserved t t t true None.

(** Enqueue a chat turn and a heartbeat for one user and claim the turn. *)
Definition claimed_db : db :=
  let run o d := match o with Return (_, _, d') => d' | Raise _ => d end in
  let d := run (enqueue_job sample_cfg (at_time 10) "u" "heartbeat" None None "t" None None None empty_db) empty_db in
  let d := run (enqueue_job sample_cfg (at_time 11) "u" "chat" None None "t" None None None d) d in
  match claim_sql sample_cfg "w:foreground-0:1" 2 4 12 12 d with Claimed _ d' => d' | _ => d end.

Lemma claimed_db_reachable : reachable sample_cfg claimed_db.
Proof.
  unfold claimed_db.
  destruct (enqueue_job sample_cfg (at_time 10) "u" "heartbeat" None None "t" None None None empty_db)
    as [[[i1 m1] d1]|e] eqn:E1.
  2: { exfalso. apply (f_equal (fun o => match o with Return _ => true | Raise _ => false end)) in E1.
       vm_compute in E1. discriminate E1. }
  assert (reachable sample_cfg d1) as H1 by (apply (reach_step _ empty_db); [by apply reach_init; reflexivity|by eapply st_enqueue]).
  clear E1. destruct (enqueue_job sample_cfg (at_time 11) "u" "chat" None None "t" None None None d1)
    as [[[i2 m2] d2]|e] eqn:E2.
  - assert (reachable sample_cfg d2) as H2 by (apply (reach_step _ d1); [exact H1|by eapply st_enqueue]).
    destruct (claim_sql sample_cfg "w:foreground-0:1" 2 4 12 12 d2) as [|d3|j d3] eqn:E3; [done|done|].
    eapply reach_step; [exact H2|by eapply st_claim].
  - destruct (claim_sql sample_cfg "w:foreground-0:1" 2 4 12 12 d1) as [|d3|j d3] eqn:E3; [done|done|].
    eapply reach_step; [exact H1|by eapply st_claim].
Qed.

Lemma single_flight_witness :
  exists j k, j ∈ d_jobs claimed_db /\ k ∈ d_jobs claimed_db /\ j_user j = j_user k /\
    owned j = true /\ owned k = false /\ (owned j = true -> owned k = true -> j = k).
Proof.
  assert (is_Some (job_at 2 claimed_db)) as [j Hj] by (vm_compute; eauto).
  assert (is_Some (job_at 1 claimed_db)) as [k Hk] by (vm_compute; eauto).
  exists j, k. destruct (job_at_elem _ _ _ Hj) as [Hjin _]. destruct (job_at_elem _ _ _ Hk) as [Hkin _].
  assert (j_user <$> job_at 2 claimed_db = Some "u"%string) as U2 by (vm_compute; reflexivity).
  assert (j_user <$> job_at 1 claimed_db = Some "u"%string) as U1 by (vm_compute; reflexivity).
  assert (owned <$> job_at 2 claimed_db = Some true) as O2 by (vm_compute; reflexivity).
  assert (owned <$> job_at 1 claimed_db = Some false) as O1 by (vm_compute; reflexivity).
  rewrite Hj in U2, O2. rewrite Hk in U1, O1. simpl in *.
  assert (j_user j = j_user k) as Hu by congruence.
  split; [done|]. split; [done|]. split; [done|]. split; [congruence|]. split; [congruence|].
  apply (single_flight sample_cfg claimed_db j k claimed_db_reachable Hjin Hkin Hu).
Defined.

(** ** Row histories *)

Lemma history_steps cfg d d' : wf d -> rtc (qstep cfg) d d' -> wf d' /\ history d d'.
Proof.
  intros Hwf H. revert Hwf. induction H as [d|a b c Hab Hbc IH]; intros Hwf; [by split|].
  destruct (step_history _ _ _ Hwf Hab) as [Hb E1]. destruct (IH Hb) as [Hc E2].
  split; [done|]. by etransitivity.
Qed.



(** ** Statements that only add rows *)

Definition appends (d d' : db) : Prop :=
  (exists new, d_jobs d' = d_jobs d ++ new /\ Forall (fun j => j_status j = pending) new) /\
  (exists more, d_failures d' = d_failures d ++ more) /\ d_next d <= d_next d'.

#[global] Instance appends_preorder : PreOrder appends.
Proof.
  split.
  - intros d. split; [|split]; [exists []|exists []|lia]; rewrite app_nil_r; done.
  - intros a b c ((n1 & E1 & F1) & (m1 & G1) & L1) ((n2 & E2 & F2) & (m2 & G2) & L2).
    split; [exists (n1 ++ n2); rewrite E2, E1, app_assoc; split; [done|by apply Forall_app]|].
    split; [exists (m1 ++ m2); by rewrite G2, G1, app_assoc|lia].
Qed.

Lemma appends_same d d' : same_jobs d d' -> d_failures d' = d_failures d -> appends d d'.
Proof. intros [H1 H2] H3. split; [|split]; [exists []|exists []|lia]; rewrite app_nil_r; done. Qed.

Lemma job_at_appends i d d' j : appends d d' -> job_at i d = Some j -> job_at i d' = Some j.
Proof.
  intros ((new & E & _) & _ & _) Hj. unfold job_at in *. rewrite E. clear E.
  induction (d_jobs d) as [|k l IH]; simpl in *; [done|]. destruct (j_id k =? i); [done|by apply IH].
Qed.

Lemma appends_terminal_failure cfg i user e c d : appends d (queue_terminal_failure cfg i user e c d).
Proof.
  unfold queue_terminal_failure. destruct (job_at i d); [|reflexivity]. case_goal; [|reflexivity].
  split; [|split]; [exists []; by rewrite app_nil_r|by eexists|simpl; lia].
Qed.

Lemma appends_insert user lane reason trace prio qd gen now d i d' :
  insert_job user lane reason trace prio qd gen now d = Return (i, d') -> appends d d'.
Proof.
  unfold insert_job. destruct (key_taken user lane d); [done|]. intros [= <- <-].
  split; [|split]; [|exists []; by rewrite app_nil_r|simpl; lia].
  eexists. split; [done|]. by repeat constructor.
Qed.

Lemma appends_ensure_runner cfg user now d : appends d (ensure_review_runner cfg user now d).1.
Proof.
  unfold ensure_review_runner. case_goal; [reflexivity|].
  destruct (v2_generation user d); [|reflexivity]. case_goal; [|reflexivity].
  destruct (insert_job _ _ _ _ _ _ _ _ d) as [[i d']|e] eqn:Ei; [|reflexivity].
  by eapply appends_insert.
Qed.

Lemma appends_failure_review cfg i now d : appends d (queue_failure_review cfg i now d).1.
Proof.
  unfold queue_failure_review. destruct (job_at i d) as [j|]; [|reflexivity].
  set (d1 := if existsb _ _ then d else _).
  assert (appends d d1) as H1 by (unfold d1; case_goal; [reflexivity|by apply appends_same]).
  clearbody d1. case_goal; simpl; [|done]. etransitivity; [exact H1|].
  etransitivity; [|apply appends_ensure_runner]. by apply appends_same.
Qed.

Lemma appends_recover_runner cfg i now d : appends d (recover_review_runner cfg i now d).1.
Proof.
  unfold recover_review_runner. destruct (job_at i d) as [j|]; [|reflexivity].
  case_goal; [|reflexivity]. simpl.
  assert (forall rs d0, appends d0 (foldl (fun d r => (ensure_review_runner cfg (rv_user r) now d).1) d0 rs)) as H.
  { induction rs as [|r rs IH]; intros d0; simpl; [reflexivity|].
    etransitivity; [apply appends_ensure_runner|apply IH]. }
  etransitivity; [|apply H]. by apply appends_same.
Qed.

Lemma appends_resolve_mcp hit clk d : appends d (resolve_mcp hit clk d).
Proof. by apply appends_same. Qed.

Lemma appends_record_crash cfg ob j e d : appends d (record_capture_crash cfg ob j e d).1.
Proof. apply appends_same; unfold record_capture_crash; repeat case_goal; done. Qed.

Lemma appends_record_result user lane i c clk d :
  appends d (Wake.record_result_on_cursor user lane i c clk d).1.
Proof.
  apply appends_same; [apply same_jobs_record_result|].
  unfold Wake.record_result_on_cursor, Wake.ensure_row. repeat case_goal; done.
Qed.

Lemma appends_clear_backoff user d : appends d (Wake.clear_wake_backoff user d).
Proof.
  apply appends_same; [apply same_jobs_clear_backoff|].
  unfold Wake.clear_wake_backoff, Wake.ensure_row. repeat case_goal; done.
Qed.

Lemma appends_arm_backoff user now b c d : appends d (Wake.arm_wake_backoff user now b c d).
Proof.
  apply appends_same; [apply same_jobs_arm_backoff|].
  unfold Wake.arm_wake_backoff, Wake.ensure_row. repeat case_goal; done.
Qed.

Lemma appends_event i lane r reason d d' : record_recovery_event i lane r reason d = Return d' -> appends d d'.
Proof. unfold record_recovery_event. case_goal; [|done]. intros [= <-]. by apply appends_same. Qed.

(** Worker [w] has lost row [i]: it is not the owner any more. *)
Definition lost (i : Z) (w : string) (d : db) : Prop :=
  exists j, job_at i d = Some j /\ j_claimed_by j <> Some w.

Lemma lost_appends i w d d' : appends d d' -> lost i w d -> lost i w d'.
Proof. intros Ha (j & Hj & Hc). exists j. split; [by eapply job_at_appends|done]. Qed.

(** A row-keyed update after which [w] has lost the row. *)
Lemma lost_update i w p sets j d :
  wf d -> job_at i d = Some j -> p j = true -> (forall k, p k = true -> j_id k = i) ->
  j_claimed_by (apply_assigns (sets j) j) <> Some w ->
  lost i w (update_jobs p sets d).
Proof.
  intros Hwf Hj Hp Hid H. destruct (update_at d i j p sets Hwf Hj Hp Hid) as (l1 & l2 & _ & _ & _ & Hat).
  by eexists.
Qed.

(** ** Fencing *)

(** Every call a worker makes on a job: none of them does anything for [w] on
    row [i]. *)
Record fenced (cfg : config) (i : Z) (w : string) (d : db) : Prop := {
  fe_running clk : mark_running cfg i w clk d = (d, false);
  fe_renew ttl clk : renew_job_lease i w ttl clk d = (d, false);
  fe_completed cb r1 r2 now clk : mark_completed i w cb r1 r2 now clk d = (d, false);
  fe_failed e c b now clk : mark_failed cfg i w e c b now clk d = (d, None);
  fe_reschedule e t clk : reschedule_owned_job i w e t clk d = (d, false);
  fe_reschedule_pristine e t ea ma clk d' b :
    reschedule_pristine_scheduled_failure i w e t ea ma clk d = Return (d', b) -> d' = d /\ b = false;
  fe_recover ob reason : recover_killed_job cfg ob i w reason d = Return None;
  fe_finish_wake og stream consumed cb fp r1 r2 now clk wall d' b succ :
    finish_wake_job i w og stream consumed cb fp r1 r2 now clk wall d = Return (d', b, succ) ->
    d' = d /\ b = false /\ succ = None;
  fe_finish_chat og force now clk :
    finish_chat_job cfg i w og force now clk d = Return (d, false, None);
  fe_final_reply user input fp now :
    complete_final_reply_job user (Some i) (Some w) input fp now d
    = Raise (RuntimeError "final reply source job completion lost ownership");
  fe_handoff ttl user gen now : handoff_legacy_chat_final ttl user (Some i) (Some w) gen now d = Return d;
  fe_fail_capture user e win now clk wall :
    fail_capture_job cfg i user w e win now clk wall d = Return (d, false);
  fe_cancel_capture user e now clk wall :
    cancel_capture_job cfg i user w e now clk wall d = Return (d, false);
  fe_prepare_capture user a t halted now clk wall d' r :
    prepare_capture_batch cfg i user w a t halted now clk wall d = Return (d', r) -> d' = d;
  fe_authorize_capture user halted now clk wall :
    authorize_capture_provider_call cfg i user w halted now clk wall d = Return (d, false);
  fe_commit_capture user halted batch seq_of rej now clk wall :
    commit_capture_batch cfg i user w halted batch seq_of rej now clk wall d = Return (d, false);
  fe_capture_no_work user now clk : complete_capture_no_work i user w now clk d = Return (d, false);
  fe_claim_review user now : claim_failure_review cfg user i w now d = (d, None);
  fe_finish_review src user r n now d' o :
    finish_failure_review cfg i src user w r n now d = Return (d', o) -> d' = d /\ o = ReviewLost;
  fe_finish_empty_review user now : finish_empty_failure_review_runner cfg i user w now d = (d, false);
  fe_active_claims clk : valid_active_claims [(i, w)] clk d = [];
  fe_reconcile_claims clk : valid_reconcile_claims [(i, w)] clk d = [];
}.

Lemma select_none p d : (forall j, j ∈ d_jobs d -> p j = true -> False) -> select_job p d = None.
Proof.
  intros H. unfold select_job, select_jobs. destruct (filter _ (d_jobs d)) as [|j l] eqn:E; [done|].
  exfalso. assert (j ∈ filter (fun j => p j = true) (d_jobs d)) as Hj by (rewrite E; left).
  apply list_elem_of_filter in Hj as [Hp Hin]. by eapply H.
Qed.

Section Lost.
Context (cfg : config) (i : Z) (w : string) (d : db) (Hwf : wf d) (Hlost : lost i w d).

Lemma lost_no_owner k : k ∈ d_jobs d -> j_id k = i -> is_owner k w = true -> False.
Proof using Hwf Hlost.
  destruct Hlost as (j & Hj & Hc). intros Hk Hid Ho. unfold is_owner in Ho. bools.
  pose proof (job_at_unique _ _ Hwf Hk) as Hk'. rewrite Hid, Hj in Hk'. by injection Hk' as <-.
Qed.

Lemma lost_select p :
  (forall k, p k = true -> j_id k = i /\ is_owner k w = true) -> select_job p d = None.
Proof using Hwf Hlost. intros H. apply select_none. intros k Hk [Hid Ho]%H. by eapply lost_no_owner. Qed.

Lemma lost_update_one p sets :
  (forall k, p k = true -> j_id k = i /\ is_owner k w = true) -> update_one p sets d = (d, false).
Proof using Hwf Hlost. intros H. unfold update_one. by rewrite lost_select. Qed.

Lemma owns_live_row t k : owns_live i w t k = true -> j_id k = i /\ is_owner k w = true.
Proof using Type. unfold owns_live. intros. by bools. Qed.

Lemma lost_capture user clk : capture_owned_job i user w clk d = None.
Proof using Hwf Hlost.
  destruct (capture_owned_job i user w clk d) as [k|] eqn:E; [|done]. exfalso.
  apply capture_owned_spec in E as (Hk & _ & _ & Ho & Hw). destruct (job_at_elem _ _ _ Hk) as [Hin Hid].
  apply (lost_no_owner k); [done|done|]. destruct (wf_fields _ Hwf k Hin Ho) as ([x Hx] & _).
  rewrite Hx in Hw. simpl in Hw. unfold is_owner. rewrite Hx. apply bool_decide_eq_true. congruence.
Qed.

(** The snapshot checks of the supervisor. *)
Lemma lost_claims p :
  (forall k, p (i, w) k = true -> j_id k = i /\ is_owner k w = true) ->
  filter (fun c : Z * string => existsb (p c) (d_jobs d) = true) [(i, w)] = [].
Proof using Hwf Hlost.
  intros H. rewrite filter_cons, decide_False; [done|]. intros (k & Hk & Hp)%List.existsb_exists.
  apply list_elem_of_In in Hk. apply H in Hp as [Hid Ho]. by eapply lost_no_owner.
Qed.

Lemma lost_fenced : fenced cfg i w d.
Proof using Hwf Hlost.
  pose proof owns_live_row as Hlive. split; intros.
  - unfold mark_running. destruct (job_generation i d); [|done]. apply lost_update_one. intros k Hk. by bools.
  - unfold renew_job_lease. destruct (job_generation i d); [|done].
    apply lost_update_one. intros k Hk. bools. by eapply Hlive.
  - unfold mark_completed. by rewrite lost_select by apply Hlive.
  - unfold mark_failed. by rewrite lost_select by apply Hlive.
  - unfold reschedule_owned_job. destruct (job_generation i d); [|done].
    apply lost_update_one. intros k Hk. bools. by eapply Hlive.
  - revert H. unfold reschedule_pristine_scheduled_failure. case_goal; [done|]. case_goal; [done|].
    destruct (job_generation i d); [|by intros [= <- <-]].
    rewrite lost_update_one; [by intros [= <- <-]|]. intros k Hk. bools. by eapply Hlive.
  - unfold recover_killed_job. rewrite lost_select; [done|]. intros k Hk. unfold claims in Hk. by bools.
  - revert H. unfold finish_wake_job. intros (? & _ & H)%bind_return. revert H.
    destruct (job_generation i d); [|by intros [= <- <- <-]].
    rewrite lost_select by (intros k Hk; by bools). by intros [= <- <- <-].
  - unfold finish_chat_job. destruct (job_generation i d); [|done].
    by rewrite lost_select by (intros k Hk; by bools).
  - unfold complete_final_reply_job. rewrite lost_select; [done|]. intros k Hk. bools.
    split; [congruence|]. unfold is_owner. by apply bool_decide_eq_true.
  - unfold handoff_legacy_chat_final.
    pose proof (lost_select (fun j => bool_decide (Some (j_id j) = Some i) && String.eqb (j_user j) user
      && String.eqb (j_lane j) "chat" && bool_decide (j_status j = running) && is_owner j w)) as Hsel.
    rewrite Hsel; [by destruct w|]. intros k Hk. bools. split; congruence.
  - unfold fail_capture_job. by rewrite lost_capture.
  - unfold cancel_capture_job. by rewrite lost_capture.
  - revert H. unfold prepare_capture_batch. rewrite lost_capture. case_goal; [done|]. by intros [= <- _].
  - unfold authorize_capture_provider_call. rewrite lost_capture. repeat case_goal; done.
  - unfold commit_capture_batch. by rewrite lost_capture.
  - unfold complete_capture_no_work. by rewrite lost_capture.
  - unfold claim_failure_review. case_goal; [done|].
    by rewrite lost_select by (intros k Hk; bools; by eapply Hlive).
  - revert H. unfold finish_failure_review. intros (? & _ & H)%bind_return. revert H.
    destruct (v2_generation user d); [|by intros [= <- <-]].
    rewrite lost_select by (intros k Hk; bools; by eapply Hlive). by intros [= <- <-].
  - unfold finish_empty_failure_review_runner.
    by rewrite lost_update_one by (intros k Hk; bools; by eapply Hlive).
  - apply lost_claims. unfold claim_live. intros k Hk. by bools.
  - apply (lost_claims (fun c j => (j_id j =? c.1) && is_owner j c.2 && _)). cbv beta. intros k Hk. by bools.
Qed.
End Lost.

Lemma claims_row i w d j :
  wf d -> select_job (claims i w) d = Some j ->
  job_at i d = Some j /\ claims i w j = true /\ owned j = true /\ j_claimed_by j = Some w.
Proof.
  intros Hwf Hs. destruct (select_job_elem _ _ _ Hs) as [Hin Hp].
  pose proof (job_at_unique _ _ Hwf Hin) as Hj. unfold claims, is_owner in *. bools.
  rewrite H in Hj. rewrite H0, H1. split; [done|]. by rewrite (proj2 (Z.eqb_eq _ _) H), bool_decide_true.
Qed.

Lemma claims_id i w k : claims i w k = true -> j_id k = i.
Proof. by intros [_ H]%claims_owned. Qed.

Section Recovery.
Context (cfg : config).

Lemma general_lost {A} i w reason now (f : db -> db * option A) d d' r rs a j :
  wf d -> job_at i d = Some j -> claims i w j = true -> (forall d, appends d (f d).1) ->
  general_watchdog_recover cfg i w reason now f d = Some (d', r, rs, a) -> lost i w d'.
Proof using Type.
  intros Hwf Hj Hc Hf. unfold general_watchdog_recover.
  destruct (update_one _ _ d) as [d1 [|]] eqn:E1.
  - pose proof E1 as E1'. apply update_one_true in E1. subst d1.
    pose proof (appends_recover_runner cfg i now) as Ha.
    specialize (Ha (update_jobs (fun j => claims i w j && (String.eqb (j_lane j) TRAJECTORY_REVIEW_LANE
       || (j_attempts j <? general_requeue_max cfg)))
       (fun k => [SetStatus pending; SetCreated now; SetError (Some (clip500 reason));
                  SetAttempts (j_attempts k + 1)] ++ release_claim) d)).
    destruct (recover_review_runner _ _ _ _) as [d2 rs'] in Ha |- *. intros [= <- <- <- <-].
    eapply lost_appends; [exact Ha|]. unfold update_one in E1'.
    destruct (select_job _ d) as [k|] eqn:Es; [|done]. destruct (select_job_elem _ _ _ Es) as [Hk Hp].
    assert (k = j) as ->.
    { bools. match goal with H : claims _ _ k = true |- _ => apply claims_id in H as Hid end.
      pose proof (job_at_unique _ _ Hwf Hk) as Hk'. rewrite Hid, Hj in Hk'. by injection Hk'. }
    eapply lost_update; [done|exact Hj|exact Hp| |done].
    intros k Hk'. bools. by eapply claims_id.
  - destruct (update_one (claims i w) _ d) as [d3 [|]] eqn:E3; [|done].
    apply update_one_true in E3. subst d3. set (d3 := update_jobs _ _ d).
    assert (lost i w d3) as H3.
    { eapply lost_update; [done|exact Hj|exact Hc|apply claims_id|done]. }
    clearbody d3. pose proof (Hf d3) as H4. destruct (f d3) as [d4 a'].
    pose proof (appends_recover_runner cfg i now d4) as H5.
    destruct (recover_review_runner cfg i now d4) as [d5 rs']. simpl in *. intros [= <- <- <- <-].
    eapply lost_appends; [|exact H3]. etransitivity; [exact H4|]. etransitivity; [exact H5|].
    apply appends_failure_review.
Qed.

Lemma recover_killed_lost ob i w reason d r :
  wf d -> recover_killed_job cfg ob i w reason d = Return (Some r) -> lost i w (rc_db r).
Proof using Type.
  intros Hwf. unfold recover_killed_job. destruct (select_job (claims i w) d) as [j|] eqn:Es; [|done].
  destruct (claims_row _ _ _ _ Hwf Es) as (Hj & Hc & Ho & Hcb).
  assert (forall rec rs d0, lost i w d0 ->
    (d1 ← record_recovery_event i (j_lane j) rec reason d0;
     Return (Some (mkRecovered d1 (j_lane j) rec rs None))) = Return (Some r) ->
    lost i w (rc_db r)) as Hfinish.
  { intros rec rs d0 H0 (d1 & He & [= <-])%bind_return. simpl.
    eapply lost_appends; [by eapply appends_event|done]. }
  assert (forall d0, lost i w d0 ->
    (let '(d1, rs) := recover_review_runner cfg i (ob_now ob) d0 in
     d2 ← record_recovery_event i (j_lane j) r_terminal reason (queue_failure_review cfg i (ob_now ob) d1).1;
     Return (Some (mkRecovered d2 (j_lane j) r_terminal rs None))) = Return (Some r) ->
    lost i w (rc_db r)) as Hreviewed.
  { intros d0 H0. pose proof (appends_recover_runner cfg i (ob_now ob) d0) as H1.
    destruct (recover_review_runner cfg i (ob_now ob) d0) as [d1 rs]. apply Hfinish.
    eapply lost_appends; [|exact H0]. etransitivity; [exact H1|apply appends_failure_review]. }
  assert (forall label, lost i w (expire_claim i w label (ob_now ob) (ob_clk ob) d)) as Hexp.
  { intros label. unfold expire_claim. eapply lost_appends; [apply appends_resolve_mcp|].
    eapply lost_update; [done|exact Hj|exact Hc|apply claims_id|done]. }
  case_goal.
  { unfold recover_capture_watchdog. rewrite Hj. case_goal; [|done].
    destruct (general_watchdog_recover _ _ _ _ _ _ _) as [[[[d1 r1] rs] fs]|] eqn:Eg; [|done].
    intros (d2 & He & [= <-])%bind_return. simpl. eapply lost_appends; [by eapply appends_event|].
    eapply general_lost; [done|exact Hj|exact Hc| |exact Eg]. intros. apply appends_record_crash. }
  case_goal; [|case_goal; [|case_goal]].
  - apply Hreviewed. eapply lost_appends; [apply appends_terminal_failure|].
    eapply lost_update; [done|exact Hj|exact Hc|apply claims_id|done].
  - destruct (update_one _ _ d) as [d1 [|]] eqn:Eu.
    + unfold update_one in Eu. destruct (select_job _ d) as [k|] eqn:Ek in Eu; [|done]. injection Eu as <-.
      apply Hfinish. destruct (select_job_elem _ _ _ Ek) as [Hk Hp].
      assert (k = j) as ->.
      { bools. match goal with H : claims _ _ k = true |- _ => apply claims_id in H as Hid end.
        pose proof (job_at_unique _ _ Hwf Hk) as Hk'. rewrite Hid, Hj in Hk'. by injection Hk'. }
      eapply lost_update; [done|exact Hj|exact Hp| |done]. intros k Hk'. bools. by eapply claims_id.
    + apply Hreviewed. eapply lost_appends; [apply appends_terminal_failure|apply Hexp].
  - apply Hreviewed, Hexp.
  - destruct (general_watchdog_recover _ _ _ _ _ _ _) as [[[[d1 r1] rs] fs]|] eqn:Eg; [|done].
    apply Hfinish. eapply general_lost; [done|exact Hj|exact Hc| |exact Eg]. reflexivity.
Qed.
End Recovery.

(** [w] claims row [i] in this transaction. *)
Definition claims_again (cfg : config) (i : Z) (w : string) (d d' : db) : Prop :=
  exists gen now clk j, claim_sql cfg w i gen now clk d = Claimed j d'.

Lemma claimed_row cfg w i gen now clk d j d' :
  claim_sql cfg w i gen now clk d = Claimed j d' -> job_at i d' = Some j /\ j_claimed_by j = Some w.
Proof.
  unfold claim_sql. destruct (job_at i d) as [k|]; [|done]. case_goal; [|done].
  destruct (match j_generation k with Some g => g =? gen | None => true end); [|done].
  set (d1 := update_jobs _ _ d). destruct (job_at i d1) as [x|] eqn:Ex; [|done]. intros [= <- <-].
  split; [done|]. destruct (job_at_elem _ _ _ Ex) as [Hin Hid]. unfold d1, update_jobs in Hin. simpl in Hin.
  apply list_elem_of_fmap in Hin as (y & -> & _). destruct (j_id y =? i) eqn:Ey; [done|].
  apply Z.eqb_neq in Ey. done.
Qed.

Lemma lost_step cfg i w d d' :
  wf d -> lost i w d -> qstep cfg d d' -> ~ claims_again cfg i w d d' -> lost i w d'.
Proof.
  intros Hwf (j & Hj & Hc) Hs Hn. destruct (step_history _ _ _ Hwf Hs) as [Hwf' [_ (old & new & E & HF & _)]].
  destruct (job_at_elem _ _ _ Hj) as [Hin Hid]. apply list_elem_of_lookup in Hin as [n Hn'].
  destruct (Forall2_lookup_l _ _ _ _ _ HF Hn') as (j' & Hn2 & Hev). apply list_elem_of_lookup_2 in Hn2.
  assert (j' ∈ d_jobs d') as Hin' by (rewrite E; apply elem_of_app; by left).
  assert (j_id j' = i) as Hid' by (rewrite (re_id _ _ Hev); done).
  exists j'. split; [rewrite <- Hid'; by apply job_at_unique|]. intros Hw.
  assert (forall k, k ∈ d_jobs d -> j_id k = j_id j' -> j_claimed_by k = Some w -> False) as Hno.
  { intros k Hk Hki Hkw. pose proof (job_at_unique _ _ Hwf Hk) as A. rewrite Hki, Hid', Hj in A.
    injection A as <-. done. }
  apply step_kinds in Hs as [Hk|(w' & i' & gen & now & clk & x & Hcl)].
  - destruct (ev_owners _ _ (proj2 (Hk Hwf)) j' w Hin' Hw) as (k & Hk' & Hki & Hkw). by eapply Hno.
  - destruct (keeps_claimed _ _ _ _ _ _ _ _ _ Hcl Hwf) as (_ & _ & Hown).
    destruct (Hown j' w Hin' Hw) as [[Hi Hwe]|(k & Hk' & Hki & Hkw)]; [|by eapply Hno].
    apply Hn. rewrite <- Hid', Hi, Hwe. by exists gen, now, clk, x.
Qed.

Lemma lost_steps cfg i w d d' :
  wf d -> lost i w d -> rtc (fun a b => qstep cfg a b /\ ~ claims_again cfg i w a b) d d' ->
  wf d' /\ lost i w d'.
Proof.
  intros Hwf Hl H. induction H as [d|a b c [Hab Hn] _ IH]; [done|].
  destruct (step_history _ _ _ Hwf Hab) as [Hb _]. apply IH; [done|]. exact (lost_step cfg i w a b Hwf Hl Hab Hn).
Qed.

(** C6: once the watchdog has recovered a claim, in whatever lane and by
    whatever branch, no late call of the killed slot on that job has an effect,
    and stays without one whatever transactions commit afterwards, until the
    same owner name claims the row again: starting, renewing, completing,
    failing, rescheduling, recovering, the wake, chat and review completions,
    every capture transaction and the publication of a final reply leave the
    state unchanged or raise, and the claim no longer validates. *)
Theorem recovered_claim_is_fenced cfg ob i w reason d r d' :
  reachable cfg d -> recover_killed_job cfg ob i w reason d = Return (Some r) ->
  rtc (fun a b => qstep cfg a b /\ ~ claims_again cfg i w a b) (rc_db r) d' ->
  fenced cfg i w d'.
Proof.
  intros Hr H Hs. pose proof (reachable_wf _ _ Hr) as Hwf.
  destruct (lost_steps cfg i w (rc_db r) d') as [Hwf' Hl]; [| |exact Hs|by apply lost_fenced].
  - by apply (keeps_recover_killed cfg _ _ _ _ _ _ H).
  - by eapply recover_killed_lost.
Qed.

Lemma recovered_claim_is_fenced_witness :
  exists r, recover_killed_job sample_cfg (at_time 30) 2 "w:foreground-0:1" "slot_watchdog_timeout"
              claimed_db = Return (Some r) /\
    fenced sample_cfg 2 "w:foreground-0:1" (make_pending_job_ready "u" "heartbeat" 40 (rc_db r)).1.
Proof.
  destruct (recover_killed_job sample_cfg (at_time 30) 2 "w:foreground-0:1" "slot_watchdog_timeout"
              claimed_db) as [[r|]|e] eqn:E.
  - exists r. split; [reflexivity|].
    apply (recovered_claim_is_fenced _ _ _ _ _ _ _ _ claimed_db_reachable E). apply rtc_once.
    split; [apply st_ready|]. intros (gen & now & clk & j & [Hj Hw]%claimed_row).
    apply (f_equal (fun o => match o with
      | Return (Some r) => j_claimed_by <$> job_at 2 (make_pending_job_ready "u" "heartbeat" 40 (rc_db r)).1
      | _ => None end)) in E.
    rewrite Hj in E. simpl in E. rewrite Hw in E. vm_compute in E. discriminate E.
  - exfalso. apply (f_equal (fun o => match o with Return (Some _) => true | _ => false end)) in E.
    vm_compute in E. discriminate E.
  - exfalso. apply (f_equal (fun o => match o with Return (Some _) => true | _ => false end)) in E.
    vm_compute in E. discriminate E.
Defined.
End Safety.
