(* ===== verification/JobClaim.v ===== *)
(** * Claiming jobs

    What a worker gets from [claim_next_job], and that its loop ends. *)

From S2P Require Import Prelude PyValue CaptureFailure JobTable WakeSchedule JobQueue JobInv JobFinish JobSafety.
Local Open Scope Z_scope.

Module Claiming.
Import Queue Inv Finish Safety.

(** ** The head of the queue *)

Lemma before_trans a b c : before a b = true -> before b c = true -> before a c = true.
Proof.
  unfold before. rewrite !orb_true_iff, !andb_true_iff, !Z.ltb_lt, !Z.eqb_eq. lia.
Qed.

Lemma before_irrefl a : before a a = false.
Proof. unfold before. by rewrite !Z.ltb_irrefl, andb_false_r. Qed.

Lemma pick_from_best l b j :
  foldl (fun best j => match best with
                       | Some b => if before j b then Some j else best
                       | None => Some j end) (Some b) l = Some j ->
  before b j = false /\ (forall k, k ∈ l -> before k j = false).
Proof.
  revert b. induction l as [|x l IH]; intros b; simpl.
  - intros [= ->]. split; [apply before_irrefl|]. intros k Hk. by apply elem_of_nil in Hk.
  - destruct (before x b) eqn:Ex; intros H; destruct (IH _ H) as [H1 H2]; split.
    + destruct (before b j) eqn:Eb; [|done]. by rewrite (before_trans x b j Ex Eb) in H1.
    + intros k [->|Hk]%elem_of_cons; [done|by apply H2].
    + done.
    + intros k [->|Hk]%elem_of_cons; [|by apply H2].
      destruct (before x j) eqn:Ej; [|done]. exfalso.
      revert H1 Ex Ej. unfold before.
      rewrite <- !not_true_iff_false, !orb_true_iff, !andb_true_iff, !Z.ltb_lt, !Z.eqb_eq. lia.
Qed.

Lemma pick_best l j k : pick l = Some j -> k ∈ l -> before k j = false.
Proof.
  destruct l as [|x l]; [done|]. unfold pick. simpl. intros [H1 H2]%pick_from_best.
  intros [->|Hk]%elem_of_cons; [done|by apply H2].
Qed.

(** C31: the row a claim returns was pending, available, inside its queue
    deadline when the claim committed, and no claimable row had a higher
    priority or the same priority and an earlier creation; its user is hosted by
    V2, its generation is the user's current one, its lease runs from the commit,
    and no other row of the user is claimed or running. *)
Theorem claim_takes_the_head cfg worker lanes now c1 c2 sk d j d' :
  reachable cfg d -> claim_once cfg worker lanes now c1 c2 sk d = Got j d' ->
  exists j0 gen,
    job_at (j_id j) d = Some j0 /\ claimable cfg lanes now c1 d j0 = true /\ in_queue cfg c2 j0 = true /\
    (forall k, k ∈ d_jobs d -> claimable cfg lanes now c1 d k = true -> before k j0 = false) /\
    d_runtime d !! j_user j = Some ("v2"%string, gen) /\ j_user j = j_user j0 /\ j_lane j = j_lane j0 /\
    j_status j = claimed /\ j_claimed_by j = Some worker /\ j_generation j = Some gen /\
    (j_generation j0 = None \/ j_generation j0 = Some gen) /\
    j_lease j = Some (c2 + running_ttl cfg) /\ job_at (j_id j) d' = Some j /\
    (forall k, k ∈ d_jobs d' -> j_user k = j_user j -> owned k = true -> k = j).
Proof.
  intros Hr H. pose proof (reachable_wf _ _ Hr) as Hwf.
  assert (wf d') as Hwf'.
  { pose proof (keeps_claim_once cfg worker lanes now c1 c2 sk d) as Hk. rewrite H in Hk.
    destruct Hk as [i Hk]. by destruct (Hk Hwf). }
  revert H. unfold claim_once. destruct (pick _) as [h|] eqn:Eh; [|done].
  pose proof (pick_elem _ _ Eh) as [Hc Hin]%list_elem_of_filter.
  destruct (d_runtime d !! j_user h) as [[st gen]|] eqn:Ert; [|by case_goal].
  destruct (String.eqb_spec st "v2") as [->|]; [|done]. destruct sk; [done|].
  destruct (claim_sql cfg worker (j_id h) gen now c2 d) as [|d1|j1 d1] eqn:Ecl; [done|done|].
  intros [= -> ->]. revert Ecl. unfold claim_sql.
  pose proof (job_at_unique _ _ Hwf Hin) as Hat. rewrite Hat. case_goal; [|done].
  destruct (match j_generation h with Some g => g =? gen | None => true end) eqn:Egen; [|done].
  set (sets := fun k : job => [SetStatus claimed; _; _; _; _; _]).
  destruct (update_at d (j_id h) h (fun k => j_id k =? j_id h) sets Hwf Hat) as (l1 & l2 & _ & _ & _ & Hat').
  { by apply Z.eqb_eq. } { intros k Hk. by bools. }
  rewrite Hat'. intros [= <- <-]. set (h' := apply_assigns (sets h) h).
  exists h, gen. bools. change (j_id h') with (j_id h). change (j_user h') with (j_user h).
  split; [done|]. split; [done|]. split; [done|]. split.
  { intros k Hk Hck. eapply pick_best; [exact Eh|]. by apply list_elem_of_filter. }
  split; [done|]. split; [done|]. split; [done|]. split; [done|]. split; [done|].
  assert (j_generation h = None \/ j_generation h = Some gen) as Hg.
  { destruct (j_generation h); [right; bools; congruence|by left]. }
  split; [by destruct Hg as [E'|E']; simpl; rewrite E'|]. split; [done|]. split; [done|]. split; [done|].
  intros k Hk Hu Ho. eapply (NoDup_fmap_filter_inj j_user owned); [exact (wf_owner _ Hwf')| | | | |].
  - exact Hk.
  - by apply job_at_elem in Hat' as [? _].
  - exact Ho.
  - done.
  - exact Hu.
Qed.

(** A heartbeat and, later, a chat turn wait for one user. *)
Definition waiting_db : db :=
  let run o d := match o with Return (_, _, d') => d' | Raise _ => d end in
  let d := run (enqueue_job sample_cfg (at_time 10) "u" "heartbeat" None None "t" None None None empty_db) empty_db in
  run (enqueue_job sample_cfg (at_time 11) "u" "chat" None None "t" None None None d) d.

Lemma waiting_db_reachable : reachable sample_cfg waiting_db.
Proof.
  unfold waiting_db.
  destruct (enqueue_job sample_cfg (at_time 10) "u" "heartbeat" None None "t" None None None empty_db)
    as [[[i1 m1] d1]|e] eqn:E1.
  - assert (reachable sample_cfg d1) as H1
      by (apply (reach_step _ empty_db); [by apply reach_init|by eapply st_enqueue]).
    destruct (enqueue_job sample_cfg (at_time 11) "u" "chat" None None "t" None None None d1)
      as [[[i2 m2] d2]|e] eqn:E2; [|done].
    apply (reach_step _ d1); [exact H1|by eapply st_enqueue].
  - destruct (enqueue_job sample_cfg (at_time 11) "u" "chat" None None "t" None None None empty_db)
      as [[[i2 m2] d2]|e'] eqn:E2; [|by apply reach_init].
    apply (reach_step _ empty_db); [by apply reach_init|by eapply st_enqueue].
Qed.

Lemma claim_takes_the_head_witness :
  exists j, j_lane j = "chat"%string /\ j_lease j = Some (21 + 300).
Proof.
  destruct (claim_once sample_cfg "w" None 20 20 21 false waiting_db) as [d1|d1|j d1] eqn:E.
  1-2: exfalso; apply (f_equal (fun t => match t with Got _ _ => true | _ => false end)) in E;
       vm_compute in E; discriminate E.
  destruct (claim_takes_the_head sample_cfg "w" None 20 20 21 false waiting_db j d1 waiting_db_reachable E)
    as (j0 & gen & _ & _ & _ & _ & _ & _ & _ & _ & _ & _ & _ & Hl & _).
  exists j. split; [|exact Hl].
  apply (f_equal (fun t => match t with Got j _ => j_lane j | _ => ""%string end)) in E.
  rewrite <- E. vm_compute. reflexivity.
Defined.

(** ** The loop ends *)

(** Rows still in the queue at [t]. *)
Definition queued (cfg : config) (t : Z) (j : job) : bool :=
  bool_decide (j_status j = pending) && in_queue cfg t j.

Definition backlog (cfg : config) (t : Z) (d : db) : nat :=
  length (filter (fun j => queued cfg t j = true) (d_jobs d)).

Lemma in_queue_mono cfg s t j : s <= t -> in_queue cfg t j = true -> in_queue cfg s j = true.
Proof. intros Hle. unfold in_queue. case_goal; [|done]. intros. bools. apply Z.ltb_lt. lia. Qed.

Lemma backlog_mono cfg s t d : s <= t -> (backlog cfg t d <= backlog cfg s d)%nat.
Proof.
  intros Hle. apply length_filter_le. unfold queued. intros j _ H. bools.
  rewrite (in_queue_mono cfg s t j) by done. by rewrite bool_decide_true.
Qed.

(** Taking a queued row out of the queue. *)
Lemma backlog_superseded cfg t d h e now :
  wf d -> h ∈ d_jobs d -> queued cfg t h = true ->
  (backlog cfg t (update_jobs (fun k => (j_id k =? j_id h)%Z)
     (fun _ => [SetStatus superseded; SetFinished (Some now); SetError e]) d) < backlog cfg t d)%nat.
Proof.
  intros Hwf Hin Hq. pose proof (job_at_unique _ _ Hwf Hin) as Hat.
  destruct (update_at d (j_id h) h (fun k => j_id k =? j_id h)
    (fun _ => [SetStatus superseded; SetFinished (Some now); SetError e]) Hwf Hat)
    as (l1 & l2 & E & _ & E' & _).
  { by apply Z.eqb_eq. } { intros k Hk. by bools. }
  unfold backlog. rewrite E, E', !filter_app, !length_app, !filter_cons.
  rewrite decide_False by done. rewrite decide_True by done. simpl. lia.
Qed.

(** A turn that goes on was skipped by a lock, leaving everything as it was, or
    took a row out of the queue for good. *)
Lemma claim_once_progress cfg worker lanes now c1 c2 sk d d' :
  wf d -> now <= c1 -> c1 <= c2 -> claim_once cfg worker lanes now c1 c2 sk d = Again d' ->
  (sk = true /\ d' = d) \/ (backlog cfg c2 d' < backlog cfg now d)%nat.
Proof.
  intros Hwf H1 H2. unfold claim_once.
  assert (forall j, claimable cfg lanes now c1 d j = true -> queued cfg now j = true) as Hq.
  { intros j Hc. unfold claimable, queued in *. bools. apply andb_true_iff. split; [|done].
    by apply bool_decide_eq_true. }
  assert (forall j p, pick (select_jobs p d) = Some j ->
            (forall k, p k = true -> claimable cfg lanes now c1 d k = true) ->
            (backlog cfg c2 (retire (j_id j) now d) < backlog cfg now d)%nat) as Hretire.
  { intros j p Hp Hpc. apply pick_elem in Hp as [Hpj Hin]%list_elem_of_filter.
    pose proof (backlog_superseded cfg now d j (Some "runtime_state_not_v2"%string) now Hwf Hin
                  (Hq _ (Hpc _ Hpj))) as Hb.
    pose proof (backlog_mono cfg now c2 (retire (j_id j) now d) ltac:(lia)) as Hm.
    unfold retire in *. lia. }
  destruct (pick _) as [h|] eqn:Eh; [|done].
  pose proof (pick_elem _ _ Eh) as [Hc Hin]%list_elem_of_filter.
  destruct (d_runtime d !! j_user h) as [[st gen]|] eqn:Ert.
  - destruct (String.eqb st "v2"); [|intros [= <-]; right; by eapply Hretire].
    destruct sk; [intros [= <-]; by left|]. intros H. right. revert H.
    destruct (claim_sql cfg worker (j_id h) gen now c2 d) as [|d1|j1 d1] eqn:Ecl; [| |done].
    + intros [= <-]. apply (length_filter_lt _ _ _ h); [|done| |by apply Hq].
      * intros k _. unfold queued. intros. bools. rewrite (in_queue_mono cfg now c2) by (lia || done).
        by rewrite bool_decide_true.
      * revert Ecl. unfold claim_sql. rewrite (job_at_unique _ _ Hwf Hin). unfold claimable in Hc. bools.
        case_goal.
        -- destruct (match j_generation h with Some g => g =? gen | None => true end); [|done].
           set (sets := fun k : job => [SetStatus claimed; _; _; _; _; _]).
           destruct (update_at d (j_id h) h (fun k => j_id k =? j_id h) sets Hwf
                       (job_at_unique _ _ Hwf Hin)) as (l1 & l2 & _ & _ & _ & ->); [by apply Z.eqb_eq| |done].
           intros k Hk. by bools.
        -- intros _. unfold queued. destruct (in_queue cfg c2 h) eqn:Eq; [|by rewrite andb_false_r].
           exfalso. revert E. rewrite bool_decide_true by done.
           rewrite (proj2 (Z.leb_le (j_available_at h) c2)) by lia.
           match goal with H : busy _ _ = false |- _ => by rewrite H end.
    + revert Ecl. unfold claim_sql. rewrite (job_at_unique _ _ Hwf Hin). case_goal; [|done].
      repeat case_goal; try done; intros [= <-] [= <-];
      (pose proof (backlog_superseded cfg now d h (Some "stale_runtime_generation"%string) now Hwf Hin (Hq _ Hc)) as Hb;
       pose proof (backlog_mono cfg now c2 (update_jobs (fun k => j_id k =? j_id h)
          (fun _ => [SetStatus superseded; SetFinished (Some now);
                     SetError (Some "stale_runtime_generation"%string)]) d) ltac:(lia)); lia).
  - destruct (pick (select_jobs (fun j => _ && negb _) d)) as [o|] eqn:Eo; [|done].
    intros [= <-]. right. eapply Hretire; [exact Eo|]. cbv beta. intros k Hk. by bools.
Qed.

(** What one turn costs beyond the rows it retires: a locked candidate, and the
    rows other sessions queue before the next turn. *)
Definition disturbance (turn : nat -> turn_env) (arrivals : nat -> nat) (k : nat) : nat :=
  (if t_skipped (turn k) then 1 else 0) + arrivals k.

(** The disturbances of the [n] turns from [k] on. *)
Fixpoint disturbances (turn : nat -> turn_env) (arrivals : nat -> nat) (k n : nat) : nat :=
  match n with O => 0 | S n => disturbance turn arrivals k + disturbances turn arrivals (S k) n end.

(** Clocks that do not go back, within a turn and from one to the next. *)
Definition clocks_advance (turn : nat -> turn_env) : Prop :=
  forall n, t_now (turn n) <= t_clk1 (turn n) /\ t_clk1 (turn n) <= t_clk2 (turn n) /\
            t_clk2 (turn n) <= t_now (turn (S n)).

(** The other sessions run transactions of the queue and put at most
    [arrivals k] more rows into it between two turns. *)
Definition others_run (cfg : config) (turn : nat -> turn_env) (arrivals : nat -> nat) : Prop :=
  forall k d, reachable cfg d ->
    rtc (qstep cfg) d (t_others (turn k) d) /\
    forall t, (backlog cfg t (t_others (turn k) d) <= backlog cfg t d + arrivals k)%nat.

Lemma reachable_steps cfg d d' : reachable cfg d -> rtc (qstep cfg) d d' -> reachable cfg d'.
Proof. intros H Hs. induction Hs as [|a b c Hab _ IH]; [done|]. apply IH. by eapply reach_step. Qed.

Lemma claim_loop_ends cfg worker lanes turn arrivals fuel k d :
  reachable cfg d -> clocks_advance turn -> others_run cfg turn arrivals ->
  (backlog cfg (t_now (turn k)) d + disturbances turn arrivals k fuel < fuel)%nat ->
  exists d' r, claim_next_job cfg fuel worker lanes turn k d = Some (d', r).
Proof.
  intros Hr Hclk Hot. revert k d Hr. induction fuel as [|fuel IH]; intros k d Hr Hb; [lia|].
  simpl. destruct (Hclk k) as (C1 & C2 & C3).
  destruct (claim_once cfg worker lanes _ _ _ _ d) as [d1|d1|j d1] eqn:E; [eauto| |eauto].
  assert (reachable cfg d1) as Hr1 by (eapply reach_step; [exact Hr|by eapply st_claim_turn]).
  destruct (Hot k d1 Hr1) as [Hs Hq]. apply IH; [by eapply reachable_steps|].
  specialize (Hq (t_now (turn (S k)))). cbn [disturbances] in Hb. unfold disturbance in Hb.
  destruct (claim_once_progress _ _ _ _ _ _ _ _ _ (reachable_wf _ _ Hr) C1 C2 E) as [[Hsk ->]|Hlt].
  - rewrite Hsk in Hb. pose proof (backlog_mono cfg (t_now (turn k)) (t_now (turn (S k))) d ltac:(lia)). lia.
  - pose proof (backlog_mono cfg (t_clk2 (turn k)) (t_now (turn (S k))) d1 C3).
    destruct (t_skipped (turn k)); lia.
Qed.

(** C33: [claim_next_job] ends, idle or with a claimed row, after at most one
    turn more than there are rows, plus one for each turn whose candidate
    another session held locked ([SKIP LOCKED]) and one for each row other
    sessions queued in between, clocks that do not go back being all it takes:
    every other turn that continues takes a row out of the queue for good. *)
Theorem claim_next_job_ends cfg worker lanes turn arrivals fuel d :
  reachable cfg d -> clocks_advance turn -> others_run cfg turn arrivals ->
  (length (d_jobs d) + disturbances turn arrivals 0 fuel < fuel)%nat ->
  exists d' r, claim_next_job cfg fuel worker lanes turn 0 d = Some (d', r).
Proof.
  intros Hr Hclk Hot Hf. eapply claim_loop_ends; [done..|].
  pose proof (length_filter (fun j => queued cfg (t_now (turn 0%nat)) j = true) (d_jobs d)).
  unfold backlog. lia.
Qed.

(** The first candidate is locked by another session; two rows wait. *)
Lemma claim_next_job_ends_witness :
  exists d' r, claim_next_job sample_cfg 4 "w" (Some ["heartbeat"%string])
    (fun n => let t := 20 + Z.of_nat n in mkTurn t t t (bool_decide (n = 0%nat)) id) 0 waiting_db = Some (d', r).
Proof.
  apply (claim_next_job_ends sample_cfg "w" (Some ["heartbeat"%string]) _ (fun _ => 0%nat)).
  - exact waiting_db_reachable.
  - intros n. simpl. lia.
  - intros k d _. split; [apply rtc_refl|]. intros t. simpl. lia.
  - assert (length (d_jobs waiting_db) = 2%nat) as -> by (vm_compute; reflexivity). vm_compute. lia.
Defined.
End Claiming.
