(* ===== verification/JobDelivery.v ===== *)
(** * Delivery guarantees of the job queue

    Inputs land in a live job, failures of user-visible turns are recorded in
    the transaction that ends them, whole-turn replays only happen when nothing
    was written, and inputs that arrive while a wake runs reach its successor. *)

From S2P Require Import Prelude PyValue CaptureFailure JobTable WakeSchedule JobQueue JobInv JobFinish JobSafety JobClaim.
Local Open Scope Z_scope.

Module Delivery.
Import Queue Inv Finish Safety Claiming.

(** ** Enqueueing *)

Section Enqueue.
Context (cfg : config).

Lemma key_taken_appended user lane d d' new :
  d_jobs d' = d_jobs d ++ new -> Forall (fun j => j_lane j <> lane) new ->
  key_taken user lane d' = key_taken user lane d.
Proof using Type.
  intros E HF. unfold key_taken. rewrite E, existsb_app.
  assert (existsb (fun j => String.eqb (j_user j) user && String.eqb (j_lane j) lane && active j) new = false) as ->.
  { apply not_true_iff_false. intros (j & Hin & H)%List.existsb_exists. bools.
    rewrite Forall_forall in HF. apply list_elem_of_In in Hin. by apply (HF j). }
  apply orb_false_r.
Qed.

Lemma key_taken_runner user lane u now d :
  lane <> TRAJECTORY_REVIEW_LANE ->
  key_taken user lane (ensure_review_runner cfg u now d).1 = key_taken user lane d.
Proof using Type.
  intros Hl. unfold ensure_review_runner. case_goal; [done|].
  destruct (v2_generation u d); [|done]. case_goal; [|done].
  destruct (insert_job _ _ _ _ _ _ _ _ d) as [[i d']|e] eqn:Ei; [|done].
  apply insert_job_spec in Ei as (_ & _ & _ & Hj). eapply key_taken_appended; [exact Hj|].
  repeat constructor. simpl. congruence.
Qed.

Lemma key_taken_review user lane i now d j :
  job_at i d = Some j -> j_lane j = lane ->
  key_taken user lane (queue_failure_review cfg i now d).1 = key_taken user lane d.
Proof using Type.
  intros Hj Hl. unfold queue_failure_review. rewrite Hj.
  set (d1 := if existsb _ _ then d else _).
  assert (d_jobs d1 = d_jobs d) as H1 by (unfold d1; by case_goal).
  assert (key_taken user lane d1 = key_taken user lane d) as H1' by (unfold key_taken; by rewrite H1).
  clearbody d1. case_goal; simpl; [|done]. bools. rewrite key_taken_runner by congruence. done.
Qed.

(** Ending the active row of a key frees the key. *)
Lemma key_freed user lane e sets d :
  wf d ->
  select_job (fun j => String.eqb (j_user j) user && String.eqb (j_lane j) lane && active j) d = Some e ->
  active (apply_assigns (sets e) e) = false ->
  key_taken user lane (update_jobs (fun k => j_id k =? j_id e) sets d) = false.
Proof using Type.
  intros Hwf Hs Hend. destruct (select_job_elem _ _ _ Hs) as [Hin Hp]. bools.
  destruct (update_at d (j_id e) e (fun k => j_id k =? j_id e) sets Hwf (job_at_unique _ _ Hwf Hin))
    as (l1 & l2 & E & Hother & E' & _). { by apply Z.eqb_eq. } { intros k Hk. by bools. }
  apply not_true_iff_false. intros (j & Hj & Hu & Hl & Ha)%key_taken_true. rewrite E' in Hj.
  assert (j <> apply_assigns (sets e) e) as Hne by congruence.
  assert (j ∈ l1 ++ l2) as Hj'.
  { apply elem_of_app in Hj as [Hj|[->|Hj]%elem_of_cons]; [|done|]; apply elem_of_app; auto. }
  apply (Hother j Hj'). f_equal.
  eapply (NoDup_fmap_filter_inj job_key active); [exact (wf_single _ Hwf)| | |done|done|].
  - rewrite E. apply elem_of_app in Hj' as [?|?]; apply elem_of_app; [by left|right; by right].
  - done.
  - unfold job_key. congruence.
Qed.

(** Where an enqueued input lands. *)
Definition landed (user lane : string) (effective : option Z) (clk : Z) (d : db) (i : Z) (m : bool)
    (d' : db) : Prop :=
  exists j, job_at i d' = Some j /\ j_user j = user /\ j_lane j = lane /\ active j = true /\
    (forall g, effective = Some g -> j_generation j = Some g) /\
    (if m then stale cfg clk j = false /\ exists j0, job_at i d = Some j0 /\ j_input j = j_input j0 + 1
     else j_status j = pending /\ j_input j = 0 /\ job_at i d = None).

Lemma landed_insert user lane reason trace prio qd gen now clk d0 d i d' :
  wf d0 -> wf d -> evolves d0 d -> insert_job user lane reason trace prio qd gen now d = Return (i, d') ->
  landed user lane gen clk d0 i false d'.
Proof using Type.
  intros Hwf0 Hwf [Hn _] H. pose proof (proj1 (keeps_insert _ _ _ _ _ _ _ _ _ _ _ H Hwf)) as Hwf'.
  apply insert_job_spec in H as (_ & Hi & _ & Hj).
  exists (new_row i user lane reason trace prio qd gen now). split.
  { change i with (j_id (new_row i user lane reason trace prio qd gen now)) at 1.
    apply job_at_unique; [done|]. rewrite Hj. apply elem_of_app. right. left. }
  split; [done|]. split; [done|]. split; [done|]. split; [done|]. split; [done|]. split; [done|].
  destruct (job_at i d0) as [j|] eqn:E; [|done]. destruct (job_at_elem _ _ _ E) as [Hin Hid].
  pose proof (wf_next _ Hwf0 j Hin). lia.
Qed.

Lemma coalesce_total user lane reason trace prio dl ex now clk d :
  wf d -> exists i m d',
    coalesce_or_insert cfg user lane reason trace prio dl ex now clk d = Return (i, m, d') /\
    landed user lane ex clk d i m d'.
Proof using Type.
  intros Hwf. unfold coalesce_or_insert.
  set (qd := match dl with Some _ => dl | None => _ end).
  assert (forall d1, wf d1 -> evolves d d1 -> key_taken user lane d1 = false ->
    exists i m d', ('(i, d2) ← insert_job user lane reason trace prio qd ex now d1; Return (i, false, d2))
                   = Return (i, m, d') /\ landed user lane ex clk d i m d') as Hins.
  { intros d1 Hwf1 Hev Hfree. destruct (insert_job user lane reason trace prio qd ex now d1) as [[i d2]|e] eqn:Ei.
    - exists i, false, d2. split; [done|]. by eapply landed_insert.
    - unfold insert_job in Ei. by rewrite Hfree in Ei. }
  destruct (select_job _ d) as [e|] eqn:Es.
  2: { apply Hins; [done|apply evolves_refl|]. apply not_true_iff_false.
       intros (j & Hj & Hu & Hl & Ha)%key_taken_true. unfold select_job, select_jobs in Es.
       apply head_None in Es. assert (j ∈ []) as Hn; [|by apply elem_of_nil in Hn].
       rewrite <- Es. apply list_elem_of_filter. split; [|done]. subst. by rewrite !String.eqb_refl, Ha. }
  pose proof (select_job_elem _ _ _ Es) as [Hin Hp]. bools.
  assert (forall j, job_at (j_id e) d = Some j -> active j = true) as Hact.
  { intros j Hj. by rewrite (select_job_at _ _ _ _ Hwf Es Hj). }
  case_goal; [|case_goal].
  - apply Hins.
    + by apply keeps_supersede.
    + by apply keeps_supersede.
    + by apply (key_freed user lane e).
  - set (label := Some (if bool_decide (j_status e = pending) then _ else _ : string)). set (d1 := update_jobs _ _ d).
    assert (wf d1 /\ evolves d d1) as [Hwf1 Hev1] by (by apply (keeps_expire_row (j_id e) now label)).
    assert (key_taken user lane d1 = false) as Hk1 by (by apply (key_freed user lane e)).
    destruct (update_at d (j_id e) e (fun k => j_id k =? j_id e)
      (fun k => [SetStatus expired; SetFinished (Some now); SetAttempts (j_attempts k + 1); SetError label])
      Hwf (job_at_unique _ _ Hwf Hin)) as (_ & _ & _ & _ & _ & Hat).
    { by apply Z.eqb_eq. } { intros k Hk. by bools. }
    fold d1 in Hat. clearbody d1.
    set (d2 := queue_terminal_failure _ _ _ _ _ d1).
    assert (keeps d1 d2) as K2 by apply keeps_terminal_failure.
    pose proof (appends_terminal_failure cfg (j_id e) user
      (if bool_decide (j_status e = pending) then "queue_timeout" else "lease_timeout") "" d1) as A2. fold d2 in A2.
    assert (key_taken user lane d2 = false) as Hk2.
    { unfold key_taken, d2. rewrite (proj1 (same_jobs_terminal_failure _ _ _ _ _ _)). exact Hk1. }
    pose proof (job_at_appends _ _ _ _ A2 Hat) as Hat2. clearbody d2.
    destruct (K2 Hwf1) as [Hwf2 Hev2].
    destruct (keeps_failure_review cfg (j_id e) now d2 Hwf2) as [Hwf3 Hev3].
    apply Hins; [done|by eapply evolves_trans; [exact Hev1|eapply evolves_trans]|].
    rewrite (key_taken_review user lane (j_id e) now d2 _ Hat2); [done|]. simpl. done.
  - exists (j_id e), true. eexists. split; [done|].
    destruct (update_at d (j_id e) e (fun k => j_id k =? j_id e) (fun k => [SetInput (j_input k + 1)])
      Hwf (job_at_unique _ _ Hwf Hin)) as (_ & _ & _ & _ & _ & Hat).
    { by apply Z.eqb_eq. } { intros k Hk. by bools. }
    eexists. split; [exact Hat|]. split; [done|]. split; [done|]. split; [done|]. split.
    { intros g ->. unfold generation_stale in *. by bools. }
    split; [done|]. exists e. split; [by apply job_at_unique|done].
Qed.

Lemma retried_total {A} n (txn : outcome A) a : txn = Return a -> retried n txn = Return a.
Proof using Type. intros ->. by destruct n. Qed.

Lemma enqueue_capture_total ob user reason trace prio dl ex d :
  wf d -> exists i disp d', enqueue_capture_once cfg ob user reason trace prio dl ex None d
                            = Return (Some i, disp, d').
Proof using Type.
  intros Hwf. unfold enqueue_capture_once.
  set (ex' := match ex with Some _ => ex | None => _ end). rewrite andb_false_r.
  destruct (coalesce_total user "capture" reason trace prio dl ex' (ob_now ob) (ob_clk ob) d Hwf)
    as (i & m & d' & Hc & _). rewrite Hc. simpl.
  destruct (select_job _ d) as [e|]; [|by eauto]. case_goal; [|by eauto]. case_goal; [|by eauto].
  destruct (expire_overdue_capture cfg ob e d) as [[[[? ?] ?] ?]|]; by eauto.
Qed.
End Enqueue.

(** C30: enqueueing a known lane always succeeds: no state the queue can reach
    makes the single-flight index reject it. In every lane but capture, whose crashed run may defer
    the round, the input lands in an active row of
    that user and lane, of the requested runtime generation; when it is merged
    the row is inside its deadlines and counts one more input, otherwise it is a
    new pending row. *)
Theorem enqueue_lands_in_live_job cfg ob user lane reason trace fresh prio dl ex d :
  reachable cfg d -> lane ∈ LANES ->
  exists i m d', enqueue_job cfg ob user lane reason trace fresh prio dl ex d = Return (i, m, d') /\
    (lane <> "capture" ->
     landed cfg user lane (match ex with Some _ => ex | None => v2_generation user d end)
       (ob_clk ob) d i m d').
Proof.
  intros Hr Hl. pose proof (reachable_wf _ _ Hr) as Hwf. unfold enqueue_job.
  rewrite bool_decide_true by done. cbn [negb]. destruct (String.eqb_spec lane "capture") as [->|Hne].
  - destruct (enqueue_capture_total cfg ob user reason (trace_id_for_enqueue "capture" trace fresh)
                (default (LANE_PRIORITY "capture") prio) dl ex d Hwf) as (i & disp & d' & H).
    rewrite (retried_total 3 _ _ H). simpl. eexists _, _, _. by split.
  - destruct (coalesce_total cfg user lane reason (trace_id_for_enqueue lane trace fresh)
                (default (LANE_PRIORITY lane) prio) dl
                (match ex with Some _ => ex | None => v2_generation user d end)
                (ob_now ob) (ob_clk ob) d Hwf) as (i & m & d' & H & Hland).
    exists i, m, d'. split; [by apply (retried_total 3)|done].
Qed.

Lemma enqueue_lands_in_live_job_witness :
  exists i m d', enqueue_job sample_cfg (at_time 30) "u" "chat" None None "t" None None None claimed_db
                 = Return (i, m, d') /\
    ("chat"%string <> "capture"%string ->
     landed sample_cfg "u" "chat" (v2_generation "u" claimed_db) 30 claimed_db i m d').
Proof.
  apply (enqueue_lands_in_live_job sample_cfg (at_time 30) "u" "chat" None None "t" None None None claimed_db);
    [exact claimed_db_reachable|decided].
Defined.

(** ** No silent failure *)

(** A chat turn or a reminder that ended in failure. *)
Definition failing (j : job) : bool :=
  bool_decide (j_lane j ∈ ["chat"; "scheduled"]) && bool_decide (j_status j ∈ [failed; expired]).

Definition recorded (i : Z) (d : db) : Prop := exists f, f ∈ d_failures d /\ fr_job f = i.

(** The failing rows of [d], except those that were already there in [d0] and
    those of [S], have their outbox row. *)
Definition told (d0 : db) (S : Z -> Prop) (d : db) : Prop :=
  forall j, j ∈ d_jobs d -> failing j = true -> j ∈ d_jobs d0 \/ S (j_id j) \/ recorded (j_id j) d.

Definition none : Z -> Prop := fun _ => False.

Lemma told_start d : told d none d.
Proof. intros j Hj _. by left. Qed.

Lemma told_appends d0 S d d' : appends d d' -> told d0 S d -> told d0 S d'.
Proof.
  intros ((new & E & HF) & (more & G) & _) H j Hj Hf. rewrite E in Hj.
  apply elem_of_app in Hj as [Hj|Hj].
  - destruct (H j Hj Hf) as [?|[?|(f & Hfin & Hid)]]; [auto|auto|]. right. right. exists f.
    rewrite G. split; [|done]. apply elem_of_app. by left.
  - exfalso. rewrite Forall_forall in HF. specialize (HF j Hj). unfold failing in Hf. bools.
    rewrite HF in *. set_solver.
Qed.

Lemma told_update d0 (S S' : Z -> Prop) p sets d :
  (forall i, S i -> S' i) ->
  (forall j, j ∈ d_jobs d -> p j = true -> failing (apply_assigns (sets j) j) = true -> S' (j_id j)) ->
  told d0 S d -> told d0 S' (update_jobs p sets d).
Proof.
  intros HS Hnew H j' Hj' Hf. simpl in Hj'. apply list_elem_of_fmap in Hj' as (j & -> & Hj).
  destruct (p j) eqn:Ep.
  - right. left. destruct (apply_assigns_identity (sets j) j) as (-> & _). by apply Hnew.
  - destruct (H j Hj Hf) as [?|[?|?]]; auto.
Qed.

(** Updates that end nothing in failure. *)
Lemma told_update_quiet d0 S p sets d :
  (forall j, p j = true -> failing (apply_assigns (sets j) j) = false) ->
  told d0 S d -> told d0 S (update_jobs p sets d).
Proof. intros Hq. apply told_update; [done|]. intros j _ Hp Hf. rewrite Hq in Hf by done. done. Qed.

(** The outbox row is there once a failing row has been handed to the outbox. *)
Lemma outbox_records cfg i j e c d :
  job_at i d = Some j -> failing j = true -> recorded i (queue_terminal_failure cfg i (j_user j) e c d).
Proof.
  intros Hj Hf. unfold queue_terminal_failure. rewrite Hj, String.eqb_refl. unfold failing in Hf. bools.
  rewrite (bool_decide_true (j_lane j ∈ _)) by done. simpl.
  destruct (existsb (fun f => fr_job f =? i) (d_failures d)) eqn:Ex; simpl.
  - apply List.existsb_exists in Ex as (f & Hfin & Hid). bools. exists f.
    split; [by apply list_elem_of_In|done].
  - eexists. split; [apply elem_of_app; right; left|done].
Qed.

(** The outbox entry of row [i]. *)
Lemma told_outbox cfg d0 (S : Z -> Prop) i e c d j :
  wf d -> job_at i d = Some j -> told d0 (fun k => k = i \/ S k) d ->
  told d0 S (queue_terminal_failure cfg i (j_user j) e c d).
Proof.
  intros Hwf Hj H k Hk Hf.
  assert (told d0 (fun k => k = i \/ S k) (queue_terminal_failure cfg i (j_user j) e c d)) as H'.
  { eapply told_appends; [apply appends_terminal_failure|done]. }
  destruct (H' k Hk Hf) as [?|[[Hi|?]|?]]; [by left| |right; by left|right; by right].
  right. right. rewrite Hi. rewrite (proj1 (same_jobs_terminal_failure _ _ _ _ _ _)) in Hk.
  pose proof (job_at_unique _ _ Hwf Hk) as Hk'. rewrite Hi, Hj in Hk'. injection Hk' as <-.
  by apply outbox_records.
Qed.

Lemma job_at_update_id i j sets p d :
  wf d -> job_at i d = Some j -> p j = true -> (forall k, p k = true -> j_id k = i) ->
  job_at i (update_jobs p sets d) = Some (apply_assigns (sets j) j).
Proof. intros. by destruct (update_at d i j p sets) as (_ & _ & _ & _ & _ & ?). Qed.

Section Told.
Context (cfg : config).

Lemma told_coalesce user lane reason trace prio dl ex now clk d i m d' :
  wf d -> coalesce_or_insert cfg user lane reason trace prio dl ex now clk d = Return (i, m, d') ->
  told d none d'.
Proof using Type.
  intros Hwf. unfold coalesce_or_insert. destruct (select_job _ d) as [e|] eqn:Es.
  2: { intros ([i' d1] & Hi & [= <- <- <-])%bind_return.
       eapply told_appends; [by eapply appends_insert|apply told_start]. }
  pose proof (select_job_elem _ _ _ Es) as [Hin Hp]. bools.
  assert (forall j, job_at (j_id e) d = Some j -> active j = true) as Hact.
  { intros j Hj. by rewrite (select_job_at _ _ _ _ Hwf Es Hj). }
  pose proof (job_at_unique _ _ Hwf Hin) as Hat. case_goal; [|case_goal].
  - intros ([i' d1] & Hi & [= <- <- <-])%bind_return.
    eapply told_appends; [by eapply appends_insert|]. apply told_update_quiet; [|apply told_start].
    intros j _. unfold failing. by rewrite andb_comm.
  - set (label := Some (if bool_decide (j_status e = pending) then _ else _ : string)).
    intros ([i' d1] & Hi & [= <- <- <-])%bind_return.
    eapply told_appends; [by eapply appends_insert|].
    eapply told_appends; [apply appends_failure_review|].
    set (d1' := update_jobs _ _ d).
    assert (wf d1') as Hwf1 by (by apply (keeps_expire_row (j_id e) now label)).
    assert (job_at (j_id e) d1' = Some (apply_assigns [SetStatus expired; SetFinished (Some now);
      SetAttempts (j_attempts e + 1); SetError label] e)) as Hat1.
    { apply (job_at_update_id (j_id e) e (fun k => [SetStatus expired; SetFinished (Some now);
        SetAttempts (j_attempts k + 1); SetError label])); [done|done|by apply Z.eqb_eq|intros; by bools]. }
    pose proof (told_outbox cfg d none (j_id e) (default "" label) "" d1' _ Hwf1 Hat1) as H'. simpl in H'.
    match goal with Hu : j_user e = user |- _ => rewrite Hu in H' end. apply H'.
    apply (told_update d none); [done| |apply told_start]. intros j _ Hj _. left. by bools.
  - intros [= <- <- <-]. apply (told_update d none); [done| |apply told_start].
    intros j Hj Hid Hf. exfalso. bools. pose proof (job_at_unique _ _ Hwf Hj) as Hj'.
    rewrite Hid, Hat in Hj'. injection Hj' as <-. unfold failing, active in *. bools.
    simpl in *. destruct (j_status e); try done; set_solver.
Qed.

Lemma told_expire_capture ob e d0 S d d' row rs fs :
  wf d -> (forall j, job_at (j_id e) d = Some j -> j_lane j = "capture"%string) ->
  expire_overdue_capture cfg ob e d = Some (d', row, rs, fs) -> told d0 S d -> told d0 S d'.
Proof using Type.
  intros Hwf Hlane. unfold expire_overdue_capture. destruct (job_at (j_id e) d) as [j|] eqn:Ej; [|done].
  destruct (owned j); [|done].
  set (d1 := resolve_mcp _ _ _).
  destruct (record_capture_crash cfg ob e _ d1) as [d2 fs'] eqn:E2.
  destruct (recover_review_runner cfg (j_id e) (ob_now ob) d2) as [d3 rs'] eqn:E3.
  destruct (job_at (j_id e) (queue_failure_review _ _ _ d3).1) as [row'|]; [|done].
  intros [= <- <- <- <-] H.
  eapply told_appends; [apply appends_failure_review|].
  eapply told_appends; [eapply eq_ind; [apply (appends_recover_runner cfg (j_id e) (ob_now ob) d2)|by rewrite E3]|].
  eapply told_appends; [eapply eq_ind; [eapply (appends_record_crash cfg ob e _ d1)|by rewrite E2]|].
  eapply told_appends; [apply appends_resolve_mcp|].
  apply (told_update d0 S); [done| |done]. intros k Hk Hid Hf. exfalso. bools.
  pose proof (job_at_unique _ _ Hwf Hk) as Hk'. rewrite Hid, Ej in Hk'. injection Hk' as <-.
  unfold failing in Hf. bools. simpl in *. rewrite (Hlane j eq_refl) in *. set_solver.
Qed.

(** Rows that are still active, or end in another way, are not failing. *)
Lemma not_failing_status j : bool_decide (j_status j ∈ [failed; expired]) = false -> failing j = false.
Proof using Type. intros H. unfold failing. by rewrite H, andb_false_r. Qed.

Lemma not_failing_owned j : owned j = true -> failing j = false.
Proof using Type.
  intros H. apply not_failing_status. unfold owned in H. by destruct (j_status j).
Qed.

Lemma not_failing_lane j : ~ j_lane j ∈ ["chat"; "scheduled"] -> failing j = false.
Proof using Type. intros H. unfold failing. by rewrite bool_decide_false. Qed.

Lemma silent_lane (l : string) : l <> "chat"%string -> l <> "scheduled"%string -> ~ l ∈ ["chat"; "scheduled"]%string.
Proof using Type. set_solver. Qed.

Lemma told_update_one d0 S p sets d :
  (forall j, p j = true -> failing (apply_assigns (sets j) j) = false) ->
  told d0 S d -> told d0 S (update_one p sets d).1.
Proof using Type.
  intros Hq H. unfold update_one. destruct (select_job p d); [|done]. by apply told_update_quiet.
Qed.

Lemma told_one d0 S p sets d d' b :
  (forall j, p j = true -> failing (apply_assigns (sets j) j) = false) ->
  told d0 S d -> update_one p sets d = (d', b) -> told d0 S d'.
Proof using Type. intros Hq H E. pose proof (told_update_one d0 S p sets d Hq H) as K. by rewrite E in K. Qed.

(** What follows a terminal update of row [i]: reviews and copies only append. *)
Lemma told_reviewed d0 S i now d :
  told d0 S d ->
  told d0 S (queue_failure_review cfg i now (recover_review_runner cfg i now d).1).1.
Proof using Type.
  intros H. eapply told_appends; [apply appends_failure_review|].
  eapply told_appends; [apply appends_recover_runner|done].
Qed.

(** Row [i] ends in failure and gets its outbox row. *)
Lemma told_ended d0 d i j p sets d1 e c :
  wf d -> told d0 none d -> job_at i d = Some j -> p j = true -> (forall k, p k = true -> j_id k = i) ->
  d_jobs d1 = d_jobs (update_jobs p sets d) -> d_failures d1 = d_failures d ->
  told d0 none (queue_terminal_failure cfg i (j_user j) e c d1).
Proof using Type.
  intros Hwf H Hj Hp Hid E1 F1 k Hk Hf.
  rewrite (proj1 (same_jobs_terminal_failure _ _ _ _ _ _)), E1 in Hk.
  apply list_elem_of_fmap in Hk as (k0 & -> & Hk0). destruct (p k0) eqn:Ep.
  - right. right. pose proof (job_at_unique _ _ Hwf Hk0) as Hk'.
    rewrite (Hid _ Ep), Hj in Hk'. injection Hk' as <-.
    destruct (apply_assigns_identity (sets j) j) as (-> & Hu & _). rewrite (Hid _ Hp), <- Hu.
    apply outbox_records; [|done]. unfold job_at. rewrite E1. by apply job_at_update_id.
  - destruct (H k0 Hk0 Hf) as [?|[[]|(f & Hin & Hfid)]]; [by left|]. right. right.
    destruct (appends_terminal_failure cfg i (j_user j) e c d1) as (_ & (more & G) & _).
    exists f. rewrite G, F1. split; [|done]. apply elem_of_app. by left.
Qed.

Lemma told_enqueue_capture ob user reason trace prio dl ex bn d i disp d' :
  wf d -> enqueue_capture_once cfg ob user reason trace prio dl ex bn d = Return (i, disp, d') ->
  told d none d'.
Proof using Type.
  intros Hwf. unfold enqueue_capture_once.
  set (ex' := match ex with Some _ => ex | None => _ end).
  set (rest := if _ && _ then Return _ else _).
  assert (rest = Return (i, disp, d') -> told d none d') as Hrest.
  { unfold rest. destruct (_ && _); [intros [= <- <- <-]; apply told_start|].
    intros ([[i' m] d1] & Hc & [= <- <- <-])%bind_return. by eapply told_coalesce. }
  clearbody rest. destruct (select_job _ d) as [e|] eqn:Es; [|exact Hrest].
  pose proof (select_job_elem _ _ _ Es) as [Hin Hp]. bools.
  pose proof (job_at_unique _ _ Hwf Hin) as Hat.
  case_goal; [|exact Hrest]. case_goal.
  - destruct (expire_overdue_capture cfg ob e d) as [[[[d1 row] rs] fs]|] eqn:Ee.
    + intros [= <- <- <-]. eapply told_expire_capture; [done| |exact Ee|apply told_start].
      intros j. rewrite Hat. by intros [= <-].
    + intros [= <- <- <-]. apply told_start.
  - intros [= <- <- <-]. apply (told_update d none); [done| |apply told_start].
    intros j Hj Hid Hf. exfalso. bools. pose proof (job_at_unique _ _ Hwf Hj) as Hj'.
    rewrite Hid, Hat in Hj'. injection Hj' as <-. by rewrite not_failing_owned in Hf.
Qed.

Lemma told_enqueue ob user lane reason trace fresh prio dl ex d i m d' :
  wf d -> enqueue_job cfg ob user lane reason trace fresh prio dl ex d = Return (i, m, d') -> told d none d'.
Proof using Type.
  intros Hwf. unfold enqueue_job. case_goal; [done|]. case_goal.
  - intros ([[i' disp] d1] & Hc & H)%bind_return. apply retried_return in Hc.
    destruct i'; [|done]. injection H as <- <- <-. by eapply told_enqueue_capture.
  - intros Hc%retried_return. by eapply told_coalesce.
Qed.

Lemma told_context_log ob user lane reason trace fresh stream prio seq d i m d' :
  wf d -> enqueue_job_with_context_log cfg ob user lane reason trace fresh stream prio seq d
    = Return (i, m, d') -> told d none d'.
Proof using Type.
  intros Hwf. unfold enqueue_job_with_context_log. case_goal; [done|]. case_goal; [done|].
  intros ([[i' m'] d1] & Hc & [= <- <- <-])%bind_return.
  apply (told_appends d none d1); [by apply appends_same|].
  destruct (retried 3 _) as [r|[]] eqn:Er in Hc; try done. injection Hc as ->.
  apply retried_return in Er. by eapply told_coalesce.
Qed.

Lemma told_claim_sql worker i gen now clk d :
  match claim_sql cfg worker i gen now clk d with
  | Locked0 => True | Superseded d' => told d none d' | Claimed _ d' => told d none d'
  end.
Proof using Type.
  unfold claim_sql. destruct (job_at i d) as [j|]; [|done]. case_goal; [|done].
  repeat case_goal; try done; (apply told_update_quiet; [|apply told_start]);
    intros k _; by apply not_failing_status.
Qed.

Lemma told_claim_once worker lanes now c1 c2 sk d d' :
  claim_once cfg worker lanes now c1 c2 sk d = Again d' -> told d none d'.
Proof using Type.
  assert (forall i, told d none (retire i now d)) as Hr.
  { intros i. apply told_update_quiet; [|apply told_start]. intros k _. by apply not_failing_status. }
  unfold claim_once. destruct (pick _) as [h|]; [|done].
  destruct (d_runtime d !! j_user h) as [[st gen]|].
  - case_goal; [|by intros [= <-]]. destruct sk; [intros [= <-]; apply told_start|].
    pose proof (told_claim_sql worker (j_id h) gen now c2 d) as Hc.
    destruct (claim_sql _ _ _ _ _ _ _); [|by intros [= <-]|done]. intros [= <-]. apply told_start.
  - destruct (pick _); [by intros [= <-]|done].
Qed.

Lemma told_owner_updates d :
  (forall i w clk, told d none (mark_running cfg i w clk d).1) /\
  (forall i w ttl clk, told d none (renew_job_lease i w ttl clk d).1) /\
  (forall i w e t clk, told d none (reschedule_owned_job i w e t clk d).1) /\
  (forall user lane clk, told d none (make_pending_job_ready user lane clk d).1) /\
  (forall i w e t ea ma clk d' b,
     reschedule_pristine_scheduled_failure i w e t ea ma clk d = Return (d', b) -> told d none d').
Proof using Type.
  split; [|split; [|split; [|split]]]; intros.
  - unfold mark_running. destruct (job_generation _ _); [|apply told_start].
    apply told_update_one; [|apply told_start]. intros j _. by apply not_failing_owned.
  - unfold renew_job_lease. destruct (job_generation _ _); [|apply told_start].
    apply told_update_one; [|apply told_start]. intros j Hj. unfold owns_live in Hj. bools.
    by apply not_failing_owned.
  - unfold reschedule_owned_job. destruct (job_generation _ _); [|apply told_start].
    apply told_update_one; [|apply told_start]. intros j _. by apply not_failing_status.
  - unfold make_pending_job_ready. destruct (v2_generation _ _); [|apply told_start].
    apply told_update_one; [|apply told_start]. intros j Hj. bools. apply not_failing_status. simpl.
    match goal with H : j_status j = pending |- _ => by rewrite H end.
  - revert H. unfold reschedule_pristine_scheduled_failure. case_goal; [done|]. case_goal; [done|].
    destruct (job_generation _ _); [|intros [= <- <-]; apply told_start]. intros [= H].
    eapply told_one; [| |exact H]; [|apply told_start]. intros j _. by apply not_failing_status.
Qed.

Lemma told_mark_completed i w cb r1 r2 now clk d : told d none (mark_completed i w cb r1 r2 now clk d).1.
Proof using Type.
  unfold mark_completed. destruct (select_job _ d) as [j|]; [|apply told_start]. cbn zeta. simpl fst.
  set (d1 := update_jobs _ _ d).
  assert (told d none d1) as H1.
  { apply told_update_quiet; [|apply told_start]. intros k _. by apply not_failing_status. }
  assert (forall x, told d none x -> told d none (if cb && bool_decide (j_lane j ∈ Wake.FAIL_BACKOFF_WAKE_LANES)
               then Wake.clear_wake_backoff (j_user j) x else x)) as H2.
  { intros x Hx. case_goal; [|done]. eapply told_appends; [|exact Hx].
    apply appends_clear_backoff. }
  apply H2. eapply told_appends; [apply appends_record_result|exact H1].
Qed.

Lemma told_mark_failed i w e c b now clk d : wf d -> told d none (mark_failed cfg i w e c b now clk d).1.
Proof using Type.
  intros Hwf. unfold mark_failed. destruct (select_job _ d) as [j|] eqn:Es; [|apply told_start].
  destruct (select_job_elem _ _ _ Es) as [Hin Hp]. cbn zeta.
  assert (j_id j = i) as Hid by (unfold owns_live in Hp; by bools).
  pose proof (job_at_unique _ _ Hwf Hin) as Hat. rewrite Hid in Hat.
  set (d1 := if bool_decide (j_lane j ∈ _) then queue_terminal_failure _ _ _ _ _ _ else _).
  assert (told d none d1) as H1.
  { unfold d1. case_goal.
    - eapply told_ended; [done|apply told_start|exact Hat|exact Hp| |reflexivity|reflexivity].
      intros k Hk. unfold owns_live in Hk. by bools.
    - apply (told_update d none); [done| |apply told_start]. intros k Hk Hpk Hf.
      assert (j_id k = i) as Hidk by (unfold owns_live in Hpk; by bools).
      pose proof (job_at_unique _ _ Hwf Hk) as Hk'. rewrite Hidk, Hat in Hk'. injection Hk' as <-.
      bools. by rewrite not_failing_lane in Hf. }
  clearbody d1.
  set (d2 := match b with Some _ => _ | None => d1 end).
  assert (told d none d2) as H2.
  { unfold d2. destruct b as [[[wall base] cap]|]; [|done]. case_goal; [|done].
    eapply told_appends; [apply appends_arm_backoff|exact H1]. }
  clearbody d2. pose proof (appends_record_result (j_user j) (j_lane j) i c clk d2) as H3.
  destruct (Wake.record_result_on_cursor _ _ _ _ _ d2) as [d3 opened].
  pose proof (told_reviewed d none i now d3 (told_appends _ _ _ _ H3 H2)) as H4.
  by destruct (recover_review_runner cfg i now d3) as [d4 rs].
Qed.

Lemma claims_same i w d j k :
  wf d -> job_at i d = Some j -> k ∈ d_jobs d -> claims i w k = true -> k = j.
Proof using Type.
  intros Hwf Hj Hk Hc. pose proof (job_at_unique _ _ Hwf Hk) as Hk'.
  rewrite (claims_id _ _ _ Hc), Hj in Hk'. by injection Hk'.
Qed.

Lemma told_general {A} i w reason now (f : db -> db * option A) d d' r rs a j :
  wf d -> job_at i d = Some j -> ~ j_lane j ∈ ["chat"; "scheduled"] -> (forall d, appends d (f d).1) ->
  general_watchdog_recover cfg i w reason now f d = Some (d', r, rs, a) -> told d none d'.
Proof using Type.
  intros Hwf Hj Hl Hf. unfold general_watchdog_recover.
  destruct (update_one _ _ d) as [d1 [|]] eqn:E1.
  - apply (told_one d none) in E1; [|intros k _; by apply not_failing_status|apply told_start].
    pose proof (appends_recover_runner cfg i now d1) as Ha.
    destruct (recover_review_runner cfg i now d1) as [d2 rs']. intros [= <- _ _ _].
    by eapply told_appends.
  - destruct (update_one (claims i w) _ d) as [d3 [|]] eqn:E3; [|done].
    apply update_one_true in E3. subst d3. set (d3 := update_jobs _ _ d).
    assert (told d none d3) as H3.
    { apply (told_update d none); [done| |apply told_start]. intros k Hk Hc Hfk.
      rewrite (claims_same _ _ _ _ _ Hwf Hj Hk Hc) in Hfk. by rewrite not_failing_lane in Hfk. }
    clearbody d3. pose proof (Hf d3) as H4. destruct (f d3) as [d4 a'].
    pose proof (told_reviewed d none i now d4 (told_appends _ _ _ _ H4 H3)) as H5.
    destruct (recover_review_runner cfg i now d4) as [d5 rs']. by intros [= <- _ _ _].
Qed.

Lemma told_recover_killed ob i w reason d r :
  wf d -> recover_killed_job cfg ob i w reason d = Return (Some r) -> told d none (rc_db r).
Proof using Type.
  intros Hwf. unfold recover_killed_job. destruct (select_job (claims i w) d) as [j|] eqn:Es; [|done].
  destruct (claims_row _ _ _ _ Hwf Es) as (Hj & Hc & _ & _).
  assert (forall rec rs d0, told d none d0 ->
    (d1 ← record_recovery_event i (j_lane j) rec reason d0;
     Return (Some (mkRecovered d1 (j_lane j) rec rs None))) = Return (Some r) ->
    told d none (rc_db r)) as Hfinish.
  { intros rec rs d0 H0 (d1 & He & [= <-])%bind_return. simpl.
    eapply told_appends; [by eapply appends_event|done]. }
  assert (forall d0, told d none d0 ->
    (let '(d1, rs) := recover_review_runner cfg i (ob_now ob) d0 in
     d2 ← record_recovery_event i (j_lane j) r_terminal reason (queue_failure_review cfg i (ob_now ob) d1).1;
     Return (Some (mkRecovered d2 (j_lane j) r_terminal rs None))) = Return (Some r) ->
    told d none (rc_db r)) as Hreviewed.
  { intros d0 H0. pose proof (told_reviewed d none i (ob_now ob) d0 H0) as H1.
    destruct (recover_review_runner cfg i (ob_now ob) d0) as [d1 rs]. by apply Hfinish. }
  case_goal.
  { unfold recover_capture_watchdog. rewrite Hj. case_goal; [|done].
    destruct (general_watchdog_recover _ _ _ _ _ _ _) as [[[[d1 r1] rs] fs]|] eqn:Eg; [|done].
    intros (d2 & He & [= <-])%bind_return. simpl. eapply told_appends; [by eapply appends_event|].
    eapply told_general; [done|exact Hj| | |exact Eg]; [|intros; apply appends_record_crash].
    bools. apply silent_lane; congruence. }
  case_goal; [|case_goal; [|case_goal]].
  - apply Hreviewed. eapply told_ended; [done|apply told_start|exact Hj|exact Hc|apply claims_id|reflexivity|reflexivity].
  - destruct (update_one _ _ d) as [d1 [|]] eqn:Eu.
    + apply (told_one d none) in Eu; [|intros k _; by apply not_failing_status|apply told_start].
      by apply Hfinish.
    + apply Hreviewed. eapply told_ended; [done|apply told_start|exact Hj|exact Hc|apply claims_id|reflexivity|reflexivity].
  - apply Hreviewed. unfold expire_claim. eapply told_appends; [apply appends_resolve_mcp|].
    apply (told_update d none); [done| |apply told_start]. intros k Hk Hck Hfk.
    rewrite (claims_same _ _ _ _ _ Hwf Hj Hk Hck) in Hfk. rewrite not_failing_lane in Hfk; [done|].
    simpl. bools. by apply silent_lane.
  - destruct (general_watchdog_recover _ _ _ _ _ _ _) as [[[[d1 r1] rs] fs]|] eqn:Eg; [|done].
    apply Hfinish. eapply told_general; [done|exact Hj| | |exact Eg]; [bools; by apply silent_lane|reflexivity].
Qed.

Lemma told_settle_all d0 now rows acc :
  wf acc.1 -> Forall (fun j => job_at (j_id j) acc.1 = Some j) rows ->
  told d0 (fun i => exists j, j ∈ rows /\ j_id j = i) acc.1 ->
  told d0 none (foldl (settle_reaped cfg now) acc rows).1.
Proof using Type.
  revert acc. induction rows as [|j rows IH]; intros [d rs] Hwf HF H; simpl in *.
  { intros k Hk Hf. destruct (H k Hk Hf) as [?|[(j & Hj & _)|?]]; [by left|by apply elem_of_nil in Hj|auto]. }
  apply Forall_cons in HF as [Hj HF].
  assert (told d0 (fun i => i = j_id j \/ exists j0, j0 ∈ rows /\ j_id j0 = i) d) as H'.
  { intros k Hk Hf. destruct (H k Hk Hf) as [?|[(x & Hx & <-)|?]]; [auto| |auto].
    apply elem_of_cons in Hx as [->|Hx]; eauto 10. }
  unfold settle_reaped at 2. cbn [fst snd].
  set (d1 := if bool_decide _ then _ else d).
  assert (appends d d1) as A1 by (unfold d1; case_goal; [apply appends_terminal_failure|reflexivity]).
  assert (keeps d d1) as K1 by (unfold d1; case_goal; [apply keeps_terminal_failure|reflexivity]).
  assert (told d0 (fun i => exists j0, j0 ∈ rows /\ j_id j0 = i) d1) as T1.
  { unfold d1. case_goal; [by apply told_outbox|]. intros k Hk Hf.
    destruct (H' k Hk Hf) as [?|[[Hi|?]|?]]; [auto| |auto|auto]. exfalso. bools.
    pose proof (job_at_unique _ _ Hwf Hk) as Hk'. rewrite Hi, Hj in Hk'. injection Hk' as <-.
    by rewrite not_failing_lane in Hf. }
  clearbody d1. destruct (K1 Hwf) as [Hwf1 _].
  pose proof (told_reviewed d0 _ (j_id j) now d1 T1) as T2.
  pose proof (appends_recover_runner cfg (j_id j) now d1) as A2.
  pose proof (keeps_recover_runner cfg (j_id j) now d1 Hwf1) as [Hwf2 _].
  destruct (recover_review_runner cfg (j_id j) now d1) as [d2 rs2]. cbn [fst snd] in *.
  pose proof (appends_failure_review cfg (j_id j) now d2) as A3.
  apply IH; [by apply keeps_failure_review| |exact T2].
  eapply Forall_impl; [exact HF|]. intros k Hk. cbn [fst] in *.
  eapply job_at_appends; [exact A3|]. eapply job_at_appends; [exact A2|]. by eapply job_at_appends.
Qed.

Lemma told_reap_capture ob due c d d' row rs fs :
  wf d -> recover_capture_lease cfg ob due c d = Some (d', row, rs, fs) -> told d none d'.
Proof using Type.
  intros Hwf. unfold recover_capture_lease. destruct (job_at (j_id c) d) as [j|] eqn:Ej; [|done].
  case_goal; [|done]. intros He. eapply told_expire_capture; [done| |exact He|apply told_start]. intros k.
  destruct (job_at_elem _ _ _ Ej) as [Hin _]. rewrite (job_at_unique _ _ Hwf Hin). intros [= <-]. by bools.
Qed.

Lemma told_reap_rows ob due d : wf d -> told d none (reap_rows cfg ob due d).1.1.
Proof using Type.
  intros Hwf. unfold reap_rows.
  set (d1 := update_jobs (reap_requeues cfg due d) _ d).
  assert (keeps d d1) as K1.
  { apply keeps_update. intros j Hj Hp _. apply reap_requeues_owned in Hp. gentle_goal. }
  assert (told d none d1) as T1.
  { apply told_update_quiet; [|apply told_start]. intros k _. by apply not_failing_status. }
  clearbody d1. destruct (K1 Hwf) as [Hwf1 _].
  set (sets := fun k => [SetStatus expired; SetFinished (Some (ob_now ob)); SetAttempts (j_attempts k + 1);
                         SetError (Some (reap_label d1 k))]).
  set (rows := _ <$> select_jobs (reap_expires cfg due) d1).
  set (d2 := update_jobs (reap_expires cfg due) _ d1).
  assert (keeps d1 d2) as K2.
  { apply keeps_update. intros j Hj Hp _. apply reap_expires_active in Hp. gentle_goal. }
  destruct (K2 Hwf1) as [Hwf2 _].
  assert (Forall (fun j => job_at (j_id j) d2 = Some j) rows) as HF.
  { apply Forall_forall. intros r Hr. apply job_at_unique; [done|].
    unfold rows in Hr. apply list_elem_of_fmap in Hr as (j & -> & Hj).
    apply list_elem_of_filter in Hj as [Hp Hj]. unfold d2, update_jobs. simpl.
    apply list_elem_of_fmap. exists j. by rewrite Hp. }
  assert (told d (fun i => exists j, j ∈ rows /\ j_id j = i) d2) as T2.
  { apply (told_update d none); [done| |done]. intros j Hj Hp _.
    exists (apply_assigns (sets j) j). split; [|done]. apply list_elem_of_fmap. exists j. split; [done|].
    by apply list_elem_of_filter. }
  set (d3 := resolve_mcp _ _ d2).
  assert (wf d3) as Hwf3 by by apply keeps_resolve_mcp.
  assert (told d (fun i => exists j, j ∈ rows /\ j_id j = i) d3) as T3 by (eapply told_appends; [apply appends_resolve_mcp|done]).
  assert (Forall (fun j => job_at (j_id j) d3 = Some j) rows) as HF3 by done.
  clearbody d3 rows.
  pose proof (keeps_settle_all cfg (ob_now ob) rows (d3, []) Hwf3) as [Hwf4 _].
  pose proof (told_settle_all d (ob_now ob) rows (d3, []) Hwf3 HF3 T3) as T4.
  by destruct (foldl (settle_reaped cfg (ob_now ob)) (d3, []) rows) as [d4 reviews].
Qed.

Lemma evolves_at d d' i j :
  wf d' -> evolves d d' -> job_at i d = Some j -> exists j', job_at i d' = Some j' /\ row_evolves j j'.
Proof using Type.
  intros Hwf [_ (old & new & E & HF & _)] Hj. destruct (job_at_elem _ _ _ Hj) as [Hin Hid].
  apply list_elem_of_lookup in Hin as [n Hn].
  destruct (Forall2_lookup_l _ _ _ _ _ HF Hn) as (j' & Hn' & Hev). exists j'. split; [|done].
  rewrite <- Hid, <- (re_id _ _ Hev). apply job_at_unique; [done|]. rewrite E. apply elem_of_app.
  left. by eapply list_elem_of_lookup_2.
Qed.

(** The row a preemption loop still has to treat is the locked row of the table. *)
Definition same_row (d : db) (row : job) : Prop :=
  exists k, job_at (j_id row) d = Some k /\ j_user k = j_user row /\ j_lane k = j_lane row.

Lemma same_row_evolves d d' row : wf d' -> evolves d d' -> same_row d row -> same_row d' row.
Proof using Type.
  intros Hwf Hev (k & Hk & Hu & Hl). destruct (evolves_at _ _ _ _ Hwf Hev Hk) as (k' & Hk' & He).
  exists k'. split; [done|]. rewrite (re_user _ _ He), (re_lane _ _ He). done.
Qed.

Lemma told_preempt_row ob row d0 d d' p :
  wf d -> same_row d row -> told d0 none d -> preempt_row cfg ob row d = Return (d', p) -> told d0 none d'.
Proof using Type.
  intros Hwf (k0 & Hk0 & Hu & Hl) H. unfold preempt_row. case_goal; [|case_goal].
  - destruct (expire_overdue_capture cfg ob row d) as [[[[d1 row1] rs] fs]|] eqn:Ee; [|done].
    intros [= <- _]. eapply told_expire_capture; [done| |exact Ee|done].
    intros k. rewrite Hk0. intros [= <-]. bools. congruence.
  - destruct (update_one _ _ d) as [d1 [|]] eqn:E1; [|done]. intros [= <- _].
    eapply told_one; [| |exact E1]; [|done]. intros k _. by apply not_failing_status.
  - destruct (update_one _ _ d) as [d1 [|]] eqn:E1; [|done]. pose proof E1 as Hsel. apply update_one_true in E1.
    subst d1. destruct (String.eqb (j_lane row) "scheduled") eqn:Esch.
    2: { intros [= <- _]. eapply told_one; [| |exact Hsel]; [|done]. intros k _. by apply not_failing_status. }
    set (d2 := queue_terminal_failure _ _ _ _ _ _).
    assert (told d0 none d2) as H2.
    { unfold d2. rewrite <- Hu. unfold update_one in Hsel.
      destruct (select_job _ d) as [k|] eqn:Ek; [|done].
      destruct (select_job_elem _ _ _ Ek) as [Hk Hp].
      assert (k = k0) as ->.
      { bools. pose proof (job_at_unique _ _ Hwf Hk) as A.
        match goal with X : j_id k = _ |- _ => rewrite X, Hk0 in A end. by injection A. }
      eapply (told_ended d0 d _ k0 (fun k => (j_id k =? j_id row) && bool_decide (j_status k = j_status row)
        && bool_decide (j_claimed_by k = j_claimed_by row)));
        [done|done|exact Hk0|exact Hp| |reflexivity|reflexivity]. intros k Hk'. by bools. }
    clearbody d2. pose proof (told_reviewed d0 none (j_id row) (ob_now ob) d2 H2) as H3.
    destruct (recover_review_runner cfg (j_id row) (ob_now ob) d2) as [d3 rs]. by intros [= <- _].
Qed.

Lemma told_preempt_rows ob rows d0 d d' ps :
  wf d -> (forall j, j ∈ rows -> active j = true /\ same_row d j) -> told d0 none d ->
  preempt_rows cfg ob rows d = Return (d', ps) -> told d0 none d'.
Proof using Type.
  revert d d' ps. induction rows as [|row rows IH]; intros d d' ps Hwf Hrows H; simpl; [by intros [= <- _]|].
  intros ([d1 p] & H1 & ([d2 ps'] & H2 & [= <- <-])%bind_return)%bind_return.
  destruct (Hrows row) as [Ha Hs]; [left|].
  destruct (keeps_preempt_row cfg _ _ _ _ _ Ha H1 Hwf) as [Hwf1 Hev].
  eapply IH; [exact Hwf1| |eapply told_preempt_row; [exact Hwf|exact Hs|exact H|exact H1]|exact H2].
  intros j Hj. destruct (Hrows j) as [Haj Hsj]; [by right|]. split; [done|].
  by eapply same_row_evolves.
Qed.

Lemma told_preempt ob user d d' ps :
  wf d -> preempt_active_for_chat cfg ob user d = Return (d', ps) -> told d none d'.
Proof using Type.
  intros Hwf. apply told_preempt_rows; [done| |apply told_start].
  intros j [Hp Hin]%list_elem_of_filter. split; [by bools|]. exists j. split; [by apply job_at_unique|done].
Qed.

Lemma appends_glance user i fp d d' : merge_glance_opt user i fp d = Return d' -> appends d d'.
Proof using Type.
  unfold merge_glance_opt, merge_glance. destruct fp as [f|]; [|by intros [= <-]].
  case_goal; [done|]. case_goal; [done|]. intros [= <-]. 
  destruct (d_glance d !! user) as [[]|]; try (by apply appends_same). case_goal; by apply appends_same.
Qed.

Lemma appends_set_marker user a b c d d' : set_followup_marker user a b c d = Return d' -> appends d d'.
Proof using Type.
  unfold set_followup_marker, Wake.ensure_row. intros H. apply appends_same; revert H;
    (destruct (d_wake d !! user) as [w|] eqn:Ew; [rewrite Ew|case_goal; [|done]];
     intros (? & _ & (? & _ & [= <-])%bind_return)%bind_return; done).
Qed.

Lemma told_merge_marker d0 user succ stream d d' j :
  wf d -> job_at succ d = Some j -> j_status j = pending -> told d0 none d ->
  merge_followup_marker user succ stream d = Return d' -> told d0 none d'.
Proof using Type.
  intros Hwf Hj Hs H. unfold merge_followup_marker. destruct (d_wake d !! user) as [w|]; [|done].
  destruct (w_followup w) as [[[gen source] consumed]|]; [|done].
  destruct (filter _ (d_logs d)); [done|]. intros [= <-].
  set (d1 := set_logs _ d). assert (told d0 none d1) as H1 by (eapply told_appends; [by apply appends_same|exact H]).
  set (d2 := update_jobs _ _ d1). apply (told_appends d0 none d2); [by apply appends_same|].
  apply (told_update d0 none); [done| |exact H1]. intros k Hk Hid Hf. bools.
  pose proof (job_at_unique d k Hwf Hk) as Hk'. rewrite Hid, Hj in Hk'. injection Hk' as <-.
  rewrite not_failing_status in Hf; [done|]. simpl. by rewrite Hs.
Qed.

(** ** The end of a wake *)

(** The state right after the wake row is completed: only that row, the wake
    schedule and the glance changed. *)
Definition wake_done (i now : Z) (r1 r2 : option string) (d d4 : db) : Prop :=
  d_jobs d4 = d_jobs (update_jobs (fun k => j_id k =? i)
    (fun _ => [SetStatus completed; SetFinished (Some now); SetWakeResult r1; SetWakeReason r2]) d) /\
  d_next d4 = d_next d /\ d_failures d4 = d_failures d /\ d_logs d4 = d_logs d.

Definition late_count (user stream : string) (i consumed : Z) (d : db) : Z :=
  Zlen (filter (fun l => late_log user stream i consumed l = true) (d_logs d)).

Lemma logs_record_result user lane i c clk d :
  d_logs (Wake.record_result_on_cursor user lane i c clk d).1 = d_logs d.
Proof using Type. unfold Wake.record_result_on_cursor, Wake.ensure_row. repeat case_goal; done. Qed.

Lemma logs_clear_backoff user d : d_logs (Wake.clear_wake_backoff user d) = d_logs d.
Proof using Type. unfold Wake.clear_wake_backoff, Wake.ensure_row. repeat case_goal; done. Qed.

Lemma glance_frame user i fp d d' :
  merge_glance_opt user i fp d = Return d' ->
  d_jobs d' = d_jobs d /\ d_next d' = d_next d /\ d_failures d' = d_failures d /\ d_logs d' = d_logs d.
Proof using Type.
  unfold merge_glance_opt, merge_glance. destruct fp as [f|]; [|by intros [= <-]].
  case_goal; [done|]. case_goal; [done|]. intros [= <-].
  destruct (d_glance d !! user) as [[]|]; try done. by case_goal.
Qed.

Lemma finish_wake_cases i w og stream consumed cb fp r1 r2 now clk wall d d' b succ :
  wf d -> finish_wake_job i w og stream consumed cb fp r1 r2 now clk wall d = Return (d', b, succ) ->
  (d_jobs d' = d_jobs d /\ d_next d' = d_next d /\ d_failures d' = d_failures d /\ d_logs d' = d_logs d /\ succ = None) \/
  exists j gen d4, job_at i d = Some j /\ job_generation i d = Some gen /\ claims i w j = true /\
    j_lane j = "heartbeat"%string /\ has_generation j gen = true /\ later (j_lease j) wall = true /\ b = true /\
    wake_done i now r1 r2 d d4 /\
    if og <? j_input j then
      let count := late_count (j_user j) stream i (Z.max 0 consumed) d4 in
      exists d5 s d6,
        (if 0 <? count then set_followup_marker (j_user j) i (Z.max 0 consumed) (j_input j - og) d4
         else Return d4) = Return d5 /\
        insert_job (j_user j) "heartbeat" (Some "coalesced_perception_followup"%string) None
          (j_priority j) None (Some gen) now d5 = Return (s, d6) /\
        (if 0 <? count then merge_followup_marker (j_user j) s stream d6 else Return d6) = Return d' /\
        succ = Some s
    else d' = d4 /\ succ = None.
Proof using Type.
  intros Hwf. unfold finish_wake_job. intros (? & _ & H)%bind_return. revert H.
  destruct (job_generation i d) as [gen|] eqn:Eg; [|intros [= <- _ <-]; by left].
  destruct (select_job _ d) as [j|] eqn:Es; [|intros [= <- _ <-]; by left].
  destruct (select_job_elem _ _ _ Es) as [Hin Hp].
  destruct (negb (String.eqb (j_lane j) "heartbeat") || _) eqn:E1; [intros [= <- _ <-]; by left|].
  destruct (bool_decide (j_status j = completed)) eqn:E2.
  { intros (d1 & (G1 & G2 & G3 & G4)%glance_frame & [= <- _ <-])%bind_return. left.
    destruct cb; [|done]. rewrite logs_clear_backoff.
    destruct (same_jobs_clear_backoff (j_user j) d1) as [-> ->].
    assert (d_failures (Wake.clear_wake_backoff (j_user j) d1) = d_failures d1) as ->; [|done].
    unfold Wake.clear_wake_backoff, Wake.ensure_row. repeat case_goal; done. }
  destruct (negb (owned j) || _) eqn:E3; [intros [= <- _ <-]; by left|]. bools. subst i.
  set (d1 := update_jobs _ _ d).
  intros (d2 & (G1 & G2 & G3 & G4)%glance_frame & Hrest)%bind_return. right.
  set (d3 := if cb then _ else d2) in Hrest.
  set (d4 := (Wake.record_result_on_cursor _ _ _ _ _ d3).1) in Hrest.
  assert (wake_done (j_id j) now r1 r2 d d4) as Hdone.
  { destruct (same_jobs_record_result (j_user j) "heartbeat" (j_id j) "" clk d3) as [A1 A2].
    assert (d_jobs d3 = d_jobs d2 /\ d_next d3 = d_next d2 /\ d_failures d3 = d_failures d2 /\ d_logs d3 = d_logs d2)
      as (B1 & B2 & B3 & B4).
    { unfold d3. destruct cb; [|done]. destruct (same_jobs_clear_backoff (j_user j) d2) as [-> ->].
      rewrite logs_clear_backoff. repeat split; [].
      unfold Wake.clear_wake_backoff, Wake.ensure_row. repeat case_goal; done. }
    split; [|split; [|split]]; unfold d4.
    - by rewrite A1, B1, G1.
    - by rewrite A2, B2, G2.
    - transitivity (d_failures d3); [|by rewrite B3, G3].
      unfold Wake.record_result_on_cursor, Wake.ensure_row. repeat case_goal; done.
    - by rewrite logs_record_result, B4, G4. }
  exists j, gen, d4. clearbody d4 d3. split; [by apply job_at_unique|]. split; [done|].
  split; [unfold claims; by rewrite Z.eqb_refl, H0, H1|]. split; [done|]. split; [done|]. split; [done|].
  destruct (og <? j_input j) eqn:El; [|by injection Hrest as <- <- <-].
  apply bind_return in Hrest as (d5 & H5 & Hrest).
  apply bind_return in Hrest as ([s d6] & H6 & Hrest).
  apply bind_return in Hrest as (d7 & H7 & [= <- <- <-]).
  split; [done|]. split; [done|]. by exists d5, s, d6.
Qed.

Lemma wake_done_keeps i now r1 r2 d d4 j :
  wf d -> job_at i d = Some j -> owned j = true -> wake_done i now r1 r2 d d4 -> keeps d d4.
Proof using Type.
  intros Hwf Hj Ho (H1 & H2 & _ & _).
  transitivity (update_jobs (fun k => j_id k =? i) (fun _ => [SetStatus completed; SetFinished (Some now);
    SetWakeResult r1; SetWakeReason r2]) d); [|by apply keeps_same_jobs].
  apply keeps_update. intros k Hk Hp _. bools.
  pose proof (job_at_unique _ _ Hwf Hk) as A. rewrite Hp, Hj in A. injection A as <-.
  assert (active j = true) as Ha by by apply owned_active. gentle_goal.
Qed.

Lemma told_finish_wake i w og stream consumed cb fp r1 r2 now clk wall d d' b succ :
  wf d -> finish_wake_job i w og stream consumed cb fp r1 r2 now clk wall d = Return (d', b, succ) ->
  told d none d'.
Proof using Type.
  intros Hwf H. destruct (finish_wake_cases _ _ _ _ _ _ _ _ _ _ _ _ _ _ _ _ Hwf H)
    as [(H1 & H2 & H3 & _)|(j & gen & d4 & Hj & _ & Hc & _ & _ & _ & _ & Hdone & Hrest)].
  { eapply told_appends; [|apply told_start]. by apply appends_same. }
  assert (owned j = true) as Ho by (unfold claims in Hc; by bools).
  destruct (wake_done_keeps _ _ _ _ _ _ _ Hwf Hj Ho Hdone Hwf) as [Hwf4 _].
  destruct Hdone as (E4 & N4 & F4 & _).
  assert (told d none d4) as T4.
  { eapply told_appends; [eapply appends_same; [split; [exact E4|exact N4]|exact F4]|].
    apply told_update_quiet; [|apply told_start]. intros k _. by apply not_failing_status. }
  destruct (og <? j_input j); [|by destruct Hrest as [-> _]].
  destruct Hrest as (d5 & s & d6 & H5 & H6 & H7 & _).
  assert (told d none d5 /\ wf d5) as [T5 Hwf5].
  { revert H5. case_goal; [|by intros [= <-]]. intros H5. split.
    - eapply told_appends; [by eapply appends_set_marker|done].
    - by apply (keeps_set_marker _ _ _ _ _ _ H5). }
  assert (told d none d6) as T6 by (eapply told_appends; [by eapply appends_insert|done]).
  pose proof (proj1 (keeps_insert _ _ _ _ _ _ _ _ _ _ _ H6 Hwf5)) as Hwf6.
  revert H7. case_goal; [|by intros [= <-]]. intros H7.
  apply insert_job_spec in H6 as (_ & -> & _ & Hjobs).
  eapply told_merge_marker; [exact Hwf6| | |exact T6|exact H7].
  - change (d_next d5) with (j_id (new_row (d_next d5) (j_user j) "heartbeat"
      (Some "coalesced_perception_followup"%string) None (j_priority j) None (Some gen) now)) at 1.
    apply job_at_unique; [done|]. rewrite Hjobs. apply elem_of_app. right. left.
  - done.
Qed.

Lemma told_claim_review user runner w now d : told d none (claim_failure_review cfg user runner w now d).1.
Proof using Type.
  eapply told_appends; [|apply told_start].
  unfold claim_failure_review. repeat case_goal; by apply appends_same.
Qed.

Lemma told_reconcile limit now d d' n :
  reconcile_failure_review_runners cfg limit now d = Return (d', n) -> told d none d'.
Proof using Type.
  intros H. eapply told_appends; [|apply told_start]. revert H.
  unfold reconcile_failure_review_runners. case_goal; [done|]. case_goal; [by intros [= <- <-]|].
  intros [= H]. change d' with (d', n).1. rewrite <- H. generalize (take (Z.to_nat limit)
    (users_by_oldest (filter (fun r => wants_runner d r = true) (d_reviews d)))). clear.
  intros us. change d with (d, 0).1 at 1. generalize (d, 0).
  induction us as [|user us IH]; intros acc; simpl; [reflexivity|].
  etransitivity; [|apply IH]. pose proof (appends_ensure_runner cfg user now acc.1) as H.
  by destruct (ensure_review_runner cfg user now acc.1).
Qed.

(** An ending fails no chat turn and no reminder. *)
Lemma told_ends d d' : wf d -> ends d d' -> told d none d'.
Proof using Type.
  intros Hwf H.
  assert (forall j, j ∈ d_jobs d' -> failing j = true -> j ∈ d_jobs d) as Hq; [|intros j Hj Hf; left; by apply Hq].
  induction H as [d d' [H _]|p sets d H|? ? ? ? ? ? ? ? d i d' H|d d1 d' H1 IH1 H2 IH2]; intros j Hj Hf.
  - by rewrite H in Hj.
  - simpl in Hj. apply list_elem_of_fmap in Hj as (k & -> & Hk). destruct (p k) eqn:Ep; [|done]. exfalso.
    destruct (H k Hk Hwf Ep) as [_ _ _ _ _ Hl]. unfold failing in Hf. bools.
    destruct (apply_assigns_identity (sets k) k) as (_ & _ & El & _). rewrite El, Hl in * by done. set_solver.
  - apply insert_job_spec in H as (_ & _ & _ & E). rewrite E in Hj.
    apply elem_of_app in Hj as [?|Hj]; [done|]. apply list_elem_of_singleton in Hj as ->. exfalso. revert Hf.
    by rewrite not_failing_status.
  - destruct (keeps_ends _ _ H1 Hwf) as [Hwf1 _]. apply (IH1 Hwf); [|done]. by apply (IH2 Hwf1).
Qed.

Lemma told_step d d' : wf d -> qstep cfg d d' -> told d none d'.
Proof using Type.
  intros Hwf. destruct 1; try (apply told_ends; [done|by eauto with ends]).
  - destruct H as [H _]. intros j Hj _. left. by rewrite <- H.
  - by eapply told_enqueue.
  - by eapply told_context_log.
  - by eapply told_enqueue_capture.
  - pose proof (told_claim_sql worker i gen now clk d) as Hk. by rewrite H in Hk.
  - pose proof (told_claim_sql worker i gen now clk d) as Hk. by rewrite H in Hk.
  - by eapply told_claim_once.
  - apply told_owner_updates.
  - apply told_owner_updates.
  - apply told_mark_completed.
  - by apply told_mark_failed.
  - apply told_owner_updates.
  - by eapply told_owner_updates.
  - apply told_owner_updates.
  - by eapply told_recover_killed.
  - by apply told_reap_rows.
  - by eapply told_reap_capture.
  - by eapply told_preempt.
  - by eapply told_finish_wake.
  - apply told_claim_review.
  - by eapply told_reconcile.
Qed.

Lemma told_mark_expired i e now d : wf d -> told d none (mark_expired cfg i e now d).1.
Proof using Type.
  intros Hwf. unfold mark_expired. destruct (job_at i d) as [j|] eqn:Ej; [|apply told_start].
  cbn zeta. set (d1 := if bool_decide (j_lane j ∈ _) then _ else _).
  assert (told d none d1) as H1.
  { unfold d1. case_goal.
    - eapply (told_ended d d i j (fun k => j_id k =? i));
        [done|apply told_start|exact Ej| | |reflexivity|reflexivity].
      + apply Z.eqb_eq. by destruct (job_at_elem _ _ _ Ej).
      + intros k Hk. by bools.
    - apply (told_update d none); [done| |apply told_start]. intros k Hk Hp Hf. bools.
      pose proof (job_at_unique _ _ Hwf Hk) as A. rewrite Hp, Ej in A. injection A as <-.
      by rewrite not_failing_lane in Hf. }
  clearbody d1. pose proof (told_reviewed d none i now d1 H1) as H2.
  by destruct (recover_review_runner cfg i now d1).
Qed.
End Told.

(** C2: no user-visible failure is silent. Whatever transaction commits, a
    chat turn or reminder that is failed or expired afterwards either was
    already so, unchanged, or has its row in the failure outbox written by that
    same transaction, from which the user's notice is sent. *)
Theorem no_silent_failure cfg d d' j :
  reachable cfg d -> qstep cfg d d' \/ (exists i e now, d' = (mark_expired cfg i e now d).1) ->
  j ∈ d_jobs d' -> failing j = true -> j ∈ d_jobs d \/ recorded (j_id j) d'.
Proof.
  intros Hr Hs Hj Hf. pose proof (reachable_wf _ _ Hr) as Hwf.
  assert (told d none d') as T.
  { destruct Hs as [Hs|(i & e & now & ->)]; [by eapply told_step|by apply told_mark_expired]. }
  destruct (T j Hj Hf) as [?|[[]|?]]; auto.
Qed.

(** The claimed chat turn of the sample misses its lease. *)
Lemma no_silent_failure_witness :
  exists j, j ∈ d_jobs (reap_rows sample_cfg (at_time 10000) 10000 claimed_db).1.1 /\
    failing j = true /\
    (j ∈ d_jobs claimed_db \/ recorded (j_id j) (reap_rows sample_cfg (at_time 10000) 10000 claimed_db).1.1).
Proof.
  set (d' := (reap_rows sample_cfg (at_time 10000) 10000 claimed_db).1.1).
  assert (is_Some (job_at 2 d')) as [j Hj] by (vm_compute; eauto).
  assert (failing <$> job_at 2 d' = Some true) as Hf by (vm_compute; reflexivity).
  rewrite Hj in Hf. simpl in Hf. injection Hf as Hf. destruct (job_at_elem _ _ _ Hj) as [Hin _].
  exists j. split; [exact Hin|]. split; [exact Hf|].
  apply (no_silent_failure sample_cfg claimed_db d' j claimed_db_reachable); [left; apply st_reap_rows|exact Hin|exact Hf].
Defined.
End Delivery.
