(* ===== verification/JobReplay.v ===== *)
(** * Replays and successors in the job queue

    A wake that ends hands the inputs it did not read to one successor; a turn
    is replayed as a whole only when it left no durable or remote write. *)

From S2P Require Import Prelude PyValue CaptureFailure JobTable WakeSchedule JobQueue JobInv JobFinish JobSafety JobClaim JobDelivery.
Local Open Scope Z_scope.

Module Replay.
Import Queue Inv Finish Safety Claiming Delivery.

(** ** Late inputs of a wake *)

Definition unmarked (user : string) (d : db) : Prop :=
  forall r, d_wake d !! user = Some r -> w_followup r = None.

(** A log row moved to the successor. *)
Definition rebind (user stream : string) (source consumed successor : Z) (l : log_row) : log_row :=
  if late_log user stream source consumed l
  then mkLog (lg_user l) (lg_stream l) (lg_seq l) successor else l.

Lemma rebind_none user stream i c s logs :
  0 <? Zlen (filter (fun l => late_log user stream i c l = true) logs) = false ->
  rebind user stream i c s <$> logs = logs.
Proof.
  intros H. induction logs as [|l logs IH]; [done|]. rewrite fmap_cons. rewrite filter_cons in H.
  destruct (decide _) as [Hl|Hl]; [bools; unfold Zlen in H; simpl in H; lia|].
  rewrite IH by done. unfold rebind. destruct (late_log user stream i c l); [done|done].
Qed.

Lemma unmarked_record_result user lane i c clk d :
  unmarked user d -> unmarked user (Wake.record_result_on_cursor user lane i c clk d).1.
Proof.
  intros H. unfold Wake.record_result_on_cursor. case_goal; [done|].
  set (d1 := if bool_decide _ then _ else d).
  assert (unmarked user d1) as H1.
  { unfold d1, Wake.ensure_row. repeat case_goal; [done| |done]. intros r. simpl.
    rewrite lookup_insert_eq. by intros [= <-]. }
  clearbody d1. destruct (d_wake d1 !! user) as [w|] eqn:Ew; [|done]. case_goal; [|done].
  intros r. simpl. rewrite lookup_insert_eq. intros [= <-]. simpl. by apply H1.
Qed.

Lemma unmarked_clear user d : unmarked user d -> unmarked user (Wake.clear_wake_backoff user d).
Proof.
  intros H. unfold Wake.clear_wake_backoff. destruct (d_wake d !! user) as [w|] eqn:Ew; [|done].
  intros r. simpl. rewrite lookup_insert_eq. intros [= <-]. simpl. by apply H.
Qed.

Lemma set_marker_total user i c n d :
  unmarked user d -> exists d', set_followup_marker user i c n d = Return d' /\
    d_jobs d' = d_jobs d /\ d_next d' = d_next d /\ d_logs d' = d_logs d /\
    exists w, d_wake d' !! user = Some w /\ w_followup w = Some (Z.max 1 n, i, Z.max 0 c).
Proof.
  intros H. unfold set_followup_marker, Wake.ensure_row. destruct (d_wake d !! user) as [w|] eqn:Ew.
  - rewrite Ew, (H w Ew). simpl. eexists. split; [done|]. simpl. repeat split.
    eexists. by rewrite lookup_insert_eq.
  - simpl. rewrite lookup_insert_eq. simpl. eexists. split; [done|]. simpl. repeat split.
    eexists. by rewrite lookup_insert_eq.
Qed.

(** The successor's row. *)
Definition successor_row (s : Z) (user : string) (prio gen now input : Z) : job :=
  apply_assigns [SetInput input]
    (new_row s user "heartbeat" (Some "coalesced_perception_followup"%string) None prio None (Some gen) now).

Lemma hand_over user stream i c n prio gen now d :
  wf d -> key_taken user "heartbeat" d = false -> unmarked user d -> 0 <= c ->
  let count := late_count user stream i c d in
  exists d', (d5 ← (if 0 <? count then set_followup_marker user i c n d else Return d);
              '(succ, d6) ← insert_job user "heartbeat" (Some "coalesced_perception_followup"%string) None
                              prio None (Some gen) now d5;
              d7 ← (if 0 <? count then merge_followup_marker user succ stream d6 else Return d6);
              Return (d7, true, Some succ)) = Return (d', true, Some (d_next d)) /\
    d_logs d' = rebind user stream i c (d_next d) <$> d_logs d /\
    d_jobs d' = d_jobs d ++ [successor_row (d_next d) user prio gen now
                               (if 0 <? count then Z.max 1 n else 0)].
Proof.
  intros Hwf Hk Hm Hc count. destruct (0 <? count) eqn:Ec.
  - destruct (set_marker_total user i c n d Hm) as (d5 & H5 & J5 & N5 & L5 & w & Hw & Hf).
    rewrite H5. cbn [mbind outcome_bind]. unfold insert_job.
    assert (key_taken user "heartbeat" d5 = false) as -> by (unfold key_taken; by rewrite J5).
    cbn [mbind outcome_bind]. unfold merge_followup_marker. simpl d_wake. rewrite Hw, Hf.
    rewrite (Z.max_r 0 c) by done. rewrite (Z.max_r 0 c) by done. simpl d_logs. rewrite L5.
    destruct (filter (fun l => late_log user stream i c l = true) (d_logs d)) as [|l0 ls] eqn:El.
    { unfold count, late_count in Ec. by rewrite El in Ec. }
    eexists. split; [by rewrite N5|]. split; [simpl; rewrite ?N5; done|].
    simpl. rewrite J5, ?N5, fmap_app. simpl. rewrite Z.eqb_refl. f_equal.
    + rewrite <- (list_fmap_id (d_jobs d)) at 2. apply list_fmap_ext. intros m j Hj.
      apply list_elem_of_lookup_2 in Hj. pose proof (wf_next _ Hwf j Hj).
      rewrite (proj2 (Z.eqb_neq _ _)); [done|lia].
    + unfold successor_row. simpl. do 2 f_equal. lia.
  - cbn [mbind outcome_bind]. unfold insert_job. rewrite Hk. cbn [mbind outcome_bind].
    eexists. split; [done|]. split; [|done]. simpl. symmetry. by apply rebind_none.
Qed.

Lemma job_at_app d d' new i j : d_jobs d' = d_jobs d ++ new -> job_at i d = Some j -> job_at i d' = Some j.
Proof.
  intros E. unfold job_at. rewrite E. clear E.
  induction (d_jobs d) as [|k l IH]; simpl; [done|]. by destruct (j_id k =? i).
Qed.

Lemma job_at_next d : wf d -> job_at (d_next d) d = None.
Proof.
  intros Hwf. destruct (job_at (d_next d) d) as [j|] eqn:E; [|done].
  destruct (job_at_elem _ _ _ E) as [Hin Hid]. pose proof (wf_next _ Hwf j Hin). lia.
Qed.

Lemma job_at_last d d' i j :
  job_at i d = None -> j_id j = i -> d_jobs d' = d_jobs d ++ [j] -> job_at i d' = Some j.
Proof.
  intros H Hid E. unfold job_at in *. rewrite E. clear E.
  induction (d_jobs d) as [|k l IH]; simpl in *; [by rewrite (proj2 (Z.eqb_eq _ _) Hid)|].
  by destruct (j_id k =? i); [|apply IH].
Qed.

Lemma select_job_unique p d j :
  wf d -> job_at (j_id j) d = Some j -> (forall k, p k = true -> j_id k = j_id j) -> p j = true ->
  select_job p d = Some j.
Proof.
  intros Hwf Hj Hid Hp. destruct (job_at_elem _ _ _ Hj) as [Hin _].
  destruct (select_job p d) as [k|] eqn:Es.
  - destruct (select_job_elem _ _ _ Es) as [Hk Hpk].
    pose proof (job_at_unique _ _ Hwf Hk) as A. by rewrite (Hid _ Hpk), Hj in A.
  - exfalso. unfold select_job, select_jobs in Es. apply head_None in Es.
    assert (j ∈ []) as Hn; [|by apply elem_of_nil in Hn]. rewrite <- Es. by apply list_elem_of_filter.
Qed.

(** The heartbeat key is free once its only active row is completed. *)
Lemma wake_key_freed i now r1 r2 d d4 j :
  wf d -> job_at i d = Some j -> active j = true -> wake_done i now r1 r2 d d4 ->
  key_taken (j_user j) (j_lane j) d4 = false.
Proof.
  intros Hwf Hj Ha (E4 & _). destruct (job_at_elem _ _ _ Hj) as [Hin Hid]. subst i.
  apply not_true_iff_false. intros (k & Hk & Hu & Hl & Hka)%key_taken_true. rewrite E4 in Hk.
  apply list_elem_of_fmap in Hk as (k0 & -> & Hk0). destruct (j_id k0 =? j_id j) eqn:Ek; [done|].
  apply Z.eqb_neq in Ek. apply Ek. f_equal.
  eapply (NoDup_fmap_filter_inj job_key active); [exact (wf_single _ Hwf)|done|done|done|done|].
  unfold job_key. congruence.
Qed.

(** A fingerprint the call accepts: 64 hex digits, of a row with a positive key. *)
Definition glance_ok (i : Z) (fp : option string) : Prop :=
  match fp with Some f => valid_fingerprint f = true /\ 0 < i | None => True end.

Lemma glance_total user i fp d :
  glance_ok i fp -> exists d', merge_glance_opt user i fp d = Return d' /\ d_wake d' = d_wake d.
Proof.
  unfold merge_glance_opt, merge_glance. destruct fp as [f|]; [|by eauto]. intros [Hf Hi].
  rewrite Hf. cbn [negb]. rewrite (proj2 (Z.leb_gt _ _)) by done. eexists. split; [done|].
  repeat case_goal; done.
Qed.

(** What the call does for a live claim, up to the hand-over. *)
Lemma finish_wake_live i w og stream consumed cb fp r1 r2 now clk wall d j gen :
  wf d -> job_at i d = Some j -> claims i w j = true -> j_lane j = "heartbeat"%string ->
  v2_generation (j_user j) d = Some gen -> j_generation j = Some gen ->
  later (j_lease j) wall = true -> unmarked (j_user j) d -> glance_ok i fp ->
  exists d4, wake_done i now r1 r2 d d4 /\ unmarked (j_user j) d4 /\
    finish_wake_job i w og stream consumed cb fp r1 r2 now clk wall d =
    if og <? j_input j then
      let count := late_count (j_user j) stream i (Z.max 0 consumed) d4 in
      d5 ← (if 0 <? count
            then set_followup_marker (j_user j) i (Z.max 0 consumed) (j_input j - og) d4 else Return d4);
      '(succ, d6) ← insert_job (j_user j) "heartbeat" (Some "coalesced_perception_followup"%string) None
                      (j_priority j) None (Some gen) now d5;
      d7 ← (if 0 <? count then merge_followup_marker (j_user j) succ stream d6 else Return d6);
      Return (d7, true, Some succ)
    else Return (d4, true, None).
Proof.
  intros Hwf Hj Hc Hl Hg Hjg Hlease Hm Hfp.
  assert (owned j = true /\ is_owner j w = true) as [Ho How] by (unfold claims in Hc; by bools).
  unfold finish_wake_job.
  assert (match fp with
          | Some f => if valid_fingerprint f then Return tt
                      else Raise (ValueError "completed perception glance fingerprint is invalid")
          | None => Return tt end = Return tt) as ->
    by (destruct fp as [f|]; [by destruct Hfp as [-> _]|done]).
  cbn [mbind outcome_bind]. unfold job_generation. rewrite Hj, Hg.
  destruct (job_at_elem _ _ _ Hj) as [_ Hid]. pose proof Hj as Hj'. rewrite <- Hid in Hj'.
  rewrite (select_job_unique _ _ _ Hwf Hj'); [|intros k Hk; bools; congruence|by rewrite (proj2 (Z.eqb_eq _ _) Hid), How].
  rewrite Hl. rewrite String.eqb_refl. unfold has_generation. rewrite bool_decide_true by done.
  cbn [negb orb]. rewrite bool_decide_false by (unfold owned in Ho; by destruct (j_status j)).
  rewrite Ho, Hlease. cbn [negb orb].
  set (d0 := update_jobs _ _ d). destruct (glance_total (j_user j) i fp d0 Hfp) as (d1 & Hg1 & Hw1).
  destruct (glance_frame _ _ _ _ _ Hg1) as (G1 & G2 & G3 & G4). rewrite Hg1. cbn [mbind outcome_bind].
  set (d3 := if cb then _ else d1). set (d4 := (Wake.record_result_on_cursor _ _ _ _ _ d3).1).
  exists d4. split; [|split; [|done]].
  - destruct (same_jobs_record_result (j_user j) "heartbeat" i "" clk d3) as [A1 A2].
    unfold wake_done, d4. rewrite A1, A2, logs_record_result. unfold d3.
    assert (forall x, d_failures (Wake.record_result_on_cursor (j_user j) "heartbeat" i "" clk x).1 = d_failures x) as ->
      by (intros x; unfold Wake.record_result_on_cursor, Wake.ensure_row; repeat case_goal; done).
    destruct cb; [|by rewrite G1, G2, G3, G4]. destruct (same_jobs_clear_backoff (j_user j) d1) as [-> ->].
    rewrite logs_clear_backoff, G1, G2, G4. repeat split; [].
    transitivity (d_failures d1); [unfold Wake.clear_wake_backoff; repeat case_goal; done|exact G3].
  - apply unmarked_record_result. assert (unmarked (j_user j) d1) as Hm1 by (intros r; rewrite Hw1; apply Hm).
    unfold d3. destruct cb; [by apply unmarked_clear|exact Hm1].
Qed.

(** C29: completing a live heartbeat loses no input. For the owner of a row of
    the current generation, with no follow-up marker left over and a well-formed
    fingerprint if any, the call succeeds; when the row counted inputs beyond the
    [og] the worker observed, exactly one pending successor of the same user and
    generation is created, every context row after the consumed cursor is bound
    to it and no other row is touched, and its input count covers them; when it
    counted none, there is no successor and the context rows stay as they are. *)
Theorem late_inputs_reach_successor cfg i w og stream consumed cb fp r1 r2 now clk wall d j gen :
  reachable cfg d -> job_at i d = Some j -> claims i w j = true -> j_lane j = "heartbeat"%string ->
  v2_generation (j_user j) d = Some gen -> j_generation j = Some gen ->
  later (j_lease j) wall = true -> unmarked (j_user j) d -> glance_ok i fp ->
  exists d' succ, finish_wake_job i w og stream consumed cb fp r1 r2 now clk wall d
                  = Return (d', true, succ) /\
    (exists j', job_at i d' = Some j' /\ j_status j' = completed) /\
    (if og <? j_input j then
       exists s, succ = Some s /\ job_at s d = None /\
         job_at s d' = Some (successor_row s (j_user j) (j_priority j) gen now
           (if 0 <? late_count (j_user j) stream i (Z.max 0 consumed) d
            then Z.max 1 (j_input j - og) else 0)) /\
         d_logs d' = rebind (j_user j) stream i (Z.max 0 consumed) s <$> d_logs d
     else succ = None /\ d_logs d' = d_logs d).
Proof.
  intros Hr Hj Hc Hl Hg Hjg Hlease Hm Hfp. pose proof (reachable_wf _ _ Hr) as Hwf.
  assert (owned j = true) as Ho by (unfold claims in Hc; by bools).
  destruct (finish_wake_live i w og stream consumed cb fp r1 r2 now clk wall d j gen) as (d4 & Hdone & Hm4 & ->);
    [done..|].
  destruct (wake_done_keeps _ _ _ _ _ _ _ Hwf Hj Ho Hdone Hwf) as [Hwf4 _].
  pose proof (wake_key_freed _ _ _ _ _ _ _ Hwf Hj (owned_active _ Ho) Hdone) as Hfree. rewrite Hl in Hfree.
  destruct Hdone as (E4 & N4 & _ & L4).
  assert (job_at i d4 = Some (apply_assigns [SetStatus completed; SetFinished (Some now);
            SetWakeResult r1; SetWakeReason r2] j)) as Hat.
  { unfold job_at. rewrite E4. destruct (job_at_elem _ _ _ Hj) as [_ Hid].
    apply (job_at_update_id i j (fun _ => [SetStatus completed; SetFinished (Some now);
      SetWakeResult r1; SetWakeReason r2])); [done|done|by apply Z.eqb_eq|intros k Hk; by bools]. }
  destruct (og <? j_input j).
  - destruct (hand_over (j_user j) stream i (Z.max 0 consumed) (j_input j - og) (j_priority j) gen now d4
                Hwf4 Hfree Hm4) as (d' & Hrun & Hlogs & Hjobs); [lia|].
    exists d', (Some (d_next d4)). split; [exact Hrun|]. split.
    + eexists. split; [exact (job_at_app _ _ _ _ _ Hjobs Hat)|done].
    + exists (d_next d4). split; [done|]. rewrite N4 in *. split; [by apply job_at_next|].
      unfold late_count in *. rewrite L4 in *. split; [|exact Hlogs].
      apply (job_at_last d4 d'); [|done|exact Hjobs]. rewrite <- N4. by apply job_at_next.
  - exists d4, None. split; [done|]. split; [by eexists|done].
Qed.

(** A heartbeat is claimed and a second perception input arrives while it runs. *)
Definition woken_db : db :=
  let run o d := match o with Return (_, _, d') => d' | Raise _ => d end in
  let input t seq d := run (enqueue_job_with_context_log sample_cfg (at_time t) "u" "heartbeat" None None "t"
                              "perception" None seq d) d in
  let d := input 10 1 empty_db in
  let d := match claim_sql sample_cfg "w:wake-0:1" 1 4 12 12 d with Claimed _ d' => d' | _ => d end in
  input 13 2 d.

Lemma reachable_input cfg ob user lane reason trace fresh stream prio seq d :
  reachable cfg d ->
  reachable cfg (match enqueue_job_with_context_log cfg ob user lane reason trace fresh stream prio seq d with
                 | Return (_, _, d') => d' | Raise _ => d end).
Proof.
  intros H. destruct (enqueue_job_with_context_log _ _ _ _ _ _ _ _ _ _ d) as [[[i m] d']|e] eqn:E; [|done].
  eapply reach_step; [exact H|by eapply st_enqueue_log].
Qed.

Lemma reachable_claim cfg worker i gen now clk d :
  reachable cfg d ->
  reachable cfg (match claim_sql cfg worker i gen now clk d with Claimed _ d' => d' | _ => d end).
Proof.
  intros H. destruct (claim_sql cfg worker i gen now clk d) as [|d'|j d'] eqn:E; [done|done|].
  eapply reach_step; [exact H|by eapply st_claim].
Qed.

Lemma woken_db_reachable : reachable sample_cfg woken_db.
Proof. unfold woken_db. by repeat first [apply reachable_input|apply reachable_claim|apply reach_init]. Qed.

Lemma late_inputs_reach_successor_witness :
  exists d' k, finish_wake_job 1 "w:wake-0:1" 0 "perception" 1 true None None None 20 20 20 woken_db
               = Return (d', true, Some 2) /\ job_at 2 d' = Some k /\ j_input k = 1 /\
               lg_job <$> d_logs d' = [1; 2].
Proof.
  assert (is_Some (job_at 1 woken_db)) as [j Hj] by (vm_compute; eauto).
  assert ((fun j => (j_user j, j_lane j, j_generation j, j_input j, claims 1 "w:wake-0:1" j, later (j_lease j) 20))
            <$> job_at 1 woken_db = Some ("u", "heartbeat", Some 4, 1, true, true)%string) as P by (vm_compute; reflexivity).
  rewrite Hj in P. simpl in P. injection P as Pu Pl Pg Pi Pc Pt.
  destruct (late_inputs_reach_successor sample_cfg 1 "w:wake-0:1" 0 "perception" 1 true None None None 20 20 20 woken_db j 4)
    as (d' & succ & Hrun & _ & Hlate); try done.
  - exact woken_db_reachable.
  - rewrite Pu. vm_compute. reflexivity.
  - rewrite Pi, Pu in Hlate. cbn [Z.ltb Z.compare] in Hlate. destruct Hlate as (s & -> & _ & Hs & Hlogs).
    assert ((fun o => match o with Return (_, _, Some s) => s | _ => 0 end)
      (finish_wake_job 1 "w:wake-0:1" 0 "perception" 1 true None None None 20 20 20 woken_db) = 2) as E2
      by (vm_compute; reflexivity).
    rewrite Hrun in E2. simpl in E2. subst s. eexists d', _. split; [exact Hrun|]. split; [exact Hs|].
    split; [vm_compute; reflexivity|]. rewrite Hlogs. vm_compute. reflexivity.
Defined.

(** ** Whole-turn replay *)

(** Rows that were not pending stay so. *)
Definition calm (d d' : db) : Prop :=
  forall i j, job_at i d = Some j -> j_status j <> pending ->
  exists j', job_at i d' = Some j' /\ j_status j' <> pending /\ j_lane j' = j_lane j.

#[global] Instance calm_preorder : PreOrder calm.
Proof.
  split; [intros d i j Hj Hs; eauto|]. intros a b c Hab Hbc i j Hj Hs.
  destruct (Hab i j Hj Hs) as (j1 & Hj1 & Hs1 & Hl1). destruct (Hbc i j1 Hj1 Hs1) as (j2 & Hj2 & Hs2 & Hl2).
  exists j2. split; [done|]. split; [done|congruence].
Qed.

Lemma calm_appends d d' : appends d d' -> calm d d'.
Proof. intros H i j Hj Hs. exists j. split; [by eapply job_at_appends|done]. Qed.

Lemma job_at_update p sets d i :
  job_at i (update_jobs p sets d) = (fun j => if p j then apply_assigns (sets j) j else j) <$> job_at i d.
Proof.
  unfold job_at, update_jobs. simpl. induction (d_jobs d) as [|k l IH]; [done|]. simpl.
  assert (j_id (if p k then apply_assigns (sets k) k else k) = j_id k) as ->.
  { case_goal; [|done]. by destruct (apply_assigns_identity (sets k) k). }
  destruct (j_id k =? i); [done|exact IH].
Qed.

Lemma calm_update p sets d :
  (forall j, p j = true -> j_status (apply_assigns (sets j) j) <> pending) -> calm d (update_jobs p sets d).
Proof.
  intros Hq i j Hj Hs. rewrite job_at_update, Hj. simpl. eexists. split; [done|]. case_goal; [|done].
  split; [by apply Hq|]. by destruct (apply_assigns_identity (sets j) j) as (_ & _ & -> & _).
Qed.

(** A row that came back to [pending], and the update that brought it back. *)
Lemma requeued_by p sets d d' i j j' :
  calm (update_jobs p sets d) d' -> job_at i d = Some j -> owned j = true ->
  job_at i d' = Some j' -> j_status j' = pending -> p j = true.
Proof.
  intros Hc Hj Ho Hj' Hs. destruct (p j) eqn:Ep; [done|]. exfalso.
  destruct (Hc i j) as (k & Hk & Hks & _); [|unfold owned in Ho; by destruct (j_status j)|].
  - rewrite job_at_update, Hj. simpl. by rewrite Ep.
  - rewrite Hj' in Hk. injection Hk as <-. done.
Qed.

Lemma calm_absurd d d' i j j' :
  calm d d' -> job_at i d = Some j -> owned j = true -> job_at i d' = Some j' -> j_status j' = pending -> False.
Proof.
  intros Hc Hj Ho Hj' Hs. destruct (Hc i j Hj) as (k & Hk & Hks & _).
  - unfold owned in Ho. by destruct (j_status j).
  - rewrite Hj' in Hk. by injection Hk as <-.
Qed.

(** The evidence of writes is neither lost nor forged by a recovery. *)
Definition evidence (d d' : db) : Prop :=
  d_effects d' = d_effects d /\ mcp_job <$> d_mcp d' = mcp_job <$> d_mcp d.

#[global] Instance evidence_preorder : PreOrder evidence.
Proof. split; [done|]. intros a b c [H1 H2] [H3 H4]. split; congruence. Qed.

Lemma pristine_evidence i d d' : evidence d d' -> pristine i d' = pristine i d.
Proof.
  intros [H1 H2]. unfold pristine. rewrite H1. f_equal. f_equal.
  assert (forall l, existsb (fun a => mcp_job a =? i) l = existsb (fun k => k =? i) (mcp_job <$> l)) as H.
  { induction l as [|a l IH]; [done|]. simpl. by rewrite IH. }
  by rewrite !H, H2.
Qed.

Lemma evidence_resolve hit clk d : evidence d (resolve_mcp hit clk d).
Proof.
  split; [done|]. unfold resolve_mcp. simpl. rewrite <- list_fmap_compose. apply list_fmap_ext.
  intros n a _. simpl. by case_goal.
Qed.

Section Evidence.
Context (cfg : config).

Lemma evidence_insert user lane reason trace prio qd gen now d i d' :
  insert_job user lane reason trace prio qd gen now d = Return (i, d') -> evidence d d'.
Proof using Type. unfold insert_job. case_goal; [done|]. by intros [= _ <-]. Qed.

Lemma evidence_runner user now d : evidence d (ensure_review_runner cfg user now d).1.
Proof using Type.
  unfold ensure_review_runner. case_goal; [done|]. destruct (v2_generation user d); [|done].
  case_goal; [|done]. destruct (insert_job _ _ _ _ _ _ _ _ d) as [[i d']|e] eqn:Ei; [|done].
  by eapply evidence_insert.
Qed.

Lemma evidence_review i now d : evidence d (queue_failure_review cfg i now d).1.
Proof using Type.
  unfold queue_failure_review. destruct (job_at i d) as [j|]; [|done].
  set (d1 := if existsb _ _ then d else _). assert (evidence d d1) as H1 by (unfold d1; by case_goal).
  clearbody d1. case_goal; [|done]. etransitivity; [exact H1|]. simpl.
  etransitivity; [|apply evidence_runner]. done.
Qed.

Lemma evidence_recover_runner i now d : evidence d (recover_review_runner cfg i now d).1.
Proof using Type.
  unfold recover_review_runner. destruct (job_at i d) as [j|]; [|done]. case_goal; [|done]. simpl.
  assert (forall rs d0, evidence d0 (foldl (fun d r => (ensure_review_runner cfg (rv_user r) now d).1) d0 rs)) as H.
  { induction rs as [|r rs IH]; intros d0; simpl; [done|]. etransitivity; [apply evidence_runner|apply IH]. }
  etransitivity; [|apply H]. done.
Qed.

Lemma evidence_outbox i user e c d : evidence d (queue_terminal_failure cfg i user e c d).
Proof using Type. unfold queue_terminal_failure. repeat case_goal; done. Qed.

Lemma evidence_crash ob j e d : evidence d (record_capture_crash cfg ob j e d).1.
Proof using Type. unfold record_capture_crash. repeat case_goal; done. Qed.

Lemma evidence_expire_capture ob e d d' row rs fs :
  expire_overdue_capture cfg ob e d = Some (d', row, rs, fs) -> evidence d d' /\ calm d d'.
Proof using Type.
  unfold expire_overdue_capture. destruct (job_at (j_id e) d) as [j|]; [|done]. destruct (owned j); [|done].
  set (d1 := resolve_mcp _ _ (update_jobs _ _ d)).
  assert (evidence d d1 /\ calm d d1) as [V1 C1].
  { split; [etransitivity; [|apply evidence_resolve]; done|].
    etransitivity; [|apply calm_appends, appends_resolve_mcp]. by apply calm_update. }
  clearbody d1. pose proof (evidence_crash ob e (terminal_label (j_id e) "lease_timeout" d) d1) as V2.
  pose proof (appends_record_crash cfg ob e (terminal_label (j_id e) "lease_timeout" d) d1) as A2.
  destruct (record_capture_crash cfg ob e _ d1) as [d2 fs']. 
  pose proof (evidence_recover_runner (j_id e) (ob_now ob) d2) as V3.
  pose proof (appends_recover_runner cfg (j_id e) (ob_now ob) d2) as A3.
  destruct (recover_review_runner cfg (j_id e) (ob_now ob) d2) as [d3 rs'].
  destruct (job_at (j_id e) (queue_failure_review _ _ _ d3).1) as [row'|]; [|done].
  intros [= <- _ _ _]. simpl in *. split.
  - etransitivity; [exact V1|]. etransitivity; [exact V2|]. etransitivity; [exact V3|]. apply evidence_review.
  - etransitivity; [exact C1|]. apply calm_appends.
    etransitivity; [exact A2|]. etransitivity; [exact A3|]. apply appends_failure_review.
Qed.
End Evidence.

(** One transaction of the recovery machinery. *)
Inductive rstep (cfg : config) : db -> db -> Prop :=
| rs_killed ob i w reason d r :
    recover_killed_job cfg ob i w reason d = Return (Some r) -> rstep cfg d (rc_db r)
| rs_reap ob due d : rstep cfg d (reap_stuck_job_rows cfg ob due d).1.1
| rs_reap_rows ob due d : rstep cfg d (reap_rows cfg ob due d).1.1
| rs_reap_capture ob due c d d' row rs fs :
    recover_capture_lease cfg ob due c d = Some (d', row, rs, fs) -> rstep cfg d d'
| rs_preempt ob user d d' ps : preempt_active_for_chat cfg ob user d = Return (d', ps) -> rstep cfg d d'
| rs_pristine i w e t ea ma clk d d' b :
    reschedule_pristine_scheduled_failure i w e t ea ma clk d = Return (d', b) -> rstep cfg d d'.

Definition guarded_lanes : list string := "scheduled"%string :: PRISTINE_GUARDED_WAKE_LANES.

(** Rows of chat and of the guarded lanes come back to the queue only while
    they are pristine, chat never. *)
Definition safe_requeues (d d' : db) : Prop :=
  forall i j j', job_at i d = Some j -> owned j = true -> job_at i d' = Some j' -> j_status j' = pending ->
  j_lane j <> "chat"%string /\ (j_lane j ∈ guarded_lanes -> pristine i d = true).

Lemma calm_safe d d' : calm d d' -> safe_requeues d d'.
Proof. intros Hc i j j' Hj Ho Hj' Hs. exfalso. by eapply calm_absurd. Qed.

Section Replays.
Context (cfg : config).

Lemma safe_by p sets d d' :
  calm (update_jobs p sets d) d' ->
  (forall i j, job_at i d = Some j -> p j = true ->
     j_lane j <> "chat"%string /\ (j_lane j ∈ guarded_lanes -> pristine i d = true)) ->
  safe_requeues d d'.
Proof using Type. intros Hc Hp i j j' Hj Ho Hj' Hs. apply (Hp i j Hj). by apply (requeued_by p sets d d' i j j'). Qed.

Lemma calm_reviewed i now d :
  calm d (queue_failure_review cfg i now (recover_review_runner cfg i now d).1).1.
Proof using Type. apply calm_appends. etransitivity; [apply appends_recover_runner|apply appends_failure_review]. Qed.

Lemma safe_general {A} i w reason now (f : db -> db * option A) d d' r rs a j :
  wf d -> job_at i d = Some j -> (forall d, appends d (f d).1) ->
  j_lane j <> "chat"%string -> (j_lane j ∈ guarded_lanes -> pristine i d = true) ->
  general_watchdog_recover cfg i w reason now f d = Some (d', r, rs, a) -> safe_requeues d d'.
Proof using Type.
  intros Hwf Hj Hf Hl Hg. unfold general_watchdog_recover.
  destruct (update_one _ _ d) as [d1 [|]] eqn:E1.
  - apply update_one_true in E1. subst d1.
    match goal with |- context [recover_review_runner cfg i now ?x] =>
      pose proof (appends_recover_runner cfg i now x) as Ha; destruct (recover_review_runner cfg i now x) as [d2 rs'] end.
    intros [= <- _ _ _]. eapply safe_by; [by apply calm_appends|].
    intros k jk Hk Hp. cbv beta in Hp. apply andb_true_iff in Hp as [Hp _]. assert (k = i) as ->.
    { destruct (job_at_elem _ _ _ Hk) as [_ <-]. by apply claims_id in Hp. }
    rewrite Hj in Hk. by injection Hk as <-.
  - destruct (update_one (claims i w) _ d) as [d3 [|]] eqn:E3; [|done].
    apply update_one_true in E3. subst d3. set (d3 := update_jobs _ _ d).
    assert (calm d d3) as H3 by by apply calm_update.
    clearbody d3. pose proof (Hf d3) as H4. destruct (f d3) as [d4 a'].
    pose proof (calm_reviewed i now d4) as H5.
    destruct (recover_review_runner cfg i now d4) as [d5 rs']. intros [= <- _ _ _]. apply calm_safe.
    etransitivity; [exact H3|]. etransitivity; [by apply calm_appends|exact H5].
Qed.

Lemma safe_calm d d1 d' : safe_requeues d d1 -> (forall i j, job_at i d = Some j -> exists j1, job_at i d1 = Some j1) ->
  calm d1 d' -> safe_requeues d d'.
Proof using Type.
  intros Hs Hex Hc i j j' Hj Ho Hj' Hp. destruct (Hex i j Hj) as [j1 Hj1].
  destruct (decide (j_status j1 = pending)) as [Hp1|Hp1]; [by eapply Hs|].
  destruct (Hc i j1 Hj1 Hp1) as (k & Hk & Hks & _). rewrite Hj' in Hk. by injection Hk as <-.
Qed.

Lemma safe_recover_killed ob i w reason d r :
  wf d -> recover_killed_job cfg ob i w reason d = Return (Some r) -> safe_requeues d (rc_db r).
Proof using Type.
  intros Hwf. unfold recover_killed_job. destruct (select_job (claims i w) d) as [j|] eqn:Es; [|done].
  destruct (claims_row _ _ _ _ Hwf Es) as (Hj & Hc & _ & _).
  assert (forall rec rs d0 (Q : db -> Prop), (forall d1, appends d0 d1 -> Q d1) ->
    (d1 ← record_recovery_event i (j_lane j) rec reason d0;
     Return (Some (mkRecovered d1 (j_lane j) rec rs None))) = Return (Some r) -> Q (rc_db r)) as Hfinish.
  { intros rec rs d0 Q HQ (d1 & He & [= <-])%bind_return. apply HQ. by eapply appends_event. }
  assert (forall d0, calm d d0 ->
    (let '(d1, rs) := recover_review_runner cfg i (ob_now ob) d0 in
     d2 ← record_recovery_event i (j_lane j) r_terminal reason (queue_failure_review cfg i (ob_now ob) d1).1;
     Return (Some (mkRecovered d2 (j_lane j) r_terminal rs None))) = Return (Some r) ->
    safe_requeues d (rc_db r)) as Hreviewed.
  { intros d0 H0. pose proof (calm_reviewed i (ob_now ob) d0) as H1.
    destruct (recover_review_runner cfg i (ob_now ob) d0) as [d1 rs]. apply Hfinish. intros d2 H2.
    apply calm_safe. etransitivity; [exact H0|]. etransitivity; [exact H1|by apply calm_appends]. }
  assert (forall label, calm d (expire_claim i w label (ob_now ob) (ob_clk ob) d)) as Hexp.
  { intros label. unfold expire_claim. etransitivity; [|apply calm_appends, appends_resolve_mcp]. by apply calm_update. }
  assert (forall d0 d1, evolves d d0 -> wf d0 -> safe_requeues d d0 -> appends d0 d1 -> safe_requeues d d1) as Hext.
  { intros d0 d1 Hev Hw Hs Ha. eapply safe_calm; [exact Hs| |by apply calm_appends].
    intros k jk Hk. destruct (evolves_at _ _ _ _ Hw Hev Hk) as (j1 & ? & _). eauto. }
  destruct (String.eqb (j_lane j) "capture") eqn:Ecap; [apply String.eqb_eq in Ecap|].
  { unfold recover_capture_watchdog. rewrite Hj. case_goal; [|done].
    destruct (general_watchdog_recover _ _ _ _ _ _ _) as [[[[d1 r1] rs] fs]|] eqn:Eg; [|done].
    destruct (keeps_general cfg _ _ _ _ _ _ _ _ _ _ (fun x => keeps_record_crash cfg ob j _ x) Eg Hwf) as [Hw1 Hev1].
    intros (d2 & He & [= <-])%bind_return. simpl. eapply Hext; [done|done| |by eapply appends_event].
    eapply safe_general; [done|exact Hj|intros; apply appends_record_crash| | |exact Eg]; rewrite Ecap; [done|].
    intros Hin. exfalso. assert (~ "capture"%string ∈ guarded_lanes) as Hn by decided. done. }
  destruct (String.eqb (j_lane j) "chat") eqn:Echat.
  { apply Hreviewed. etransitivity; [|apply calm_appends, appends_terminal_failure]. by apply calm_update. }
  apply String.eqb_neq in Echat. destruct (String.eqb (j_lane j) "scheduled") eqn:Esch.
  { destruct (update_one _ _ d) as [d1 [|]] eqn:Eu.
    - apply update_one_true in Eu. subst d1. apply Hfinish. intros d1 Ha.
      eapply safe_by; [by apply calm_appends|]. intros k jk Hk Hp. cbv beta in Hp. bools.
      assert (k = i) as ->.
      { destruct (job_at_elem _ _ _ Hk) as [_ <-]. match goal with H : claims _ _ _ = true |- _ => by apply claims_id in H end. }
      split; [congruence|done].
    - apply Hreviewed. etransitivity; [apply (Hexp (clip500 reason))|]. apply calm_appends, appends_terminal_failure. }
  destruct (bool_decide (j_lane j ∈ PRISTINE_GUARDED_WAKE_LANES) && _) eqn:Egd; [apply Hreviewed, Hexp|].
  destruct (general_watchdog_recover _ _ _ _ _ _ _) as [[[[d1 r1] rs] fs]|] eqn:Eg; [|done].
  assert (forall x : db, keeps x ((fun d => (d, @None unit)) x).1) as Hid by (intros x; simpl; reflexivity).
  destruct (keeps_general cfg _ _ _ _ _ _ _ _ _ _ Hid Eg Hwf) as [Hw1 Hev1].
  apply Hfinish. intros d2 Ha. eapply Hext; [done|done| |exact Ha].
  eapply safe_general; [done|exact Hj| |exact Echat| |exact Eg]; [reflexivity|].
  apply String.eqb_neq in Esch. intros [Heq|Hin]%elem_of_cons; [done|]. rewrite bool_decide_true in Egd by done. simpl in Egd. by bools.
Qed.

Lemma calm_settle_all now rows acc : calm acc.1 (foldl (settle_reaped cfg now) acc rows).1.
Proof using Type.
  revert acc. induction rows as [|j rows IH]; intros [d rs]; simpl; [reflexivity|].
  etransitivity; [|apply IH]. unfold settle_reaped. cbn [fst snd].
  set (d1 := if bool_decide _ then _ else d).
  assert (calm d d1) as H1 by (unfold d1; case_goal; [apply calm_appends, appends_terminal_failure|reflexivity]).
  clearbody d1. pose proof (calm_reviewed (j_id j) now d1) as H2.
  destruct (recover_review_runner cfg (j_id j) now d1) as [d2 rs2]. etransitivity; [exact H1|exact H2].
Qed.

Lemma calm_reap_capture ob due c d d' row rs fs :
  recover_capture_lease cfg ob due c d = Some (d', row, rs, fs) -> calm d d'.
Proof using Type.
  unfold recover_capture_lease. destruct (job_at _ d) as [j|]; [|done].
  case_goal; [|done]. intros H. by eapply evidence_expire_capture.
Qed.

Lemma calm_reap_captures ob due d : calm d (reap_overdue_capture_claims cfg ob due d).1.
Proof using Type.
  unfold reap_overdue_capture_claims. generalize (select_jobs (fun j =>
    String.eqb (j_lane j) "capture" && overdue_owned due j) d). intros cs.
  change d with (d, @nil job).1 at 1. generalize (d, @nil job). clear d.
  induction cs as [|c cs IH]; intros [d out]; simpl; [reflexivity|].
  destruct (recover_capture_lease cfg ob due c d) as [[[[d1 row] rs] fs]|] eqn:E; [|apply (IH (d, out))].
  transitivity d1; [by eapply calm_reap_capture|apply (IH (d1, out ++ [row]))].
Qed.

(** The rows the reaper gives back, and what follows in its transaction. *)
Definition reap_sets (now : Z) (k : job) : list assign :=
  [SetStatus pending; SetAttempts (j_attempts k + 1);
   SetError (Some "scheduled_lease_timeout_requeued"%string);
   SetQueueDeadline None; SetCreated now] ++ release_claim.

Lemma calm_reap_rows ob due d :
  calm (update_jobs (reap_requeues cfg due d) (reap_sets (ob_now ob)) d) (reap_rows cfg ob due d).1.1.
Proof using Type.
  unfold reap_rows. set (d1 := update_jobs (reap_requeues cfg due d) _ d) at 1.
  change (update_jobs (reap_requeues cfg due d) _ d) with d1. clearbody d1.
  set (rows := _ <$> select_jobs (reap_expires cfg due) d1). set (d3 := resolve_mcp _ _ _).
  assert (calm d1 d3) as H3.
  { etransitivity; [|apply calm_appends, appends_resolve_mcp]. by apply calm_update. }
  clearbody d3 rows. pose proof (calm_settle_all (ob_now ob) rows (d3, [])) as H4.
  destruct (foldl (settle_reaped cfg (ob_now ob)) (d3, []) rows) as [d4 reviews]. cbn [fst] in *.
  by etransitivity.
Qed.

Lemma safe_reaped ob due d d' : calm (reap_rows cfg ob due d).1.1 d' -> safe_requeues d d'.
Proof using Type.
  intros Hc. apply (safe_by (reap_requeues cfg due d) (reap_sets (ob_now ob))).
  - etransitivity; [apply calm_reap_rows|exact Hc].
  - intros i j Hj Hp. unfold reap_requeues in Hp. destruct (job_at_elem _ _ _ Hj) as [_ <-]. bools.
    split; [congruence|done].
Qed.

Lemma safe_reap ob due d : safe_requeues d (reap_stuck_job_rows cfg ob due d).1.1.
Proof using Type.
  apply (safe_reaped ob due). unfold reap_stuck_job_rows.
  destruct (reap_rows cfg ob due d) as [[d1 rows] rs]. pose proof (calm_reap_captures ob due d1) as H.
  by destruct (reap_overdue_capture_claims cfg ob due d1).
Qed.

Lemma safe_preempt_row ob row d d' p :
  wf d -> same_row d row -> j_lane row <> "chat"%string -> preempt_row cfg ob row d = Return (d', p) ->
  safe_requeues d d' /\ evidence d d'.
Proof using Type.
  intros Hwf (k0 & Hk0 & Hu & Hl) Hchat. unfold preempt_row. case_goal; [|case_goal].
  - destruct (expire_overdue_capture cfg ob row d) as [[[[d1 row1] rs] fs]|] eqn:Ee; [|done].
    intros [= <- _]. destruct (evidence_expire_capture _ _ _ _ _ _ _ _ Ee). split; [by apply calm_safe|done].
  - destruct (update_one _ _ d) as [d1 [|]] eqn:E1; [|done]. apply update_one_true in E1. subst d1.
    intros [= <- _]. split; [|done]. eapply safe_by; [reflexivity|]. intros i j Hj Hp. cbv beta in Hp. bools.
    destruct (job_at_elem _ _ _ Hj) as [_ Hid]. assert (i = j_id row) as -> by congruence.
    rewrite Hk0 in Hj. injection Hj as <-. rewrite Hl. split; [done|]. intros Hg.
    match goal with X : _ || _ = true |- _ => apply orb_true_iff in X as [X|X] end; bools; [|done].
    exfalso. assert (~ "capture"%string ∈ guarded_lanes) as Hn by decided. congruence.
  - destruct (update_one _ _ d) as [d1 [|]] eqn:E1; [|done]. apply update_one_true in E1. subst d1.
    set (d1 := update_jobs _ _ d). assert (calm d d1 /\ evidence d d1) as [C1 V1].
    { split; [|done]. apply calm_update. intros k _. simpl. by case_goal. }
    clearbody d1. case_goal; [|intros [= <- _]; split; [by apply calm_safe|done]].
    set (d2 := queue_terminal_failure _ _ _ _ _ _).
    assert (calm d d2 /\ evidence d d2) as [C2 V2].
    { split.
      - etransitivity; [exact C1|]. apply calm_appends. etransitivity; [apply appends_resolve_mcp|apply appends_terminal_failure].
      - etransitivity; [exact V1|]. etransitivity; [apply evidence_resolve|apply evidence_outbox]. }
    clearbody d2. pose proof (calm_reviewed (j_id row) (ob_now ob) d2) as C3.
    pose proof (evidence_recover_runner cfg (j_id row) (ob_now ob) d2) as V3.
    destruct (recover_review_runner cfg (j_id row) (ob_now ob) d2) as [d3 rs]. intros [= <- _].
    split; [apply calm_safe; by etransitivity|]. etransitivity; [exact V2|]. etransitivity; [exact V3|apply evidence_review].
Qed.

Lemma safe_trans d d1 d' :
  wf d1 -> wf d' -> evolves d d1 -> evolves d1 d' -> evidence d d1 ->
  safe_requeues d d1 -> safe_requeues d1 d' -> safe_requeues d d'.
Proof using Type.
  intros Hw1 Hw' Hev1 Hev' Hv H1 H2 i j j' Hj Ho Hj' Hs.
  destruct (evolves_at _ _ _ _ Hw1 Hev1 Hj) as (j1 & Hj1 & He1).
  destruct (decide (j_status j1 = pending)) as [Hp|Hp]; [by eapply H1|].
  destruct (owned j1) eqn:Ho1.
  - rewrite <- (re_lane _ _ He1), <- (pristine_evidence i _ _ Hv). by eapply H2.
  - exfalso. destruct (evolves_at _ _ _ _ Hw' Hev' Hj1) as (k & Hk & Hek).
    rewrite Hj' in Hk. injection Hk as <-. rewrite (re_terminal _ _ Hek) in Hs; [done|].
    unfold active, owned in *. by destruct (j_status j1).
Qed.

Lemma safe_preempt_rows ob rows d d' ps :
  wf d -> (forall j, j ∈ rows -> active j = true /\ same_row d j /\ j_lane j <> "chat"%string) ->
  preempt_rows cfg ob rows d = Return (d', ps) -> safe_requeues d d'.
Proof using Type.
  revert d d' ps. induction rows as [|row rows IH]; intros d d' ps Hwf Hrows; simpl.
  { intros [= <- _]. by apply calm_safe. }
  intros ([d1 p] & H1 & ([d2 ps'] & H2 & [= <- <-])%bind_return)%bind_return.
  destruct (Hrows row) as (Ha & Hs & Hc); [left|].
  destruct (keeps_preempt_row cfg _ _ _ _ _ Ha H1 Hwf) as [Hwf1 Hev].
  destruct (safe_preempt_row _ _ _ _ _ Hwf Hs Hc H1) as [S1 V1].
  assert (forall j, j ∈ rows -> active j = true /\ same_row d1 j /\ j_lane j <> "chat"%string) as Hrest.
  { intros j Hj. destruct (Hrows j) as (Haj & Hsj & Hcj); [by right|]. split; [done|]. split; [|done].
    by eapply same_row_evolves. }
  destruct (keeps_preempt_rows cfg ob rows d1 d2 ps') as [Hwf2 Hev2]; [intros j Hj; by apply Hrest|done|done|].
  eapply safe_trans; [exact Hwf1|exact Hwf2|exact Hev|exact Hev2|exact V1|exact S1|].
  eapply IH; [exact Hwf1|exact Hrest|exact H2].
Qed.

Lemma safe_step d d' : wf d -> rstep cfg d d' -> safe_requeues d d'.
Proof using Type.
  intros Hwf. destruct 1.
  - by eapply safe_recover_killed.
  - apply safe_reap.
  - by apply (safe_reaped ob due).
  - apply calm_safe. by eapply calm_reap_capture.
  - eapply safe_preempt_rows; [done| |exact H]. intros j [Hp Hin]%list_elem_of_filter. bools.
    split; [done|]. split; [|done]. exists j. split; [by apply job_at_unique|done].
  - revert H. unfold reschedule_pristine_scheduled_failure. case_goal; [done|]. case_goal; [done|].
    destruct (job_generation i d); [|intros [= <- _]; by apply calm_safe]. intros [= H].
    destruct b; [|unfold update_one in H; destruct (select_job _ d); [done|]; injection H as <-; by apply calm_safe].
    apply update_one_true in H. subst d'. eapply safe_by; [reflexivity|]. intros k j Hk Hp. cbv beta in Hp.
    unfold owns_live in Hp. bools. destruct (job_at_elem _ _ _ Hk) as [_ Hid].
    split; [congruence|]. intros _. congruence.
Qed.
End Replays.

(** C3: no recovery path replays a turn that wrote something. When a killed
    slot is recovered, an overdue lease is reaped, background work is preempted
    by chat or a reminder is rescheduled, a claimed or running row returns to
    the queue only if it is not a chat turn and, in the reminder and wake lanes,
    only if it recorded no durable tool effect and no remote write. *)
Theorem replay_only_when_pristine cfg d d' i j j' :
  reachable cfg d -> rstep cfg d d' -> job_at i d = Some j -> owned j = true ->
  job_at i d' = Some j' -> j_status j' = pending ->
  j_lane j <> "chat"%string /\
  (j_lane j ∈ guarded_lanes ->
   (forall a, a ∈ d_mcp d -> mcp_job a <> i) /\
   (forall t, (i, t) ∈ d_effects d -> t ∉ DURABLE_TOOL_EFFECT_TYPES)).
Proof.
  intros Hr Hs Hj Ho Hj' Hp. destruct (safe_step cfg d d' (reachable_wf _ _ Hr) Hs i j j' Hj Ho Hj' Hp) as [Hc Hg].
  split; [done|]. intros Hl. specialize (Hg Hl). unfold pristine in Hg. bools. split.
  - intros a Ha E. rewrite <- not_true_iff_false in H. apply H. apply List.existsb_exists. exists a.
    split; [by apply list_elem_of_In|by apply Z.eqb_eq].
  - intros t Ht E. rewrite <- not_true_iff_false in H0. apply H0. apply List.existsb_exists. exists (i, t).
    split; [by apply list_elem_of_In|]. simpl. by rewrite Z.eqb_refl, bool_decide_true.
Qed.

(** The claimed heartbeat of [woken_db] is recovered from a killed slot. *)
Lemma replay_only_when_pristine_witness :
  exists r j j', recover_killed_job sample_cfg (at_time 30) 1 "w:wake-0:1" "slot_watchdog_timeout" woken_db
                 = Return (Some r) /\
    job_at 1 woken_db = Some j /\ owned j = true /\ job_at 1 (rc_db r) = Some j' /\ j_status j' = pending /\
    j_lane j ∈ guarded_lanes /\ j_lane j <> "chat"%string.
Proof.
  destruct (recover_killed_job sample_cfg (at_time 30) 1 "w:wake-0:1" "slot_watchdog_timeout" woken_db)
    as [[r|]|e] eqn:E;
    [|exfalso; apply (f_equal (fun o => match o with Return (Some _) => true | _ => false end)) in E;
      vm_compute in E; discriminate E..].
  assert ((fun o => match o with Return (Some r) => j_status <$> job_at 1 (rc_db r) | _ => None end)
    (recover_killed_job sample_cfg (at_time 30) 1 "w:wake-0:1" "slot_watchdog_timeout" woken_db) = Some pending)
    as P by (vm_compute; reflexivity).
  rewrite E in P. apply fmap_Some in P as (j' & Hj' & Hs).
  assert ((fun j => (owned j, j_lane j)) <$> job_at 1 woken_db = Some (true, "heartbeat"%string)) as Q
    by (vm_compute; reflexivity).
  apply fmap_Some in Q as (j & Hj & Q). injection Q as Ho Hl.
  exists r, j, j'. split; [reflexivity|]. split; [exact Hj|]. split; [done|]. split; [exact Hj'|]. split; [done|].
  split; [rewrite <- Hl; decided|].
  apply (replay_only_when_pristine sample_cfg woken_db (rc_db r) 1 j j'); try done.
  - exact woken_db_reachable.
  - by eapply rs_killed.
Defined.

(** ** A review left behind by preemption *)

Definition review_cfg : config :=
  mkConfig (fun name => if String.eqb name "FEEDLING_V2_TRAJECTORY_REVIEW_ENABLED" then Some (u "1") else None)
    ["provider_timeout"%string] 120 300 3 3 120 600 21600 CaptureFailure.no_classify.

(** A chat turn misses its lease and its review is queued; the review runner is
    claimed and takes the review. *)
Definition reviewing_db : db :=
  let d := match enqueue_job review_cfg (at_time 10) "u" "chat" None None "t" None None None empty_db with
           | Return (_, _, d') => d' | Raise _ => empty_db end in
  let d := match claim_sql review_cfg "w:foreground-0:1" 1 4 12 12 d with Claimed _ d' => d' | _ => d end in
  let d := (reap_rows review_cfg (at_time 1000) 1000 d).1.1 in
  let d := match claim_sql review_cfg "w:heavy-0:1" 2 4 1001 1001 d with Claimed _ d' => d' | _ => d end in
  (claim_failure_review review_cfg "u" 2 "w:heavy-0:1" 1002 d).1.

Lemma reviewing_db_reachable : reachable review_cfg reviewing_db.
Proof.
  unfold reviewing_db. eapply reach_step; [|apply st_claim_review]. apply reachable_claim.
  eapply reach_step; [|apply st_reap_rows]. apply reachable_claim.
  destruct (enqueue_job review_cfg (at_time 10) "u" "chat" None None "t" None None None empty_db)
    as [[[i m] d]|e] eqn:E; [|by apply reach_init].
  eapply reach_step; [by apply (reach_init _ empty_db)|by eapply st_enqueue].
Qed.

(** From a reachable state a preemption supersedes a claimed review runner but
    leaves the review running and claimed by that ended job, where it counts
    against the admission cap; the rows that are given back to the queue in a
    preemption go through no [recover_review_runner]. *)
Example preempt_strands_review :
  exists d' ps j r, reachable review_cfg reviewing_db /\
    preempt_active_for_chat review_cfg (at_time 1003) "u" reviewing_db = Return (d', ps) /\
    job_at 2 d' = Some j /\ j_status j = superseded /\
    d_reviews d' = [r] /\ rv_status r = r_running /\ rv_claimed_by r = Some 2 /\ review_active r = true.
Proof.
  destruct (preempt_active_for_chat review_cfg (at_time 1003) "u" reviewing_db) as [[d' ps]|e] eqn:E.
  2: { exfalso. apply (f_equal (fun o => match o with Return _ => true | _ => false end)) in E.
       vm_compute in E. discriminate E. }
  assert ((fun o => match o with
      | Return (d', _) => (j_status <$> job_at 2 d', (fun r => (rv_status r, rv_claimed_by r)) <$> d_reviews d')
      | _ => (None, []) end) (preempt_active_for_chat review_cfg (at_time 1003) "u" reviewing_db)
      = (Some superseded, [(r_running, Some 2)])) as P by (vm_compute; reflexivity).
  rewrite E in P. injection P as Pj Pr. apply fmap_Some in Pj as (j & Hj & Hs).
  destruct (d_reviews d') as [|r [|r2 rs]] eqn:Er; [done| |done]. injection Pr as H1 H2.
  exists d', ps, j, r. split; [exact reviewing_db_reachable|]. split; [reflexivity|]. split; [exact Hj|].
  split; [done|]. split; [done|]. split; [done|]. split; [done|]. unfold review_active. by rewrite H1.
Qed.
End Replay.
