(* ===== verification/EffectOutbox.v ===== *)
(** * The effect outbox ([backend/model_api_runtime/v2/effect_outbox.py])

    Every side effect of a turn is a row of [v2_effect_outbox]; the applier
    drains a user's rows in order, each in one transaction that checks the
    runtime generation, fences replies against newer input, hands the payload to
    an injected sink and records the disposition. [world] is the database the
    transactions see; the sinks are parameters, their own storage is the
    abstract state [S]. [now] is a transaction's [now()], [clk] its
    [clock_timestamp()]. *)

From S2P Require Import Prelude PyValue CaptureFailure JobTable WakeSchedule JobQueue JobInv JobFinish JobSafety.
Local Open Scope Z_scope.

Module Outbox.
Import Queue Finish.

(** ** Names *)

Definition FINAL_REPLY_FENCE_KEY : string := "_final_reply_fence".
Definition REPLY_SOURCE_FENCE_KEY : string := "_reply_source_fence".
Definition PERCEPTION_GLANCE_FINGERPRINT_KEY : string := "_perception_glance_fingerprint".
Definition FINAL_REPLY_EFFECT_TYPE : string := "reply_final_fenced_v1".
Definition TERMINAL_REPLY_EFFECT_TYPE : string := "reply_terminal_fenced_v1".
Definition INTERMEDIATE_REPLY_EFFECT_TYPE : string := "reply_intermediate_fenced_v1".
Definition REPLY_EFFECT_TYPES : list string :=
  ["reply"; FINAL_REPLY_EFFECT_TYPE; TERMINAL_REPLY_EFFECT_TYPE; INTERMEDIATE_REPLY_EFFECT_TYPE].
Definition FINAL_REPLY_INPUT_ADVANCED : string := "input_generation_advanced".
Definition FINAL_REPLY_INVALID_FENCE : string := "invalid_final_reply_fence".
Definition FINAL_REPLY_SOURCE_JOB_INACTIVE : string := "source_job_not_active".
Definition FINAL_REPLY_VOICE_CALL_ENDED : string := "voice_call_ended".
Definition WAKE_REPLY_CHAT_COLLISION : string := "wake_chat_collision".
Definition EFFECT_RUNTIME_STATE_CHANGED : string := "runtime_state_not_v2".
Definition EFFECT_RUNTIME_GENERATION_CHANGED : string := "runtime_generation_advanced".
Definition LEGACY_SENSITIVE_EFFECT_TYPES : list string := ["memory"; "identity"; "schedule"].
Definition COLLISION_WAKE_KINDS : list pystr := [u "heartbeat"; u "manual_wake"; u "screen_watch"].
Definition COLLISION_PROACTIVE_SOURCE : string := "agent_initiated_proactive".
Definition COLLISION_CLOCK_SKEW : Z := 5000000.
Definition USER_ROLES : list string := ["user"; "human"].
Definition ASSISTANT_ROLES : list string := ["openclaw"; "assistant"; "agent"; "model"].

(** ** Rows *)

Inductive estatus : Type :=
| e_pending | e_pending_fenced | e_applied | e_applied_with_results | e_discarded
| e_needs_reconciliation.

#[global] Instance estatus_eq_dec : EqDecision estatus.
Proof. solve_decision. Defined.

(** The stored payload: an object, the structured result that replaced it, the
    scrub mark, or a value that is not an object. *)
Inductive stored : Type :=
| Obj (m : row)
| AppliedResult (result : pyval)
| Scrubbed
| NotObj.

Record effect : Type := mkEffect {
  ef_id : pystr;
  ef_user : string;
  ef_job : option Z;
  ef_type : string;
  ef_generation : Z;
  ef_payload : stored;
  ef_status : estatus;
  ef_error : string;
  ef_attempts : Z;
  ef_next : Z;
  ef_frontier : option Z;
}.

Definition is_pending (e : effect) : bool :=
  match ef_status e with e_pending | e_pending_fenced => true | _ => false end.

Record world (S : Type) : Type := mkWorld {
  w_db : db;
  w_effects : list effect;
  w_voice : gmap (string * pystr) string;
  w_cursor : gmap string Z;
  w_sink : S;
}.
Arguments mkWorld {S} _ _ _ _ _.
Arguments w_db {S} _.
Arguments w_effects {S} _.
Arguments w_voice {S} _.
Arguments w_cursor {S} _.
Arguments w_sink {S} _.

Definition with_db {S} (d : db) (w : world S) : world S :=
  mkWorld d (w_effects w) (w_voice w) (w_cursor w) (w_sink w).
Definition with_effects {S} (es : list effect) (w : world S) : world S :=
  mkWorld (w_db w) es (w_voice w) (w_cursor w) (w_sink w).
Definition with_cursor {S} (c : gmap string Z) (w : world S) : world S :=
  mkWorld (w_db w) (w_effects w) (w_voice w) c (w_sink w).
Definition with_sink {S} (s : S) (w : world S) : world S :=
  mkWorld (w_db w) (w_effects w) (w_voice w) (w_cursor w) s.

Definition find_effect (eid : pystr) (es : list effect) : option effect :=
  List.find (fun e => bool_decide (ef_id e = eid)) es.

Definition update_effect (eid : pystr) (f : effect -> effect) (es : list effect) : list effect :=
  (fun e => if bool_decide (ef_id e = eid) then f e else e) <$> es.

Definition settle (st : estatus) (err : string) (p : stored) (e : effect) : effect :=
  mkEffect (ef_id e) (ef_user e) (ef_job e) (ef_type e) (ef_generation e) p st err (ef_attempts e) (ef_next e)
    (ef_frontier e).

(** ** Identities ([effect_id.py]) *)

Definition derive (job_id : Z) (effect_type : string) (ordinal : Z) : pystr :=
  u "job" ++ str_of_Z job_id ++ u ":" ++ u effect_type ++ u ":" ++ str_of_Z ordinal.

Definition derive_batch_item (parent : pystr) (ordinal : Z) : outcome pystr :=
  if bool_decide (parent = []) then Raise (ValueError "parent_effect_id is required")
  else if ordinal <? 0 then Raise (ValueError "ordinal must be non-negative")
  else Return (parent ++ u ":item:" ++ str_of_Z ordinal).

(** ** Enqueue ([db.effect_enqueue], [enqueue_effect]) *)

(** The row as the insert trigger stores it. *)
Definition new_effect (eid : pystr) (user : string) (job : option Z) (ty : string) (gen : Z) (p : row)
    (frontier : option Z) (now : Z) : effect :=
  mkEffect eid user job ty gen (Obj p)
    (if bool_decide (ty ∈ [FINAL_REPLY_EFFECT_TYPE; TERMINAL_REPLY_EFFECT_TYPE;
                           INTERMEDIATE_REPLY_EFFECT_TYPE])
     then e_pending_fenced else e_pending) "" 0 now frontier.

(** [INSERT ... ON CONFLICT (effect_id) DO NOTHING], and whether it inserted. *)
Definition insert_effect {S} (e : effect) (w : world S) : world S * bool :=
  match find_effect (ef_id e) (w_effects w) with
  | Some _ => (w, false)
  | None =>
      let w := with_effects (w_effects w ++ [e]) w in
      (match ef_job e with
       | Some i => with_db (set_effects (d_effects (w_db w) ++ [(i, ef_type e)]) (w_db w)) w
       | None => w
       end, true)
  end.

(** The owner fence of an enqueue: the source job is running, owned by the
    caller, with a live lease. *)
Definition owns_source (user : string) (job : option Z) (owner : string) (clk : Z) (d : db) : bool :=
  match job with
  | None => false
  | Some i =>
      match job_at i d with
      | None => false
      | Some j => String.eqb (j_user j) user && bool_decide (j_status j = running)
                  && String.eqb (default "" (j_claimed_by j)) owner && later (j_lease j) clk
      end
  end.

Definition effect_enqueue {S} (eid : pystr) (user : string) (job : option Z) (ty : string) (gen : Z)
    (p : row) (input_frontier_seq : option Z) (claimed_by : option string) (now clk : Z) (w : world S)
    : outcome (world S * bool) :=
  if match input_frontier_seq with Some z => z <? 0 | None => false end
  then Raise (ValueError "input_frontier_seq must be a non-negative integer or None")
  else
    let e := new_effect eid user job ty gen p input_frontier_seq now in
    Return match claimed_by with
           | None => insert_effect e w
           | Some owner =>
               if owns_source user job owner clk (w_db w)
               then ((insert_effect e w).1, true)
               else (w, false)
           end.

Definition enqueue_effect {S} (user : string) (job : Z) (ty : string) (ordinal gen : Z)
    (p : row) (input_frontier_seq : option Z) (claimed_by : option string) (now clk : Z) (w : world S)
    : outcome (pystr * world S) :=
  let eid := derive job ty ordinal in
  '(w, inserted) ← effect_enqueue eid user (Some job) ty gen p input_frontier_seq claimed_by now clk w;
  if bool_decide (is_Some claimed_by) && negb inserted
  then Raise (RuntimeError "effect outbox refused a platform write from a stale job owner")
  else Return (eid, w).

(** ** Reading the queue *)

Fixpoint take_while {A} (p : A -> bool) (l : list A) : list A :=
  match l with
  | [] => []
  | x :: t => if p x then x :: take_while p t else []
  end.

(** [effect_pending(user, due_prefix_only=True)]: rows are kept in
    [enqueue_seq] order. *)
Definition effect_pending (user : string) (now : Z) (es : list effect) : list pystr :=
  ef_id <$> take_while (fun e => ef_next e <=? now)
              (filter (fun e => (String.eqb (ef_user e) user && is_pending e) = true) es).

(** ** The reply fence *)

(** Nested objects. *)
Definition dict_get (d : list (pystr * pyval)) (k : string) : pyval :=
  match List.find (fun kv => bool_decide (kv.1 = u k)) d with Some kv => kv.2 | None => PNone end.

Definition has_key (d : list (pystr * pyval)) (k : string) : bool :=
  existsb (fun kv => bool_decide (kv.1 = u k)) d.

(** [set(d) == {k1, ...}] *)
Definition keys_are (d : list (pystr * pyval)) (ks : list string) : bool :=
  forallb (has_key d) ks && forallb (fun kv => bool_decide (kv.1 ∈ u <$> ks)) d.

(** [_exact_nonnegative_json_int] *)
Definition exact_nonnegative_json_int (v : pyval) : option Z :=
  match v with PInt z => if 0 <=? z then Some z else None | _ => None end.

Definition nonempty_str (v : pyval) : option pystr :=
  match v with PStr (c :: s) => Some (c :: s) | _ => None end.

(** [_pop_perception_glance_fingerprint]: the fingerprint, whether it is valid,
    and the payload without it. *)
Definition pop_perception_glance_fingerprint (p : row) : option string * bool * row :=
  let rest := delete PERCEPTION_GLANCE_FINGERPRINT_KEY p in
  match p !! PERCEPTION_GLANCE_FINGERPRINT_KEY with
  | None => (None, true, rest)
  | Some (PStr s) =>
      let f := String.string_of_list_ascii (Ascii.ascii_of_N <$> s) in
      if valid_fingerprint f && bool_decide (u f = s) then (Some f, true, rest) else (None, false, rest)
  | Some _ => (None, false, rest)
  end.

(** [_lock_active_reply_source_job] *)
Definition lock_active_reply_source_job (user : string) (jid : option Z) (expected : option pystr)
    (clk : Z) (d : db) : option job :=
  match jid with
  | None => None
  | Some i =>
      match job_at i d with
      | None => None
      | Some j =>
          if String.eqb (j_user j) user && bool_decide (j_status j = running)
             && bool_decide (j_lane j ∈ REPLY_SOURCE_LANES)
             && negb (String.eqb (default "" (j_claimed_by j)) "")
             && match expected with
                | Some o => bool_decide (u (default "" (j_claimed_by j)) = o)
                | None => true
                end
             && later (j_lease j) clk
          then Some j else None
      end
  end.

Section Fence.
(** [float()] of the collision window's setting ([None]: not a number), and
    [str()] of values that are neither text nor integers. *)
Context (window_env : option pyfloat) (repr : pyval -> pystr).

(** [_collision_window_sec], in ticks of [2^-1074] seconds. *)
Definition collision_window_sec : outcome Z :=
  match window_env with
  | Some (FNum t) => Return (Z.max 0 t)
  | _ => Raise (RuntimeError "PROACTIVE_CHAT_COLLISION_WINDOW_SEC must be finite")
  end.

Definition recent_talk (user : string) (window clk : Z) (m : chat_row) : bool :=
  String.eqb (cm_user m) user && ((clk - cm_ts m) * fone <=? window * 1000000)
  && (cm_ts m <=? clk + COLLISION_CLOCK_SKEW)
  && negb (bool_decide (cm_source m ∈ ["verify_ping"; "resident_maintenance"]))
  && (bool_decide (cm_role m ∈ USER_ROLES)
      || (bool_decide (cm_role m ∈ ASSISTANT_ROLES)
          && negb (String.eqb (cm_source m) COLLISION_PROACTIVE_SOURCE)
          && String.eqb (cm_wake_kind m) "")).

(** [_wake_reply_chat_collision]; the wake kinds the runtime writes are ASCII. *)
Definition wake_reply_chat_collision (user : string) (p : row) (clk : Z) (d : db) : outcome bool :=
  let wake_kind := CaptureFailure.ascii_lower (strip (get_str repr p "wake_kind")) in
  if negb (bool_decide (wake_kind ∈ COLLISION_WAKE_KINDS)) then Return false
  else
    window ← collision_window_sec;
    if window <=? 0 then Return false
    else Return (existsb (recent_talk user window clk) (d_chat d)).

Inductive reply_mode : Type := ordinary | transactional | terminal_mode | final_mode | legacy_final.

#[global] Instance reply_mode_eq_dec : EqDecision reply_mode.
Proof. solve_decision. Defined.

(** The answer of [_reply_fence_matches]: the reason to discard, the owner and
    input generation of the source job, and the publication mode. *)
Record verdict : Type := mkVerdict {
  v_discard : option string;
  v_claimed_by : option string;
  v_input : option Z;
  v_mode : reply_mode;
}.

Definition reject (reason : string) (m : reply_mode) : verdict := mkVerdict (Some reason) None None m.
Definition veto (reason : string) (j : job) (m : reply_mode) : verdict :=
  mkVerdict (Some reason) (j_claimed_by j) (Some (j_input j)) m.

Definition is_object (v : pyval) : bool := match v with PDict _ => true | _ => false end.

(** A user message beyond [seq]. *)
Definition newer_input (user : string) (seq : Z) (d : db) : bool :=
  existsb (fun m => String.eqb (cm_user m) user && (seq <? cm_seq m)
                    && bool_decide (cm_role m ∈ USER_ROLES)) (d_chat d).

Definition newest_input_seq (user : string) (d : db) : Z :=
  foldr Z.max 0 (cm_seq <$> filter (fun m => (String.eqb (cm_user m) user
                                      && bool_decide (cm_role m ∈ USER_ROLES)) = true) (d_chat d)).

(** The source job is live and no chat collides with the wake. *)
Definition with_source (user : string) (jid : option Z) (expected : option pystr) (p : row) (clk : Z)
    (d : db) (m : reply_mode) (k : job -> outcome verdict) : outcome verdict :=
  match lock_active_reply_source_job user jid expected clk d with
  | None => Return (reject FINAL_REPLY_SOURCE_JOB_INACTIVE m)
  | Some j =>
      hit ← wake_reply_chat_collision user p clk d;
      if (hit : bool) then Return (veto WAKE_REPLY_CHAT_COLLISION j m) else k j
  end.

Definition intermediate_fence (user : string) (jid : option Z) (has_frontier : bool)
    (final_fence source_fence : pyval) (p : row) (clk : Z) (d : db) : outcome verdict :=
  match has_frontier, final_fence, source_fence with
  | false, PNone, PDict f =>
      if keys_are f ["claimed_by"] then
        match nonempty_str (dict_get f "claimed_by") with
        | Some owner =>
            with_source user jid (Some owner) p clk d transactional (fun _ =>
              Return (mkVerdict None None None transactional))
        | None => Return (reject FINAL_REPLY_INVALID_FENCE transactional)
        end
      else Return (reject FINAL_REPLY_INVALID_FENCE transactional)
  | _, _, _ => Return (reject FINAL_REPLY_INVALID_FENCE transactional)
  end.

Definition terminal_fence (user : string) (jid : option Z) (has_frontier : bool)
    (final_fence source_fence : pyval) (p : row) (clk : Z) (d : db) : outcome verdict :=
  match has_frontier, source_fence, final_fence with
  | false, PNone, PDict f =>
      if keys_are f ["claimed_by"; "input_generation"; "observed_user_seq"] then
        match nonempty_str (dict_get f "claimed_by"),
              exact_nonnegative_json_int (dict_get f "input_generation"),
              exact_nonnegative_json_int (dict_get f "observed_user_seq") with
        | Some owner, Some generation, Some seen =>
            with_source user jid (Some owner) p clk d terminal_mode (fun j =>
              Return (if negb (j_input j =? generation) then veto FINAL_REPLY_INPUT_ADVANCED j terminal_mode
                      else if newer_input user seen d then veto FINAL_REPLY_INPUT_ADVANCED j terminal_mode
                      else mkVerdict None (j_claimed_by j) (Some generation) terminal_mode))
        | _, _, _ => Return (reject FINAL_REPLY_INVALID_FENCE terminal_mode)
        end
      else Return (reject FINAL_REPLY_INVALID_FENCE terminal_mode)
  | _, _, _ => Return (reject FINAL_REPLY_INVALID_FENCE terminal_mode)
  end.

(** The checks of a final reply once its fence is decoded. *)
Definition final_checks (user : string) (jid : option Z) (owner : option pystr) (generation : option Z)
    (through : Z) (preserve : bool) (p : row) (clk : Z) (d : db) (m : reply_mode) : outcome verdict :=
  with_source user jid owner p clk d m (fun j =>
    Return (if match generation with Some g => negb (j_input j =? g) && negb preserve | None => false end
            then veto FINAL_REPLY_INPUT_ADVANCED j m
            else if newest_input_seq user d <? through then reject FINAL_REPLY_INVALID_FENCE m
            else if newer_input user through d && negb preserve
            then veto FINAL_REPLY_INPUT_ADVANCED j m
            else mkVerdict None (j_claimed_by j) (Some (j_input j)) m)).

Definition final_fence_checks (user : string) (jid : option Z) (f : list (pystr * pyval)) (p : row)
    (clk : Z) (d : db) : outcome verdict :=
  let preserve := match dict_get f "preserve_queued_input" with PBool true => true | _ => false end in
  let invalid := Return (reject FINAL_REPLY_INVALID_FENCE final_mode) in
  if negb (keys_are f ["claimed_by"; "input_generation"; "through_seq"]
           || keys_are f ["claimed_by"; "input_generation"; "through_seq"; "preserve_queued_input"])
     || (has_key f "preserve_queued_input" && negb preserve)
  then invalid
  else
    match exact_nonnegative_json_int (dict_get f "through_seq"),
          exact_nonnegative_json_int (get p "reply_through_seq"),
          nonempty_str (dict_get f "claimed_by"),
          exact_nonnegative_json_int (dict_get f "input_generation") with
    | Some through, Some through', Some owner, Some generation =>
        if through =? through'
        then final_checks user jid (Some owner) (Some generation) through preserve p clk d final_mode
        else invalid
    | _, _, _, _ => invalid
    end.

(** [_reply_fence_matches], and the payload without the fence keys. *)
Definition reply_fence_matches (user : string) (jid : option Z) (ty : string) (p0 : row) (clk : Z) (d : db)
    : outcome verdict * row :=
  let has_frontier := bool_decide (is_Some (p0 !! "reply_through_seq"%string)) in
  let final_fence := get p0 FINAL_REPLY_FENCE_KEY in
  let source_fence := get p0 REPLY_SOURCE_FENCE_KEY in
  let p := delete REPLY_SOURCE_FENCE_KEY (delete FINAL_REPLY_FENCE_KEY p0) in
  let unfenced := match final_fence, source_fence with PNone, PNone => true | _, _ => false end in
  let has_envelope := is_object (get p "envelope") in
  (if negb (bool_decide (ty ∈ REPLY_EFFECT_TYPES)) then
     Return (if unfenced then mkVerdict None None None ordinary
             else reject FINAL_REPLY_INVALID_FENCE ordinary)
   else if String.eqb ty INTERMEDIATE_REPLY_EFFECT_TYPE
   then intermediate_fence user jid has_frontier final_fence source_fence p clk d
   else if String.eqb ty TERMINAL_REPLY_EFFECT_TYPE
   then terminal_fence user jid has_frontier final_fence source_fence p clk d
   else if String.eqb ty "reply" && negb has_frontier then
     if negb unfenced then Return (reject FINAL_REPLY_INVALID_FENCE ordinary)
     else if negb has_envelope then Return (mkVerdict None None None ordinary)
     else with_source user jid None p clk d transactional (fun _ =>
            Return (mkVerdict None None None transactional))
   else
     match final_fence, source_fence with
     | PDict f, PNone => final_fence_checks user jid f p clk d
     | PDict _, _ => Return (reject FINAL_REPLY_INVALID_FENCE final_mode)
     | fence, _ =>
         if String.eqb ty FINAL_REPLY_EFFECT_TYPE then Return (reject FINAL_REPLY_INVALID_FENCE final_mode)
         else
           match fence, has_envelope, source_fence with
           | PNone, true, PNone =>
               match exact_nonnegative_json_int (get p "reply_through_seq") with
               | Some through => final_checks user jid None None through false p clk d legacy_final
               | None => Return (reject FINAL_REPLY_INVALID_FENCE legacy_final)
               end
           | PNone, true, _ => Return (reject FINAL_REPLY_INVALID_FENCE legacy_final)
           | _, _, _ => Return (reject FINAL_REPLY_INVALID_FENCE ordinary)
           end
     end, p).
End Fence.

(** ** Results of composite sinks *)

Inductive dispatched : Type :=
| Void
| WorkspaceBatchAppliedResult (result : pyval) (status : string)
| ScheduleAppliedResult (result : pyval) (status : string).

Definition alnum (c : N) : bool :=
  ((48 <=? c)%N && (c <=? 57)%N) || ((65 <=? c)%N && (c <=? 90)%N) || ((97 <=? c)%N && (c <=? 122)%N).

Definition text_ok (lo hi : Z) (extra : string) (v : pyval) : bool :=
  match v with
  | PStr s => (lo <=? Zlen s) && (Zlen s <=? hi)
              && forallb (fun c => alnum c || bool_decide (c ∈ u extra)) s
  | _ => false
  end.

(** [v in {...}]: a value that cannot be hashed raises. *)
Definition in_texts (v : pyval) (l : list string) : outcome bool :=
  match v with
  | PList _ | PDict _ => Raise (TypeError "unhashable")
  | PStr s => Return (bool_decide (s ∈ u <$> l))
  | _ => Return false
  end.

Definition WORKSPACE_BATCH_TERMINAL_ERRORS : list string :=
  ["workspace_write_failed"; "workspace_delete_failed"; "workspace_revision_conflict"].

Definition bad (msg : string) : exn := RuntimeError msg.

(** One child of a batch: whether it was discarded. *)
Definition validate_child (v : pyval) : outcome bool :=
  match v with
  | PDict item =>
      if negb (text_ok 1 256 ":_-." (dict_get item "effect_id"))
      then Raise (bad "applied effect child identity is invalid")
      else
        let applied := match dict_get item "status" with PStr s => bool_decide (s = u "applied") | _ => false end in
        let revision_ok := match dict_get item "revision" with
                           | PInt z => (1 <=? z) && (z <=? 9223372036854775807) | _ => false end in
        if applied && (keys_are item ["effect_id"; "status"]
                       || (keys_are item ["effect_id"; "status"; "revision"] && revision_ok))
        then Return false
        else
          let discarded := match dict_get item "status" with
                           | PStr s => bool_decide (s = u "discarded") | _ => false end in
          if discarded && keys_are item ["effect_id"; "status"; "error"] then
            known ← in_texts (dict_get item "error") WORKSPACE_BATCH_TERMINAL_ERRORS;
            if (known : bool) then Return true else Raise (bad "applied effect child status is invalid")
          else Raise (bad "applied effect child status is invalid")
  | _ => Raise (bad "applied effect child result is invalid")
  end.

Fixpoint validate_children (l : list pyval) : outcome bool :=
  match l with
  | [] => Return false
  | v :: t => b ← validate_child v; c ← validate_children t; Return (b || c)
  end.

(** [_validate_applied_result] *)
Definition validate_applied_result (result : pyval) (status : string) : outcome unit :=
  match result with
  | PDict r =>
      if negb (keys_are r ["kind"; "items"]) then Raise (bad "applied effect result shape is invalid")
      else if negb (match dict_get r "kind" with PStr s => bool_decide (s = u "workspace_batch_v1") | _ => false end)
      then Raise (bad "applied effect result kind is invalid")
      else
        match dict_get r "items" with
        | PList items =>
            if (1 <=? Zlen items) && (Zlen items <=? 24) then
              discarded ← validate_children items;
              if String.eqb status (if (discarded : bool) then "applied_with_results" else "applied")
              then Return tt else Raise (bad "applied effect result status is inconsistent")
            else Raise (bad "applied effect result items are invalid")
        | _ => Raise (bad "applied effect result items are invalid")
        end
  | _ => Raise (bad "applied effect result shape is invalid")
  end.

Definition or_none (p : pyval -> bool) (v : pyval) : bool := match v with PNone => true | _ => p v end.

(** [_validate_schedule_applied_result] *)
Definition validate_schedule_applied_result (result : pyval) (status : string) : outcome unit :=
  match result with
  | PDict r =>
      if negb (forallb (fun kv => bool_decide (kv.1 ∈ u <$>
                 ["kind"; "operation"; "task_id"; "status"; "next_trigger_at"; "timezone"])) r)
      then Raise (bad "applied schedule result shape is invalid")
      else if negb (match dict_get r "kind" with PStr s => bool_decide (s = u "schedule_v1") | _ => false end)
      then Raise (bad "applied schedule result kind is invalid")
      else
        known ← in_texts (dict_get r "operation") ["schedule_wake"; "cancel_wake"];
        if negb known then Raise (bad "applied schedule operation is invalid")
        else if negb (or_none (text_ok 0 200 "_.:-") (dict_get r "task_id"))
        then Raise (bad "applied schedule task id is invalid")
        else
          known ← in_texts (dict_get r "status") ["scheduled"; "canceled"; "not_found"; "invalid"; "rejected"];
          if negb known then Raise (bad "applied schedule status is invalid")
          else if negb (or_none (fun v => match v with
                          | PStr s => (1 <=? Zlen s) && (Zlen s <=? 80)
                                      && forallb (fun c => bool_decide (c ∈ u "0123456789-:T.+ ")) s
                          | _ => false end) (dict_get r "next_trigger_at"))
          then Raise (bad "applied schedule next trigger is invalid")
          else if negb (or_none (text_ok 1 80 "_+./-") (dict_get r "timezone"))
          then Raise (bad "applied schedule timezone is invalid")
          else if String.eqb status "applied" then Return tt
          else Raise (bad "applied schedule result status is inconsistent")
  | _ => Raise (bad "applied schedule result shape is invalid")
  end.

(** The size of [json.dumps(..., separators=(",", ":"))] of a validated result,
    whose text is ASCII. *)
Fixpoint compact_size (v : pyval) : Z :=
  match v with
  | PList l => 2 + foldr (fun x n => x + 1 + n) 0 (map compact_size l) - (if l then 0 else 1)
  | PDict d => 2 + foldr (fun x n => x + 1 + n) 0 (map (fun kv => Zlen (json_str kv.1) + 1 + compact_size kv.2) d)
               - (if d then 0 else 1)
  | _ => Zlen (dumps (fun _ => []) v)
  end.

Definition APPLIED_RESULT_PAYLOAD_KEY : string := "_applied_result_v1".
Definition APPLIED_RESULT_MAX_BYTES : Z := 16384.

(** [_serialized_applied_result]: what replaces the payload, and the status. *)
Definition serialized_applied_result (v : dispatched) : outcome (option (pyval * estatus)) :=
  let sized r st :=
    if APPLIED_RESULT_MAX_BYTES <? compact_size (PDict [(u APPLIED_RESULT_PAYLOAD_KEY, r)])
    then Raise (bad "applied effect result exceeds the durable size limit")
    else Return (Some (r, if String.eqb st "applied" then e_applied else e_applied_with_results)) in
  match v with
  | Void => Return None
  | WorkspaceBatchAppliedResult r st => _ ← validate_applied_result r st; sized r st
  | ScheduleAppliedResult r st => _ ← validate_schedule_applied_result r st; sized r st
  end.

(** ** The reply cursor *)

(** [_advance_blob_int_on_cursor] on [v2_reply_cursor_seq]. *)
Definition advance_cursor (user : string) (v : Z) (c : gmap string Z) : gmap string Z :=
  <[user := match c !! user with Some o => Z.max o v | None => v end]> c.

(** ** Failures *)

Definition exn_name (e : exn) : string :=
  match e with
  | ValueError _ => "ValueError" | TypeError _ => "TypeError" | IndexError => "IndexError"
  | KeyError => "KeyError" | OverflowError => "OverflowError" | RuntimeError _ => "RuntimeError"
  | IntegrityError _ => "UniqueViolation" | Exhausted _ => "SummaryFrontierExhausted"
  | FrontierIntegrity _ => "SummaryFrontierIntegrityError"
  | EffectTerminalError _ => "EffectTerminalError"
  | EffectDeliveryUncertainError => "EffectDeliveryUncertainError"
  | WorkspaceNotFound => "WorkspaceNotFound" | WorkspaceReadOnly => "WorkspaceReadOnly"
  | WorkspaceConflict => "WorkspaceConflict" | WorkspaceInvalidPath => "WorkspaceInvalidPath"
  | WorkspaceError => "WorkspaceError" | UnicodeError => "UnicodeEncodeError"
  | Other n => n
  end.

(** [_sanitized_dispatch_error] *)
Definition sanitized_dispatch_error (e : exn) : string :=
  match e with
  | EffectDeliveryUncertainError => "delivery_uncertain: unresolved sink claim requires reconciliation"
  | _ => String.append "dispatch_failed:" (exn_name e)
  end.

Definition MAX_ATTEMPTS : Z := 8.
Definition retry_delay (attempts : Z) : Z := Z.min 3600 (15 * 2 ^ Z.min attempts 8) * 1000000.

(** [_effect_record_error_on_cursor] on one row. *)
Definition record_error (error : string) (reconcile : bool) (now : Z) (e : effect) : effect :=
  if is_pending e then
    mkEffect (ef_id e) (ef_user e) (ef_job e) (ef_type e) (ef_generation e) (ef_payload e)
      (if reconcile || (MAX_ATTEMPTS <=? ef_attempts e + 1) then e_needs_reconciliation else ef_status e)
      (String.substring 0 256 error) (ef_attempts e + 1) (now + retry_delay (ef_attempts e)) (ef_frontier e)
  else e.

(** ** The applier *)

Section Apply.
Context {S : Type} (cfg : config) (window_env : option pyfloat) (repr : pyval -> pystr).

(** The injected sinks. [dispatch] may have written something even when it
    raises; [dispatch_reply] runs on the applier's transaction, so a raise leaves
    nothing behind, and may advance the reply cursors. *)
Context (dispatch : string -> row -> S -> S * outcome dispatched)
        (dispatch_reply : option (string -> row -> gmap string Z * S -> outcome (gmap string Z * S))).

(** One transaction: skip the row, stop the drain, commit a disposition, or
    raise; the world is the committed one. *)
Inductive tx : Type :=
| TxContinue (w : world S)
| TxBreak (w : world S)
| TxApplied (w : world S) (finalized : option Z)
| TxDiscarded (w : world S) (superseded : bool) (finalized : option Z)
| TxRaise (w : world S) (e : exn).

Definition stored_row (p : stored) : option row :=
  match p with
  | Obj m => Some m
  | AppliedResult r => Some {[APPLIED_RESULT_PAYLOAD_KEY := r]}
  | Scrubbed => Some {["legacy_payload_scrubbed"%string := PBool true]}
  | NotObj => None
  end.

(** The veto added after the fence: an ended voice call, bad glance metadata. *)
Definition later_veto (user : string) (e : effect) (v : verdict) (fp : option string) (fp_ok : bool)
    (p : row) (w : world S) : option string :=
  match v_discard v with
  | Some r => Some r
  | None =>
      let call := strip (get_str repr p "voice_call_id") in
      if bool_decide (ef_type e ∈ REPLY_EFFECT_TYPES) && negb (bool_decide (call = []))
         && bool_decide (default "" (w_voice w !! (user, call)) ∈ ["finalizing"; "cancelled"; "finalized"])
      then Some FINAL_REPLY_VOICE_CALL_ENDED
      else if negb fp_ok then Some FINAL_REPLY_INVALID_FENCE
      else
        match fp with
        | None => None
        | Some _ =>
            if bool_decide (v_mode v ∈ [final_mode; terminal_mode])
               && bool_decide (ef_type e ∈ [FINAL_REPLY_EFFECT_TYPE; TERMINAL_REPLY_EFFECT_TYPE])
               && existsb (fun j => bool_decide (Some (j_id j) = ef_job e) && String.eqb (j_user j) user
                            && bool_decide (is_Some (v_claimed_by v))
                            && bool_decide (j_claimed_by j = v_claimed_by v)
                            && String.eqb (j_lane j) "heartbeat") (d_jobs (w_db w))
            then None else Some FINAL_REPLY_INVALID_FENCE
        end
  end.

Definition discard_row (eid : pystr) (reason : string) (w : world S) : world S :=
  with_effects (update_effect eid
    (fun e => if is_pending e then settle e_discarded reason (ef_payload e) e else e) (w_effects w)) w.

(** A reply that must not be published. *)
Definition discard_reply (user : string) (e : effect) (v : verdict) (fp : option string) (reason : string)
    (p : row) (gen now : Z) (w : world S) : outcome (tx) :=
  '(w, fin) ←
    (if String.eqb reason FINAL_REPLY_VOICE_CALL_ENDED
        && bool_decide (v_mode v ∈ [final_mode; legacy_final])
     then
       '(i, d) ← complete_final_reply_job user (ef_job e) (v_claimed_by v) (v_input v) fp now (w_db w);
       let through := match get p "reply_through_seq" with PInt z => z | _ => 0 end in
       Return (with_cursor (advance_cursor user through (w_cursor w)) (with_db d w), Some i)
     else Return (w, None));
  w ← (if bool_decide (v_mode v = legacy_final) && String.eqb reason FINAL_REPLY_INPUT_ADVANCED
       then d ← handoff_legacy_chat_final (pending_chat_ttl cfg) user (ef_job e) (v_claimed_by v) gen now (w_db w);
            Return (with_db d w)
       else Return w);
  Return (TxDiscarded (discard_row (ef_id e) reason w) true fin).

Definition finalizes (m : reply_mode) : bool := bool_decide (m ∈ [final_mode; terminal_mode; legacy_final]).

(** The dispatch under the savepoint: the sink's state if it fails, and the
    result. *)
Definition attempt (user : string) (e : effect) (v : verdict) (fp : option string) (p : row) (now : Z)
    (w : world S) : S * outcome (world S * option Z * option (pyval * estatus)) :=
  let logical := if bool_decide (ef_type e ∈ REPLY_EFFECT_TYPES) then "reply"%string else ef_type e in
  let p := <["effect_id"%string := PStr (ef_id e)]> p in
  match (if finalizes (v_mode v)
         then '(i, d) ← complete_final_reply_job user (ef_job e) (v_claimed_by v) (v_input v) fp now (w_db w);
              Return (with_db d w, Some i)
         else Return (w, None)) with
  | Raise x => (w_sink w, Raise x)
  | Return (w1, fin) =>
      if bool_decide (v_mode v = ordinary) then
        let '(s, r) := dispatch logical p (w_sink w) in
        (s, x ← r; res ← serialized_applied_result x; Return (with_sink s w1, fin, res))
      else
        match dispatch_reply with
        | Some publish =>
            (w_sink w, '(c, s) ← publish logical p (w_cursor w1, w_sink w1);
                       Return (with_cursor c (with_sink s w1), fin, None))
        | None =>
            if is_object (get p "envelope")
            then (w_sink w, Raise (RuntimeError "transactional reply sink is not wired"))
            else let '(s, r) := dispatch logical p (w_sink w) in
                 (s, _ ← r; Return (with_sink s w1, fin, None))
        end
  end.

(** A failed dispatch: deterministic failures end the row, others are recorded
    and raised. *)
Definition failed_dispatch (e : effect) (x : exn) (now : Z) (w : world S) : tx :=
  let err := sanitized_dispatch_error x in
  match x with
  | EffectTerminalError _ => TxDiscarded (discard_row (ef_id e) err w) false None
  | _ =>
      TxRaise (with_effects (update_effect (ef_id e)
                 (record_error err (bool_decide (x = EffectDeliveryUncertainError)) now) (w_effects w)) w) x
  end.

Definition applied_row (e : effect) (res : option (pyval * estatus)) : effect -> effect :=
  match res with
  | Some (r, st) => settle st "" (AppliedResult r)
  | None => fun e' => settle e_applied ""
              (if bool_decide (ef_type e ∈ LEGACY_SENSITIVE_EFFECT_TYPES) then Scrubbed else ef_payload e') e'
  end.

Definition apply_current (user : string) (e : effect) (gen now clk : Z) (w : world S) : tx :=
  match stored_row (ef_payload e) with
  | None => failed_dispatch e (RuntimeError "effect payload must be an object") now w
  | Some p0 =>
      let '(fp, fp_ok, p1) := pop_perception_glance_fingerprint p0 in
      let '(ver, p) := reply_fence_matches window_env repr user (ef_job e) (ef_type e) p1 clk (w_db w) in
      match ver with
      | Raise x => failed_dispatch e x now w
      | Return v =>
          match later_veto user e v fp fp_ok p w with
          | Some reason =>
              match discard_reply user e v fp reason p gen now w with
              | Return t => t
              | Raise x => TxRaise w x
              end
          | None =>
              match attempt user e v fp p now w with
              | (_, Return (w', fin, res)) =>
                  TxApplied (with_effects (update_effect (ef_id e) (applied_row e res) (w_effects w')) w') fin
              | (s, Raise x) => failed_dispatch e x now (with_sink s w)
              end
          end
      end
  end.

(** The row of a user without one is created with the column defaults. *)
Definition ensure_runtime_state (user : string) (d : db) : db :=
  match d_runtime d !! user with
  | Some _ => d
  | None => if bool_decide (user ∈ d_users d)
            then set_runtime (<[user := ("resident"%string, 1)]> (d_runtime d)) d else d
  end.

Definition apply_effect (user : string) (eid : pystr) (now clk : Z) (w : world S) : tx :=
  let w := with_db (ensure_runtime_state user (w_db w)) w in
  let '(st, gen) := default ("resident"%string, 0) (d_runtime (w_db w) !! user) in
  match find_effect eid (w_effects w) with
  | None => TxContinue w
  | Some e =>
      if negb (is_pending e) then TxContinue w
      else if negb (ef_next e <=? now) then TxBreak w
      else if String.eqb st "v2" && (ef_generation e =? gen) then apply_current user e gen now clk w
      else
        let reason := if negb (String.eqb st "v2") then EFFECT_RUNTIME_STATE_CHANGED
                      else EFFECT_RUNTIME_GENERATION_CHANGED in
        TxDiscarded (with_effects (update_effect eid
          (fun e' => settle e_discarded reason
             (if bool_decide (ef_type e ∈ LEGACY_SENSITIVE_EFFECT_TYPES) then Scrubbed else ef_payload e') e')
          (w_effects w)) w) false None
  end.

Record summary : Type := mkSummary {
  s_applied : Z;
  s_discarded : Z;
  s_superseded : list pystr;
  s_finalized : list Z;
}.

(** [apply_pending_effects]; [clock k] gives [now()] and [clock_timestamp()] of
    the k-th transaction. *)
Fixpoint drain (clock : nat -> Z * Z) (k : nat) (user : string) (eids : list pystr) (w : world S)
    (acc : summary) : world S * outcome summary :=
  match eids with
  | [] => (w, Return acc)
  | eid :: rest =>
      let '(now, clk) := clock k in
      match apply_effect user eid now clk w with
      | TxContinue w => drain clock (Datatypes.S k) user rest w acc
      | TxBreak w => (w, Return acc)
      | TxApplied w fin =>
          drain clock (Datatypes.S k) user rest w
            (mkSummary (s_applied acc + 1) (s_discarded acc) (s_superseded acc)
               (s_finalized acc ++ option_list fin))
      | TxDiscarded w sup fin =>
          drain clock (Datatypes.S k) user rest w
            (mkSummary (s_applied acc) (s_discarded acc + 1)
               (if sup then s_superseded acc ++ [eid] else s_superseded acc)
               (s_finalized acc ++ option_list fin))
      | TxRaise w e => (w, Raise e)
      end
  end.

Definition apply_pending_effects (clock : nat -> Z * Z) (user : string) (w : world S)
    : world S * outcome summary :=
  drain clock 1 user (effect_pending user (clock 0%nat).1 (w_effects w)) w (mkSummary 0 0 [] []).
End Apply.
End Outbox.
