(* ===== verification/EffectSafety.v ===== *)
(** * Guarantees of the effect outbox

    Retries of one effect share one identity; a platform write of a turn makes
    the turn unreplayable or is refused; a reply is published only while its
    source job is live and nothing newer arrived, and in one transaction with
    the end of its job; rows are applied in order and settled once. *)

From S2P Require Import Prelude PyValue CaptureFailure JobTable WakeSchedule JobQueue JobInv JobFinish JobSafety JobClaim JobDelivery JobReplay EffectOutbox.
Local Open Scope Z_scope.

Module EffectSafety.
Import Queue Inv Finish Safety Outbox.

(** ** Identities *)

Lemma derive_inj job ty ordinal job' ty' ordinal' :
  derive job ty ordinal = derive job' ty' ordinal' -> job = job' /\ ty = ty' /\ ordinal = ordinal'.
Proof.
  unfold derive. intros H. apply (inj (app (u "job"))) in H.
  apply (split_first 58 (str_of_Z job) (str_of_Z job')) in H as [Hj H]; [|apply str_of_Z_no_colon..].
  change (u ty ++ u ":" ++ str_of_Z ordinal) with (u ty ++ 58%N :: str_of_Z ordinal) in H.
  change (u ty' ++ u ":" ++ str_of_Z ordinal') with (u ty' ++ 58%N :: str_of_Z ordinal') in H.
  apply split_last in H as [Ht Ho]; [|apply str_of_Z_no_colon..].
  split; [by apply str_of_Z_inj|]. split; [by apply u_inj|by apply str_of_Z_inj].
Qed.

(** Distinct effects of turns have distinct identities: the derived id
    determines the job, the effect type and the ordinal, whatever characters the
    type contains, so the outbox's primary key drops exactly the retries. *)
Theorem derive_injective job ty ordinal job' ty' ordinal' :
  derive job ty ordinal = derive job' ty' ordinal' -> job = job' /\ ty = ty' /\ ordinal = ordinal'.
Proof. apply derive_inj. Qed.

Lemma derive_injective_witness :
  derive 7 "reply" 2 = derive 7 "reply" 2 /\ (7 = 7 /\ "reply"%string = "reply"%string /\ 2 = 2).
Proof. split; [reflexivity|]. exact (derive_injective 7 "reply" 2 7 "reply" 2 eq_refl). Defined.

(** ** Writes and replays *)

Section Writes.
Context {S : Type}.

(** The queue's view of the outbox. *)
Definition linked (w : world S) : Prop :=
  forall e i, e ∈ w_effects w -> ef_job e = Some i -> (i, ef_type e) ∈ d_effects (w_db w).

Lemma find_effect_elem eid es e : find_effect eid es = Some e -> e ∈ es /\ ef_id e = eid.
Proof using Type.
  unfold find_effect. intros H. apply List.find_some in H as [H1 H2]. bools.
  split; [by apply list_elem_of_In|done].
Qed.

Lemma insert_effect_spec e (w w' : world S) b :
  insert_effect e w = (w', b) ->
  d_jobs (w_db w') = d_jobs (w_db w) /\ d_mcp (w_db w') = d_mcp (w_db w) /\ w_sink w' = w_sink w /\
  (linked w -> linked w') /\ exists e', e' ∈ w_effects w' /\ ef_id e' = ef_id e /\ (b = true -> e' = e).
Proof using Type.
  unfold insert_effect. destruct (find_effect (ef_id e) (w_effects w)) as [e0|] eqn:Ef.
  - intros [= <- <-]. apply find_effect_elem in Ef as [H1 H2]. repeat split; [tauto|]. exists e0. done.
  - assert (forall x : effect, x ∈ w_effects w ++ [e] -> x ∈ w_effects w \/ x = e) as Hin.
    { intros x [Hx|Hx]%elem_of_app; [by left|]. apply list_elem_of_singleton in Hx. by right. }
    intros [= <- <-]. destruct (ef_job e) as [i|] eqn:Ei; (split; [done|]; split; [done|]; split; [done|]; split).
    + intros Hl x k [Hx|Hx]%Hin Hk; simpl; apply elem_of_app; [left; by eapply Hl|right].
      subst x. rewrite Ei in Hk. injection Hk as ->. left.
    + exists e. split; [simpl; apply elem_of_app; right; left|done].
    + intros Hl x k [Hx|Hx]%Hin Hk; simpl; [by eapply Hl|]. subst x. congruence.
    + exists e. split; [simpl; apply elem_of_app; right; left|done].
Qed.
End Writes.

(** Every row's id is the one derived from its job, or a control-plane id. *)
Definition named {S} (w : world S) : Prop :=
  forall e, e ∈ w_effects w ->
    (exists i o, ef_job e = Some i /\ ef_id e = derive i (ef_type e) o) \/
    (ef_job e = None /\ exists rest, ef_id e = u "gen" ++ rest).

(** After the insert, enqueued or found, the row of a derived id is the turn's. *)
Lemma inserted_row {S} user job ty ordinal gen p fr now (w : world S) :
  named w ->
  exists e', e' ∈ w_effects (insert_effect (new_effect (derive job ty ordinal) user (Some job) ty gen p fr now) w).1 /\
    ef_job e' = Some job /\ ef_type e' = ty.
Proof.
  intros Hn. unfold insert_effect. simpl ef_id.
  destruct (find_effect (derive job ty ordinal) (w_effects w)) as [e0|] eqn:Ef.
  - apply find_effect_elem in Ef as [Hin Hid]. exists e0. split; [done|].
    destruct (Hn e0 Hin) as [(i & o & Hi & He)|(_ & rest & He)]; rewrite Hid in He; [|done].
    apply derive_inj in He as (-> & -> & _). done.
  - eexists. split; [simpl; apply elem_of_app; right; left|done].
Qed.

Lemma owns_source_lost user job owner clk d :
  wf d -> lost job owner d -> owner <> ""%string -> owns_source user (Some job) owner clk d = false.
Proof.
  intros Hwf (j & Hj & Hc) Hne. unfold owns_source. rewrite Hj. apply not_true_iff_false. intros H. bools.
  destruct (j_claimed_by j) as [o|]; simpl in *; congruence.
Qed.

(** C13: a durable tool write of a turn and the replay of that turn exclude each
    other. A fenced enqueue either succeeds, and from then on the turn is not
    pristine, so that no recovery may replay it; or it is refused with an error,
    which is always the answer once the turn's claim was recovered. *)
Theorem fenced_write_excludes_replay {S} user job ty ordinal gen p fr owner now clk (w : world S) :
  linked w -> named w -> ty ∈ DURABLE_TOOL_EFFECT_TYPES -> (forall z, fr = Some z -> 0 <= z) ->
  (forall eid w', enqueue_effect user job ty ordinal gen p fr (Some owner) now clk w = Return (eid, w') ->
     linked w' /\ d_jobs (w_db w') = d_jobs (w_db w) /\ pristine job (w_db w') = false) /\
  (wf (w_db w) -> lost job owner (w_db w) -> owner <> ""%string ->
     enqueue_effect user job ty ordinal gen p fr (Some owner) now clk w
     = Raise (RuntimeError "effect outbox refused a platform write from a stale job owner")).
Proof.
  intros Hl Hn Hty Hfr. unfold enqueue_effect, effect_enqueue.
  assert (match fr with Some z => z <? 0 | None => false end = false) as ->.
  { destruct fr as [z|]; [|done]. apply Z.ltb_ge. by apply Hfr. }
  cbn [mbind outcome_bind]. split.
  - intros eid w'. destruct (owns_source user (Some job) owner clk (w_db w)); [|done].
    destruct (inserted_row user job ty ordinal gen p fr now w Hn) as (e' & Hin & Hjob & Htype).
    destruct (insert_effect _ w) as [w1 b] eqn:Ei.
    destruct (insert_effect_spec _ w w1 b Ei) as (Hj & _ & _ & Hlk & _). simpl in *.
    intros [= <- <-]. split; [by apply Hlk|]. split; [done|].
    pose proof (Hlk Hl e' job Hin Hjob) as Heff. rewrite Htype in Heff.
    unfold pristine. apply andb_false_iff. right. apply negb_false_iff. apply List.existsb_exists.
    exists (job, ty). split; [by apply list_elem_of_In|]. simpl. by rewrite Z.eqb_refl, bool_decide_true.
  - intros Hwf Hlost Hne. by rewrite owns_source_lost.
Qed.

(** ** Publication *)

(** The source job of a reply: running, owned, its lease alive. *)
Record live_source (user : string) (jid : option Z) (clk : Z) (d : db) (j : job) (owner : string) : Prop := {
  ls_id : jid = Some (j_id j);
  ls_row : job_at (j_id j) d = Some j;
  ls_user : j_user j = user;
  ls_running : j_status j = running;
  ls_lane : j_lane j ∈ REPLY_SOURCE_LANES;
  ls_lease : later (j_lease j) clk = true;
  ls_owner : j_claimed_by j = Some owner;
}.

(** Nothing reached the user's conversation after what the reply answers: the
    job counted no further input and no user message follows the frontier; only
    a final reply may say that queued input is kept for its successor. *)
Definition nothing_newer (user ty key : string) (f : list (pystr * pyval)) (j : job) (d : db) : Prop :=
  exists g seq, dict_get f "input_generation" = PInt g /\ dict_get f key = PInt seq /\
    ((ty = FINAL_REPLY_EFFECT_TYPE /\ dict_get f "preserve_queued_input" = PBool true) \/
     (j_input j = g /\
      forall m, m ∈ d_chat d -> cm_user m = user -> cm_role m ∈ USER_ROLES -> cm_seq m <= seq)).

(** The frontier key of the two job-ending reply types. *)
Definition frontier_key (ty : string) : string :=
  if String.eqb ty FINAL_REPLY_EFFECT_TYPE then "through_seq" else "observed_user_seq".

Lemma lock_source user jid expected clk d j :
  lock_active_reply_source_job user jid expected clk d = Some j ->
  exists owner, live_source user jid clk d j owner /\ (forall o, expected = Some o -> o = u owner).
Proof.
  unfold lock_active_reply_source_job. destruct jid as [i|]; [|done].
  destruct (job_at i d) as [k|] eqn:Ek; [|done].
  destruct (_ && later (j_lease k) clk) eqn:E; [|done]. intros [= <-]. bools.
  destruct (job_at_elem _ _ _ Ek) as [_ Hid]. subst i.
  destruct (j_claimed_by k) as [owner|] eqn:Eo; [|done]. exists owner. split; [by split|].
  intros o ->. simpl in *. by bools.
Qed.

Lemma newer_input_false user seq d :
  newer_input user seq d = false ->
  forall m, m ∈ d_chat d -> cm_user m = user -> cm_role m ∈ USER_ROLES -> cm_seq m <= seq.
Proof.
  intros H m Hm Hu Hr. destruct (Z.leb_spec (cm_seq m) seq); [done|]. exfalso.
  rewrite <- not_true_iff_false in H. apply H. apply List.existsb_exists. exists m.
  split; [by apply list_elem_of_In|]. rewrite Hu, String.eqb_refl, bool_decide_true by done.
  by rewrite (proj2 (Z.ltb_lt _ _)).
Qed.

Lemma exact_int v z : exact_nonnegative_json_int v = Some z -> v = PInt z.
Proof. destruct v; simpl; try done. case_goal; [|done]. by intros [= ->]. Qed.

Lemma nonempty_text v s : nonempty_str v = Some s -> v = PStr s.
Proof. destruct v as [| | | |[|c t]| |]; simpl; try done. by intros [= <-]. Qed.

Section Publish.
Context (window_env : option pyfloat) (repr : pyval -> pystr).

Lemma with_source_accepts user jid expected p clk d m k v :
  with_source window_env repr user jid expected p clk d m k = Return v -> v_discard v = None ->
  exists j, lock_active_reply_source_job user jid expected clk d = Some j /\ k j = Return v.
Proof using Type.
  unfold with_source. destruct (lock_active_reply_source_job user jid expected clk d) as [j|]; [|by intros [= <-]].
  intros (hit & _ & H)%bind_return Hv. destruct hit; [by injection H as <-|]. by exists j.
Qed.

Lemma final_accepts user jid p clk d v p' :
  reply_fence_matches window_env repr user jid FINAL_REPLY_EFFECT_TYPE p clk d = (Return v, p') ->
  v_discard v = None ->
  exists j owner f, live_source user jid clk d j owner /\ get p FINAL_REPLY_FENCE_KEY = PDict f /\
    dict_get f "claimed_by" = PStr (u owner) /\
    nothing_newer user FINAL_REPLY_EFFECT_TYPE "through_seq" f j d /\
    v = mkVerdict None (Some owner) (Some (j_input j)) final_mode.
Proof using Type.
  unfold reply_fence_matches. change (bool_decide (FINAL_REPLY_EFFECT_TYPE ∈ REPLY_EFFECT_TYPES)) with true.
  change (String.eqb FINAL_REPLY_EFFECT_TYPE INTERMEDIATE_REPLY_EFFECT_TYPE) with false.
  change (String.eqb FINAL_REPLY_EFFECT_TYPE TERMINAL_REPLY_EFFECT_TYPE) with false.
  change (String.eqb FINAL_REPLY_EFFECT_TYPE "reply") with false.
  change (String.eqb FINAL_REPLY_EFFECT_TYPE FINAL_REPLY_EFFECT_TYPE) with true. cbn [negb andb].
  set (q := delete _ _). intros [= H _] Hv. clearbody q.
  destruct (get p FINAL_REPLY_FENCE_KEY) as [| | | | | |f] eqn:Ef; try (injection H as <-; discriminate Hv).
  destruct (get p REPLY_SOURCE_FENCE_KEY); try (injection H as <-; discriminate Hv).
  unfold final_fence_checks in H. destruct (negb (_ || _) || _) in H; [injection H as <-; discriminate Hv|].
  destruct (exact_nonnegative_json_int (dict_get f "through_seq")) as [through|] eqn:Et; [|injection H as <-; discriminate Hv].
  destruct (exact_nonnegative_json_int (get q "reply_through_seq")) as [through'|]; [|injection H as <-; discriminate Hv].
  destruct (nonempty_str (dict_get f "claimed_by")) as [o|] eqn:Eo; [|injection H as <-; discriminate Hv].
  destruct (exact_nonnegative_json_int (dict_get f "input_generation")) as [g|] eqn:Eg; [|injection H as <-; discriminate Hv].
  destruct (through =? through'); [|injection H as <-; discriminate Hv].
  unfold final_checks in H. apply with_source_accepts in H as (j & Hl & Hk); [|done].
  apply lock_source in Hl as (owner & Hls & Ho). specialize (Ho o eq_refl). subst o.
  apply exact_int in Et, Eg. apply nonempty_text in Eo.
  exists j, owner, f. split; [done|]. split; [done|]. split; [done|].
  injection Hk as Hk. rewrite (ls_owner _ _ _ _ _ _ Hls) in Hk.
  set (pr := match dict_get f "preserve_queued_input" with PBool true => true | _ => false end) in Hk.
  destruct (negb (j_input j =? g) && negb pr) eqn:E1; [subst v; done|].
  destruct (newest_input_seq user d <? through); [subst v; done|].
  destruct (newer_input user through d && negb pr) eqn:E2; [subst v; done|].
  split; [|by subst v]. exists g, through. split; [done|]. split; [done|].
  destruct pr eqn:Epr.
  - left. split; [done|]. unfold pr in Epr. destruct (dict_get f "preserve_queued_input") as [|[]| | | | |]; done.
  - right. rewrite !andb_true_r in *. bools. split; [done|]. by apply newer_input_false.
Qed.

Lemma terminal_accepts user jid p clk d v p' :
  reply_fence_matches window_env repr user jid TERMINAL_REPLY_EFFECT_TYPE p clk d = (Return v, p') ->
  v_discard v = None ->
  exists j owner f, live_source user jid clk d j owner /\ get p FINAL_REPLY_FENCE_KEY = PDict f /\
    dict_get f "claimed_by" = PStr (u owner) /\
    nothing_newer user TERMINAL_REPLY_EFFECT_TYPE "observed_user_seq" f j d /\
    v = mkVerdict None (Some owner) (Some (j_input j)) terminal_mode.
Proof using Type.
  unfold reply_fence_matches. change (bool_decide (TERMINAL_REPLY_EFFECT_TYPE ∈ REPLY_EFFECT_TYPES)) with true.
  change (String.eqb TERMINAL_REPLY_EFFECT_TYPE INTERMEDIATE_REPLY_EFFECT_TYPE) with false.
  change (String.eqb TERMINAL_REPLY_EFFECT_TYPE TERMINAL_REPLY_EFFECT_TYPE) with true. cbn [negb andb].
  set (q := delete _ _). intros [= H _] Hv. clearbody q. unfold terminal_fence in H.
  destruct (bool_decide _); [injection H as <-; discriminate Hv|].
  destruct (get p REPLY_SOURCE_FENCE_KEY); try (injection H as <-; discriminate Hv).
  destruct (get p FINAL_REPLY_FENCE_KEY) as [| | | | | |f] eqn:Ef; try (injection H as <-; discriminate Hv).
  case_in H; [|injection H as <-; discriminate Hv].
  destruct (nonempty_str (dict_get f "claimed_by")) as [o|] eqn:Eo; [|injection H as <-; discriminate Hv].
  destruct (exact_nonnegative_json_int (dict_get f "input_generation")) as [g|] eqn:Eg; [|injection H as <-; discriminate Hv].
  destruct (exact_nonnegative_json_int (dict_get f "observed_user_seq")) as [seen|] eqn:Et; [|injection H as <-; discriminate Hv].
  apply with_source_accepts in H as (j & Hl & Hk); [|done].
  apply lock_source in Hl as (owner & Hls & Ho). specialize (Ho o eq_refl). subst o.
  apply exact_int in Et, Eg. apply nonempty_text in Eo.
  exists j, owner, f. split; [done|]. split; [done|]. split; [done|].
  injection Hk as Hk. rewrite (ls_owner _ _ _ _ _ _ Hls) in Hk.
  destruct (negb (j_input j =? g)) eqn:E1; [subst v; done|].
  destruct (newer_input user seen d) eqn:E2; [subst v; done|]. bools.
  split; [|congruence]. exists g, seen. split; [done|]. split; [done|]. right. split; [done|].
  by apply newer_input_false.
Qed.
End Publish.

Lemma complete_completes user jid owner input fp now d i d' :
  wf d -> complete_final_reply_job user jid owner input fp now d = Return (i, d') ->
  jid = Some i /\ exists j', job_at i d' = Some j' /\ j_status j' = completed.
Proof.
  intros Hwf. unfold complete_final_reply_job. set (is_source := fun j : job => _).
  destruct (select_job is_source d) as [j|] eqn:Es; [|done].
  destruct (select_job_elem _ _ _ Es) as [Hin Hp].
  set (d1 := update_jobs _ _ d). intros (d2 & Hg & [= <- <-])%bind_return.
  split; [unfold is_source in Hp; by bools|].
  assert (forall x, d_jobs (if String.eqb (j_lane j) "chat" then clear_route_error user now x else x) = d_jobs x)
    as Hroute by (intros x; by case_goal).
  unfold job_at at 1. rewrite Hroute. change (List.find (fun k => j_id k =? j_id j) (d_jobs d2)) with (job_at (j_id j) d2).
  assert (job_at (j_id j) d2 = job_at (j_id j) d1) as ->.
  { destruct fp as [f|]; [|by injection Hg as <-]. case_in Hg; [|done].
    destruct (Delivery.glance_frame user (j_id j) (Some f) d1 d2 Hg) as (E1 & _). unfold job_at. by rewrite E1. }
  unfold d1. rewrite Replay.job_at_update, (job_at_unique _ _ Hwf Hin). simpl. rewrite Hp. by eexists.
Qed.

Lemma find_update eid f es e :
  find_effect eid es = Some e -> ef_id (f e) = eid -> find_effect eid (update_effect eid f es) = Some (f e).
Proof.
  unfold find_effect, update_effect. induction es as [|x es IH]; [done|]. simpl. intros Hf Hid.
  destruct (bool_decide (ef_id x = eid)) eqn:Ex.
  - injection Hf as ->. by rewrite bool_decide_true.
  - rewrite Ex. by apply IH.
Qed.

Lemma pop_other p fp ok p1 k :
  pop_perception_glance_fingerprint p = (fp, ok, p1) -> k <> PERCEPTION_GLANCE_FINGERPRINT_KEY ->
  get p1 k = get p k.
Proof.
  unfold pop_perception_glance_fingerprint. intros H Hk. unfold get.
  assert (p1 = delete PERCEPTION_GLANCE_FINGERPRINT_KEY p) as ->.
  { repeat case_in H; by injection H as _ _ <-. }
  by rewrite lookup_delete_ne.
Qed.

Section Applier.
Context {S : Type} (cfg : config) (window_env : option pyfloat) (repr : pyval -> pystr)
        (dispatch : string -> row -> S -> S * outcome dispatched)
        (publish : string -> row -> gmap string Z * S -> outcome (gmap string Z * S)).

Local Abbreviation apply_e := (apply_effect cfg window_env repr dispatch (Some publish)).

Definition tx_world (t : tx) : world S :=
  match t with
  | TxContinue w | TxBreak w | TxApplied w _ | TxDiscarded w _ _ | TxRaise w _ => w
  end.

Lemma failed_sink e x now (w : world S) : w_sink (tx_world (failed_dispatch e x now w)) = w_sink w.
Proof using Type. unfold failed_dispatch. destruct x; done. Qed.

Lemma failed_not_applied e x now (w w' : world S) fin : failed_dispatch e x now w <> TxApplied w' fin.
Proof using Type. unfold failed_dispatch. destruct x; done. Qed.

Lemma discard_reply_sink user e v fp reason p gen now (w : world S) t :
  discard_reply cfg user e v fp reason p gen now w = Return t ->
  w_sink (tx_world t) = w_sink w /\ (forall w' fin, t <> TxApplied w' fin).
Proof using Type.
  unfold discard_reply. intros ([w1 fin] & H1 & (w2 & H2 & [= <-])%bind_return)%bind_return.
  split; [|done]. simpl.
  assert (w_sink w1 = w_sink w) as E1.
  { case_in H1; [|by injection H1 as <- _]. by apply bind_return in H1 as ([i d] & _ & [= <- _]). }
  rewrite <- E1. case_in H2; [|by injection H2 as <-]. by apply bind_return in H2 as (d & _ & [= <-]).
Qed.

(** What a row that ends its job went through when it was applied. *)
Lemma attempt_reply user e v fp p now (w w' : world S) fin res s :
  wf (w_db w) -> finalizes (v_mode v) = true ->
  attempt dispatch (Some publish) user e v fp p now w = (s, Return (w', fin, res)) ->
  w_effects w' = w_effects w /\ res = None /\
  exists i, fin = Some i /\ ef_job e = Some i /\ exists j', job_at i (w_db w') = Some j' /\ j_status j' = completed.
Proof using Type.
  intros Hwf Hm. unfold attempt. rewrite Hm.
  destruct (complete_final_reply_job _ _ _ _ _ _ _) as [[i d]|x] eqn:Ec; [|done].
  apply complete_completes in Ec as [Hi Hd]; [|done]. cbn [mbind outcome_bind].
  rewrite bool_decide_false by (intros E; by rewrite E in Hm).
  intros [= _ H]. apply bind_return in H as ([c s'] & _ & [= <- <- <-]).
  split; [done|]. split; [done|]. by exists i.
Qed.

Lemma attempt_sink user e v fp p now (w : world S) s x :
  v_mode v <> ordinary ->
  attempt dispatch (Some publish) user e v fp p now w = (s, Raise x) -> s = w_sink w.
Proof using Type.
  intros Hm. unfold attempt. destruct (if finalizes (v_mode v) then _ else _) as [[w1 fin]|x']; [|by intros [= <- _]].
  rewrite bool_decide_false by done. by intros [= <- _].
Qed.

Definition ends_job (ty : string) : Prop := ty = FINAL_REPLY_EFFECT_TYPE \/ ty = TERMINAL_REPLY_EFFECT_TYPE.

Lemma ending_accepts user jid ty p clk d v p' :
  ends_job ty -> reply_fence_matches window_env repr user jid ty p clk d = (Return v, p') ->
  v_discard v = None ->
  finalizes (v_mode v) = true /\
  exists j owner f, live_source user jid clk d j owner /\ get p FINAL_REPLY_FENCE_KEY = PDict f /\
    dict_get f "claimed_by" = PStr (u owner) /\ nothing_newer user ty (frontier_key ty) f j d.
Proof using Type.
  intros [->| ->] H Hv.
  - destruct (final_accepts _ _ _ _ _ _ _ _ _ H Hv) as (j & owner & f & H1 & H2 & H3 & H4 & ->).
    split; [done|]. by exists j, owner, f.
  - destruct (terminal_accepts _ _ _ _ _ _ _ _ _ H Hv) as (j & owner & f & H1 & H2 & H3 & H4 & ->).
    split; [done|]. by exists j, owner, f.
Qed.

Lemma ending_mode user jid ty p clk d v p' :
  ends_job ty -> reply_fence_matches window_env repr user jid ty p clk d = (Return v, p') ->
  v_discard v = None -> v_mode v <> ordinary.
Proof using Type.
  intros He H Hv E. destruct (ending_accepts _ _ _ _ _ _ _ _ He H Hv) as [Hf _]. by rewrite E in Hf.
Qed.

Lemma later_veto_none user e v fp ok p (w : world S) :
  later_veto repr user e v fp ok p w = None -> v_discard v = None.
Proof using Type. unfold later_veto. by destruct (v_discard v). Qed.

(** The reply was published under its fence. *)
Definition published (user : string) (eid : pystr) (e : effect) (clk : Z) (w w' : world S) (fin : option Z) : Prop :=
  d_runtime (w_db w) !! user = Some ("v2"%string, ef_generation e) /\
  (exists p j owner f, stored_row (ef_payload e) = Some p /\ live_source user (ef_job e) clk (w_db w) j owner /\
     get p FINAL_REPLY_FENCE_KEY = PDict f /\ dict_get f "claimed_by" = PStr (u owner) /\
     nothing_newer user (ef_type e) (frontier_key (ef_type e)) f j (w_db w)) /\
  (exists i j', fin = Some i /\ ef_job e = Some i /\ job_at i (w_db w') = Some j' /\ j_status j' = completed) /\
  (exists e', find_effect eid (w_effects w') = Some e' /\ ef_status e' = e_applied).

Lemma current_published user e gen now clk (w : world S) eid :
  wf (w_db w) -> ends_job (ef_type e) -> find_effect eid (w_effects w) = Some e ->
  d_runtime (w_db w) !! user = Some ("v2"%string, ef_generation e) ->
  match apply_current cfg window_env repr dispatch (Some publish) user e gen now clk w with
  | TxApplied w' fin => published user eid e clk w w' fin
  | t => w_sink (tx_world t) = w_sink w
  end.
Proof using Type.
  intros Hwf He Hfind Hrt. unfold apply_current.
  assert (forall x, match failed_dispatch e x now w with
                    | TxApplied w' fin => published user eid e clk w w' fin
                    | t => w_sink (tx_world t) = w_sink w end) as Hfail.
  { intros x. pose proof (failed_sink e x now w). by destruct x. }
  destruct (stored_row (ef_payload e)) as [p0|] eqn:Ep; [|apply Hfail].
  destruct (pop_perception_glance_fingerprint p0) as [[fp ok] p1] eqn:Epop.
  destruct (reply_fence_matches _ _ _ _ _ _ _ _) as [[v|x] p] eqn:Ef; [|apply Hfail].
  destruct (later_veto _ _ _ _ _ _ _ w) as [reason|] eqn:Ev.
  - destruct (discard_reply _ _ _ _ _ _ _ _ _ w) as [t|x] eqn:Ed; [|done].
    apply discard_reply_sink in Ed as [Hs Hn]. destruct t; try done. by destruct (Hn w0 finalized).
  - apply later_veto_none in Ev.
    pose proof (ending_mode _ _ _ _ _ _ _ _ He Ef Ev) as Hm.
    destruct (ending_accepts _ _ _ _ _ _ _ _ He Ef Ev) as [Hfin (j & owner & f & H1 & H2 & H3 & H4)].
    destruct (attempt _ _ _ _ _ _ _ _ w) as [s [[[w1 fin] res]|x]] eqn:Ea.
    + destruct (attempt_reply _ _ _ _ _ _ _ _ _ _ _ Hwf Hfin Ea) as (Hes & -> & i & -> & Hi & j' & Hj' & Hst).
      split; [done|]. split; [|split].
      * exists p0, j, owner, f. rewrite <- (pop_other _ _ _ _ _ Epop) by done. done.
      * exists i, j'. done.
      * destruct (find_effect_elem _ _ _ Hfind) as [_ Hid]. subst eid.
        exists (applied_row e None e). split; [|done]. cbn [w_effects with_effects].
        rewrite Hes. by apply (find_update (ef_id e) (applied_row e None)).
    + rewrite (attempt_sink _ _ _ _ _ _ _ _ _ Hm Ea). destruct x; done.
Qed.

Lemma runtime_kept user d r : d_runtime d !! user = Some r -> ensure_runtime_state user d = d.
Proof using Type. intros H. unfold ensure_runtime_state. by rewrite H. Qed.

Lemma runtime_v2 user d gen :
  d_runtime (ensure_runtime_state user d) !! user = Some ("v2"%string, gen) ->
  d_runtime d !! user = Some ("v2"%string, gen).
Proof using Type.
  unfold ensure_runtime_state. destruct (d_runtime d !! user) as [r|] eqn:E; [by rewrite E|].
  case_goal; [|by rewrite E]. simpl. by rewrite lookup_insert_eq.
Qed.

Lemma with_db_id (w : world S) : with_db (w_db w) w = w.
Proof using Type. by destruct w. Qed.

Lemma apply_published user eid e now clk (w : world S) :
  wf (w_db w) -> ends_job (ef_type e) -> find_effect eid (w_effects w) = Some e ->
  match apply_e user eid now clk w with
  | TxApplied w' fin => published user eid e clk w w' fin
  | t => w_sink (tx_world t) = w_sink w
  end.
Proof using Type.
  intros Hwf He Hfind. unfold apply_effect.
  set (w0 := with_db _ w). assert (w_sink w0 = w_sink w) as Hs by done.
  destruct (d_runtime (w_db w0) !! user) as [[st gen]|] eqn:Er; simpl default.
  2: { simpl find_effect. rewrite Hfind. repeat case_goal; done. }
  change (w_effects w0) with (w_effects w). rewrite Hfind. case_goal; [done|]. case_goal; [done|].
  destruct (String.eqb st "v2" && (ef_generation e =? gen)) eqn:Eg; [|done]. bools. subst st gen.
  pose proof (runtime_v2 _ _ _ Er) as Hrt.
  assert (w0 = w) as Hw. { unfold w0. rewrite (runtime_kept _ _ _ Hrt). apply with_db_id. }
  rewrite Hw. by apply current_published.
Qed.

(** A due final reply of a live job, well formed. *)
Record final_reply (user : string) (e : effect) (p : row) (f : list (pystr * pyval)) (owner : string)
    (g through now clk : Z) (j : job) (w : world S) : Prop := {
  fr_type : ef_type e = FINAL_REPLY_EFFECT_TYPE;
  fr_pending : is_pending e = true;
  fr_due : ef_next e <= now;
  fr_runtime : d_runtime (w_db w) !! user = Some ("v2"%string, ef_generation e);
  fr_payload : stored_row (ef_payload e) = Some p;
  fr_fence : get p FINAL_REPLY_FENCE_KEY = PDict f;
  fr_no_source : get p REPLY_SOURCE_FENCE_KEY = PNone;
  fr_keys : keys_are f ["claimed_by"; "input_generation"; "through_seq"] = true;
  fr_no_preserve : has_key f "preserve_queued_input" = false;
  fr_owner : dict_get f "claimed_by" = PStr (u owner) /\ owner <> ""%string;
  fr_generation : dict_get f "input_generation" = PInt g /\ 0 <= g;
  fr_through : dict_get f "through_seq" = PInt through /\ get p "reply_through_seq" = PInt through /\ 0 <= through;
  fr_live : live_source user (ef_job e) clk (w_db w) j owner;
  fr_no_wake : get p "wake_kind" = PNone;
}.

Lemma newer_raises_newest user seq d : newer_input user seq d = true -> seq < newest_input_seq user d.
Proof using Type.
  intros (m & Hm & H)%List.existsb_exists. apply list_elem_of_In in Hm. bools.
  assert (cm_seq m <= newest_input_seq user d); [|lia]. unfold newest_input_seq. apply foldr_max_ge.
  apply list_elem_of_fmap_2, list_elem_of_filter. split; [|done].
  match goal with X : cm_user m = user |- _ => rewrite X end. rewrite String.eqb_refl. by rewrite bool_decide_true.
Qed.

Lemma lock_live user jid owner clk d j :
  live_source user jid clk d j owner -> owner <> ""%string ->
  lock_active_reply_source_job user jid (Some (u owner)) clk d = Some j.
Proof using Type.
  intros [-> H2 H3 H4 H5 H6 H7] Hne. unfold lock_active_reply_source_job. rewrite H2, H3, H7, H6. simpl.
  rewrite String.eqb_refl, !bool_decide_true by done. by rewrite (proj2 (String.eqb_neq _ _)).
Qed.

Lemma advanced_verdict user e p f owner g through now clk j (w : world S) p1 fp ok :
  final_reply user e p f owner g through now clk j w ->
  pop_perception_glance_fingerprint p = (fp, ok, p1) ->
  j_input j <> g \/ newer_input user through (w_db w) = true ->
  exists p2, reply_fence_matches window_env repr user (ef_job e) FINAL_REPLY_EFFECT_TYPE p1 clk (w_db w)
             = (Return (veto FINAL_REPLY_INPUT_ADVANCED j final_mode), p2).
Proof using Type.
  intros H Hpop Hnew. eexists. unfold reply_fence_matches.
  rewrite !(pop_other _ _ _ _ _ Hpop) by done.
  rewrite (fr_fence _ _ _ _ _ _ _ _ _ _ _ H), (fr_no_source _ _ _ _ _ _ _ _ _ _ _ H).
  set (q := delete _ _).
  assert (forall k, k <> FINAL_REPLY_FENCE_KEY -> k <> REPLY_SOURCE_FENCE_KEY ->
                    k <> PERCEPTION_GLANCE_FINGERPRINT_KEY -> get q k = get p k) as Hq.
  { intros k H1 H2 H3. rewrite <- (pop_other _ _ _ _ k Hpop H3). unfold get, q.
    by rewrite !lookup_delete_ne by done. }
  f_equal. change (bool_decide (FINAL_REPLY_EFFECT_TYPE ∈ REPLY_EFFECT_TYPES)) with true.
  change (String.eqb FINAL_REPLY_EFFECT_TYPE INTERMEDIATE_REPLY_EFFECT_TYPE) with false.
  change (String.eqb FINAL_REPLY_EFFECT_TYPE TERMINAL_REPLY_EFFECT_TYPE) with false.
  change (String.eqb FINAL_REPLY_EFFECT_TYPE "reply") with false. cbn [negb andb]. clearbody q.
  unfold final_fence_checks. rewrite (fr_keys _ _ _ _ _ _ _ _ _ _ _ H), (fr_no_preserve _ _ _ _ _ _ _ _ _ _ _ H).
  cbn [negb andb orb].
  destruct (fr_through _ _ _ _ _ _ _ _ _ _ _ H) as (-> & Ht & Hpos). rewrite (Hq "reply_through_seq") by done.
  rewrite Ht. destruct (fr_owner _ _ _ _ _ _ _ _ _ _ _ H) as [-> Hne].
  destruct (fr_generation _ _ _ _ _ _ _ _ _ _ _ H) as [-> Hg]. simpl.
  rewrite (proj2 (Z.leb_le _ _) Hpos), (proj2 (Z.leb_le _ _) Hg), Z.eqb_refl.
  assert (nonempty_str (PStr (u owner)) = Some (u owner)) as Hown.
  { destruct owner; [done|]. done. }
  simpl in Hown. rewrite Hown. clear Hown.
  assert (dict_get f "preserve_queued_input" = PNone) as ->.
  { pose proof (fr_no_preserve _ _ _ _ _ _ _ _ _ _ _ H) as Hk. unfold dict_get, has_key in *.
    destruct (List.find _ f) as [kv|] eqn:Ek; [|done]. apply List.find_some in Ek as [H1 H2].
    rewrite <- not_true_iff_false in Hk. exfalso. apply Hk, List.existsb_exists. by exists kv. }
  unfold final_checks, with_source. rewrite (lock_live _ _ _ _ _ _ (fr_live _ _ _ _ _ _ _ _ _ _ _ H) Hne).
  unfold wake_reply_chat_collision. assert (get_str repr q "wake_kind" = []) as ->.
  { unfold get_str. rewrite (Hq "wake_kind") by done. by rewrite (fr_no_wake _ _ _ _ _ _ _ _ _ _ _ H). }
  change (bool_decide (CaptureFailure.ascii_lower (strip []) ∈ COLLISION_WAKE_KINDS)) with false.
  cbn [negb mbind outcome_bind]. rewrite !andb_true_r.
  destruct (Z.eqb_spec (j_input j) g) as [Heq|Hd]; cbn [negb]; [|done].
  destruct Hnew as [Hnew|Hnew]; [congruence|]. pose proof (newer_raises_newest _ _ _ Hnew).
  rewrite (proj2 (Z.ltb_ge _ _)) by lia. by rewrite Hnew.
Qed.

Lemma advanced_discards user e p f owner g through now clk j (w : world S) eid :
  find_effect eid (w_effects w) = Some e -> final_reply user e p f owner g through now clk j w ->
  j_input j <> g \/ newer_input user through (w_db w) = true ->
  apply_e user eid now clk w = TxDiscarded (discard_row eid FINAL_REPLY_INPUT_ADVANCED w) true None.
Proof using Type.
  intros Hfind H Hnew. unfold apply_effect.
  rewrite (runtime_kept _ _ _ (fr_runtime _ _ _ _ _ _ _ _ _ _ _ H)), with_db_id.
  rewrite (fr_runtime _ _ _ _ _ _ _ _ _ _ _ H). simpl default. rewrite Hfind, (fr_pending _ _ _ _ _ _ _ _ _ _ _ H).
  rewrite (proj2 (Z.leb_le _ _) (fr_due _ _ _ _ _ _ _ _ _ _ _ H)). cbn [negb].
  rewrite String.eqb_refl, Z.eqb_refl. cbn [andb]. unfold apply_current.
  rewrite (fr_payload _ _ _ _ _ _ _ _ _ _ _ H).
  destruct (pop_perception_glance_fingerprint p) as [[fp ok] p1] eqn:Epop.
  rewrite (fr_type _ _ _ _ _ _ _ _ _ _ _ H).
  destruct (advanced_verdict _ _ _ _ _ _ _ _ _ _ _ _ _ _ H Epop Hnew) as [p2 ->].
  unfold later_veto. simpl v_discard. unfold discard_reply.
  change (String.eqb FINAL_REPLY_INPUT_ADVANCED FINAL_REPLY_VOICE_CALL_ENDED) with false. simpl.
  by destruct (find_effect_elem _ _ _ Hfind) as [_ ->].
Qed.

Lemma discard_found eid reason (w : world S) e :
  find_effect eid (w_effects w) = Some e -> is_pending e = true ->
  find_effect eid (w_effects (discard_row eid reason w)) = Some (settle e_discarded reason (ef_payload e) e).
Proof using Type.
  intros Hf Hp. destruct (find_effect_elem _ _ _ Hf) as [_ Hid]. unfold discard_row. cbn [w_effects with_effects].
  rewrite (find_update eid _ _ e Hf); [by rewrite Hp|]. by rewrite Hp.
Qed.

(** C8: a final or terminal reply is published only under its fence (a legacy reply, which does not end its
    job by itself, is not one of them). Whatever the row holds and whatever state the queue reached, either the sink is left
    as it was, or the reply belonged to the current runtime generation, its job
    was running under the owner and lease named in the fence, no input had
    reached the user's conversation beyond what the reply answers (unless the fence of a final reply says that queued input
    is kept for a successor), and the same transaction completed the job and marked the row applied. *)
Theorem reply_published_under_fence user eid e now clk (w : world S) :
  reachable cfg (w_db w) -> ends_job (ef_type e) -> find_effect eid (w_effects w) = Some e ->
  match apply_e user eid now clk w with
  | TxApplied w' fin => published user eid e clk w w' fin
  | t => w_sink (tx_world t) = w_sink w
  end.
Proof using Type. intros Hr. apply apply_published. by eapply reachable_wf. Qed.

(** A final reply that lost the race against the user is not shown. If the
    job counted another input or a later user message was stored, the row is
    discarded as superseded; nothing is published, the job and the cursor stay
    for the turn that answers the newer input. *)
Theorem newer_input_discards_reply user e p f owner g through now clk j (w : world S) eid :
  find_effect eid (w_effects w) = Some e -> final_reply user e p f owner g through now clk j w ->
  j_input j <> g \/ newer_input user through (w_db w) = true ->
  exists w', apply_e user eid now clk w = TxDiscarded w' true None /\
    w_sink w' = w_sink w /\ w_db w' = w_db w /\ w_cursor w' = w_cursor w /\
    find_effect eid (w_effects w') = Some (settle e_discarded FINAL_REPLY_INPUT_ADVANCED (ef_payload e) e).
Proof using Type.
  intros Hf H Hnew. rewrite (advanced_discards _ _ _ _ _ _ _ _ _ _ _ _ Hf H Hnew).
  eexists. split; [done|]. do 3 (split; [done|]). apply discard_found; [done|]. apply (fr_pending _ _ _ _ _ _ _ _ _ _ _ H).
Qed.
End Applier.

(** ** A sample outbox *)

(** The claimed chat turn of [claimed_db], running, and the same after the user
    wrote again. *)
Definition running_db : db := (mark_running sample_cfg 2 "w:foreground-0:1" 13 claimed_db).1.
Definition advanced_db : db :=
  match enqueue_job sample_cfg (at_time 14) "u" "chat" None None "t" None None None running_db with
  | Return (_, _, d) => d
  | Raise _ => running_db
  end.

Lemma running_db_reachable : reachable sample_cfg running_db.
Proof. unfold running_db. eapply reach_step; [exact claimed_db_reachable|apply st_running]. Qed.

Definition sample_fence : list (pystr * pyval) :=
  [(u "claimed_by", PStr (u "w:foreground-0:1")); (u "input_generation", PInt 0); (u "through_seq", PInt 0)].

Definition sample_payload : row :=
  {[FINAL_REPLY_FENCE_KEY := PDict sample_fence; "reply_through_seq"%string := PInt 0]}.

Definition sample_id : pystr := derive 2 FINAL_REPLY_EFFECT_TYPE 0.

Definition sample_reply : effect :=
  new_effect sample_id "u" (Some 2) FINAL_REPLY_EFFECT_TYPE 4 sample_payload None 14.

(** The outbox holding the turn's reply; the sink counts messages. *)
Definition sample_world (d : db) : world Z := mkWorld d [sample_reply] ∅ ∅ 0.

Definition count_message (_ : string) (_ : row) (cs : gmap string Z * Z) : outcome (gmap string Z * Z) :=
  Return (cs.1, cs.2 + 1).
Definition no_dispatch (_ : string) (_ : row) (s : Z) : Z * outcome dispatched := (s, Raise (RuntimeError "")).
Definition no_repr (_ : pyval) : pystr := [].

Lemma sample_found d : find_effect sample_id (w_effects (sample_world d)) = Some sample_reply.
Proof. vm_compute. reflexivity. Qed.

Lemma reply_published_under_fence_witness :
  exists w' fin, apply_effect sample_cfg None no_repr no_dispatch (Some count_message) "u" sample_id 15 15
                   (sample_world running_db) = TxApplied w' fin /\
    w_sink w' = 1 /\
    published "u" sample_id sample_reply 15 (sample_world running_db) w' fin.
Proof.
  set (w := sample_world running_db).
  assert (find_effect sample_id (w_effects w) = Some sample_reply) as Hf by apply (sample_found running_db).
  pose proof (reply_published_under_fence sample_cfg None no_repr no_dispatch count_message
                "u" sample_id sample_reply 15 15 w running_db_reachable (or_introl eq_refl) Hf) as H.
  assert (match apply_effect sample_cfg None no_repr no_dispatch (Some count_message) "u" sample_id 15 15 w with
          | TxApplied w' _ => w_sink w' = 1 | _ => False end) as Hs by (vm_compute; reflexivity).
  destruct (apply_effect sample_cfg None no_repr no_dispatch (Some count_message) "u" sample_id 15 15 w)
    as [w1|w1|w1 fin|w1 b fin|w1 x]; try (exfalso; exact Hs).
  exists w1, fin. split; [reflexivity|]. split; [exact Hs|exact H].
Defined.

Lemma newer_input_discards_reply_witness :
  exists w', apply_effect sample_cfg None no_repr no_dispatch (Some count_message) "u" sample_id 15 15
               (sample_world advanced_db) = TxDiscarded w' true None /\ w_sink w' = 0.
Proof.
  assert (is_Some (job_at 2 advanced_db)) as [j Hj] by (vm_compute; eauto).
  assert ((fun j => (j_id j, j_input j, j_user j, j_status j, j_lane j, later (j_lease j) 15, j_claimed_by j))
            <$> job_at 2 advanced_db
          = Some (2, 1, "u", running, "chat", true, Some "w:foreground-0:1")%string) as P by (vm_compute; reflexivity).
  rewrite Hj in P. simpl in P. injection P as P1 P2 P3 P4 P5 P6 P7.
  assert (live_source "u" (Some 2) 15 advanced_db j "w:foreground-0:1") as Hlive.
  { split; rewrite ?P1; try assumption; [reflexivity|]. rewrite P5. decided. }
  destruct (newer_input_discards_reply sample_cfg None no_repr no_dispatch count_message "u" sample_reply sample_payload
              sample_fence "w:foreground-0:1" 0 0 15 15 j (sample_world advanced_db) sample_id) as (w' & H1 & H2 & _).
  - apply sample_found.
  - split; [vm_compute; first [reflexivity|discriminate]..| | | |exact Hlive|vm_compute; reflexivity].
    + split; [vm_compute; reflexivity|discriminate].
    + split; [vm_compute; reflexivity|lia].
    + split; [vm_compute; reflexivity|]. split; [vm_compute; reflexivity|lia].
  - left. rewrite P2. lia.
  - exists w'. split; [exact H1|exact H2].
Defined.

(** The turn writes a memory through the outbox. *)
Lemma fenced_write_excludes_replay_witness :
  exists eid w', enqueue_effect "u" 2 "memory_encrypted_v1" 0 4 ∅ (Some 3) (Some "w:foreground-0:1"%string) 15 15
                   (mkWorld running_db [] ∅ ∅ 0) = Return (eid, w') /\ pristine 2 (w_db w') = false.
Proof.
  assert (linked (mkWorld running_db [] ∅ ∅ 0)) as Hl by (intros e i He; by apply elem_of_nil in He).
  assert (named (mkWorld running_db [] ∅ ∅ 0)) as Hn by (intros e He; by apply elem_of_nil in He).
  destruct (fenced_write_excludes_replay "u" 2 "memory_encrypted_v1" 0 4 ∅ (Some 3) "w:foreground-0:1" 15 15
              (mkWorld running_db [] ∅ ∅ 0) Hl Hn) as [H _]; [decided|intros z [= <-]; lia|].
  assert (match enqueue_effect "u" 2 "memory_encrypted_v1" 0 4 ∅ (Some 3) (Some "w:foreground-0:1"%string) 15 15
                  (mkWorld running_db [] ∅ ∅ 0) with Return _ => True | Raise _ => False end) as Hr by (vm_compute; exact I).
  destruct (enqueue_effect "u" 2 "memory_encrypted_v1" 0 4 ∅ (Some 3) (Some "w:foreground-0:1"%string) 15 15 (mkWorld running_db [] ∅ ∅ 0))
    as [[eid w']|x]; [|exfalso; exact Hr].
  exists eid, w'. split; [reflexivity|]. destruct (H eid w' eq_refl) as (_ & _ & Hp). exact Hp.
Defined.
End EffectSafety.
