(* ===== verification/EffectOrder.v ===== *)
(** * Order and finality of the effect outbox

    A drain settles a user's effects in the order they were enqueued: nothing
    behind an unsettled effect is touched, and a settled row never changes. *)

From S2P Require Import Prelude PyValue CaptureFailure JobTable WakeSchedule JobQueue JobInv JobFinish JobSafety EffectOutbox EffectSafety.
Local Open Scope Z_scope.

Module EffectOrder.
Import Queue Outbox EffectSafety.

(** ** Rows *)

Lemma find_elem eid es e : find_effect eid es = Some e -> e ∈ es /\ ef_id e = eid.
Proof.
  unfold find_effect. intros H. apply List.find_some in H as [H1 H2]. bools.
  split; [by apply list_elem_of_In|done].
Qed.

Lemma find_unique es e : NoDup (ef_id <$> es) -> e ∈ es -> find_effect (ef_id e) es = Some e.
Proof.
  unfold find_effect. induction es as [|x es IH]; intros Hnd Hin; [by apply elem_of_nil in Hin|].
  rewrite fmap_cons in Hnd. apply NoDup_cons in Hnd as [Hx Hnd]. simpl.
  apply elem_of_cons in Hin as [->|Hin]; [by rewrite bool_decide_true|].
  rewrite bool_decide_false; [by apply IH|]. intros E. apply Hx. rewrite E. by apply list_elem_of_fmap_2.
Qed.

Lemma find_update_same eid f es :
  (forall e, ef_id (f e) = ef_id e) -> find_effect eid (update_effect eid f es) = f <$> find_effect eid es.
Proof.
  intros Hf. unfold find_effect, update_effect. induction es as [|x es IH]; [done|]. simpl.
  destruct (bool_decide (ef_id x = eid)) eqn:Ex; [|by rewrite Ex].
  by rewrite Hf, Ex.
Qed.

Lemma find_update_other eid eid' f es :
  (forall e, ef_id (f e) = ef_id e) -> eid' <> eid ->
  find_effect eid' (update_effect eid f es) = find_effect eid' es.
Proof.
  intros Hf Hne. unfold find_effect, update_effect. induction es as [|x es IH]; [done|]. simpl.
  destruct (bool_decide (ef_id x = eid)) eqn:Ex.
  - bools. rewrite Hf, Ex. rewrite bool_decide_false by congruence. exact IH.
  - destruct (bool_decide (ef_id x = eid')); [done|exact IH].
Qed.

Lemma update_same_id f es eid : (forall e, ef_id (f e) = ef_id e) -> ef_id <$> update_effect eid f es = ef_id <$> es.
Proof.
  intros Hf. unfold update_effect. rewrite <- list_fmap_compose. apply list_fmap_ext. intros i e _. simpl.
  by case_goal.
Qed.

(** ** One transaction *)

Section Order.
Context {S : Type} (cfg : config) (window_env : option pyfloat) (repr : pyval -> pystr)
        (dispatch : string -> row -> S -> S * outcome dispatched)
        (dispatch_reply : option (string -> row -> gmap string Z * S -> outcome (gmap string Z * S))).

Definition committed (t : @tx S) : world S :=
  match t with
  | TxContinue w | TxBreak w | TxApplied w _ | TxDiscarded w _ _ | TxRaise w _ => w
  end.

(** What one transaction does to the row of [eid], and that it touches no other. *)
Definition row_step (t : @tx S) (e e' : effect) : Prop :=
  match t with
  | TxContinue _ => is_pending e = false /\ e' = e
  | TxBreak _ => e' = e
  | TxApplied _ _ | TxDiscarded _ _ _ => is_pending e = true /\ is_pending e' = false
  | TxRaise _ _ => is_pending e = true
  end.

Definition one_row (eid : pystr) (w : world S) (t : @tx S) : Prop :=
  exists f, (forall e, ef_id (f e) = ef_id e) /\ w_effects (committed t) = update_effect eid f (w_effects w) /\
    (forall e, find_effect eid (w_effects w) = Some e -> row_step t e (f e)).

Lemma one_row_id eid (w : world S) t :
  w_effects (committed t) = w_effects w ->
  (forall e, find_effect eid (w_effects w) = Some e -> row_step t e e) -> one_row eid w t.
Proof using Type.
  intros He Hs. exists id. split; [done|]. split; [|exact Hs]. rewrite He. unfold update_effect.
  rewrite <- (list_fmap_id (w_effects w)) at 1. apply list_fmap_ext. intros i e _. by case_goal.
Qed.

Lemma failed_row e x now (w : world S) :
  find_effect (ef_id e) (w_effects w) = Some e -> is_pending e = true ->
  one_row (ef_id e) w (failed_dispatch e x now w).
Proof using Type.
  intros Hf Hp.
  assert (one_row (ef_id e) w (TxDiscarded (discard_row (ef_id e) (sanitized_dispatch_error x) w) false None)) as Hd.
  { exists (fun e => if is_pending e then settle e_discarded (sanitized_dispatch_error x) (ef_payload e) e else e).
    split; [intros e0; by case_goal|]. split; [done|]. intros e0. rewrite Hf. intros [= <-]. by rewrite Hp. }
  assert (forall b, one_row (ef_id e) w (TxRaise (with_effects (update_effect (ef_id e)
            (record_error (sanitized_dispatch_error x) b now) (w_effects w)) w) x)) as Hr.
  { intros b. exists (record_error (sanitized_dispatch_error x) b now).
    split; [intros e0; unfold record_error; by case_goal|]. split; [done|]. intros e0. rewrite Hf. by intros [= <-]. }
  unfold failed_dispatch. destruct x; first [exact Hd|apply Hr].
Qed.

Lemma discard_reply_rows user e v fp reason p gen now (w : world S) t :
  find_effect (ef_id e) (w_effects w) = Some e -> is_pending e = true ->
  discard_reply cfg user e v fp reason p gen now w = Return t -> one_row (ef_id e) w t.
Proof using Type.
  intros Hf Hp. unfold discard_reply. intros ([w1 fin] & H1 & (w2 & H2 & [= <-])%bind_return)%bind_return.
  assert (w_effects w1 = w_effects w) as E1.
  { case_in H1; [|by injection H1 as <- _]. by apply bind_return in H1 as ([i d] & _ & [= <- _]). }
  assert (w_effects w2 = w_effects w) as E2.
  { rewrite <- E1. case_in H2; [|by injection H2 as <-]. by apply bind_return in H2 as (d & _ & [= <-]). }
  exists (fun e => if is_pending e then settle e_discarded reason (ef_payload e) e else e).
  split; [intros e0; by case_goal|]. split; [simpl; by rewrite E2|].
  intros e0. rewrite Hf. intros [= <-]. simpl. by rewrite Hp.
Qed.

Lemma attempt_effects user e v fp p now (w w' : world S) fin res s :
  attempt dispatch dispatch_reply user e v fp p now w = (s, Return (w', fin, res)) ->
  w_effects w' = w_effects w /\ (forall r st, res = Some (r, st) -> st = e_applied \/ st = e_applied_with_results).
Proof using Type.
  unfold attempt. destruct (if finalizes (v_mode v) then _ else _) as [[w1 fin1]|x] eqn:E1; [|done].
  assert (w_effects w1 = w_effects w) as E.
  { case_in E1; [|by injection E1 as <- _]. by apply bind_return in E1 as ([i d] & _ & [= <- _]). }
  case_goal.
  - destruct (dispatch _ _ (w_sink w)) as [s' r]. intros [= _ H].
    apply bind_return in H as (x & _ & H). apply bind_return in H as (res' & Hres & [= <- _ <-]).
    split; [done|]. intros r' st ->. unfold serialized_applied_result in Hres.
    destruct x as [|pv stt|pv stt]; [done| |].
    + apply bind_return in Hres as (_ & _ & Hres). case_in Hres; [done|]. injection Hres as _ <-. case_goal; auto.
    + apply bind_return in Hres as (_ & _ & Hres). case_in Hres; [done|]. injection Hres as _ <-. case_goal; auto.
  - destruct dispatch_reply as [pub|].
    + intros [= _ H]. apply bind_return in H as ([c s'] & _ & [= <- _ <-]). done.
    + case_goal; [done|]. destruct (dispatch _ _ (w_sink w)) as [s' r]. intros [= _ H].
      apply bind_return in H as (x & _ & [= <- _ <-]). done.
Qed.

Lemma apply_current_rows user e gen now clk (w : world S) :
  find_effect (ef_id e) (w_effects w) = Some e -> is_pending e = true ->
  one_row (ef_id e) w (apply_current cfg window_env repr dispatch dispatch_reply user e gen now clk w).
Proof using Type.
  intros Hf Hp. unfold apply_current.
  destruct (stored_row (ef_payload e)) as [p0|]; [|by apply failed_row].
  destruct (pop_perception_glance_fingerprint p0) as [[fp ok] p1].
  destruct (reply_fence_matches _ _ _ _ _ _ _ _) as [[v|x] p]; [|by apply failed_row].
  destruct (later_veto _ _ _ _ _ _ _ w) as [reason|].
  - destruct (discard_reply _ _ _ _ _ _ _ _ _ w) as [t|x] eqn:Ed; [by eapply discard_reply_rows|].
    apply one_row_id; [done|]. intros e0. rewrite Hf. by intros [= <-].
  - destruct (attempt _ _ _ _ _ _ _ _ w) as [s [[[w1 fin] res]|x]] eqn:Ea.
    + apply attempt_effects in Ea as [Ee Hst]. exists (applied_row e res).
      split; [intros e0; by destruct res as [[r st]|]|]. split; [simpl; by rewrite Ee|].
      intros e0. rewrite Hf. intros [= <-]. split; [done|]. destruct res as [[r st]|]; [|done].
      destruct (Hst r st eq_refl) as [-> | ->]; done.
    + destruct (failed_row e x now (with_sink s w) Hf Hp) as (f & H1 & H2 & H3). by exists f.
Qed.

Lemma apply_effect_rows user eid now clk (w : world S) :
  one_row eid w (apply_effect cfg window_env repr dispatch dispatch_reply user eid now clk w).
Proof using Type.
  unfold apply_effect. set (w0 := with_db _ w).
  destruct (default _ (d_runtime (w_db w0) !! user)) as [st gen].
  change (w_effects w0) with (w_effects w).
  destruct (find_effect eid (w_effects w)) as [e|] eqn:Hf.
  2: { apply one_row_id; [done|]. intros e0. by rewrite Hf. }
  destruct (is_pending e) eqn:Hp; cbn [negb].
  2: { apply one_row_id; [done|]. intros e0. rewrite Hf. by intros [= <-]. }
  case_goal; [apply one_row_id; [done|]; intros e0; rewrite Hf; by intros [= <-]|].
  destruct (find_elem _ _ _ Hf) as [_ Hid]. subst eid. case_goal.
  - by apply (apply_current_rows user e gen now clk w0).
  - eexists (fun e' => settle _ _ _ e'). split; [done|]. split; [done|]. intros e0. rewrite Hf. by intros [= <-].
Qed.

(** ** A drain *)

Lemma drain_other clock k user eids (w : world S) acc x :
  x ∉ eids ->
  find_effect x (w_effects (drain cfg window_env repr dispatch dispatch_reply clock k user eids w acc).1)
  = find_effect x (w_effects w).
Proof using Type.
  revert k w acc. induction eids as [|eid eids IH]; intros k w acc Hx; [done|]. simpl.
  destruct (clock k) as [now clk].
  destruct (apply_effect_rows user eid now clk w) as (f & Hf & He & _).
  assert (find_effect x (w_effects (committed (apply_effect cfg window_env repr dispatch dispatch_reply user eid now clk w)))
          = find_effect x (w_effects w)) as Hsame.
  { rewrite He. apply find_update_other; [done|set_solver]. }
  destruct (apply_effect _ _ _ _ _ user eid now clk w); simpl in Hsame; rewrite <- Hsame; first [done|apply IH; set_solver].
Qed.

Definition settled (x : pystr) (w : world S) : Prop :=
  exists e, find_effect x (w_effects w) = Some e /\ is_pending e = false.

Lemma drained_before clock k user eids (w : world S) acc l1 a l2 b l3 :
  NoDup eids -> (forall x, x ∈ eids -> exists e, find_effect x (w_effects w) = Some e) ->
  eids = l1 ++ a :: l2 ++ b :: l3 ->
  let w' := (drain cfg window_env repr dispatch dispatch_reply clock k user eids w acc).1 in
  find_effect b (w_effects w') <> find_effect b (w_effects w) -> settled a w'.
Proof using Type.
  revert k w acc l1. induction eids as [|eid eids IH]; intros k w acc l1 Hnd Hex Heq; [by destruct l1|].
  apply NoDup_cons in Hnd as [Hni Hnd]. simpl. destruct (clock k) as [now clk].
  destruct (Hex eid) as [e He]; [left|].
  destruct (apply_effect_rows user eid now clk w) as (f & Hf & Hes & Hstep). specialize (Hstep e He).
  set (t := apply_effect cfg window_env repr dispatch dispatch_reply user eid now clk w) in *.
  assert (forall x, x <> eid -> find_effect x (w_effects (committed t)) = find_effect x (w_effects w)) as Hother.
  { intros x Hx. rewrite Hes. by apply find_update_other. }
  assert (find_effect eid (w_effects (committed t)) = Some (f e)) as Hmine.
  { rewrite Hes, find_update_same by done. by rewrite He. }
  assert (b ∈ eids /\ b <> eid) as [Hb Hbne].
  { destruct l1 as [|y l1]; injection Heq as -> ->; (split; [set_solver|intros ->; set_solver]). }
  assert (forall x, x ∈ eids -> exists e, find_effect x (w_effects (committed t)) = Some e) as Hex'.
  { intros x Hx. rewrite Hother by (intros ->; done). apply Hex. by right. }
  assert (forall acc', find_effect b (w_effects (drain cfg window_env repr dispatch dispatch_reply clock
             (Datatypes.S k) user eids (committed t) acc').1) <> find_effect b (w_effects w) ->
           row_step t e (f e) -> is_pending (f e) = false ->
           settled a (drain cfg window_env repr dispatch dispatch_reply clock
             (Datatypes.S k) user eids (committed t) acc').1) as Hgo.
  { intros acc' Hch _ Hset. destruct l1 as [|y l1]; injection Heq as -> Heq.
    - exists (f e). split; [|done]. by rewrite drain_other.
    - eapply IH; [done|done|exact Heq|]. by rewrite (Hother b). }
  destruct t as [w1|w1|w1 fin|w1 sup fin|w1 x]; simpl in *; intros Hch.
  - destruct Hstep as [Hp Hfe]. apply (Hgo acc); [done|done|by rewrite Hfe].
  - by rewrite Hother in Hch.
  - apply Hgo; [done|done|by destruct Hstep].
  - apply Hgo; [done|done|by destruct Hstep].
  - by rewrite Hother in Hch.
Qed.
End Order.

Lemma take_while_split {A} (p : A -> bool) l : exists rest, l = take_while p l ++ rest.
Proof. induction l as [|x l [r E]]; [by exists []|]. simpl. case_goal; [exists r; simpl; by f_equal|by exists (x :: l)]. Qed.

Lemma elem_prefix {A} (x l2 pre rest : list A) b :
  NoDup (x ++ b :: l2) -> x ++ b :: l2 = pre ++ rest -> b ∈ pre -> exists l3, pre = x ++ b :: l3.
Proof.
  revert pre. induction x as [|y x IH]; intros pre Hnd E Hb; (destruct pre as [|z pre]; [by apply elem_of_nil in Hb|]).
  - injection E as <- _. by exists pre.
  - injection E as <- E. apply NoDup_cons in Hnd as [Hy Hnd]. apply elem_of_cons in Hb as [->|Hb].
    + exfalso. apply Hy. apply elem_of_app. right. left.
    + destruct (IH pre Hnd E Hb) as [l3 ->]. by exists l3.
Qed.

Lemma NoDup_pending user es :
  NoDup (ef_id <$> es) ->
  NoDup (ef_id <$> filter (fun e => (String.eqb (ef_user e) user && is_pending e) = true) es).
Proof.
  intros H. eapply sublist_NoDup; [exact H|]. apply fmap_sublist, sublist_filter.
Qed.

(** Positions of two pending rows in the work list. *)
Lemma pending_before user es i k e1 e2 :
  (i < k)%nat -> es !! i = Some e1 -> es !! k = Some e2 ->
  ef_user e1 = user -> ef_user e2 = user -> is_pending e1 = true -> is_pending e2 = true ->
  exists l1 l2 l3, filter (fun e => (String.eqb (ef_user e) user && is_pending e) = true) es
                   = l1 ++ e1 :: l2 ++ e2 :: l3.
Proof.
  intros Hlt H1 H2 U1 U2 P1 P2. subst user.
  apply list_elem_of_split_length in H1 as (a & b & -> & Hlen).
  rewrite lookup_app_r in H2 by lia. destruct (k - length a)%nat as [|n] eqn:En; [lia|]. simpl in H2.
  apply list_elem_of_split_length in H2 as (c & dd & -> & _).
  rewrite !filter_app, !filter_cons, filter_app, filter_cons.
  rewrite !decide_True by (rewrite ?U2; by rewrite String.eqb_refl). by eexists _, _, _.
Qed.

(** C12: effects take effect in order and once. In a drain of a user's outbox,
    whatever the sinks answer and however many rows fail, a row changes only if
    every earlier pending row of that user has been settled, and rows of other
    users and rows that were already settled never change. *)
Theorem drain_in_order {S} cfg window_env repr dispatch dispatch_reply clock user (w : world S) i k e1 e2 :
  NoDup (ef_id <$> w_effects w) ->
  w_effects w !! i = Some e1 -> w_effects w !! k = Some e2 ->
  let w' := (apply_pending_effects cfg window_env repr dispatch dispatch_reply clock user w).1 in
  (ef_user e2 <> user \/ is_pending e2 = false ->
     find_effect (ef_id e2) (w_effects w') = Some e2) /\
  ((i < k)%nat -> ef_user e1 = user -> is_pending e1 = true ->
     find_effect (ef_id e2) (w_effects w') <> Some e2 -> settled (ef_id e1) w').
Proof.
  intros Hnd H1 H2 w'. unfold apply_pending_effects in w'.
  set (wl := effect_pending user (clock 0%nat).1 (w_effects w)) in w'.
  pose proof (find_unique _ _ Hnd (list_elem_of_lookup_2 _ _ _ H2)) as F2.
  pose proof (NoDup_pending user _ Hnd) as Hndp. unfold effect_pending in wl.
  set (fl := filter (fun e => (String.eqb (ef_user e) user && is_pending e) = true) (w_effects w)) in *.
  destruct (take_while_split (fun e => ef_next e <=? (clock 0%nat).1) fl) as [rest Hfl].
  assert (forall x, x ∈ wl -> exists e, x = ef_id e /\ e ∈ fl) as Hwl.
  { intros x (e & -> & He)%list_elem_of_fmap. exists e. split; [done|]. rewrite Hfl. apply elem_of_app. by left. }
  assert (forall x, x ∈ wl -> exists e, find_effect x (w_effects w) = Some e) as Hex.
  { intros x (e & -> & He)%Hwl. apply list_elem_of_filter in He as [_ He]. exists e. by apply find_unique. }
  assert (NoDup wl) as Hndw.
  { rewrite Hfl, fmap_app in Hndp. by apply NoDup_app in Hndp as (? & _ & _). }
  assert (find_effect (ef_id e2) (w_effects w') <> Some e2 -> ef_id e2 ∈ wl) as Hin.
  { intros Hch. destruct (decide (ef_id e2 ∈ wl)) as [?|Hn]; [done|]. exfalso. apply Hch.
    unfold w'. by rewrite drain_other. }
  assert (ef_id e2 ∈ wl -> e2 ∈ fl) as Hin2.
  { intros (e & Heq & He)%Hwl. apply list_elem_of_filter in He as [Hp He].
    pose proof (find_unique _ _ Hnd He) as F. rewrite <- Heq, F2 in F. injection F as <-.
    by apply list_elem_of_filter. }
  split.
  - intros Hno. destruct (decide (ef_id e2 ∈ wl)) as [Hi|Hn]; [|unfold w'; by rewrite drain_other].
    exfalso. apply Hin2, list_elem_of_filter in Hi as [Hp _]. bools. destruct Hno; congruence.
  - intros Hlt U1 P1 Hch. pose proof (Hin Hch) as Hb. pose proof (Hin2 Hb) as Hb2.
    apply list_elem_of_filter in Hb2 as [Hp2 _]. bools.
    destruct (pending_before user (w_effects w) i k e1 e2) as (l1 & l2 & l3 & El); [done..|]. fold fl in El.
    assert (ef_id <$> fl = (ef_id <$> (l1 ++ e1 :: l2)) ++ ef_id e2 :: (ef_id <$> l3)) as Eids.
    { rewrite El. change (l1 ++ e1 :: l2 ++ e2 :: l3) with (l1 ++ (e1 :: l2) ++ e2 :: l3).
      by rewrite app_assoc, fmap_app. }
    destruct (elem_prefix (ef_id <$> (l1 ++ e1 :: l2)) (ef_id <$> l3) wl (ef_id <$> rest) (ef_id e2)) as [l4 Ewl].
    { by rewrite <- Eids. } { rewrite <- Eids, Hfl at 1. by rewrite fmap_app. } { done. }
    rewrite fmap_app, fmap_cons, <- app_assoc in Ewl. simpl in Ewl.
    eapply (drained_before cfg window_env repr dispatch dispatch_reply clock 1 user wl w _ _ _ _ _ _ Hndw Hex Ewl).
    by rewrite F2.
Qed.

(** Two replies of the running turn of [running_db]: the first is published and
    completes the job, the second is then discarded. *)
Definition second_reply : effect :=
  new_effect (derive 2 FINAL_REPLY_EFFECT_TYPE 1) "u" (Some 2) FINAL_REPLY_EFFECT_TYPE 4 sample_payload None 14.
Definition two_replies : world Z := mkWorld running_db [sample_reply; second_reply] ∅ ∅ 0.

Lemma drain_in_order_witness :
  settled (ef_id sample_reply)
    (apply_pending_effects Safety.sample_cfg None no_repr no_dispatch (Some count_message) (fun _ => (15, 15)) "u"
       two_replies).1.
Proof.
  destruct (drain_in_order Safety.sample_cfg None no_repr no_dispatch (Some count_message) (fun _ => (15, 15)) "u"
              two_replies 0 1 sample_reply second_reply) as [_ H].
  - decided.
  - reflexivity.
  - reflexivity.
  - apply H; [lia|reflexivity|reflexivity|]. intros E.
    apply (f_equal (fun o : option effect => is_pending <$> o)) in E. vm_compute in E. discriminate E.
Defined.
End EffectOrder.
