(* ===== verification/EffectSink.v ===== *)
(** * The sink delivery protocol ([db.effect_sink_claim] and its companions, the
    sinks of [backend/model_api_runtime/v2/serve_worker.py])

    A sink that writes outside the applier's transaction brackets its write with
    a claim row: claim, write, then complete on success or release on an
    exception. The rows are [v2_effect_sink_applied]; deliveries of one effect
    may overlap, and a process may die between any two statements. A write has
    one or more parts, each a transaction of its target: the cursor, job,
    identity and workspace sinks have one, the memory sink one per action
    ([_apply_memory_actions]), so that it may raise with some of them landed. *)

From S2P Require Import Prelude PyValue.
Local Open Scope Z_scope.

Module Sink.

(** ** Claim rows; the table's CHECK admits only these two states. *)

Inductive claim_state : Type := claimed | completed.

#[global] Instance claim_state_eq_dec : EqDecision claim_state.
Proof. solve_decision. Defined.

Abbreviation claims := (gmap pystr claim_state).

(** True for a brand-new claim, false for a completed row. *)
Definition effect_sink_claim (eid : pystr) (c : claims) : outcome (claims * bool) :=
  match c !! eid with
  | None => Return (<[eid := claimed]> c, true)
  | Some completed => Return (c, false)
  | Some claimed => Raise EffectDeliveryUncertainError
  end.

Definition effect_sink_complete (eid : pystr) (c : claims) : outcome claims :=
  match c !! eid with
  | Some claimed => Return (<[eid := completed]> c)
  | Some completed => Return c
  | None => Raise (RuntimeError "cannot complete an effect without an active claim")
  end.

Definition effect_sink_release (eid : pystr) (c : claims) : claims :=
  match c !! eid with
  | Some claimed => delete eid c
  | _ => c
  end.

(** ** A sink as its caller sees it

    The common body of [_sink_status], [_sink_cursor], [_sink_memory],
    [_sink_identity], [_sink_workspace] and the legacy branch of [_sink_reply]:
    [write] is the write of the target [T] (which may have changed it even when it
    raises). *)
Definition claimed_sink {T V} (eid : pystr) (write : T -> T * outcome V) (skip : V) (s : claims * T)
    : (claims * T) * outcome V :=
  let '(c, t) := s in
  match effect_sink_claim eid c with
  | Raise x => ((c, t), Raise x)
  | Return (c, false) => ((c, t), Return skip)
  | Return (c, true) =>
      match write t with
      | (t, Raise x) => ((effect_sink_release eid c, t), Raise x)
      | (t, Return v) =>
          match effect_sink_complete eid c with
          | Return c => ((c, t), Return v)
          | Raise x => ((c, t), Raise x)
          end
      end
  end.

(** [_sink_job]: a job effect whose generation was passed by is completed
    without a write; [generation] is the second read of the user's generation,
    [expected] the payload's or the first read. *)
Definition sink_job {T} (eid : pystr) (expected generation : outcome Z) (enqueue : T -> T * outcome unit)
    (s : claims * T) : (claims * T) * outcome unit :=
  claimed_sink eid
    (fun t => match expected, generation with
              | Return e, Return g => if e =? g then enqueue t else (t, Return tt)
              | Raise x, _ => (t, Raise x)
              | _, Raise x => (t, Raise x)
              end) tt s.

(** [_capability_effect_error]: a failure the capability marks retryable is
    raised plainly, any other ends the effect. *)
Definition capability_effect_error (retryable : bool) (code : string) : exn :=
  if retryable then RuntimeError code else EffectTerminalError code.

(** ** Overlapping deliveries *)

(** [Holding k]: the claim is held and [k] parts of the write have landed. *)
Inductive pc : Type :=
| Ready
| Holding (k : nat)
| Failed (x : exn)
| Wrote
| Ended (r : outcome unit)
| Dead.

Record delivery : Type := mkDelivery { dl_effect : pystr; dl_pc : pc }.

(** What happened at the target: a part of the write landed, or the whole write
    was skipped on purpose. *)
Inductive event : Type := Landed (eid : pystr) (part : nat) | Skipped (eid : pystr).

#[global] Instance event_eq_dec : EqDecision event.
Proof. solve_decision. Defined.

Record shared : Type := mkShared {
  sh_claims : claims;
  sh_deliveries : list delivery;
  sh_log : list event;
}.

Definition set_delivery (i : nat) (d : delivery) (p : pc) (s : shared) : shared :=
  mkShared (sh_claims s) (<[i := mkDelivery (dl_effect d) p]> (sh_deliveries s)) (sh_log s).

Definition with_claims (c : claims) (s : shared) : shared := mkShared c (sh_deliveries s) (sh_log s).
Definition logged (e : event) (s : shared) : shared := mkShared (sh_claims s) (sh_deliveries s) (sh_log s ++ [e]).

Section Steps.

(** The number of parts of an effect's write. *)
Context (parts : pystr -> nat).

(** One statement of one delivery. A part is one transaction of the target: a
    part that raises has not landed, those before it have. A bookkeeping
    statement may raise without effect ([st_error]) or after its commit (the two
    [lost] steps). *)
Inductive sink_step : shared -> shared -> Prop :=
| st_deliver eid s :
    sink_step s (mkShared (sh_claims s) (sh_deliveries s ++ [mkDelivery eid Ready]) (sh_log s))
| st_claim i d s :
    sh_deliveries s !! i = Some d -> dl_pc d = Ready ->
    sink_step s (match effect_sink_claim (dl_effect d) (sh_claims s) with
                 | Return (c, true) => set_delivery i d (Holding 0) (with_claims c s)
                 | Return (c, false) => set_delivery i d (Ended (Return tt)) (with_claims c s)
                 | Raise x => set_delivery i d (Ended (Raise x)) s
                 end)
| st_part i d k s :
    sh_deliveries s !! i = Some d -> dl_pc d = Holding k -> (k < parts (dl_effect d))%nat ->
    sink_step s (set_delivery i d (Holding (S k)) (logged (Landed (dl_effect d) k) s))
| st_written i d s :
    sh_deliveries s !! i = Some d -> dl_pc d = Holding (parts (dl_effect d)) ->
    sink_step s (set_delivery i d Wrote s)
| st_skip i d s :
    sh_deliveries s !! i = Some d -> dl_pc d = Holding 0 ->
    sink_step s (set_delivery i d Wrote (logged (Skipped (dl_effect d)) s))
| st_write_fails i d k x s :
    sh_deliveries s !! i = Some d -> dl_pc d = Holding k -> (k < parts (dl_effect d))%nat ->
    sink_step s (set_delivery i d (Failed x) s)
| st_release i d x s :
    sh_deliveries s !! i = Some d -> dl_pc d = Failed x ->
    sink_step s (set_delivery i d (Ended (Raise x))
                   (with_claims (effect_sink_release (dl_effect d) (sh_claims s)) s))
| st_complete i d s :
    sh_deliveries s !! i = Some d -> dl_pc d = Wrote ->
    sink_step s (match effect_sink_complete (dl_effect d) (sh_claims s) with
                 | Return c => set_delivery i d (Ended (Return tt)) (with_claims c s)
                 | Raise x => set_delivery i d (Ended (Raise x)) s
                 end)
| st_error i d x s :
    sh_deliveries s !! i = Some d ->
    sink_step s (set_delivery i d (Ended (Raise x)) s)
| st_claim_lost i d c x s :
    sh_deliveries s !! i = Some d -> dl_pc d = Ready ->
    effect_sink_claim (dl_effect d) (sh_claims s) = Return (c, true) ->
    sink_step s (set_delivery i d (Ended (Raise x)) (with_claims c s))
| st_complete_lost i d c x s :
    sh_deliveries s !! i = Some d -> dl_pc d = Wrote ->
    effect_sink_complete (dl_effect d) (sh_claims s) = Return c ->
    sink_step s (set_delivery i d (Ended (Raise x)) (with_claims c s))
| st_die i d s :
    sh_deliveries s !! i = Some d ->
    sink_step s (set_delivery i d Dead s).

Definition idle : shared := mkShared ∅ [] [].

Inductive reachable : shared -> Prop :=
| reach_idle : reachable idle
| reach_step s s' : reachable s -> sink_step s s' -> reachable s'.


(** ** The invariant *)

Definition about (eid : pystr) (e : event) : Prop := match e with Landed x _ | Skipped x => x = eid end.

#[global] Instance about_dec eid e : Decision (about eid e).
Proof. destruct e; simpl; apply _. Defined.

(** What landed of one effect, in order: parts by their index, [None] for a
    write skipped as a whole. *)
Definition entry (e : event) : option nat := match e with Landed _ k => Some k | Skipped _ => None end.
Definition entries (eid : pystr) (log : list event) : list (option nat) :=
  entry <$> filter (about eid) log.

(** The first [k] parts. *)
Definition prefix_parts (k : nat) : list (option nat) := Some <$> seq 0 k.

(** A sequence of unfinished tries: each landed fewer parts than the write has. *)
Inductive tries (n : nat) : list (option nat) -> Prop :=
| tr_nil : tries n []
| tr_try l k : tries n l -> (k < n)%nat -> tries n (l ++ prefix_parts k).

Definition attempted (n : nat) (l : list (option nat)) (k : nat) : Prop :=
  exists f, tries n f /\ l = f ++ prefix_parts k.

(** Unfinished tries, then the write once: every part in order, or skipped. *)
Definition whole (n : nat) (l : list (option nat)) : Prop :=
  exists f, tries n f /\ (l = f ++ prefix_parts n \/ l = f ++ [None]).

Definition active (p : pc) : Prop :=
  match p with Holding _ | Failed _ | Wrote => True | _ => False end.

Definition row_ok (row : option claim_state) (n : nat) (l : list (option nat)) : Prop :=
  match row with
  | None => tries n l
  | Some claimed => (exists k, (k <= n)%nat /\ attempted n l k) \/ whole n l
  | Some completed => whole n l
  end.

Definition pc_ok (p : pc) (row : option claim_state) (n : nat) (l : list (option nat)) : Prop :=
  match p with
  | Holding k => row = Some claimed /\ (k <= n)%nat /\ attempted n l k
  | Failed _ => row = Some claimed /\ tries n l
  | Wrote => row = Some claimed /\ whole n l
  | Ended (Return _) => row = Some completed
  | _ => True
  end.

Record inv (s : shared) : Prop := {
  inv_rows : forall eid, row_ok (sh_claims s !! eid) (parts eid) (entries eid (sh_log s));
  inv_pcs : forall i d, sh_deliveries s !! i = Some d ->
    pc_ok (dl_pc d) (sh_claims s !! dl_effect d) (parts (dl_effect d)) (entries (dl_effect d) (sh_log s));
  inv_one : forall i j d d', sh_deliveries s !! i = Some d -> sh_deliveries s !! j = Some d' ->
    active (dl_pc d) -> active (dl_pc d') -> dl_effect d = dl_effect d' -> i = j;
}.

Lemma entries_snoc eid log e :
  entries eid (log ++ [e]) = entries eid log ++ if decide (about eid e) then [entry e] else [].
Proof using Type.
  unfold entries. rewrite filter_app, fmap_app, filter_cons. by destruct (decide _).
Qed.

Lemma prefix_parts_S k : prefix_parts (S k) = prefix_parts k ++ [Some k].
Proof using Type. unfold prefix_parts. by rewrite seq_S, fmap_app. Qed.

Lemma attempted_0 n l : tries n l -> attempted n l 0.
Proof using Type. intros H. exists l. split; [done|]. by rewrite app_nil_r. Qed.

Lemma attempted_tries n l k : attempted n l k -> (k < n)%nat -> tries n l.
Proof using Type. intros (f & Hf & ->) Hk. by apply tr_try. Qed.

Lemma attempted_S n l k : attempted n l k -> attempted n (l ++ [Some k]) (S k).
Proof using Type. intros (f & Hf & ->). exists f. split; [done|]. by rewrite prefix_parts_S, app_assoc. Qed.

(** An effect whose write is one transaction of its target. *)
Lemma tries_atomic n l : (n <= 1)%nat -> tries n l -> l = [].
Proof using Type.
  intros Hn. induction 1 as [|l k _ -> Hk]; [done|]. assert (k = 0%nat) as -> by lia. done.
Qed.

Lemma row_ok_atomic row n l : (n <= 1)%nat -> row_ok row n l -> (length l <= 1)%nat.
Proof using Type.
  intros Hn. assert (forall f, tries n f -> f = []) as Ht by (intros f; by apply tries_atomic).
  assert (forall k, (k <= n)%nat -> (length (prefix_parts k) <= 1)%nat) as Hp.
  { intros k Hk. unfold prefix_parts. rewrite length_fmap, length_seq. lia. }
  assert (whole n l -> (length l <= 1)%nat) as Hw.
  { intros (f & ->%Ht & [->| ->]); simpl; [by apply Hp|lia]. }
  destruct row as [[]|]; simpl; [|done|intros ->%Ht; simpl; lia].
  intros [(k & Hk & f & ->%Ht & ->)|H]; [by apply Hp|by apply Hw].
Qed.

(** A delivery that holds no claim and was not told of success. *)
Definition quiet (p : pc) : Prop := match p with Ready | Dead | Ended (Raise _) => True | _ => False end.

Lemma quiet_ok p row n l : quiet p -> pc_ok p row n l.
Proof using Type. by destruct p as [| | | |[]|]. Qed.

Lemma quiet_inactive p : quiet p -> ~ active p.
Proof using Type. destruct p as [| | | |[]|]; simpl; tauto. Qed.

(** While a delivery works on a row, or the row is absent, the others are quiet. *)
Lemma others_quiet s i j d d' :
  inv s -> sh_deliveries s !! i = Some d -> sh_deliveries s !! j = Some d' -> i <> j ->
  dl_effect d' = dl_effect d -> active (dl_pc d) \/ sh_claims s !! dl_effect d = None -> quiet (dl_pc d').
Proof using Type.
  intros I Hi Hj Hij He Hd. pose proof (inv_pcs s I j d' Hj) as Hok. rewrite He in Hok.
  assert (active (dl_pc d') -> False) as Hna.
  { intros Ha. destruct Hd as [Hd|Hd]; [by apply Hij, (inv_one s I i j d d')|].
    rewrite Hd in Hok. destruct (dl_pc d') as [| | | |[]|]; simpl in *; intuition congruence. }
  assert (sh_claims s !! dl_effect d <> Some completed) as Hnc.
  { destruct Hd as [Hd|Hd]; [|congruence]. pose proof (inv_pcs s I i d Hi) as Hdok.
    destruct (dl_pc d) as [| | | |[]|]; simpl in *; intuition congruence. }
  destruct (dl_pc d') as [| | | |[]|]; simpl in *; tauto.
Qed.

(** One delivery moves; its row and the log change only for its effect. *)
Lemma inv_move s i d c l p :
  inv s -> sh_deliveries s !! i = Some d ->
  (forall eid, eid <> dl_effect d -> c !! eid = sh_claims s !! eid /\ entries eid l = entries eid (sh_log s)) ->
  row_ok (c !! dl_effect d) (parts (dl_effect d)) (entries (dl_effect d) l) ->
  pc_ok p (c !! dl_effect d) (parts (dl_effect d)) (entries (dl_effect d) l) ->
  (forall j d', sh_deliveries s !! j = Some d' -> i <> j -> dl_effect d' = dl_effect d ->
     pc_ok (dl_pc d') (c !! dl_effect d) (parts (dl_effect d)) (entries (dl_effect d) l) /\ (active p -> ~ active (dl_pc d'))) ->
  inv (mkShared c (<[i := mkDelivery (dl_effect d) p]> (sh_deliveries s)) l).
Proof using Type.
  intros I Hi Hframe Hrow Hp Hoth. split; cbn [sh_claims sh_deliveries sh_log].
  - intros eid. destruct (decide (eid = dl_effect d)) as [->|Hne]; [done|].
    destruct (Hframe eid Hne) as [-> ->]. apply (inv_rows s I).
  - intros j d' Hj. apply list_lookup_insert_Some in Hj as [(-> & <- & _)|[Hij Hj]]; [done|].
    destruct (decide (dl_effect d' = dl_effect d)) as [E|Hne]; [rewrite E; by apply (Hoth j d')|].
    destruct (Hframe _ Hne) as [-> ->]. by apply (inv_pcs s I j).
  - intros j k d1 d2 Hj Hk Ha1 Ha2 He.
    apply list_lookup_insert_Some in Hj as [(-> & <- & _)|[Hij Hj]];
      apply list_lookup_insert_Some in Hk as [(Hk & <- & _)|[Hik Hk]]; cbn [dl_effect dl_pc] in *.
    + done.
    + exfalso. by destruct (Hoth k d2 Hk Hik (eq_sym He)) as [_ []].
    + subst k. exfalso. by destruct (Hoth j d1 Hj Hij He) as [_ []].
    + by apply (inv_one s I j k d1 d2).
Qed.

(** A move that leaves the row and the log alone. *)
Lemma inv_stay s i d p :
  inv s -> sh_deliveries s !! i = Some d -> quiet p \/ (active p /\ active (dl_pc d)) ->
  pc_ok p (sh_claims s !! dl_effect d) (parts (dl_effect d)) (entries (dl_effect d) (sh_log s)) ->
  inv (set_delivery i d p s).
Proof using Type.
  intros I Hi Hp Hok. apply (inv_move s i d (sh_claims s) (sh_log s) p); [done..|apply (inv_rows s I)|done|].
  intros j d' Hj Hij He. split; [rewrite <- He; by apply (inv_pcs s I j)|]. intros Ha Ha'.
  destruct Hp as [Hq|[_ Hd]]; [by apply quiet_inactive in Hq|]. by apply Hij, (inv_one s I i j d d').
Qed.

(** A move of the delivery that works on the row. *)
Lemma inv_work s i d c l p :
  inv s -> sh_deliveries s !! i = Some d -> active (dl_pc d) \/ sh_claims s !! dl_effect d = None ->
  (forall eid, eid <> dl_effect d -> c !! eid = sh_claims s !! eid /\ entries eid l = entries eid (sh_log s)) ->
  row_ok (c !! dl_effect d) (parts (dl_effect d)) (entries (dl_effect d) l) ->
  pc_ok p (c !! dl_effect d) (parts (dl_effect d)) (entries (dl_effect d) l) ->
  inv (mkShared c (<[i := mkDelivery (dl_effect d) p]> (sh_deliveries s)) l).
Proof using Type.
  intros I Hi Hd Hframe Hrow Hp. apply inv_move; [done..|]. intros j d' Hj Hij He.
  pose proof (others_quiet s i j d d' I Hi Hj Hij He Hd) as Hq.
  split; [by apply quiet_ok|]. intros _. by apply quiet_inactive.
Qed.

Lemma claim_frame eid c c' b eid' :
  effect_sink_claim eid c = Return (c', b) -> eid' <> eid -> c' !! eid' = c !! eid'.
Proof using Type.
  unfold effect_sink_claim. intros H Hne. destruct (c !! eid) as [[]|]; [done|by injection H as <- <-|].
  injection H as <- _. by rewrite lookup_insert_ne.
Qed.

Lemma claim_spec eid c c' b :
  effect_sink_claim eid c = Return (c', b) ->
  if (b : bool) then c !! eid = None /\ c' !! eid = Some claimed else c' = c /\ c !! eid = Some completed.
Proof using Type.
  unfold effect_sink_claim. intros H. destruct (c !! eid) as [[]|] eqn:E; [done|by injection H as <- <-|].
  injection H as <- <-. by rewrite lookup_insert_eq.
Qed.

Lemma complete_frame eid c c' eid' :
  effect_sink_complete eid c = Return c' -> eid' <> eid -> c' !! eid' = c !! eid'.
Proof using Type.
  unfold effect_sink_complete. intros H Hne. destruct (c !! eid) as [[]|]; [|by injection H as <-|done].
  injection H as <-. by rewrite lookup_insert_ne.
Qed.

Lemma complete_spec eid c c' : effect_sink_complete eid c = Return c' -> c' !! eid = Some completed.
Proof using Type.
  unfold effect_sink_complete. intros H. destruct (c !! eid) as [[]|] eqn:E; [|by injection H as <-|done].
  injection H as <-. by rewrite lookup_insert_eq.
Qed.

Lemma inv_logged s i d k e p :
  inv s -> sh_deliveries s !! i = Some d -> dl_pc d = Holding k -> about (dl_effect d) e ->
  (forall l, attempted (parts (dl_effect d)) l k -> pc_ok p (Some claimed) (parts (dl_effect d)) (l ++ [entry e])
             /\ row_ok (Some claimed) (parts (dl_effect d)) (l ++ [entry e])) ->
  inv (set_delivery i d p (logged e s)).
Proof using Type.
  intros I Hi Hpc He Hp. pose proof (inv_pcs s I i d Hi) as Hok. rewrite Hpc in Hok.
  destruct Hok as (Hr & Hk & Ha). apply Hp in Ha as [Hp1 Hp2].
  assert (entries (dl_effect d) (sh_log s ++ [e]) = entries (dl_effect d) (sh_log s) ++ [entry e]) as H1
    by (by rewrite entries_snoc, decide_True).
  apply (inv_work s i d (sh_claims s) (sh_log s ++ [e]) p); [done..|rewrite Hpc; by left| |by rewrite H1, Hr|by rewrite H1, Hr].
  intros eid Hne. split; [done|]. rewrite entries_snoc, decide_False; [by rewrite app_nil_r|].
  destruct e; simpl in *; congruence.
Qed.

Lemma inv_claim s i d c :
  inv s -> sh_deliveries s !! i = Some d -> effect_sink_claim (dl_effect d) (sh_claims s) = Return (c, true) ->
  forall p, (forall l, tries (parts (dl_effect d)) l -> pc_ok p (Some claimed) (parts (dl_effect d)) l) ->
  inv (set_delivery i d p (with_claims c s)).
Proof using Type.
  intros I Hi Hc p Hp. pose proof (claim_spec _ _ _ _ Hc) as [Hn Hy].
  pose proof (inv_rows s I (dl_effect d)) as Hrow. rewrite Hn in Hrow. simpl in Hrow.
  apply (inv_work s i d c (sh_log s) p); [done..|by right| | |rewrite Hy; by apply Hp].
  - intros eid Hne. split; [by eapply claim_frame|done].
  - rewrite Hy. left. exists 0%nat. split; [lia|by apply attempted_0].
Qed.

Lemma inv_complete s i d c :
  inv s -> sh_deliveries s !! i = Some d -> dl_pc d = Wrote ->
  effect_sink_complete (dl_effect d) (sh_claims s) = Return c ->
  forall r, inv (set_delivery i d (Ended r) (with_claims c s)).
Proof using Type.
  intros I Hi Hpc Hc r. pose proof (inv_pcs s I i d Hi) as Hok. rewrite Hpc in Hok. destruct Hok as [_ Hn].
  apply (inv_work s i d c (sh_log s) (Ended r)); [done..|rewrite Hpc; by left| |by rewrite (complete_spec _ _ _ Hc)|].
  - intros eid Hne. split; [by eapply complete_frame|done].
  - destruct r; [by apply (complete_spec _ _ _ Hc)|done].
Qed.

Lemma inv_release s i d x :
  inv s -> sh_deliveries s !! i = Some d -> dl_pc d = Failed x ->
  inv (set_delivery i d (Ended (Raise x)) (with_claims (effect_sink_release (dl_effect d) (sh_claims s)) s)).
Proof using Type.
  intros I Hi Hpc. pose proof (inv_pcs s I i d Hi) as Hok. rewrite Hpc in Hok. destruct Hok as [Hr Hn].
  unfold effect_sink_release. rewrite Hr.
  apply (inv_work s i d (delete (dl_effect d) (sh_claims s)) (sh_log s) (Ended (Raise x))); [done..|rewrite Hpc; by left| |by rewrite lookup_delete_eq|done].
  intros eid Hne. by rewrite lookup_delete_ne.
Qed.

Lemma inv_told s i d c :
  inv s -> sh_deliveries s !! i = Some d -> effect_sink_claim (dl_effect d) (sh_claims s) = Return (c, false) ->
  inv (set_delivery i d (Ended (Return tt)) (with_claims c s)).
Proof using Type.
  intros I Hi [-> Hc]%claim_spec.
  apply (inv_move s i d (sh_claims s) (sh_log s) (Ended (Return tt))); [done..|apply (inv_rows s I)|done|].
  intros j d' Hj Hij He. split; [rewrite <- He; by apply (inv_pcs s I j)|]. by intros [].
Qed.

Lemma inv_arrive s eid :
  inv s -> inv (mkShared (sh_claims s) (sh_deliveries s ++ [mkDelivery eid Ready]) (sh_log s)).
Proof using Type.
  intros I. assert (forall i d, (sh_deliveries s ++ [mkDelivery eid Ready]) !! i = Some d ->
    sh_deliveries s !! i = Some d \/ d = mkDelivery eid Ready) as Hcase.
  { intros i d Hi. apply lookup_app_Some in Hi as [Hi|[_ Hi]]; [by left|].
    apply list_lookup_singleton_Some in Hi as [_ <-]. by right. }
  split; cbn [sh_claims sh_deliveries sh_log]; [apply (inv_rows s I)|..].
  - intros i d [Hi| ->]%Hcase; [by apply (inv_pcs s I i)|done].
  - intros i j d d' [Hi| ->]%Hcase [Hj| ->]%Hcase Ha Ha' He; try done. by apply (inv_one s I i j d d').
Qed.

Lemma inv_sink_step s s' : inv s -> sink_step s s' -> inv s'.
Proof using Type.
  intros I H. destruct H as [eid s|i d s Hi Hpc|i d k s Hi Hpc Hk|i d s Hi Hpc|i d s Hi Hpc|i d k x s Hi Hpc Hk
    |i d x s Hi Hpc|i d s Hi Hpc|i d x s Hi|i d c x s Hi Hpc Hc|i d c x s Hi Hpc Hc|i d s Hi].
  - apply inv_arrive, I.
  - destruct (effect_sink_claim _ _) as [[c []]|x] eqn:Hc.
    + eapply inv_claim; [done..|]. intros l Hl. split; [done|]. split; [lia|by apply attempted_0].
    + by apply inv_told.
    + by apply inv_stay; [..|left|].
  - eapply inv_logged; [done..|]. intros l Ha%attempted_S. split; [split; [done|split; [lia|done]]|].
    left. exists (S k). split; [lia|done].
  - pose proof (inv_pcs s I i d Hi) as Hok. rewrite Hpc in Hok. destruct Hok as (Hr & _ & f & Hf & Hl).
    apply inv_stay; [done..|right; by rewrite Hpc|]. split; [done|]. exists f. by split; [|left].
  - eapply inv_logged; [done..|]. intros l (f & Hf & ->). simpl. rewrite app_nil_r.
    assert (whole (parts (dl_effect d)) (f ++ [None])) as Hw by (exists f; by split; [|right]).
    split; [done|by right].
  - pose proof (inv_pcs s I i d Hi) as Hok. rewrite Hpc in Hok. destruct Hok as (Hr & _ & Ha).
    apply inv_stay; [done..|right; by rewrite Hpc|]. split; [done|by eapply attempted_tries].
  - by eapply inv_release.
  - destruct (effect_sink_complete _ _) as [c|x] eqn:Hc; [by eapply inv_complete|]. by apply inv_stay; [..|left|].
  - by apply inv_stay; [..|left|].
  - by eapply inv_claim.
  - by eapply inv_complete.
  - by apply inv_stay; [..|left|].
Qed.

Lemma reachable_sound s : reachable s -> inv s.
Proof using Type.
  induction 1 as [|s s' _ IH Hstep]; [|by eapply inv_sink_step].
  split; [intros eid; cbn; rewrite lookup_empty; constructor|done|done].
Qed.
End Steps.


(** A delivery of three parts fails after its first part; the next one dies
    with all of them landed and its claim open. *)
Definition crashed : shared :=
  mkShared {[u "e" := claimed]}
    [mkDelivery (u "e") (Ended (Raise KeyError)); mkDelivery (u "e") Dead]
    [Landed (u "e") 0; Landed (u "e") 0; Landed (u "e") 1; Landed (u "e") 2].

Lemma crashed_reachable : reachable (fun _ => 3%nat) crashed.
Proof.
  pose proof (reach_idle (fun _ => 3%nat)) as H. eapply reach_step in H; [|apply (st_deliver _ (u "e"))].
  eapply reach_step in H; [|apply (st_claim _ 0 (mkDelivery (u "e") Ready)); reflexivity].
  eapply reach_step in H; [|apply (st_part _ 0 (mkDelivery (u "e") (Holding 0)) 0); [reflexivity..|simpl; lia]].
  eapply reach_step in H; [|apply (st_write_fails _ 0 (mkDelivery (u "e") (Holding 1)) 1 KeyError); [reflexivity..|simpl; lia]].
  eapply reach_step in H; [|apply (st_release _ 0 (mkDelivery (u "e") (Failed KeyError)) KeyError); reflexivity].
  eapply reach_step in H; [|apply (st_deliver _ (u "e"))].
  eapply reach_step in H; [|apply (st_claim _ 1 (mkDelivery (u "e") Ready)); reflexivity].
  eapply reach_step in H; [|apply (st_part _ 1 (mkDelivery (u "e") (Holding 0)) 0); [reflexivity..|simpl; lia]].
  eapply reach_step in H; [|apply (st_part _ 1 (mkDelivery (u "e") (Holding 1)) 1); [reflexivity..|simpl; lia]].
  eapply reach_step in H; [|apply (st_part _ 1 (mkDelivery (u "e") (Holding 2)) 2); [reflexivity..|simpl; lia]].
  eapply reach_step in H; [|apply (st_written _ 1 (mkDelivery (u "e") (Holding 3))); reflexivity].
  eapply reach_step in H; [|apply (st_die _ 1 (mkDelivery (u "e") Wrote)); reflexivity].
  exact H.
Qed.

End Sink.
