(* ===== verification/SelfWake.v ===== *)
(** * The self-wake guard ([jobs_store.reserve_self_wake] and [_sink_schedule] of
    [serve_worker.py])

    A wake turn may schedule another wake of its own. The guard in the user's
    [v2_wake_schedule] row admits a limited number of such schedules until the
    user writes again. [now] plays no part; the chat is the list of the user's
    rows, and the limit is [FEEDLING_MAX_CONSECUTIVE_SELF_WAKES]. *)

From S2P Require Import Prelude PyValue EffectSink.
Local Open Scope Z_scope.

Module SelfWake.

(** The columns [self_wake_*] of the row. *)
Record guard : Type := mkGuard {
  g_streak : Z;
  g_user_seq : Z;
  g_last_effect : pystr;
  g_last_accepted : bool;
}.

(** The row [INSERT ... ON CONFLICT DO NOTHING] creates. *)
Definition fresh_guard : guard := mkGuard 0 0 [] false.

Record message : Type := mkMessage { m_seq : Z; m_role : string; m_source : string }.

(** A message of the user, probes and maintenance apart. *)
Definition genuine (m : message) : bool :=
  bool_decide (m_role m ∈ ["user"; "human"]%string)
  && negb (bool_decide (m_source m ∈ ["verify_ping"; "resident_maintenance"]%string)).

(** [COALESCE(MAX(seq), 0)] over the genuine messages. *)
Definition newest_user_seq (chat : list message) : Z :=
  foldr Z.max 0 (m_seq <$> filter (fun m => genuine m = true) chat).

Record reservation : Type := mkReservation { r_accepted : bool; r_streak : Z; r_replayed : bool }.

Definition reserve_self_wake (effect_id : pystr) (max_consecutive : Z) (chat : list message) (g : option guard)
    : outcome (guard * reservation) :=
  let eid := strip effect_id in
  if bool_decide (eid = []) then Raise (ValueError "self-wake effect_id required")
  else
    let limit := Z.max 0 max_consecutive in
    let g := default fresh_guard g in
    if bool_decide (g_last_effect g = eid)
    then Return (g, mkReservation (g_last_accepted g) (g_streak g) true)
    else
      let user_seq := newest_user_seq chat in
      let streak := if g_user_seq g <? user_seq then 0 else g_streak g in
      let accepted := (limit <=? 0) || (streak <? limit) in
      let next := if accepted then streak + 1 else streak in
      Return (mkGuard next user_seq eid accepted, mkReservation accepted next false).

(** ** The schedule sink

    [capability] is the run of the wake capability with the reading of its
    result, [upsert] the write of the timing columns. *)
Section Schedule.
Context {T V : Type} (capability : T -> T * outcome V) (upsert : T -> T * outcome V) (nothing : V).

Definition SCHEDULE_CAPABILITY_OPS : list string := ["schedule_wake"; "cancel_wake"]%string.

Definition schedule_write (eid : pystr) (op : string) (self_wake : bool) (max_consecutive : Z) (chat : list message)
    (s : option guard * T) : (option guard * T) * outcome V :=
  let '(g, t) := s in
  let run g := let '(t, r) := capability t in ((g, t), r) in
  if bool_decide (op ∈ SCHEDULE_CAPABILITY_OPS) then
    if String.eqb op "schedule_wake" && self_wake then
      match reserve_self_wake eid max_consecutive chat g with
      | Raise x => ((g, t), Raise x)
      | Return (g, r) => if r_accepted r then run (Some g) else ((Some g, t), Return nothing)
      end
    else run g
  else let '(t, r) := upsert t in ((g, t), r).

(** [_sink_schedule] *)
Definition sink_schedule (eid : pystr) (op : string) (self_wake : bool) (max_consecutive : Z) (chat : list message)
    (s : Sink.claims * (option guard * T)) : (Sink.claims * (option guard * T)) * outcome V :=
  Sink.claimed_sink eid (schedule_write eid op self_wake max_consecutive chat) nothing s.
End Schedule.

(** ** Histories *)

Inductive event : Type :=
| Stored (m : message)
| Deleted (keep : message -> bool)
| Reserved (effect_id : pystr).

Record world : Type := mkWorld { w_chat : list message; w_guard : option guard }.

(** One event, and whether it admitted a new self-wake. *)
Definition step (limit : Z) (e : event) (w : world) : world * bool :=
  match e with
  | Stored m => (mkWorld (w_chat w ++ [m]) (w_guard w), false)
  | Deleted keep => (mkWorld (filter (fun m => keep m = true) (w_chat w)) (w_guard w), false)
  | Reserved eid =>
      match reserve_self_wake eid limit (w_chat w) (w_guard w) with
      | Return (g, r) => (mkWorld (w_chat w) (Some g), r_accepted r && negb (r_replayed r))
      | Raise _ => (w, false)
      end
  end.

Fixpoint run (limit : Z) (es : list event) (w : world) : world * Z :=
  match es with
  | [] => (w, 0)
  | e :: es => let '(w, b) := step limit e w in let '(w, n) := run limit es w in (w, (if b then 1 else 0) + n)
  end.

Definition user_silent (e : event) : Prop := match e with Stored m => genuine m = false | _ => True end.

Lemma newest_snoc chat m : genuine m = false -> newest_user_seq (chat ++ [m]) = newest_user_seq chat.
Proof.
  intros Hm. unfold newest_user_seq. rewrite filter_app, filter_cons, decide_False by (by rewrite Hm).
  by rewrite app_nil_r.
Qed.

Lemma newest_filter chat (keep : message -> bool) :
  newest_user_seq (filter (fun m => keep m = true) chat) <= newest_user_seq chat.
Proof.
  unfold newest_user_seq. induction chat as [|m chat IH]; [done|]. rewrite (filter_cons _ m), (filter_cons _ m).
  destruct (decide (keep m = true)); [rewrite filter_cons|]; destruct (decide (genuine m = true)); csimpl; lia.
Qed.

Lemma newest_nonneg chat : 0 <= newest_user_seq chat.
Proof. unfold newest_user_seq. induction chat as [|m chat IH]; [done|]. rewrite filter_cons. case_decide; csimpl; lia. Qed.

(** Once the guard has seen the chat, it stays closed behind it. *)
Definition seen (w : world) : Prop :=
  match w_guard w with Some g => newest_user_seq (w_chat w) <= g_user_seq g | None => False end.

Definition streak_of (w : world) : Z := match w_guard w with Some g => g_streak g | None => 0 end.

(** What a reservation does to the guard. *)
Inductive reserved (limit : Z) (w : world) : world -> bool -> Prop :=
| rs_same w' : w' = w \/ w_guard w = None /\ w_guard w' = Some fresh_guard /\ w_chat w' = w_chat w -> reserved limit w w' false
| rs_new w' (b : bool) streak :
    w_chat w' = w_chat w -> seen w' ->
    (streak = 0 \/ streak = streak_of w) -> (seen w -> streak = streak_of w) ->
    (b = true -> streak < limit /\ streak_of w' = streak + 1) -> (b = false -> streak_of w' = streak) ->
    reserved limit w w' b.

Lemma reserve_cases limit eid w w' b :
  0 < limit -> step limit (Reserved eid) w = (w', b) -> reserved limit w w' b.
Proof.
  intros Hl H. cbn [step] in H. unfold reserve_self_wake in H.
  destruct (bool_decide (strip eid = [])); [injection H as <- <-; by apply rs_same; left|].
  set (g := default fresh_guard (w_guard w)) in H. cbv zeta in H.
  destruct (bool_decide (g_last_effect g = strip eid)) eqn:Elast.
  { injection H as <- <-. rewrite andb_false_r. apply rs_same. destruct w as [chat [g0|]]; [by left|by right]. }
  rewrite (proj2 (Z.leb_gt (Z.max 0 limit) 0)) in H by lia. cbn [orb] in H.
  set (streak := if g_user_seq g <? newest_user_seq (w_chat w) then 0 else g_streak g) in H.
  assert (g_streak g = streak_of w) as Hg by (unfold g, streak_of; by destruct (w_guard w)).
  injection H as <- <-. cbn [r_accepted r_replayed negb]. rewrite andb_true_r.
  apply (rs_new _ _ _ _ streak); cbn [w_chat w_guard streak_of g_streak]; [done|unfold seen; cbn [w_guard g_user_seq w_chat]; lia|..].
  - unfold streak. destruct (_ <? _); auto.
  - intros Hs. unfold streak. rewrite (proj2 (Z.ltb_ge _ _)); [done|].
    unfold seen in Hs. unfold g. by destruct (w_guard w).
  - intros Hb. rewrite Hb. bools. lia.
  - intros Hb. by rewrite Hb.
Qed.

(** Storing and deleting without a user message never opens the guard. *)
Lemma quiet_step limit e w w' b :
  user_silent e -> (forall eid, e <> Reserved eid) -> step limit e w = (w', b) ->
  b = false /\ w_guard w' = w_guard w /\ (seen w -> seen w').
Proof.
  intros He Hn H. destruct e as [m|keep|eid]; [| |by destruct (Hn eid)]; injection H as <- <-;
    (split; [done|]); (split; [done|]); unfold seen; cbn [w_guard w_chat]; destruct (w_guard w); try done.
  - by rewrite newest_snoc.
  - pose proof (newest_filter (w_chat w) keep). lia.
Qed.

Lemma bound_seen limit es w :
  0 < limit -> Forall user_silent es -> seen w -> (run limit es w).2 <= Z.max 0 (limit - streak_of w).
Proof.
  intros Hl Hes. revert w. induction Hes as [|e es He _ IH]; intros w Hs; [simpl; lia|]. cbn [run].
  destruct (step limit e w) as [w' b] eqn:E. specialize (IH w'). destruct (run limit es w') as [w'' n]. cbn [snd] in *.
  destruct e as [m|keep|eid].
  - destruct (quiet_step _ _ _ _ _ He ltac:(done) E) as (-> & Hg & Hk). unfold streak_of in *. rewrite Hg in IH.
    specialize (IH (Hk Hs)). lia.
  - destruct (quiet_step _ _ _ _ _ He ltac:(done) E) as (-> & Hg & Hk). unfold streak_of in *. rewrite Hg in IH.
    specialize (IH (Hk Hs)). lia.
  - destruct (reserve_cases _ _ _ _ _ Hl E) as [w' [->|(Hnone & _)]|w' b streak _ Hs' _ Hst Hb Hb'].
    + specialize (IH Hs). lia.
    + unfold seen in Hs. by rewrite Hnone in Hs.
    + specialize (IH Hs'). rewrite (Hst Hs) in *. destruct b; [destruct (Hb eq_refl)|pose proof (Hb' eq_refl)]; lia.
Qed.

Lemma bound_any limit es w :
  0 < limit -> Forall user_silent es -> 0 <= streak_of w -> (run limit es w).2 <= limit.
Proof.
  intros Hl Hes. revert w. induction Hes as [|e es He Hes IH]; intros w Hs; [simpl; lia|]. cbn [run].
  destruct (step limit e w) as [w' b] eqn:E. specialize (IH w'). pose proof (bound_seen limit es w' Hl Hes) as Hseen.
  destruct (run limit es w') as [w'' n]. cbn [snd] in *. destruct e as [m|keep|eid].
  - destruct (quiet_step _ _ _ _ _ He ltac:(done) E) as (-> & Hg & _). unfold streak_of in *. rewrite Hg in IH. lia.
  - destruct (quiet_step _ _ _ _ _ He ltac:(done) E) as (-> & Hg & _). unfold streak_of in *. rewrite Hg in IH. lia.
  - destruct (reserve_cases _ _ _ _ _ Hl E) as [w' [->|(_ & Hg & _)]|w' b streak _ Hs' Hst _ Hb Hb'].
    + specialize (IH Hs). lia.
    + unfold streak_of in IH. rewrite Hg in IH. cbn in IH. lia.
    + specialize (Hseen Hs'). destruct b; [destruct (Hb eq_refl)|pose proof (Hb' eq_refl)]; lia.
Qed.

Lemma streak_nonneg limit es w : 0 < limit -> 0 <= streak_of w -> 0 <= streak_of (run limit es w).1.
Proof.
  intros Hl. revert w. induction es as [|e es IH]; intros w Hs; [done|]. cbn [run].
  destruct (step limit e w) as [w' b] eqn:E. specialize (IH w'). destruct (run limit es w') as [w'' n]. apply IH.
  destruct e as [m|keep|eid]; [by injection E as <- _|by injection E as <- _|].
  destruct (reserve_cases _ _ _ _ _ Hl E) as [w' [->|(_ & Hg & _)]|w' b streak _ _ Hst _ Hb Hb']; [done| |].
  - unfold streak_of. by rewrite Hg.
  - destruct b; [destruct (Hb eq_refl)|pose proof (Hb' eq_refl)]; lia.
Qed.

(** C28: the self-wake loop is bounded by a positive limit. After any history of stored and deleted
    messages and reservations, a further history in which the user writes nothing
    admits at most the configured number of new self-wakes, whatever is deleted,
    whichever probes and replies are stored, and however often effects are
    replayed. A limit of zero switches the bound off: every reservation with an effect id other than
    the last one is admitted. *)
Theorem self_wake_bound limit before silence :
  Forall user_silent silence ->
  if decide (0 < limit)
  then (run limit silence (run limit before (mkWorld [] None)).1).2 <= limit
  else forall eid w, strip eid <> [] -> (forall g, w_guard w = Some g -> g_last_effect g <> strip eid) ->
       (step limit (Reserved eid) w).2 = true.
Proof.
  intros Hs. destruct (decide (0 < limit)) as [Hl|Hl]; [apply bound_any; [done..|]; by apply streak_nonneg|].
  intros eid w He Hg. cbn [step]. unfold reserve_self_wake. rewrite bool_decide_false by done. cbv zeta.
  rewrite bool_decide_false.
  - rewrite (proj2 (Z.leb_le (Z.max 0 limit) 0)) by lia. done.
  - destruct (w_guard w) as [g|]; cbn [default]; [by apply Hg|]. cbn. congruence.
Qed.

(** Two admissions of two, the third refused; a replay of the second is not a new
    one; the user's message opens the guard again. *)
Definition sample_before : list event := [Stored (mkMessage 1 "user" "ios"); Reserved (u "job1:schedule:0")].
Definition sample_silence : list event :=
  [Stored (mkMessage 2 "openclaw" "model_api"); Reserved (u "job2:schedule:0"); Reserved (u "job2:schedule:0");
   Stored (mkMessage 3 "user" "verify_ping"); Reserved (u "job3:schedule:0")].

Lemma self_wake_bound_witness :
  (run 2 sample_silence (run 2 sample_before (mkWorld [] None)).1).2 = 1 /\
  (run 2 sample_silence (run 2 sample_before (mkWorld [] None)).1).2 <= 2.
Proof.
  split; [vm_compute; reflexivity|].
  apply (self_wake_bound 2 sample_before sample_silence). repeat constructor.
Defined.

End SelfWake.
