(* ===== verification/EffectDelivery.v ===== *)
(** * The outbox over the sink protocol

    The applier of [effect_outbox.py] dispatching to a sink of [serve_worker.py]:
    what one application of a row does to the row, the claim and the target, for
    plaintext and encrypted rows, every state the claim can be in and every way
    the write can end. Parameters of the section: SHA-256, the enclave's
    decryption of a body and the minting of its token (services), and, since the
    statements hold for all of them, the check of the decrypted arguments, the
    writes of the sinks and the workspace-batch sink. *)

From S2P Require Import Prelude PyValue CaptureFailure JobTable WakeSchedule JobQueue JobInv JobFinish JobSafety JobClaim EffectOutbox EffectSafety EffectSink EffectOrder.
Local Open Scope Z_scope.

Module EffectDelivery.
Import Queue Inv Finish Safety Outbox EffectSafety EffectOrder.

Section Delivery.
Context {T : Type} (cfg : config) (window_env : option pyfloat) (repr : pyval -> pystr).
Context (item_id : pystr -> pystr) (mint : outcome unit) (read_body : list (pystr * pyval) -> option (option row))
        (validate : string -> row -> outcome unit)
        (batch_sink : row -> Sink.claims * T -> (Sink.claims * T) * outcome dispatched)
        (write : string -> row -> T -> T * outcome dispatched)
        (reply_sink : row -> Sink.claims * T -> (Sink.claims * T) * outcome dispatched)
        (dispatch_reply : option (string -> row -> gmap string Z * (Sink.claims * T)
                                  -> outcome (gmap string Z * (Sink.claims * T)))).

(** The sinks that claim the effect id of the payload. *)
Definition CLAIMED_TYPES : list string :=
  ["status"; "cursor"; "job"; "memory"; "identity"; "schedule"; "workspace"]%string.

(** The router of [build_effect_dispatch]. *)
Definition sink_dispatch (ty : string) (p : row) (s : Sink.claims * T) : (Sink.claims * T) * outcome dispatched :=
  if String.eqb ty "reply" then reply_sink p s
  else if bool_decide (ty ∈ CLAIMED_TYPES) then
    match p !! "effect_id"%string with
    | Some (PStr eid) => Sink.claimed_sink eid (write ty p) Void s
    | _ => (s, Raise KeyError)
    end
  else (s, Raise (ValueError "unknown effect_type")).

(** [_ENCRYPTED_TOOL_EFFECT_TYPES]: the logical type of a stored one. *)
Definition encrypted_tool_effect_type (stored : string) : option string :=
  if String.eqb stored "memory_encrypted_v1" then Some "memory"%string
  else if String.eqb stored "identity_encrypted_v1" then Some "identity"%string
  else if String.eqb stored "schedule_encrypted_v1" then Some "schedule"%string
  else if String.eqb stored "workspace_encrypted_v1" then Some "workspace"%string
  else if String.eqb stored "workspace_batch_encrypted_v1" then Some "workspace_batch"%string
  else None.

Definition encrypted (p : row) : bool := bool_decide (is_Some (p !! "effect_envelope"%string)).

(** [_decrypt_tool_effect_payload]: only the row's own envelope, bound to its id
    and owner; the inner id is never trusted. *)
Definition decrypt_tool_effect_payload (user : string) (p : row) : outcome row :=
  if negb (encrypted p) then Return p
  else if negb (bool_decide (dom p = {["effect_envelope"%string; "effect_id"%string]}))
  then Raise (RuntimeError "invalid encrypted effect payload shape")
  else
    let eid := get_str repr p "effect_id" in
    match get p "effect_envelope" with
    | PDict envelope =>
        if bool_decide (eid = []) then Raise (RuntimeError "invalid encrypted effect payload")
        else if negb (bool_decide (py_str repr (py_or (dict_get envelope "id") (PStr [])) = item_id eid))
        then Raise (RuntimeError "encrypted effect id mismatch")
        else if negb (bool_decide (py_str repr (py_or (dict_get envelope "owner_user_id") (PStr [])) = u user))
        then Raise (RuntimeError "encrypted effect owner mismatch")
        else
          match read_body envelope with
          | None => Raise (RuntimeError "encrypted effect decrypt failed")
          | Some None => Raise (RuntimeError "encrypted effect plaintext must be an object")
          | Some (Some decoded) => Return (<["effect_id"%string := PStr eid]> decoded)
          end
    | _ => Raise (RuntimeError "invalid encrypted effect payload")
    end.

(** What reaches the sinks: the logical type and the opened payload. *)
Definition open_effect (user : string) (ty : string) (p : row) : outcome (string * row) :=
  if encrypted p then
    match encrypted_tool_effect_type ty with
    | None => Raise (RuntimeError "encrypted payload on unsupported effect type")
    | Some logical =>
        _ ← mint;
        q ← decrypt_tool_effect_payload user p;
        _ ← validate logical q;
        Return (logical, q)
    end
  else Return (ty, p).

(** A batch of workspace operations, whose children claim, not the row. *)
Definition is_batch (ty : string) (p : row) : bool :=
  encrypted p && bool_decide (encrypted_tool_effect_type ty = Some "workspace_batch"%string).

(** The [dispatch] of [_apply_pending_effects_for_user]. *)
Definition turn_dispatch (user : string) (ty : string) (p : row) (s : Sink.claims * T)
    : (Sink.claims * T) * outcome dispatched :=
  match open_effect user ty p with
  | Raise x => (s, Raise x)
  | Return (logical, q) => if is_batch ty p then batch_sink q s else sink_dispatch logical q s
  end.

Abbreviation apply_e user := (apply_effect cfg window_env repr (turn_dispatch user) dispatch_reply user).

(** A due row of the user's current generation that is not a reply and carries
    no reply fence. *)
Record deliverable (user : string) (eid : pystr) (e : effect) (p : row) (now : Z)
    (w : world (Sink.claims * T)) : Prop := {
  dv_row : find_effect eid (w_effects w) = Some e;
  dv_pending : is_pending e = true;
  dv_due : ef_next e <= now;
  dv_runtime : d_runtime (w_db w) !! user = Some ("v2"%string, ef_generation e);
  dv_type : ef_type e ∉ REPLY_EFFECT_TYPES;
  dv_payload : stored_row (ef_payload e) = Some p;
  dv_plain : p !! PERCEPTION_GLANCE_FINGERPRINT_KEY = None /\ p !! FINAL_REPLY_FENCE_KEY = None
             /\ p !! REPLY_SOURCE_FENCE_KEY = None;
}.

(** The payload a sink receives. *)
Definition sent (eid : pystr) (p : row) : row := <["effect_id"%string := PStr eid]> p.

(** The opened payload carries the row's id. *)
Lemma opened_id user ty eid p logical q :
  open_effect user ty (sent eid p) = Return (logical, q) -> q !! "effect_id"%string = Some (PStr eid).
Proof using Type.
  unfold open_effect. destruct (encrypted (sent eid p)) eqn:Ee; [|intros [= <- <-]; apply lookup_insert_eq].
  destruct (encrypted_tool_effect_type ty) as [l|]; [|done].
  intros (? & _ & (q' & Hq & (? & _ & [= <- <-])%bind_return)%bind_return)%bind_return. revert Hq.
  unfold decrypt_tool_effect_payload. rewrite Ee. cbn [negb].
  assert (get_str repr (sent eid p) "effect_id" = eid) as ->.
  { unfold get_str, get, sent. rewrite lookup_insert_eq. by destruct eid. }
  destruct (negb _); [done|]. destruct (get (sent eid p) "effect_envelope"); try done.
  destruct (bool_decide _); [done|]. destruct (negb _); [done|]. destruct (negb _); [done|].
  destruct (read_body _) as [[decoded|]|]; [|done|done]. intros [= <-]. apply lookup_insert_eq.
Qed.

(** No opened payload goes to the reply sink. *)
Lemma opened_no_reply user ty p logical q :
  ty ∉ REPLY_EFFECT_TYPES -> open_effect user ty p = Return (logical, q) -> String.eqb logical "reply" = false.
Proof using Type.
  intros Hty. unfold open_effect. destruct (encrypted p).
  - destruct (encrypted_tool_effect_type ty) as [l|] eqn:El; [|done].
    intros (? & _ & (q' & _ & (? & _ & [= <- <-])%bind_return)%bind_return)%bind_return.
    revert El. unfold encrypted_tool_effect_type. repeat case_goal; intros [= <-]; done.
  - intros [= <- <-]. apply String.eqb_neq. intros ->. apply Hty. left.
Qed.

Lemma fence_plain user jid ty (p : row) clk d :
  ty ∉ REPLY_EFFECT_TYPES -> p !! FINAL_REPLY_FENCE_KEY = None -> p !! REPLY_SOURCE_FENCE_KEY = None ->
  reply_fence_matches window_env repr user jid ty p clk d = (Return (mkVerdict None None None ordinary), p).
Proof using Type.
  intros Ht H1 H2. unfold reply_fence_matches. rewrite bool_decide_false by done. cbn [negb].
  unfold get at 1 2. rewrite H1, H2. cbn. by rewrite (delete_id p FINAL_REPLY_FENCE_KEY), delete_id.
Qed.

Lemma apply_plain user eid e p now clk w :
  deliverable user eid e p now w ->
  apply_e user eid now clk w =
  match turn_dispatch user (ef_type e) (sent eid p) (w_sink w) with
  | (s, r) =>
      match x ← r; serialized_applied_result x with
      | Return res => TxApplied (with_effects (update_effect eid (applied_row e res) (w_effects w)) (with_sink s w)) None
      | Raise x => failed_dispatch e x now (with_sink s w)
      end
  end.
Proof using Type.
  intros [Hrow Hp Hdue Hrt Hty Hpay (Hf1 & Hf2 & Hf3)]. unfold apply_effect, ensure_runtime_state. rewrite Hrt.
  assert (ef_id e = eid) as Hid by (by eapply find_elem).
  replace (with_db (w_db w) w) with w by (by destruct w). rewrite Hrt.
  change (default ("resident"%string, 0) (Some ?x)) with x. cbv beta iota zeta.
  rewrite Hrow, Hp. cbn [negb]. rewrite (proj2 (Z.leb_le _ _)) by done. cbn [negb].
  rewrite String.eqb_refl, Z.eqb_refl. cbn [andb]. unfold apply_current. rewrite Hpay.
  unfold pop_perception_glance_fingerprint. rewrite Hf1, delete_id by done. rewrite fence_plain by done.
  unfold later_veto. cbn [v_discard v_mode negb]. rewrite bool_decide_false by done. cbn [andb].
  unfold attempt. cbn [v_mode]. rewrite (bool_decide_false (ef_type e ∈ _)) by done.
  change (finalizes ordinary) with false. cbv iota. rewrite (bool_decide_true (ordinary = ordinary)) by done.
  unfold sent. rewrite Hid. destruct (turn_dispatch _ _ _ _) as [s [x|x]]; [|done].
  cbn [mbind outcome_bind]. destruct (serialized_applied_result x) as [res|x']; [|done]. done.
Qed.

(** A failed application: deterministic failures end the row, the others are
    recorded on it and raised. *)
Definition failed_row (x : exn) (now : Z) (e : effect) : effect :=
  match x with
  | EffectTerminalError _ => settle e_discarded (sanitized_dispatch_error x) (ef_payload e) e
  | _ => record_error (sanitized_dispatch_error x) (bool_decide (x = EffectDeliveryUncertainError)) now e
  end.

Definition fails_with (x : exn) (w' : world (Sink.claims * T)) (t : @tx (Sink.claims * T)) : Prop :=
  match x with
  | EffectTerminalError _ => t = TxDiscarded w' false None
  | _ => t = TxRaise w' x
  end.

Lemma failed_dispatch_row (eid : pystr) (e : effect) (x : exn) (now : Z) (w : world (Sink.claims * T)) :
  find_effect eid (w_effects w) = Some e -> is_pending e = true ->
  exists w', fails_with x w' (failed_dispatch e x now w) /\ w_sink w' = w_sink w
             /\ find_effect eid (w_effects w') = Some (failed_row x now e).
Proof using Type.
  intros Hf Hp. assert (ef_id e = eid) as Hid by (by eapply find_elem).
  assert (forall err b e', ef_id (record_error err b now e') = ef_id e') as Hrec.
  { intros err b e'. unfold record_error. by destruct (is_pending e'). }
  unfold failed_dispatch, failed_row, fails_with. rewrite Hid.
  destruct x; (eexists; split; [reflexivity|split; [done|]]); cbn [w_effects with_effects discard_row];
    (rewrite find_update_same; [|intros e'; first [apply Hrec|by destruct (is_pending e')]]);
    rewrite Hf; cbn [fmap option_fmap option_map]; by rewrite ?Hp.
Qed.

Lemma applied_row_found eid e res es :
  find_effect eid es = Some e -> find_effect eid (update_effect eid (applied_row e res) es) = Some (applied_row e res e).
Proof using Type. intros Hf. rewrite find_update_same, Hf; [done|]. intros e'. by destruct res as [[]|]. Qed.

Lemma claim_after (eid : pystr) (c : Sink.claims) :
  c !! eid = None ->
  Sink.effect_sink_claim eid c = Return (<[eid := Sink.claimed]> c, true)
  /\ Sink.effect_sink_complete eid (<[eid := Sink.claimed]> c) = Return (<[eid := Sink.completed]> c)
  /\ Sink.effect_sink_release eid (<[eid := Sink.claimed]> c) = c.
Proof using Type.
  intros Hc. unfold Sink.effect_sink_claim, Sink.effect_sink_complete, Sink.effect_sink_release.
  rewrite Hc, lookup_insert_eq. split; [done|]. split; [by rewrite insert_insert_eq|by apply delete_insert_id].
Qed.

(** The row, its claim and the target after an application that ran the write of
    a claiming sink of logical type [ty] on payload [q]. *)
Definition claimed_outcome (user : string) (eid : pystr) (e : effect) (ty : string) (q : row) (now : Z)
    (c : Sink.claims) (t : T) (r : @tx (Sink.claims * T)) (w' : world (Sink.claims * T)) : Prop :=
  match c !! eid with
  | Some Sink.claimed =>
      r = TxRaise w' EffectDeliveryUncertainError /\ w_sink w' = (c, t) /\
      (ef_status <$> find_effect eid (w_effects w')) = Some e_needs_reconciliation
  | Some Sink.completed =>
      r = TxApplied w' None /\ w_sink w' = (c, t) /\
      (ef_status <$> find_effect eid (w_effects w')) = Some e_applied
  | None =>
      match write ty q t with
      | (t', Return v) =>
          w_sink w' = (<[eid := Sink.completed]> c, t') /\
          match serialized_applied_result v with
          | Return res => r = TxApplied w' None /\ find_effect eid (w_effects w') = Some (applied_row e res e)
          | Raise x => fails_with x w' r /\ find_effect eid (w_effects w') = Some (failed_row x now e)
          end
      | (t', Raise x) =>
          w_sink w' = (c, t') /\ fails_with x w' r /\
          find_effect eid (w_effects w') = Some (failed_row x now e)
      end
  end.

(** The row after a dispatch left the sink in [s] with result [x]. *)
Definition settled_outcome (eid : pystr) (e : effect) (now : Z) (s : Sink.claims * T)
    (x : outcome dispatched) (r : @tx (Sink.claims * T)) (w' : world (Sink.claims * T)) : Prop :=
  w_sink w' = s /\
  match v ← x; serialized_applied_result v with
  | Return res => r = TxApplied w' None /\ find_effect eid (w_effects w') = Some (applied_row e res e)
  | Raise x => fails_with x w' r /\ find_effect eid (w_effects w') = Some (failed_row x now e)
  end.

Lemma settled_exists eid e now s x w :
  find_effect eid (w_effects w) = Some e -> is_pending e = true ->
  exists w', settled_outcome eid e now s x
    (match v ← x; serialized_applied_result v with
     | Return res => TxApplied (with_effects (update_effect eid (applied_row e res) (w_effects w)) (with_sink s w)) None
     | Raise x => failed_dispatch e x now (with_sink s w)
     end) w'.
Proof using Type.
  intros Hf Hp. unfold settled_outcome. destruct (v ← x; serialized_applied_result v) as [res|y].
  - eexists. split; [|split; [reflexivity|]]; [done|]. cbn [w_effects with_effects]. by apply applied_row_found.
  - destruct (failed_dispatch_row eid e y now (with_sink s w) Hf Hp) as (w' & H & Hw & Hr).
    exists w'. by rewrite Hw.
Qed.

Lemma settled_claimed user eid e ty q now c t r w' :
  is_pending e = true ->
  settled_outcome eid e now (Sink.claimed_sink eid (write ty q) Void (c, t)).1
    (Sink.claimed_sink eid (write ty q) Void (c, t)).2 r w' ->
  claimed_outcome user eid e ty q now c t r w'.
Proof using Type.
  intros Hp. unfold settled_outcome, claimed_outcome, Sink.claimed_sink. destruct (c !! eid) as [[]|] eqn:Ec.
  - unfold Sink.effect_sink_claim. rewrite Ec. cbn. intros (Hs & Hr & ->). split; [done|]. split; [done|].
    cbn. unfold record_error. by rewrite Hp.
  - unfold Sink.effect_sink_claim. rewrite Ec. cbn [fst snd mbind outcome_bind serialized_applied_result].
    intros (Hs & Hr & ->). done.
  - destruct (claim_after eid c Ec) as (-> & Hco & Hre).
    destruct (write ty q t) as [t' [v|x]]; cbv beta iota zeta; [rewrite Hco|rewrite Hre]; done.
Qed.

End Delivery.

(** ** An encrypted workspace write whose first delivery died after its claim *)

Definition tool_id : pystr := derive 2 "workspace_encrypted_v1" 0.
Definition tool_payload : row :=
  {["effect_envelope"%string := PDict [(u "id", PStr tool_id); (u "owner_user_id", PStr (u "u"))]]}.
Definition tool_effect : effect :=
  new_effect tool_id "u" (Some 2) "workspace_encrypted_v1" 4 tool_payload None 14.
Definition interrupted : world (Sink.claims * Z) :=
  mkWorld running_db [tool_effect] ∅ ∅ ({[tool_id := Sink.claimed]}, 7).
Definition append_event (_ : string) (_ : row) (n : Z) : Z * outcome dispatched := (n + 1, Return Void).
Definition no_sink (_ : row) (s : Sink.claims * Z) : (Sink.claims * Z) * outcome dispatched := (s, Return Void).
Definition sample_body (_ : list (pystr * pyval)) : option (option row) :=
  Some (Some {["op"%string := PStr (u "workspace_delete")]}).
Definition accepts (_ : string) (_ : row) : outcome unit := Return tt.

End EffectDelivery.
