(* ===== verification/Utf8.v ===== *)
(** * UTF-8 as [str.encode] and strict [bytes.decode] compute it

    Text is a list of code points, bytes a list of numbers below 256. Encoding
    refuses surrogates; decoding refuses truncated, overlong, surrogate and out
    of range sequences. *)

From S2P Require Import Prelude PyValue.
Local Open Scope N_scope.

Module Utf8.

Definition surrogate (c : N) : bool := (55296 <=? c) && (c <=? 57343).

Definition encode_point (c : N) : outcome (list N) :=
  if c <? 128 then Return [c]
  else if c <? 2048 then Return [192 + c / 64; 128 + c mod 64]
  else if surrogate c then Raise UnicodeError
  else if c <? 65536 then Return [224 + c / 4096; 128 + c / 64 mod 64; 128 + c mod 64]
  else if c <? 1114112
  then Return [240 + c / 262144; 128 + c / 4096 mod 64; 128 + c / 64 mod 64; 128 + c mod 64]
  else Raise UnicodeError.

(** [s.encode("utf-8")] *)
Fixpoint encode (s : pystr) : outcome (list N) :=
  match s with
  | [] => Return []
  | c :: t => b ← encode_point c; bs ← encode t; Return (b ++ bs)
  end.

Definition cont (b : N) : bool := (128 <=? b) && (b <? 192).

(** [bs.decode("utf-8")] *)
Fixpoint decode (bs : list N) : outcome pystr :=
  match bs with
  | [] => Return []
  | b :: t =>
      if b <? 128 then s ← decode t; Return (b :: s)
      else if b <? 192 then Raise UnicodeError
      else
        match t with
        | [] => Raise UnicodeError
        | b1 :: t1 =>
            if negb (cont b1) then Raise UnicodeError
            else if b <? 224 then
              let c := (b - 192) * 64 + (b1 - 128) in
              if c <? 128 then Raise UnicodeError else s ← decode t1; Return (c :: s)
            else
              match t1 with
              | [] => Raise UnicodeError
              | b2 :: t2 =>
                  if negb (cont b2) then Raise UnicodeError
                  else if b <? 240 then
                    let c := (b - 224) * 4096 + (b1 - 128) * 64 + (b2 - 128) in
                    if (c <? 2048) || surrogate c then Raise UnicodeError else s ← decode t2; Return (c :: s)
                  else
                    match t2 with
                    | [] => Raise UnicodeError
                    | b3 :: t3 =>
                        if negb (cont b3) then Raise UnicodeError
                        else if b <? 248 then
                          let c := (b - 240) * 262144 + (b1 - 128) * 4096 + (b2 - 128) * 64 + (b3 - 128) in
                          if (c <? 65536) || (1114112 <=? c) then Raise UnicodeError
                          else s ← decode t3; Return (c :: s)
                        else Raise UnicodeError
                    end
              end
        end
  end.

(** ** Decoding inverts encoding *)

#[local] Ltac Zify.zify_post_hook ::= Z.to_euclidean_division_equations.

Ltac settle_tests :=
  repeat first
    [ rewrite (proj2 (N.ltb_lt _ _)) by lia
    | rewrite (proj2 (N.ltb_ge _ _)) by lia
    | rewrite (proj2 (N.leb_le _ _)) by lia
    | rewrite (proj2 (N.leb_gt _ _)) by lia ].

Lemma decode_point c b bs s :
  encode_point c = Return b -> decode bs = Return s -> decode (b ++ bs) = Return (c :: s).
Proof.
  unfold encode_point. intros H Hs.
  destruct (c <? 128) eqn:E1; [injection H as <-; simpl; by rewrite E1, Hs|].
  apply N.ltb_ge in E1. destruct (c <? 2048) eqn:E2.
  { apply N.ltb_lt in E2. injection H as <-. cbn [app decode]. unfold cont. settle_tests. cbn [andb negb].
    assert ((192 + c / 64 - 192) * 64 + (128 + c mod 64 - 128) = c) as -> by lia. settle_tests. by rewrite Hs. }
  apply N.ltb_ge in E2. destruct (surrogate c) eqn:Es; [done|]. destruct (c <? 65536) eqn:E3.
  { apply N.ltb_lt in E3. injection H as <-. cbn [app decode]. unfold cont. settle_tests. cbn [andb negb].
    assert ((224 + c / 4096 - 224) * 4096 + (128 + c / 64 mod 64 - 128) * 64 + (128 + c mod 64 - 128) = c) as -> by lia.
    rewrite Es. settle_tests. by rewrite Hs. }
  apply N.ltb_ge in E3. destruct (c <? 1114112) eqn:E4; [|done].
  apply N.ltb_lt in E4. injection H as <-. cbn [app decode]. unfold cont. settle_tests. cbn [andb negb].
  assert ((240 + c / 262144 - 240) * 262144 + (128 + c / 4096 mod 64 - 128) * 4096
          + (128 + c / 64 mod 64 - 128) * 64 + (128 + c mod 64 - 128) = c) as -> by lia.
  settle_tests. by rewrite Hs.
Qed.

Lemma decode_encode s bs : encode s = Return bs -> decode bs = Return s.
Proof.
  revert bs. induction s as [|c s IH]; intros bs H; [by injection H as <-|].
  simpl in H. apply bind_return in H as (b & Hb & H). apply bind_return in H as (bs' & Hbs & H).
  injection H as <-. apply decode_point; [done|]. by apply IH.
Qed.

End Utf8.
