(* ===== verification/PyFloat.v ===== *)
(** * Binary64 arithmetic and exact integers

    [PyValue] has finite floats as multiples of 2^-1074 (ticks). This file has
    the operations that round: a quotient of integers rounded to 53 significant
    bits, ties to even, on which [float(int)], [*] and [/] rest, then [math.ceil],
    [int(v)] and the comparison of an integer with a value. The lemmas say when
    the ceiling of a rounded quotient is the ceiling of the exact one. *)

From S2P Require Import Prelude PyValue.
Local Open Scope Z_scope.

Module Float.

(** The integer nearest to [a / b], ties to even. *)
Definition half_even (a b : Z) : Z :=
  let q := a / b in
  let r := a mod b in
  if 2 * r <? b then q else if b <? 2 * r then q + 1 else if Z.even q then q else q + 1.

(** The exponent, in ticks, of the last of the 53 bits of [a / b]. *)
Definition ulp_exponent (a b : Z) : Z := Z.max 0 (Z.log2 (a / b) - 52).

(** [a / b] ticks rounded to a multiple of its last place. *)
Definition fround (a b : Z) : Z :=
  let e := ulp_exponent a b in half_even a (b * 2 ^ e) * 2 ^ e.

Definition fround_signed (a b : Z) : Z := if a <? 0 then - fround (- a) b else fround a b.

Definition max_ticks : Z := (2 ^ 53 - 1) * 2 ^ 2045.

Definition fnorm (t : Z) : pyfloat :=
  if max_ticks <? Z.abs t then FInf (t <? 0) else FNum t.

(** [float(z)]: an integer beyond the largest float raises. *)
Definition float_of_Z (z : Z) : outcome pyfloat :=
  match fnorm (fround_signed (z * fone) 1) with
  | FNum t => Return (FNum t)
  | _ => Raise OverflowError
  end.

(** [x * y] and [x / y] on finite floats, [y] not zero in the quotient. *)
Definition fmul (x y : Z) : pyfloat := fnorm (fround_signed (x * y) fone).
Definition fdiv (x y : Z) : pyfloat :=
  fnorm (if y <? 0 then fround_signed (- (x * fone)) (- y) else fround_signed (x * fone) y).

(** [math.ceil(x)] *)
Definition ceil_ticks (t : Z) : Z := - ((- t) / fone).
Definition math_ceil (x : pyfloat) : outcome Z :=
  match x with
  | FNum t => Return (ceil_ticks t)
  | FInf _ => Raise OverflowError
  | FNaN => Raise (ValueError "cannot convert float NaN to integer")
  end.

(** [int(v)] *)
Definition int_of (v : pyval) : outcome Z :=
  match v with
  | PInt z => Return z
  | PBool b => Return (if b then 1 else 0)
  | PFloat (FNum t) => Return (Z.quot t fone)
  | PFloat (FInf _) => Raise OverflowError
  | PFloat FNaN => Raise (ValueError "cannot convert float NaN to integer")
  | PStr s => match py_int s with
              | Some z => Return z
              | None => Raise (ValueError "invalid literal for int()")
              end
  | PNone | PList _ | PDict _ => Raise (TypeError "int() argument must be a string or a number")
  end.

(** [z == v] *)
Definition eq_int (z : Z) (v : pyval) : bool :=
  match v with
  | PInt y => y =? z
  | PBool b => (if b then 1 else 0) =? z
  | PFloat (FNum t) => t =? z * fone
  | _ => false
  end.

Definition is_bool (v : pyval) : bool := match v with PBool _ => true | _ => false end.

(** ** Lemmas *)

Lemma fone_pos : 0 < fone.
Proof. unfold fone. apply Z.pow_pos_nonneg; lia. Qed.

(** The rounded quotient is at most [n] when [a / b] is below [n + 1/2], and at
    least [n] when it is above [n - 1/2]. *)
Lemma half_even_le a b n : 0 < b -> 2 * a < (2 * n + 1) * b -> half_even a b <= n.
Proof.
  intros Hb H. unfold half_even. pose proof (Z.div_mod a b ltac:(lia)) as Hd.
  pose proof (Z.mod_pos_bound a b Hb) as Hm. set (q := a / b) in *. set (r := a mod b) in *.
  assert (q <= n) by nia.
  assert (b <= 2 * r -> q + 1 <= n) by nia.
  destruct (2 * r <? b) eqn:E1; [lia|]. bools.
  destruct (b <? 2 * r); [lia|]. destruct (Z.even q); lia.
Qed.

Lemma half_even_ge a b n : 0 < b -> (2 * n - 1) * b < 2 * a -> n <= half_even a b.
Proof.
  intros Hb H. unfold half_even. pose proof (Z.div_mod a b ltac:(lia)) as Hd.
  pose proof (Z.mod_pos_bound a b Hb) as Hm. set (q := a / b) in *. set (r := a mod b) in *.
  assert (n - 1 <= q) by nia.
  assert (2 * r <= b -> n <= q) by nia.
  destruct (2 * r <? b) eqn:E1; bools; [lia|].
  destruct (b <? 2 * r) eqn:E2; bools; [lia|]. destruct (Z.even q); lia.
Qed.

Lemma ceil_ticks_unique t n : (n - 1) * fone < t <= n * fone -> ceil_ticks t = n.
Proof.
  intros H. pose proof fone_pos. unfold ceil_ticks.
  rewrite <- (Z.div_unique (- t) fone (- n) (n * fone - t)); lia.
Qed.

Lemma ulp_exponent_nonneg a b : 0 <= ulp_exponent a b.
Proof. unfold ulp_exponent. lia. Qed.

(** A bound on the quotient bounds its last place. *)
Lemma ulp_exponent_le a b k :
  0 < b -> 0 <= a -> 0 <= k -> a < 2 ^ k * b -> ulp_exponent a b <= Z.max 0 (k - 53).
Proof.
  intros Hb Ha Hk H. unfold ulp_exponent.
  assert (a / b < 2 ^ k) by (apply Z.div_lt_upper_bound; lia).
  destruct (decide (a / b <= 0)) as [Hz|Hz].
  - pose proof (Z.div_pos a b Ha Hb). replace (a / b) with 0 by lia. change (Z.log2 0) with 0. lia.
  - assert (Z.log2 (a / b) < k) by (apply Z.log2_lt_pow2; lia). lia.
Qed.

Lemma ulp_exponent_ge a b k : 0 < b -> 0 <= k -> 2 ^ k * b <= a -> k - 52 <= ulp_exponent a b.
Proof.
  intros Hb Hk H. unfold ulp_exponent.
  assert (2 ^ k <= a / b) by (apply Z.div_le_lower_bound; lia).
  assert (0 < 2 ^ k) by (apply Z.pow_pos_nonneg; lia).
  assert (k <= Z.log2 (a / b)) by (apply Z.log2_le_pow2; lia). lia.
Qed.

(** When the last place of [a / b] divides one, and [a / b] is further than half
    of it above [n - 1] and less than half of it above [n], the ceiling of the
    rounded quotient is [n]. *)
Lemma fround_ceil a b n :
  0 < b -> ulp_exponent a b <= 1074 ->
  (2 * ((n - 1) * fone) + 2 ^ ulp_exponent a b) * b < 2 * a ->
  2 * a < (2 * (n * fone) + 2 ^ ulp_exponent a b) * b ->
  ceil_ticks (fround a b) = n.
Proof.
  intros Hb He Hlo Hhi. apply ceil_ticks_unique. unfold fround.
  pose proof (ulp_exponent_nonneg a b) as H0. set (e := ulp_exponent a b) in *.
  assert (0 < 2 ^ e) as Hp by (apply Z.pow_pos_nonneg; lia).
  assert (fone = 2 ^ (1074 - e) * 2 ^ e) as Hf.
  { unfold fone. rewrite <- Z.pow_add_r by lia. f_equal. lia. }
  set (w := 2 ^ (1074 - e)) in *. rewrite Hf in *. clearbody w.
  assert (half_even a (b * 2 ^ e) <= n * w) by (apply half_even_le; nia).
  assert ((n - 1) * w + 1 <= half_even a (b * 2 ^ e)) by (apply half_even_ge; nia).
  nia.
Qed.

Lemma fround_nonneg a b : 0 < b -> 0 <= a -> 0 <= fround a b.
Proof.
  intros Hb Ha. unfold fround. set (e := ulp_exponent a b).
  assert (0 < 2 ^ e) by (apply Z.pow_pos_nonneg; [lia|apply ulp_exponent_nonneg]).
  assert (0 <= half_even a (b * 2 ^ e)) by (apply half_even_ge; nia). nia.
Qed.

(** An integral number of ones below 2^53 is a float. *)
Lemma fround_exact k b : 0 < b -> 0 <= k < 2 ^ 53 -> fround (k * fone * b) b = k * fone.
Proof.
  intros Hb Hk. pose proof fone_pos as Hf. unfold fround. set (e := ulp_exponent _ _).
  assert (e <= 1074) as He.
  { unfold e. etransitivity; [apply (ulp_exponent_le _ _ 1127); [lia|nia|lia|]|lia].
    replace (2 ^ 1127) with (2 ^ 53 * fone) by (unfold fone; by rewrite <- Z.pow_add_r by lia). nia. }
  assert (0 <= e) by apply ulp_exponent_nonneg.
  assert (0 < 2 ^ e) as Hp by (apply Z.pow_pos_nonneg; lia).
  assert (fone = 2 ^ (1074 - e) * 2 ^ e) as Hs.
  { unfold fone. rewrite <- Z.pow_add_r by lia. f_equal. lia. }
  set (w := 2 ^ (1074 - e)) in *. clearbody w e. rewrite Hs in *.
  assert (half_even (k * (w * 2 ^ e) * b) (b * 2 ^ e) = k * w) as ->.
  { apply Z.le_antisymm; [apply half_even_le|apply half_even_ge]; nia. }
  lia.
Qed.

Lemma fnorm_small t k : 0 <= t <= k * fone -> k <= 2 ^ 53 -> fnorm t = FNum t.
Proof.
  intros Ht Hk. unfold fnorm. rewrite (proj2 (Z.ltb_ge _ _)); [done|].
  rewrite Z.abs_eq by lia. transitivity (2 ^ 53 * fone).
  - pose proof fone_pos. nia.
  - unfold max_ticks, fone. rewrite <- Z.pow_add_r by lia. apply Z.leb_le. by vm_compute.
Qed.

Lemma float_of_Z_small z : 0 <= z < 2 ^ 53 -> float_of_Z z = Return (FNum (z * fone)).
Proof.
  intros Hz. pose proof fone_pos. unfold float_of_Z, fround_signed.
  rewrite (proj2 (Z.ltb_ge _ _)) by nia.
  replace (z * fone) with (z * fone * 1) at 1 by lia. rewrite fround_exact by lia.
  by rewrite (fnorm_small _ z) by nia.
Qed.

End Float.
Export Float.
