(* ===== verification/PromptLimit.v ===== *)
(** * Context-window limits
    ([backend/model_api_runtime/v2/prompt_frontier.py], first part)

    Which conservative context window applies to a provider route: the deployment
    overrides and their keys, the provider's own metadata and its floor, the audited
    model families on their default destinations, and the unaudited default.
    [str.lower], [json.loads], [urllib.parse.urlsplit] and the two environment
    variables are parameters. *)

From S2P Require Import Prelude PyValue PyFloat.
Local Open Scope Z_scope.

Module Limit.

Definition MIN_CONTEXT_WINDOW_TOKENS : Z := 2048.
Definition MAX_CONTEXT_WINDOW_TOKENS : Z := 2000000.

Inductive LimitSource : Type :=
| deployment_override
| provider_metadata
| caller
| audited_family
| unaudited_default.

#[global] Instance LimitSource_eq_dec : EqDecision LimitSource.
Proof. solve_decision. Defined.

Record ModelPromptLimit : Type := mkLimit {
  provider : pystr;
  model : pystr;
  context_window_tokens : Z;
  source : LimitSource;
  family : option pystr;
  override_key : option pystr;
  rejected_provider_metadata_tokens : option Z;
  provider_metadata_floor_tokens : option Z;
  raised_provider_metadata_tokens : option Z;
}.

Record AuditedFamily : Type := mkFamily {
  fam_provider : pystr;
  fam_name : pystr;
  model_prefixes : list pystr;
  lower_bound_tokens : Z;
}.

Definition AUDITED_FAMILIES : list AuditedFamily :=
  [mkFamily (u "openai") (u "openai_modern")
     (map u ["gpt-4o"; "gpt-4.1"; "gpt-5"; "o1"; "o3"; "o4"]) 128000;
   mkFamily (u "anthropic") (u "anthropic_modern")
     (map u ["claude-3-"; "claude-sonnet-4"; "claude-opus-4"; "claude-haiku-4"; "claude-4"]) 128000;
   mkFamily (u "bedrock") (u "bedrock_anthropic_modern")
     (map u ["anthropic.claude-3-"; "anthropic.claude-sonnet-4"; "anthropic.claude-opus-4";
             "anthropic.claude-haiku-4"; "us.anthropic.claude-3-"; "us.anthropic.claude-sonnet-4";
             "us.anthropic.claude-opus-4"; "us.anthropic.claude-haiku-4";
             "eu.anthropic.claude-3-"; "eu.anthropic.claude-sonnet-4";
             "eu.anthropic.claude-opus-4"; "eu.anthropic.claude-haiku-4"]) 128000;
   mkFamily (u "gemini") (u "gemini_modern") (map u ["gemini-1.5"; "gemini-2"; "gemini-3"]) 128000;
   mkFamily (u "deepseek") (u "deepseek_modern")
     (map u ["deepseek-chat"; "deepseek-reasoner"; "deepseek-v4"; "deepseek-flash"]) 1048576;
   mkFamily (u "openrouter") (u "openrouter_modern")
     (map u ["openai/gpt-4o"; "openai/gpt-4.1"; "openai/gpt-5"; "openai/o1"; "openai/o3";
             "openai/o4"; "anthropic/claude-3-"; "anthropic/claude-sonnet-4";
             "anthropic/claude-opus-4"; "anthropic/claude-haiku-4"; "anthropic/claude-4";
             "google/gemini-1.5"; "google/gemini-2"; "google/gemini-3"]) 128000;
   mkFamily (u "openrouter") (u "openrouter_deepseek")
     (map u ["deepseek/deepseek-chat"; "deepseek/deepseek-reasoner"; "deepseek/deepseek-v4"]) 64000].

Definition DEFAULT_BASE_URLS : list (pystr * pystr) :=
  [(u "openai", u "https://api.openai.com/v1");
   (u "openrouter", u "https://openrouter.ai/api/v1");
   (u "anthropic", u "https://api.anthropic.com/v1");
   (u "bedrock", u "https://bedrock-runtime.us-east-1.amazonaws.com");
   (u "gemini", u "https://generativelanguage.googleapis.com/v1beta");
   (u "deepseek", u "https://api.deepseek.com")].

Definition PROVIDER_ALIASES : list (pystr * pystr) :=
  [(u "amazon_bedrock", u "bedrock"); (u "aws_bedrock", u "bedrock"); (u "bedrock", u "bedrock");
   (u "claude", u "anthropic"); (u "google", u "gemini"); (u "google_gemini", u "gemini");
   (u "open_ai", u "openai"); (u "open_router", u "openrouter"); (u "deep_seek", u "deepseek");
   (u "compatible", u "openai_compatible"); (u "custom", u "openai_compatible");
   (u "custom_endpoint", u "openai_compatible")].

(** [_validated_context_window]: both messages are a [ValueError]. *)
Definition validated_context_window (value : pyval) : outcome Z :=
  if is_bool value then Raise (ValueError "must be an integer context window") else
  match int_of value with
  | Raise _ => Raise (ValueError "must be an integer context window")
  | Return parsed =>
      if negb (eq_int parsed value) ||
         negb ((MIN_CONTEXT_WINDOW_TOKENS <=? parsed) && (parsed <=? MAX_CONTEXT_WINDOW_TOKENS))
      then Raise (ValueError "must be between the context window bounds")
      else Return parsed
  end.

(** [raw.split(":", 1)], [None] without a colon. *)
Fixpoint split_colon (s : pystr) : option (pystr * pystr) :=
  match s with
  | [] => None
  | c :: t => if (c =? 58)%N then Some ([], t)
              else '(a, b) ← split_colon t; Some (c :: a, b)
  end.

(** [s.rstrip("/")] *)
Fixpoint lstrip_slash (s : pystr) : pystr :=
  match s with
  | c :: t => if (c =? 47)%N then lstrip_slash t else s
  | [] => []
  end.
Definition rstrip_slash (s : pystr) : pystr := reverse (lstrip_slash (reverse s)).

(** What [urlsplit] gives: [port] is a property that may raise. *)
Record url_parts : Type := mkUrl {
  url_scheme : pystr;
  url_hostname : option pystr;
  url_port : outcome (option Z);
  url_path : pystr;
}.

Section Limit.
Context (lower : pystr -> pystr).
Context (urlsplit : pystr -> outcome url_parts).
(** The values of the two environment variables. *)
Context (metadata_floor_env unaudited_default_env : option pystr).

Definition normalize_provider (p : pystr) : pystr :=
  let value := (fun c => if (c =? 45)%N then 95%N else c) <$> lower (strip p) in
  default value (assoc PROVIDER_ALIASES value).

Definition normalize_override_key (key : pystr) : outcome pystr :=
  match split_colon (strip key) with
  | None => Raise (ValueError "context-window override keys must be 'provider:model'")
  | Some (p, m) =>
      let p := strip p in
      let m := lower (strip m) in
      if bool_decide (p = []) || bool_decide (m = [])
      then Raise (ValueError "context-window override keys must be 'provider:model'")
      else Return ((if bool_decide (p = u "*") then u "*" else normalize_provider p) ++ u ":" ++ m)
  end.

(** The loop both override readers share. *)
Fixpoint override_loop (acc : gmap pystr Z) (items : list (pystr * pyval)) : outcome (gmap pystr Z) :=
  match items with
  | [] => Return acc
  | (raw_key, raw_limit) :: rest =>
      key ← normalize_override_key raw_key;
      if bool_decide (is_Some (acc !! key))
      then Raise (ValueError "duplicate normalized context-window override")
      else limit ← validated_context_window raw_limit;
           override_loop (<[key := limit]> acc) rest
  end.

Definition normalized_overrides (overrides : option (list (pystr * pyval))) : outcome (gmap pystr Z) :=
  match overrides with
  | None | Some [] => Return ∅
  | Some items => override_loop ∅ items
  end.

Definition parse_deployment_overrides (loads : pystr -> outcome pyval) (raw : option pystr)
    : outcome (gmap pystr Z) :=
  match raw with
  | None => Return ∅
  | Some text =>
      if bool_decide (strip text = []) then Return ∅ else
      match loads text with
      | Raise (ValueError _) | Raise (TypeError _) =>
          Raise (ValueError "context-window overrides must be a JSON object")
      | Raise e => Raise e
      | Return (PDict items) => override_loop ∅ items
      | Return _ => Raise (ValueError "context-window overrides must be a JSON object")
      end
  end.

Definition canonical_base_url (value : pystr)
    : outcome (option (pystr * pystr * option Z * pystr)) :=
  parsed ← urlsplit (strip value);
  match url_scheme parsed, url_hostname parsed with
  | [], _ | _, None | _, Some [] => Return None
  | _, Some hostname =>
      let scheme := lower (url_scheme parsed) in
      let host := lower hostname in
      match url_port parsed with
      | Raise (ValueError _) => Return None
      | Raise e => Raise e
      | Return port =>
          let port := if (bool_decide (scheme = u "https") && bool_decide (port = Some 443)) ||
                         (bool_decide (scheme = u "http") && bool_decide (port = Some 80))
                      then None else port in
          Return (Some (scheme, host, port, rstrip_slash (url_path parsed)))
      end
  end.

Definition is_audited_destination (p base_url : pystr) : outcome bool :=
  match assoc DEFAULT_BASE_URLS p with
  | None => Return false
  | Some dflt =>
      if bool_decide (strip base_url = []) then Return true else
      a ← canonical_base_url base_url;
      b ← canonical_base_url dflt;
      Return (bool_decide (a = b))
  end.

Definition DEFAULT_PROVIDER_METADATA_CONTEXT_WINDOW_FLOOR_TOKENS : Z := 32768.
Definition UNAUDITED_DEFAULT_FALLBACK_TOKENS : Z := 65536.

Definition provider_metadata_context_window_floor : outcome Z :=
  match metadata_floor_env with
  | None => Return DEFAULT_PROVIDER_METADATA_CONTEXT_WINDOW_FLOOR_TOKENS
  | Some raw =>
      if bool_decide (strip raw = [])
      then Return DEFAULT_PROVIDER_METADATA_CONTEXT_WINDOW_FLOOR_TOKENS
      else match py_int (strip raw) with
           | None => Raise (ValueError "must be an integer context window")
           | Some parsed => validated_context_window (PInt parsed)
           end
  end.

Definition unaudited_default_context_window : outcome Z :=
  match unaudited_default_env with
  | None => Return UNAUDITED_DEFAULT_FALLBACK_TOKENS
  | Some raw =>
      if bool_decide (strip raw = []) then Return UNAUDITED_DEFAULT_FALLBACK_TOKENS
      else match py_int (strip raw) with
           | None => Raise (ValueError "must be a non-negative integer")
           | Some value => if value <? 0 then Raise (ValueError "must be a non-negative integer")
                           else Return value
           end
  end.

(** The keys looked up, most specific first. *)
Definition override_candidates (p m : pystr) : list pystr :=
  [p ++ u ":" ++ m; p ++ u ":*"; u "*:" ++ m; u "*:*"].

Definition find_override (overrides : gmap pystr Z) (keys : list pystr) : option (pystr * Z) :=
  k ← List.find (fun k => bool_decide (is_Some (overrides !! k))) keys;
  w ← overrides !! k; Some (k, w).

(** Accepted metadata, or rejected metadata with the floor that rejected it. *)
Definition judge_metadata (reported : option pyval) : outcome (option Z * option Z * option Z) :=
  match reported with
  | None => Return (None, None, None)
  | Some value =>
      reported_tokens ← validated_context_window value;
      floor_tokens ← provider_metadata_context_window_floor;
      Return (if floor_tokens <=? reported_tokens then (Some reported_tokens, None, None)
              else (None, Some reported_tokens, Some floor_tokens))
  end.

Definition family_matches (p m : pystr) (f : AuditedFamily) : bool :=
  bool_decide (fam_provider f = p) && existsb (fun prefix => startswith prefix m) (model_prefixes f).

Definition audited_match (audited : bool) (p m : pystr) : option AuditedFamily :=
  if audited then List.find (family_matches p m) AUDITED_FAMILIES else None.

(** The loop over the families: the first match decides, and does not apply when
    accepted metadata already reaches its bound. *)
Definition raising_family (audited : bool) (p m : pystr) (accepted : option Z) : option AuditedFamily :=
  f ← audited_match audited p m;
  match accepted with
  | Some tokens => if lower_bound_tokens f <=? tokens then None else Some f
  | None => Some f
  end.

Definition PromptContextLimitUnconfigured : exn := Other "PromptContextLimitUnconfigured".

Definition resolve_model_limit (raw_provider raw_model base_url : pystr) (reported : option pyval)
    (deployment_overrides : option (list (pystr * pyval))) : outcome ModelPromptLimit :=
  let p := normalize_provider raw_provider in
  let m := lower (strip raw_model) in
  overrides ← normalized_overrides deployment_overrides;
  match find_override overrides (override_candidates p m) with
  | Some (key, window) =>
      Return (mkLimit p m window deployment_override None (Some key) None None None)
  | None =>
      '(accepted, rejected, floor) ← judge_metadata reported;
      audited ← is_audited_destination p base_url;
      match raising_family audited p m accepted with
      | Some f =>
          Return (mkLimit p m (lower_bound_tokens f) audited_family (Some (fam_name f)) None
                    rejected floor accepted)
      | None =>
          match accepted with
          | Some tokens => Return (mkLimit p m tokens provider_metadata None None None None None)
          | None =>
              default_tokens ← unaudited_default_context_window;
              if 0 <? default_tokens
              then window ← validated_context_window (PInt default_tokens);
                   Return (mkLimit p m window unaudited_default None None rejected floor None)
              else Raise PromptContextLimitUnconfigured
          end
      end
  end.

(** ** Properties *)

Definition window_ok (z : Z) : Prop := MIN_CONTEXT_WINDOW_TOKENS <= z <= MAX_CONTEXT_WINDOW_TOKENS.

Lemma validated_context_window_ok v z : validated_context_window v = Return z -> window_ok z.
Proof using Type.
  unfold validated_context_window. intros H. destruct (is_bool v); [done|].
  destruct (int_of v) as [y|]; [|done]. destruct (_ || _) eqn:E; [done|]. injection H as <-.
  bools. split; done.
Qed.

(** On an integer the check is the range test. *)
Lemma validated_context_window_int z :
  validated_context_window (PInt z) =
    if bool_decide (window_ok z) then Return z
    else Raise (ValueError "must be between the context window bounds").
Proof using Type.
  unfold validated_context_window, window_ok. cbn. rewrite Z.eqb_refl. cbn.
  unfold MIN_CONTEXT_WINDOW_TOKENS, MAX_CONTEXT_WINDOW_TOKENS. case_bool_decide as H.
  - rewrite (proj2 (Z.leb_le 2048 z)), (proj2 (Z.leb_le z 2000000)) by lia. done.
  - destruct (2048 <=? z) eqn:E1, (z <=? 2000000) eqn:E2; try done. bools. lia.
Qed.

Lemma override_loop_ok items acc m :
  override_loop acc items = Return m ->
  map_Forall (fun _ => window_ok) acc -> map_Forall (fun _ => window_ok) m.
Proof using Type.
  revert acc. induction items as [|[k v] items IH]; intros acc H Hacc; simpl in H.
  - by injection H as <-.
  - apply bind_return in H as (key & _ & H). destruct (bool_decide _); [done|].
    apply bind_return in H as (z & Hz & H). eapply IH; [done|].
    apply map_Forall_insert_2; [by eapply validated_context_window_ok|done].
Qed.

Lemma normalized_overrides_ok o m :
  normalized_overrides o = Return m -> map_Forall (fun _ => window_ok) m.
Proof using Type.
  unfold normalized_overrides. destruct o as [[|i items]|]; intros H.
  - injection H as <-. apply map_Forall_empty.
  - eapply override_loop_ok; [done|apply map_Forall_empty].
  - injection H as <-. apply map_Forall_empty.
Qed.

Lemma families_ok : Forall (fun f => window_ok (lower_bound_tokens f)) AUDITED_FAMILIES.
Proof using Type. unfold AUDITED_FAMILIES, window_ok. repeat constructor; cbn; done. Qed.

Lemma audited_match_ok audited p m f :
  audited_match audited p m = Some f -> window_ok (lower_bound_tokens f).
Proof using Type.
  unfold audited_match. destruct audited; [|done]. intros H%find_some. destruct H as [Hin _]. pose proof families_ok as Hf.
  rewrite Forall_forall in Hf. apply Hf. by apply list_elem_of_In.
Qed.

Lemma judge_metadata_ok r a rej fl z :
  judge_metadata r = Return (a, rej, fl) -> a = Some z -> window_ok z.
Proof using Type.
  unfold judge_metadata. intros H ->. destruct r as [v|]; [|done].
  apply bind_return in H as (t & Ht & H). apply bind_return in H as (f & _ & H).
  destruct (f <=? t); [|done]. injection H as -> _ _. by eapply validated_context_window_ok.
Qed.

Lemma find_override_lookup o ks k w : find_override o ks = Some (k, w) -> k ∈ ks /\ o !! k = Some w.
Proof using Type.
  unfold find_override. intros H. apply bind_Some in H as (k' & Hf & H).
  apply bind_Some in H as (w' & Hw & [= <- <-]). apply find_some in Hf as [Hin _].
  split; [by apply list_elem_of_In|done].
Qed.

(** ** The reference resolution *)

(** The most specific override: [provider:model], [provider:*], [*:model], [*:*]. *)
Definition most_specific (ov : gmap pystr Z) (p m : pystr) : option Z :=
  match ov !! (p ++ u ":" ++ m), ov !! (p ++ u ":*"), ov !! (u "*:" ++ m), ov !! u "*:*" with
  | Some w, _, _, _ => Some w
  | None, Some w, _, _ => Some w
  | None, None, Some w, _ => Some w
  | None, None, None, w => w
  end.

(** Metadata counts unless it is below the floor. *)
Definition trusted (rep : option Z) (fl : Z) : option Z :=
  match rep with Some t => if decide (t < fl) then None else Some t | None => None end.

Definition in_family (p m : pystr) (f : AuditedFamily) : Prop :=
  fam_provider f = p /\ exists prefix rest, prefix ∈ model_prefixes f /\ m = prefix ++ rest.

(** The bound of the first family of the table the route belongs to. *)
Definition audited_at (p m : pystr) (b : Z) : Prop :=
  exists l1 f l2, AUDITED_FAMILIES = l1 ++ f :: l2 /\ in_family p m f /\ Forall (fun g => ~ in_family p m g) l1 /\
    b = lower_bound_tokens f.

(** The window of a route and where it comes from; [None] is the refusal. *)
Inductive route_window (ov : gmap pystr Z) (p m : pystr) (rep : option Z) (fl : Z) (audited : bool) (d : Z)
    : option (Z * LimitSource) -> Prop :=
| rw_override w : most_specific ov p m = Some w -> route_window ov p m rep fl audited d (Some (w, deployment_override))
| rw_audited b : most_specific ov p m = None -> audited = true -> audited_at p m b ->
    (forall t, trusted rep fl = Some t -> t < b) -> route_window ov p m rep fl audited d (Some (b, audited_family))
| rw_metadata t : most_specific ov p m = None -> trusted rep fl = Some t ->
    (forall b, audited = true -> audited_at p m b -> b <= t) ->
    route_window ov p m rep fl audited d (Some (t, provider_metadata))
| rw_default : most_specific ov p m = None -> trusted rep fl = None -> (forall b, audited = true -> ~ audited_at p m b) ->
    0 < d -> route_window ov p m rep fl audited d (Some (d, unaudited_default))
| rw_refused : most_specific ov p m = None -> trusted rep fl = None -> (forall b, audited = true -> ~ audited_at p m b) ->
    d = 0 -> route_window ov p m rep fl audited d None.

Lemma find_override_specific ov p m : snd <$> find_override ov (override_candidates p m) = most_specific ov p m.
Proof using Type.
  unfold find_override, override_candidates, most_specific. cbn [List.find].
  destruct (ov !! (p ++ u ":" ++ m)) eqn:E1; [rewrite bool_decide_true by eauto; cbn [mbind option_bind]; by rewrite E1|].
  rewrite bool_decide_false by (by intros [? [=]]).
  destruct (ov !! (p ++ u ":*")) eqn:E2; [rewrite bool_decide_true by eauto; cbn [mbind option_bind]; by rewrite E2|].
  rewrite bool_decide_false by (by intros [? [=]]).
  destruct (ov !! (u "*:" ++ m)) eqn:E3; [rewrite bool_decide_true by eauto; cbn [mbind option_bind]; by rewrite E3|].
  rewrite bool_decide_false by (by intros [? [=]]).
  destruct (ov !! u "*:*") eqn:E4; [rewrite bool_decide_true by eauto; cbn [mbind option_bind]; by rewrite E4|].
  by rewrite bool_decide_false by (by intros [? [=]]).
Qed.

Lemma family_matches_spec p m f : family_matches p m f = true <-> in_family p m f.
Proof using Type.
  unfold family_matches, in_family. rewrite andb_true_iff, bool_decide_eq_true, existsb_exists.
  split; intros [Hp H]; (split; [done|]).
  - destruct H as (prefix & Hin & Hs). exists prefix, (drop (length prefix) m). split; [by apply list_elem_of_In|].
    unfold startswith in Hs. apply bool_decide_eq_true in Hs. rewrite <- Hs at 1. by rewrite take_drop.
  - destruct H as (prefix & rest & Hin & ->). exists prefix. split; [by apply list_elem_of_In|].
    unfold startswith. by rewrite take_app_length, bool_decide_true.
Qed.

Lemma audited_at_find p m b : audited_at p m b <-> lower_bound_tokens <$> List.find (family_matches p m) AUDITED_FAMILIES = Some b.
Proof using Type.
  unfold audited_at. generalize AUDITED_FAMILIES as l. induction l as [|g l IH]; cbn [List.find].
  { split; [|done]. intros ([] & f & l2 & [=] & _). }
  destruct (family_matches p m g) eqn:E; cbn.
  - split; [|intros [= <-]; exists [], g, l; split; [done|]; split; [by apply family_matches_spec|done]].
    intros ([|x l1] & f & l2 & [= -> ->] & _ & Hn & ->); [done|]. apply Forall_cons in Hn as [Hn _].
    exfalso. by apply Hn, family_matches_spec.
  - rewrite <- IH. assert (~ in_family p m g) as Hg by (rewrite <- family_matches_spec; congruence). split.
    + intros ([|x l1] & f & l2 & [= -> ->] & Hf & Hn & ->); [done|]. apply Forall_cons in Hn as [_ Hn]. by exists l1, f, l2.
    + intros (l1 & f & l2 & -> & Hf & Hn & ->). exists (g :: l1), f, l2. split; [done|]. split; [done|]. split; [by constructor|done].
Qed.

(** What the metadata given comes to. *)
Definition reports (reported : option pyval) (rep : option Z) : Prop :=
  match reported, rep with
  | None, None => True
  | Some v, Some z => validated_context_window v = Return z
  | _, _ => False
  end.

Lemma judge_metadata_trusted reported rep fl :
  reports reported rep -> provider_metadata_context_window_floor = Return fl ->
  exists rej fl', judge_metadata reported = Return (trusted rep fl, rej, fl').
Proof using Type.
  unfold reports, judge_metadata, trusted. intros Hr Hf. destruct reported as [v|], rep as [z|]; try done; [|by eexists _, _].
  rewrite Hr. cbn [mbind outcome_bind]. rewrite Hf. cbn [mbind outcome_bind].
  destruct (decide (z < fl)); [rewrite (proj2 (Z.leb_gt fl z)) by lia|rewrite (proj2 (Z.leb_le fl z)) by lia]; by eexists _, _.
Qed.

Lemma unaudited_default_nonneg d : unaudited_default_context_window = Return d -> 0 <= d.
Proof using Type.
  unfold unaudited_default_context_window. intros H.
  destruct unaudited_default_env as [raw|]; [|by injection H as <-].
  destruct (bool_decide _); [by injection H as <-|]. destruct (py_int _) as [v|]; [|done].
  destruct (v <? 0) eqn:E; [done|]. injection H as <-. by bools.
Qed.

(** The answer of [resolve_model_limit] for what the reference gives. *)
Definition resolved (p m : pystr) (r : option (Z * LimitSource)) (o : outcome ModelPromptLimit) : Prop :=
  match r with
  | Some (w, src) => window_ok w /\ exists l, o = Return l /\ context_window_tokens l = w /\ source l = src /\ provider l = p /\ model l = m
  | None => o = Raise PromptContextLimitUnconfigured
  end.

(** C20: with a readable configuration (overrides that normalise without a duplicate, metadata and floor that are
    integers in range, a destination that can be compared, a default that is 0 or in range),
    [resolve_model_limit] gives every route the window, and the source, of the reference resolution, of which there is exactly
    one: the most specific of the overrides [provider:model], [provider:*], [*:model], [*:*]; else, at an
    audited destination, the bound of the first audited family the model belongs to if no metadata reaches it; else the
    metadata, if it is not below the floor; else the default; the window is within 2048 and 2000000, and the route is
    refused exactly when nothing is known and the default is 0. *)
Theorem resolve_model_limit_reference rp rm base_url reported overrides ov rep fl audited d :
  let p := normalize_provider rp in
  let m := lower (strip rm) in
  normalized_overrides overrides = Return ov ->
  reports reported rep -> provider_metadata_context_window_floor = Return fl ->
  is_audited_destination p base_url = Return audited ->
  unaudited_default_context_window = Return d ->
  d = 0 \/ window_ok d ->
  (exists r, route_window ov p m rep fl audited d r) /\
  forall r, route_window ov p m rep fl audited d r -> resolved p m r (resolve_model_limit rp rm base_url reported overrides).
Proof using Type.
  intros p m Hov Hrep Hfl Haud Hd Hdok. destruct (judge_metadata_trusted reported rep fl Hrep Hfl) as (rej & fl' & Hacc).
  pose proof (find_override_specific ov p m) as Hfo. pose proof (audited_at_find p m) as Hat.
  pose proof (unaudited_default_nonneg _ Hd) as Hd0. pose proof (judge_metadata_ok _ _ _ _ (default 0 (trusted rep fl)) Hacc) as Hmeta.
  assert (forall f, List.find (family_matches p m) AUDITED_FAMILIES = Some f -> window_ok (lower_bound_tokens f)) as Hfam
    by (intros f; apply (audited_match_ok true p m f)).
  unfold resolve_model_limit. fold p. fold m. rewrite Hov. cbn [mbind outcome_bind].
  destruct (find_override ov _) as [[k w]|] eqn:Ef; cbn [fmap option_fmap option_map snd] in Hfo; symmetry in Hfo.
  { split; [eexists; by apply rw_override|]. apply find_override_lookup in Ef as [_ Hk].
    intros r []; try congruence. rewrite Hfo in H. injection H as <-. split; [by apply (normalized_overrides_ok _ _ Hov k)|by eexists]. }
  rewrite Hacc. cbn [mbind outcome_bind]. rewrite Haud. cbn [mbind outcome_bind].
  unfold raising_family, audited_match.
  assert (forall b, audited = true -> audited_at p m b <-> lower_bound_tokens <$> (if audited then List.find (family_matches p m) AUDITED_FAMILIES else None) = Some b)
    as Hat' by (intros b ->; apply Hat).
  destruct (if audited then List.find _ _ else None) as [f|] eqn:Eaf; cbn [mbind option_bind fmap option_fmap option_map] in *.
  - destruct audited; [|done]. specialize (Hfam f Eaf).
    assert (forall b, audited_at p m b <-> b = lower_bound_tokens f) as Hb by (intros b; rewrite (Hat' b eq_refl); split; [by intros [= ->]|by intros ->]).
    destruct (trusted rep fl) as [t|] eqn:Et; cbn [default] in Hmeta; [destruct (lower_bound_tokens f <=? t) eqn:El; bools|].
    + split; [exists (Some (t, provider_metadata)); apply rw_metadata; [done|done|intros b _ ->%Hb; done]|].
      intros r []; try congruence.
      * pose proof (H2 t Et). apply Hb in H1. lia.
      * rewrite Et in H0. injection H0 as <-. split; [by apply Hmeta|by eexists].
    + split; [exists (Some (lower_bound_tokens f, audited_family)); apply rw_audited; [done|done|by apply Hb|intros ? Ht; rewrite Et in Ht; injection Ht as <-; lia]|].
      intros r []; try congruence.
      * apply Hb in H1 as ->. split; [done|by eexists].
      * rewrite Et in H0. injection H0 as <-. specialize (H1 _ eq_refl (proj2 (Hb _) eq_refl)). lia.
    + split; [exists (Some (lower_bound_tokens f, audited_family)); apply rw_audited; [done|done|by apply Hb|intros ? Ht; congruence]|].
      intros r []; try congruence.
      * apply Hb in H1 as ->. split; [done|by eexists].
      * exfalso. by apply (H1 (lower_bound_tokens f) eq_refl), Hb.
      * exfalso. by apply (H1 (lower_bound_tokens f) eq_refl), Hb.
  - assert (forall b, audited = true -> ~ audited_at p m b) as Hb by (intros b Ha Hx; by apply (Hat' b Ha) in Hx).
    destruct (trusted rep fl) as [t|] eqn:Et; cbn [default] in Hmeta.
    + split; [exists (Some (t, provider_metadata)); apply rw_metadata; [done|done|intros b Ha Hx; by destruct (Hb b Ha)]|].
      intros r []; try congruence; [by destruct (Hb b H0)|]. rewrite Et in H0. injection H0 as <-. split; [by apply Hmeta|by eexists].
    + rewrite Hd. cbn [mbind outcome_bind]. destruct (decide (d = 0)) as [->|Hne].
      * split; [exists None; by apply rw_refused|]. intros r []; try congruence; [by destruct (Hb b H0)|lia|done].
      * split; [exists (Some (d, unaudited_default)); apply rw_default; [done|done|done|lia]|]. intros r []; try congruence; [by destruct (Hb b H0)|].
        rewrite (proj2 (Z.ltb_lt 0 d)) by lia. rewrite validated_context_window_int, bool_decide_true by tauto. cbn. split; [tauto|by eexists].
Qed.
End Limit.

(** [str.lower] on ASCII. *)
Definition ascii_lower (s : pystr) : pystr :=
  (fun c => if (65 <=? c)%N && (c <=? 90)%N then (c + 32)%N else c) <$> s.

Definition no_url (_ : pystr) : outcome url_parts := Raise (ValueError "Invalid IPv6 URL").

(** An audited family raises smaller metadata of the route. *)
Lemma resolve_model_limit_reference_witness :
  resolved (u "openai") (u "gpt-4o-mini") (Some (128000, audited_family))
    (resolve_model_limit ascii_lower no_url None None (u "Open-AI") (u " GPT-4o-mini") [] (Some (PInt 64000)) None).
Proof.
  pose proof (resolve_model_limit_reference ascii_lower no_url None None (u "Open-AI") (u " GPT-4o-mini") []
    (Some (PInt 64000)) None ∅ (Some 64000) 32768 true 65536) as H. cbv zeta in H.
  change (normalize_provider ascii_lower (u "Open-AI")) with (u "openai") in H.
  change (ascii_lower (strip (u " GPT-4o-mini"))) with (u "gpt-4o-mini") in H.
  apply H; [vm_compute; reflexivity|vm_compute; reflexivity|vm_compute; reflexivity|vm_compute; reflexivity|vm_compute; reflexivity|right; split; done|].
  apply rw_audited.
  - vm_compute. reflexivity.
  - reflexivity.
  - apply audited_at_find. vm_compute. reflexivity.
  - intros t Ht. vm_compute in Ht. injection Ht as <-. lia.
Defined.
End Limit.
