(* ===== verification/PromptEstimate.v ===== *)
(** * Prompt accounting
    ([backend/model_api_runtime/v2/prompt_frontier.py], second part;
    [backend/provider_types.py])

    How many admission tokens a prompt component costs: canonical JSON, its UTF-8
    bytes, the calibrated ratios, the reserve that stands for an image, and the
    components built from messages, tool schemas and tool exchanges. The rendering of
    floats ([float_repr]), [str()] of containers ([repr]) and [float(str)]
    ([float_of_text]) are parameters. *)

From S2P Require Import Prelude PyValue Utf8 PyFloat.
Local Open Scope Z_scope.

Module Estimate.

Definition MESSAGE_STRUCTURAL_OVERHEAD_TOKENS : Z := 8.
Definition TOOL_SCHEMA_STRUCTURAL_OVERHEAD_TOKENS : Z := 16.
Definition TOOL_EXCHANGE_STRUCTURAL_OVERHEAD_TOKENS : Z := 12.
Definition DEFAULT_IMAGE_RESERVE_TOKENS : Z := 8192.

(** [DEFAULT_ESTIMATOR_UTF8_BYTES_PER_TOKEN = 1.0] and
    [TOOL_SCHEMA_UTF8_BYTES_PER_TOKEN = 3.5], in ticks. *)
Definition DEFAULT_ESTIMATOR_UTF8_BYTES_PER_TOKEN : Z := fone.
Definition TOOL_SCHEMA_UTF8_BYTES_PER_TOKEN : Z := 7 * 2 ^ 1073.

(** ** Provider values *)

Record ToolSpec : Type := mkSpec {
  spec_name : pystr;
  spec_description : pystr;
  spec_parameters : pyval;
}.

Record ToolCall : Type := mkCall {
  call_id : pystr;
  call_name : pystr;
  call_args : pyval;
  call_args_raw : pystr;
  call_args_ok : bool;
}.

Record ToolResult : Type := mkResult {
  result_call_id : pystr;
  result_content : pystr;
  result_metadata : pyval;
}.

Record NativeAssistantTurn : Type := mkNative { native_wire : pystr; native_payload : pyval }.

Record ToolExchange : Type := mkExchange {
  ex_calls : list ToolCall;
  ex_results : list ToolResult;
  ex_assistant_text : pystr;
  ex_assistant_turn : option NativeAssistantTurn;
}.

(** [dataclasses.asdict] *)
Definition spec_dict (s : ToolSpec) : pyval :=
  PDict [(u "name", PStr (spec_name s)); (u "description", PStr (spec_description s));
         (u "parameters", spec_parameters s)].

Definition call_dict (c : ToolCall) : pyval :=
  PDict [(u "id", PStr (call_id c)); (u "name", PStr (call_name c)); (u "args", call_args c);
         (u "args_raw", PStr (call_args_raw c)); (u "args_ok", PBool (call_args_ok c))].

Definition result_dict (r : ToolResult) : pyval :=
  PDict [(u "call_id", PStr (result_call_id r)); (u "content", PStr (result_content r));
         (u "metadata", result_metadata r)].

Definition exchange_dict (x : ToolExchange) : pyval :=
  PDict [(u "calls", PList (map call_dict (ex_calls x)));
         (u "results", PList (map result_dict (ex_results x)));
         (u "assistant_text", PStr (ex_assistant_text x));
         (u "assistant_turn",
          match ex_assistant_turn x with
          | None => PNone
          | Some n => PDict [(u "wire", PStr (native_wire n)); (u "payload", native_payload n)]
          end)].

(** An entry of the message list: provider-neutral JSON or a native exchange
    ([_is_tool_exchange]). *)
Inductive message : Type :=
| MValue (v : pyval)
| MExchange (x : ToolExchange).

Definition is_tool_exchange (m : message) : bool := match m with MExchange _ => true | _ => false end.

Definition message_value (m : message) : pyval :=
  match m with MValue v => v | MExchange x => exchange_dict x end.

(** ** Components *)

Record PromptComponent : Type := mkComponent {
  pc_name : pystr;
  estimated_tokens : Z;
  required : bool;
  priority : Z;
}.

(** [int(v)] that must be the value itself and not negative. *)
Definition exact_count (v : pyval) (e : exn) : outcome Z :=
  if is_bool v then Raise e else
  match int_of v with
  | Raise _ => Raise e
  | Return z => if negb (eq_int z v) || (z <? 0) then Raise e else Return z
  end.

(** The constructor with [__post_init__]. *)
Definition make_component (name : pystr) (estimate : pyval) (req : bool) (prio : Z)
    : outcome PromptComponent :=
  if bool_decide (strip name = []) then Raise (ValueError "prompt component name is required") else
  z ← exact_count estimate (ValueError "prompt component estimate must be a non-negative integer");
  Return (mkComponent (strip name) z req prio).

Definition PROMPT_BYTE_COMPONENT_NAMES : list pystr :=
  map u ["tools"; "system"; "summary"; "tail"; "worldbook"; "runtime_data"; "screen"; "tool_transcript"].

Record PromptByteComponent : Type := mkBytes { bc_name : pystr; bc_bytes : Z }.

#[global] Instance PromptByteComponent_eq_dec : EqDecision PromptByteComponent.
Proof. solve_decision. Defined.

(** A caller's record, a mapping, or anything else. *)
Inductive byte_input : Type :=
| BRecord (c : PromptByteComponent)
| BMapping (m : row)
| BOther.

Section Estimate.
Context (repr : pyval -> pystr) (float_repr : pyfloat -> pystr).
Context (float_of_text : pystr -> option pyfloat).

Definition make_byte_component (name bytes : pyval) : outcome PromptByteComponent :=
  let name := py_str repr (py_or name (PStr [])) in
  if negb (bool_decide (name ∈ PROMPT_BYTE_COMPONENT_NAMES))
  then Raise (ValueError "prompt byte component name is not in the closed set") else
  z ← exact_count bytes (ValueError "prompt byte component bytes must be a non-negative integer");
  Return (mkBytes name z).

Definition read_byte_component (raw : byte_input) : outcome PromptByteComponent :=
  match raw with
  | BRecord c => Return c
  | BMapping m =>
      if bool_decide (dom m = ({["name"; "bytes"]} : gset string))
      then make_byte_component (get m "name") (get m "bytes")
      else Raise (ValueError "prompt byte component mappings require exactly name and bytes")
  | BOther => Raise (ValueError "prompt byte components must be records")
  end.

(** [totals[name] += bytes], with [order] the keys of [totals] by first use. *)
Fixpoint add_bytes (c : PromptByteComponent) (totals : list PromptByteComponent) : list PromptByteComponent :=
  match totals with
  | [] => [c]
  | t :: ts => if bool_decide (bc_name t = bc_name c)
               then mkBytes (bc_name t) (bc_bytes t + bc_bytes c) :: ts
               else t :: add_bytes c ts
  end.

Fixpoint normalize_loop (totals : list PromptByteComponent) (items : list byte_input)
    : outcome (list PromptByteComponent) :=
  match items with
  | [] => Return totals
  | raw :: rest => item ← read_byte_component raw; normalize_loop (add_bytes item totals) rest
  end.

Definition normalize_prompt_byte_components (items : list byte_input) : outcome (list PromptByteComponent) :=
  normalize_loop [] items.

(** ** Sizes *)

Definition validated_estimator_ratio (value : pyval) : outcome Z :=
  let bad := Raise (ValueError "UTF-8 bytes-per-token estimate must be positive and finite") in
  if is_bool value then bad else
  let parsed := match value with
                | PFloat f => Some f
                | PInt z => match float_of_Z z with Return f => Some f | Raise _ => None end
                | PStr s => float_of_text s
                | _ => None
                end in
  match parsed with
  | Some (FNum t) => if t <=? 0 then bad else Return t
  | _ => bad
  end.

Definition estimate_utf8_tokens (text : pystr) (utf8_bytes_per_token : pyval) : outcome Z :=
  ratio ← validated_estimator_ratio utf8_bytes_per_token;
  bytes ← Utf8.encode text;
  size ← float_of_Z (Zlen bytes);
  match size with
  | FNum t => math_ceil (fdiv t ratio)
  | _ => Raise OverflowError
  end.

(** [allow_nan=False]: a NaN or infinity anywhere raises. *)
Fixpoint json_finite (v : pyval) : bool :=
  match v with
  | PFloat f => isfinite f
  | PList l => forallb json_finite l
  | PDict d => forallb (fun kv => json_finite kv.2) d
  | _ => true
  end.

Fixpoint canonical_dumps (v : pyval) : pystr :=
  match v with
  | PNone => u "null"
  | PBool true => u "true"
  | PBool false => u "false"
  | PInt z => str_of_Z z
  | PFloat f => float_repr f
  | PStr s => json_str s
  | PList l => [91%N] ++ join (u ",") (map canonical_dumps l) ++ [93%N]
  | PDict d => [123%N] ++
      join (u ",") (map (fun kv => json_str kv.1 ++ u ":" ++ kv.2)
        (sorted_by str_leb fst (map (fun kv => (kv.1, canonical_dumps kv.2)) d))) ++ [125%N]
  end.

Definition canonical_json (v : pyval) : outcome pystr :=
  if json_finite v then Return (canonical_dumps v)
  else Raise (ValueError "Out of range float values are not JSON compliant").

Definition estimate_structured_tokens (v : pyval) (overhead : Z) (ratio : pyval) : outcome Z :=
  _ ← raise_if (overhead <? 0) (ValueError "structural overhead must be a non-negative integer");
  text ← canonical_json v;
  z ← estimate_utf8_tokens text ratio;
  Return (z + overhead).

Definition text_component (name text : pystr) (req : bool) (prio : Z) (ratio : pyval) : outcome PromptComponent :=
  z ← estimate_utf8_tokens text ratio; make_component name (PInt z) req prio.

Definition structured_component (name : pystr) (v : pyval) (req : bool) (prio overhead : Z) (ratio : pyval)
    : outcome PromptComponent :=
  z ← estimate_structured_tokens v overhead ratio; make_component name (PInt z) req prio.

(** ** Images *)

Definition dict_get (d : list (pystr * pyval)) (k : string) : pyval := default PNone (assoc d (u k)).

Definition image_marker (child : pyval) : pyval :=
  PDict ((u "url", PStr (u "[image-payload]")) ::
    match child with
    | PDict c => match dict_get c "detail" with PNone => [] | detail => [(u "detail", detail)] end
    | _ => []
    end).

Definition is_image_block (d : list (pystr * pyval)) : bool :=
  bool_decide (py_str repr (py_or (dict_get d "type") (PStr [])) = u "image_url").

(** The sanitized value and the number of images in it. *)
Fixpoint image_accounting_value (v : pyval) : pyval * Z :=
  match v with
  | PDict d =>
      let image := is_image_block d in
      let rendered := map (fun kv =>
        if image && bool_decide (kv.1 = u "image_url") then (kv.1, (image_marker kv.2, 1))
        else (kv.1, image_accounting_value kv.2)) d in
      (PDict (map (fun kr => (kr.1, kr.2.1)) rendered), sumZ (map (fun kr => kr.2.2) rendered))
  | PList l =>
      let rendered := map image_accounting_value l in
      (PList (map fst rendered), sumZ (map snd rendered))
  | _ => (v, 0)
  end.

Definition prompt_structure_utf8_bytes (v : pyval) : outcome Z :=
  text ← canonical_json (image_accounting_value v).1;
  bytes ← Utf8.encode text;
  Return (Zlen bytes).

Definition messages_component (messages : list message) (name : pystr) (req : bool) (prio : Z)
    (ratio image_reserve_tokens : pyval) : outcome PromptComponent :=
  image_reserve ← int_of image_reserve_tokens;
  _ ← raise_if (is_bool image_reserve_tokens || negb (eq_int image_reserve image_reserve_tokens) ||
                (image_reserve <=? 0)) (ValueError "image reserve must be a positive integer");
  let '(accounted_messages, image_count) :=
    image_accounting_value (PList (map message_value messages)) in
  component ← structured_component name accounted_messages req prio
                (Zlen messages * MESSAGE_STRUCTURAL_OVERHEAD_TOKENS) ratio;
  make_component (pc_name component)
    (PInt (estimated_tokens component + image_count * image_reserve))
    (required component) (priority component).

Definition is_ascii (b : N) : Prop := (b < 128)%N.
#[global] Instance is_ascii_dec b : Decision (is_ascii b).
Proof using Type. unfold is_ascii. apply _. Defined.

Definition tool_schemas_component (tools : list ToolSpec) (name : pystr) (req : bool) (prio : Z)
    : outcome PromptComponent :=
  let overhead := Zlen tools * TOOL_SCHEMA_STRUCTURAL_OVERHEAD_TOKENS in
  text ← canonical_json (PList (map spec_dict tools));
  rendered ← Utf8.encode text;
  let ascii_bytes := Zlen (filter is_ascii rendered) in
  let non_ascii_bytes := Zlen rendered - ascii_bytes in
  size ← float_of_Z ascii_bytes;
  calibrated ← match size with
               | FNum t => math_ceil (fdiv t TOOL_SCHEMA_UTF8_BYTES_PER_TOKEN)
               | _ => Raise OverflowError
               end;
  make_component name (PInt (calibrated + non_ascii_bytes + overhead)) req prio.

Definition tool_transcript_component (exchanges : list ToolExchange) (req : bool) (prio : Z) (ratio : pyval)
    : outcome PromptComponent :=
  structured_component (u "tool_transcript") (PList (map exchange_dict exchanges)) req prio
    (Zlen exchanges * TOOL_EXCHANGE_STRUCTURAL_OVERHEAD_TOKENS) ratio.


(** ** Exactness of the calibrated sizes *)

Lemma fround_signed_nonneg a b : 0 <= a -> fround_signed a b = fround a b.
Proof using Type. intros H. unfold fround_signed. by rewrite (proj2 (Z.ltb_ge a 0)) by lia. Qed.

(** A quotient of a byte count by a ratio, when its last place is small enough and the
    exact quotient is not within it above an integer. *)
Lemma math_ceil_fdiv k y n :
  0 < y -> 0 <= k -> 0 <= n <= 2 ^ 53 ->
  ulp_exponent (k * fone * fone) y <= 1074 ->
  (2 * ((n - 1) * fone) + 2 ^ ulp_exponent (k * fone * fone) y) * y < 2 * (k * fone * fone) ->
  k * fone * fone <= n * fone * y ->
  math_ceil (fdiv (k * fone) y) = Return n.
Proof using Type.
  intros Hy Hk Hn He Hlo Hhi. pose proof fone_pos as Hf. unfold fdiv.
  rewrite (proj2 (Z.ltb_ge y 0)) by lia. rewrite fround_signed_nonneg by nia.
  set (a := k * fone * fone) in *.
  assert (0 < 2 ^ ulp_exponent a y) as Hp
    by (apply Z.pow_pos_nonneg; [lia|apply ulp_exponent_nonneg]).
  assert (ceil_ticks (fround a y) = n) as Hc by (apply fround_ceil; [done|done|done|nia]).
  assert (0 <= fround a y) as H0 by (apply fround_nonneg; unfold a; nia).
  assert (fround a y <= n * fone) as Hle.
  { rewrite <- Hc. unfold ceil_ticks. pose proof (Z.mul_div_le (- fround a y) fone Hf). lia. }
  rewrite (fnorm_small _ n) by lia. simpl. by rewrite Hc.
Qed.

(** At one byte per token a text costs exactly its UTF-8 bytes. *)
Lemma estimate_utf8_tokens_default text bytes :
  Utf8.encode text = Return bytes -> Zlen bytes < 2 ^ 53 ->
  estimate_utf8_tokens text (PFloat (FNum DEFAULT_ESTIMATOR_UTF8_BYTES_PER_TOKEN)) = Return (Zlen bytes).
Proof using Type.
  intros He Hlen. pose proof fone_pos as Hf. pose proof (Zlen_nonneg bytes) as H0.
  unfold estimate_utf8_tokens, validated_estimator_ratio, DEFAULT_ESTIMATOR_UTF8_BYTES_PER_TOKEN.
  cbn [is_bool]. rewrite (proj2 (Z.leb_gt fone 0)) by lia. cbn [mbind outcome_bind].
  rewrite He. cbn [mbind outcome_bind]. rewrite float_of_Z_small by lia. cbn [mbind outcome_bind].
  unfold fdiv. rewrite (proj2 (Z.ltb_ge fone 0)) by lia. rewrite fround_signed_nonneg by nia.
  rewrite fround_exact by lia. rewrite (fnorm_small _ (Zlen bytes)) by nia. cbn [math_ceil]. f_equal.
  apply ceil_ticks_unique. nia.
Qed.

(** The calibrated cost of [k] ASCII bytes is [2 k / 7], rounded up. *)
Lemma schema_ratio_ceil k :
  0 <= k < 2 ^ 50 ->
  math_ceil (fdiv (k * fone) TOOL_SCHEMA_UTF8_BYTES_PER_TOKEN) = Return ((2 * k + 6) / 7).
Proof using Type.
  intros Hk. set (n := (2 * k + 6) / 7).
  assert (7 * n - 6 <= 2 * k <= 7 * n) as Hn.
  { unfold n. pose proof (Z.div_mod (2 * k + 6) 7 ltac:(lia)).
    pose proof (Z.mod_pos_bound (2 * k + 6) 7 ltac:(lia)). lia. }
  clearbody n. unfold TOOL_SCHEMA_UTF8_BYTES_PER_TOKEN. set (h := 2 ^ 1073).
  assert (0 < h) as Hh by (apply Z.pow_pos_nonneg; lia).
  assert (fone = 2 * h) as Hf by (unfold fone, h; by rewrite <- Z.pow_succ_r by lia).
  assert (h = 2 ^ 1070 * 8) as Hh8 by (unfold h; change 8 with (2 ^ 3); by rewrite <- Z.pow_add_r by lia).
  assert (ulp_exponent (k * fone * fone) (7 * h) <= 1071) as He.
  { etransitivity; [apply (ulp_exponent_le _ _ 1124); [lia|nia|lia|]|lia].
    replace (2 ^ 1124) with (2 ^ 50 * (2 * h)) by (unfold h; rewrite <- Z.pow_succ_r, <- Z.pow_add_r by lia; done).
    rewrite Hf. nia. }
  pose proof (ulp_exponent_nonneg (k * fone * fone) (7 * h)) as H0.
  assert (2 ^ ulp_exponent (k * fone * fone) (7 * h) <= 2 ^ 1071) as Hp by (apply Z.pow_le_mono_r; lia).
  assert (2 ^ 1071 = 2 * 2 ^ 1070) as Hq by (by rewrite <- Z.pow_succ_r by lia).
  apply math_ceil_fdiv; [lia|lia|lia|lia| |rewrite Hf; nia].
  set (p := 2 ^ ulp_exponent _ _) in *. set (q := 2 ^ 1070) in *. clearbody p q h. rewrite Hf.
  assert (4 * (7 * (n - 1) * h) + 7 * p < 8 * k * h); [|nia]. nia.
Qed.

(** What a catalog costs: two sevenths of its ASCII bytes, every other byte in full, and the
    wrapper reserve. *)
Lemma tool_schemas_component_cost tools name req prio text rendered :
  strip name <> [] ->
  canonical_json (PList (map spec_dict tools)) = Return text ->
  Utf8.encode text = Return rendered -> Zlen rendered < 2 ^ 50 ->
  tool_schemas_component tools name req prio =
    Return (mkComponent (strip name)
      ((2 * Zlen (filter is_ascii rendered) + 6) / 7
       + (Zlen rendered - Zlen (filter is_ascii rendered))
       + 16 * Zlen tools) req prio).
Proof using Type.
  intros Hname Hc He Hlen.
  assert (0 <= Zlen (filter is_ascii rendered) <= Zlen rendered) as Ha.
  { split; [apply Zlen_nonneg|]. unfold Zlen. pose proof (length_filter is_ascii rendered). lia. }
  unfold tool_schemas_component. rewrite Hc. cbn [mbind outcome_bind]. rewrite He. cbn [mbind outcome_bind].
  rewrite float_of_Z_small by lia. cbn [mbind outcome_bind]. rewrite schema_ratio_ceil by lia.
  cbn [mbind outcome_bind]. unfold make_component. rewrite bool_decide_eq_false_2 by done.
  unfold exact_count, TOOL_SCHEMA_STRUCTURAL_OVERHEAD_TOKENS. cbn [is_bool int_of eq_int].
  assert (0 <= (2 * Zlen (filter is_ascii rendered) + 6) / 7) by (apply Z.div_pos; lia).
  pose proof (Zlen_nonneg tools). rewrite Z.eqb_refl, (proj2 (Z.ltb_ge _ 0)) by lia. simpl.
  f_equal. f_equal. lia.
Qed.

Lemma make_component_spec name v req prio c :
  make_component name v req prio = Return c ->
  0 <= estimated_tokens c /\ pc_name c = strip name /\ required c = req /\ priority c = prio.
Proof using Type.
  unfold make_component. intros H. destruct (bool_decide _); [done|].
  apply bind_return in H as (z & Hz & [= <-]). cbn. split; [|done].
  unfold exact_count in Hz. destruct (is_bool v); [done|]. destruct (int_of v) as [y|]; [|done].
  destruct (_ || _) eqn:E; [done|]. injection Hz as <-. bools. done.
Qed.
End Estimate.
End Estimate.
