(* ===== verification/PromptPlan.v ===== *)
(** * Prompt budgets and plans
    ([backend/model_api_runtime/v2/prompt_frontier.py], third part)

    [build_prompt_budget] splits a context window into output reserve, safety margin
    and input budget; [plan_prompt] admits the required components as one set, or
    raises, and then the optional ones by priority. A raised
    [PromptFrontierExhausted] is a value here, because its callers attach data to it
    and re-raise it. *)

From S2P Require Import Prelude PyValue PyFloat PromptLimit PromptEstimate.
Import Limit Estimate.
Local Open Scope Z_scope.

Module Plan.

Definition DEFAULT_OUTPUT_RESERVE_TOKENS : Z := 4096.
Definition MIN_SAFETY_MARGIN_TOKENS : Z := 512.

(** [DEFAULT_SAFETY_MARGIN_RATIO = 0.05]: the nearest float is
    3602879701896397 / 2^56. *)
Definition DEFAULT_SAFETY_MARGIN_RATIO : Z := 3602879701896397 * 2 ^ 1018.

Record PromptBudget : Type := mkBudget {
  budget_context_window : Z;
  output_reserve_tokens : Z;
  safety_margin_tokens : Z;
  input_budget_tokens : Z;
}.

Inductive reason_kind : Type := reason_required | optional_fit | optional_over_budget.

#[global] Instance reason_kind_eq_dec : EqDecision reason_kind.
Proof. solve_decision. Defined.

Record ComponentDecision : Type := mkDecision {
  dec_name : pystr;
  dec_tokens : Z;
  dec_required : bool;
  dec_priority : Z;
  included : bool;
  reason : reason_kind;
}.

Inductive PlanStatus : Type := fits | fits_optional_omitted.

Record PromptFrontierPlan : Type := mkPlan {
  model_limit : ModelPromptLimit;
  budget : PromptBudget;
  decisions : list ComponentDecision;
  estimated_input_tokens : Z;
  remaining_input_tokens : Z;
  status : PlanStatus;
  offered_tool_names : list pystr;
  included_tool_names : list pystr;
  pressure_collapsed_tool_names : list pystr;
  schema_recovery_needed : bool;
  component_bytes : list PromptByteComponent;
  utf8_bytes_per_token : Z;
}.

Definition included_components (p : PromptFrontierPlan) : list pystr :=
  map dec_name (filter (fun d => included d = true) (decisions p)).

Definition omitted_optional_components (p : PromptFrontierPlan) : list pystr :=
  map dec_name (filter (fun d => dec_required d = false /\ included d = false) (decisions p)).

Definition reserved_total_tokens (p : PromptFrontierPlan) : Z :=
  estimated_input_tokens p + output_reserve_tokens (budget p) + safety_margin_tokens (budget p).

(** [PromptFrontierExhausted]. *)
Record ExhaustedInfo : Type := mkExhausted {
  exh_required_tokens : Z;
  exh_budget : PromptBudget;
  exh_required_components : list pystr;
  exh_limit_source : LimitSource;
  exh_utf8_bytes_per_token : option Z;
  exh_component_bytes : list PromptByteComponent;
  exh_provider : pystr;
  exh_rejected_provider_metadata_tokens : option Z;
  exh_provider_metadata_floor_tokens : option Z;
}.

Inductive planned (A : Type) : Type :=
| Planned (a : A)
| FrontierExhausted (x : ExhaustedInfo).
Arguments Planned {A} a.
Arguments FrontierExhausted {A} x.

Definition default_safety (context : Z) : outcome Z :=
  size ← float_of_Z context;
  match size with
  | FNum t => z ← math_ceil (fmul t DEFAULT_SAFETY_MARGIN_RATIO);
              Return (Z.max MIN_SAFETY_MARGIN_TOKENS z)
  | _ => Raise OverflowError
  end.

(** [int(v)], with a check of its own for booleans and inexact values. *)
Definition exact_int (v : pyval) (low : Z) (e : exn) : outcome Z :=
  if is_bool v then Raise e else
  z ← int_of v;
  if (z <? low) || negb (eq_int z v) then Raise e else Return z.

Definition build_prompt_budget (context_window : pyval) (output_reserve : pyval)
    (safety_margin : option pyval) : outcome PromptBudget :=
  context ← validated_context_window context_window;
  output ← exact_int output_reserve 1 (ValueError "output reserve must be a positive integer");
  safety ← match safety_margin with
           | None => default_safety context
           | Some v => exact_int v 0 (ValueError "safety margin must be a non-negative integer")
           end;
  let input_budget := context - output - safety in
  if input_budget <? 0
  then Raise (ValueError "output reserve plus safety margin exceeds context window")
  else Return (mkBudget context output safety input_budget).

(** The key [(-priority, index)] of the admission order. *)
Definition admission_leb (a b : Z * nat) : bool :=
  (a.1 <? b.1) || ((a.1 =? b.1) && (a.2 <=? b.2)%nat).
Definition admission_key (ic : nat * PromptComponent) : Z * nat := (- priority ic.2, ic.1).

Definition enumerate {A} (l : list A) : list (nat * A) := zip (seq 0 (length l)) l.

Definition optional_by_admission_order (cs : list PromptComponent) : list (nat * PromptComponent) :=
  sorted_by admission_leb admission_key (filter (fun ic => required ic.2 = false) (enumerate cs)).

(** The admission loop: the admitted indexes and the tokens used. *)
Fixpoint admit_components (limit used : Z) (order : list (nat * PromptComponent)) : list nat * Z :=
  match order with
  | [] => ([], used)
  | (i, c) :: rest =>
      if used + estimated_tokens c <=? limit
      then let '(ixs, used') := admit_components limit (used + estimated_tokens c) rest in (i :: ixs, used')
      else admit_components limit used rest
  end.

Definition decide_component (admitted : list nat) (ic : nat * PromptComponent) : ComponentDecision :=
  let '(i, c) := ic in
  let '(inc, why) := if required c then (true, reason_required)
                     else if bool_decide (i ∈ admitted) then (true, optional_fit)
                     else (false, optional_over_budget) in
  mkDecision (pc_name c) (estimated_tokens c) (required c) (priority c) inc why.

Definition required_of (cs : list PromptComponent) : list PromptComponent :=
  filter (fun c => required c = true) cs.
Definition required_tokens (cs : list PromptComponent) : Z :=
  sumZ (estimated_tokens <$> required_of cs).

Definition plan_prompt (limit : ModelPromptLimit) (cs : list PromptComponent)
    (output_reserve : pyval) (safety_margin : option pyval) : outcome (planned PromptFrontierPlan) :=
  b ← build_prompt_budget (PInt (context_window_tokens limit)) output_reserve safety_margin;
  _ ← raise_if (negb (bool_decide (NoDup (map pc_name cs))))
        (ValueError "prompt component names must be unique");
  if input_budget_tokens b <? required_tokens cs
  then Return (FrontierExhausted
         (mkExhausted (required_tokens cs) b (map pc_name (required_of cs)) (source limit) None []
            (provider limit) (rejected_provider_metadata_tokens limit)
            (provider_metadata_floor_tokens limit)))
  else
    let '(admitted, used) :=
      admit_components (input_budget_tokens b) (required_tokens cs) (optional_by_admission_order cs) in
    let ds := map (decide_component admitted) (enumerate cs) in
    let remaining := input_budget_tokens b - used in
    _ ← raise_if (remaining <? 0) (Other "AssertionError");
    let omitted := existsb (fun d => negb (included d)) ds in
    Return (Planned (mkPlan limit b ds used remaining
                       (if omitted then fits_optional_omitted else fits)
                       [] [] [] false [] DEFAULT_ESTIMATOR_UTF8_BYTES_PER_TOKEN)).

(** ** The budget *)

(** With [t] ones in the product and [w] = 2^1018, the product exceeds [c / 20] by
    [c / 5] times [w], less than half of its last place when [c / 20] is integral. *)
Lemma safety_product_bounds c n w p :
  0 < w -> 20 * n - 19 <= c <= 20 * n -> 1 <= c <= 2 ^ 40 -> 0 <= p <= 2 ^ 44 * w ->
  (c = 20 * n -> 8 * n * w < p) ->
  2 * ((n - 1) * (2 ^ 56 * w)) + p < 2 * (c * (3602879701896397 * w)) /\
  2 * (c * (3602879701896397 * w)) < 2 * (n * (2 ^ 56 * w)) + p.
Proof.
  intros Hw Hn Hc Hp Hx. change (2 ^ 56) with (20 * 3602879701896397 - 4).
  change (2 ^ 44) with 17592186044416 in Hp. change (2 ^ 40) with 1099511627776 in Hc.
  assert (0 <= n <= 54975581389) by lia.
  replace ((n - 1) * ((20 * 3602879701896397 - 4) * w))
    with ((20 * 3602879701896397 - 4) * (n * w - w)) by ring.
  replace (n * ((20 * 3602879701896397 - 4) * w)) with ((20 * 3602879701896397 - 4) * (n * w)) by ring.
  replace (c * (3602879701896397 * w)) with (3602879701896397 * (c * w)) by ring.
  assert (0 <= n * w) by (apply Z.mul_nonneg_nonneg; lia).
  assert (n * w <= 54975581389 * w) by (apply Z.mul_le_mono_nonneg_r; lia).
  assert (c = 20 * n -> 8 * (n * w) < p) by (intros E; rewrite Z.mul_assoc; by apply Hx).
  assert (c = 20 * n -> c * w = 20 * (n * w)) by (intros ->; ring).
  assert (c * w <= 20 * (n * w)) by (rewrite Z.mul_assoc; apply Z.mul_le_mono_nonneg_r; lia).
  assert (c <> 20 * n -> c * w <= 20 * (n * w) - w).
  { intros ?. replace (20 * (n * w) - w) with ((20 * n - 1) * w) by ring.
    apply Z.mul_le_mono_nonneg_r; lia. }
  assert (20 * (n * w) - 19 * w <= c * w).
  { replace (20 * (n * w) - 19 * w) with ((20 * n - 19) * w) by ring.
    apply Z.mul_le_mono_nonneg_r; lia. }
  clear Hx Hc Hn. destruct (decide (c = 20 * n)).
  - assert (8 * (n * w) < p) by auto. assert (c * w = 20 * (n * w)) by auto. lia.
  - assert (c * w <= 20 * (n * w) - w) by auto. lia.
Qed.

(** The float margin is exactly five per cent rounded up. *)
Lemma safety_ratio_ceil c :
  1 <= c <= 2 ^ 40 ->
  math_ceil (fmul (c * fone) DEFAULT_SAFETY_MARGIN_RATIO) = Return ((c + 19) / 20).
Proof.
  intros Hc. set (n := (c + 19) / 20).
  assert (20 * n - 19 <= c <= 20 * n) as Hn.
  { unfold n. pose proof (Z.div_mod (c + 19) 20 ltac:(lia)).
    pose proof (Z.mod_pos_bound (c + 19) 20 ltac:(lia)). lia. }
  clearbody n. unfold fmul, DEFAULT_SAFETY_MARGIN_RATIO. set (w := 2 ^ 1018).
  assert (0 < w) as Hw by (apply Z.pow_pos_nonneg; lia).
  assert (fone = 2 ^ 56 * w) as Hf by (unfold fone, w; by rewrite <- Z.pow_add_r by lia).
  pose proof fone_pos as Hfp. set (a := c * fone * (3602879701896397 * w)).
  assert (0 <= a) as Ha by (unfold a; nia). rewrite fround_signed_nonneg by done.
  assert (ulp_exponent a fone <= 1062) as He.
  { etransitivity; [apply (ulp_exponent_le _ _ 1115); [lia|done|lia|]|lia].
    replace (2 ^ 1115) with (2 ^ 41 * fone) by (unfold fone; by rewrite <- Z.pow_add_r by lia).
    unfold a. rewrite Hf at 2. nia. }
  set (p := 2 ^ ulp_exponent a fone).
  assert (0 <= p <= 2 ^ 44 * w) as Hp.
  { split; [apply Z.pow_nonneg; lia|]. unfold p, w. rewrite <- Z.pow_add_r by lia. apply Z.pow_le_mono_r; lia. }
  assert (c = 20 * n -> 8 * n * w < p) as Hx.
  { intros ->. set (l := Z.log2 n). assert (0 <= l) as Hl by apply Z.log2_nonneg.
    destruct (Z.log2_spec n ltac:(lia)) as [Hl1 Hl2]. fold l in Hl1, Hl2.
    rewrite Z.pow_succ_r in Hl2 by done.
    assert (l + 1074 - 52 <= ulp_exponent a fone) as Hge.
    { apply ulp_exponent_ge; [done|lia|]. rewrite Z.pow_add_r by lia. fold fone. unfold a.
      assert (2 ^ l * fone <= 20 * n * (3602879701896397 * w)); [rewrite Hf|nia].
      change (2 ^ 56) with (20 * 3602879701896397 - 4). nia. }
    assert (2 ^ l * (16 * w) <= p); [|nia].
    change 16 with (2 ^ 4). unfold p, w. rewrite <- !Z.pow_add_r by lia. apply Z.pow_le_mono_r; lia. }
  destruct (safety_product_bounds c n w p Hw Hn Hc Hp Hx) as [Hlo Hhi]. rewrite <- Hf in Hlo, Hhi.
  assert (ceil_ticks (fround a fone) = n) as Hceil.
  { apply fround_ceil; [done|lia| |]; fold p; unfold a; nia. }
  assert (0 <= fround a fone) by (by apply fround_nonneg).
  assert (fround a fone <= n * fone).
  { rewrite <- Hceil. unfold ceil_ticks. pose proof (Z.mul_div_le (- fround a fone) fone Hfp). lia. }
  rewrite (fnorm_small _ n) by (change (2 ^ 53) with 9007199254740992; lia). simpl. by rewrite Hceil.
Qed.

Lemma default_safety_exact c :
  window_ok c -> default_safety c = Return (Z.max MIN_SAFETY_MARGIN_TOKENS ((c + 19) / 20)).
Proof.
  unfold window_ok, MIN_CONTEXT_WINDOW_TOKENS, MAX_CONTEXT_WINDOW_TOKENS. intros Hc.
  unfold default_safety. rewrite float_of_Z_small by lia. cbn [mbind outcome_bind].
  by rewrite safety_ratio_ceil by lia.
Qed.

(** What [build_prompt_budget] computes on a window of the accepted range with the default
    margin: it exists exactly when the reserve fits beside the margin. *)
Lemma build_prompt_budget_default c out :
  window_ok c -> 1 <= out ->
  let safety := Z.max MIN_SAFETY_MARGIN_TOKENS ((c + 19) / 20) in
  build_prompt_budget (PInt c) (PInt out) None =
    if c <? out + safety
    then Raise (ValueError "output reserve plus safety margin exceeds context window")
    else Return (mkBudget c out safety (c - out - safety)).
Proof.
  intros Hc Hout safety. unfold build_prompt_budget. rewrite validated_context_window_int.
  rewrite bool_decide_eq_true_2 by done. cbn [mbind outcome_bind]. unfold exact_int. cbn [is_bool int_of mbind outcome_bind eq_int].
  rewrite (proj2 (Z.ltb_ge out 1)), Z.eqb_refl by done. cbn [orb negb mbind outcome_bind].
  rewrite default_safety_exact by done. cbn [mbind outcome_bind]. fold safety.
  destruct (c <? out + safety) eqn:E; bools.
  - by rewrite (proj2 (Z.ltb_lt _ 0)) by lia.
  - by rewrite (proj2 (Z.ltb_ge _ 0)) by lia.
Qed.

Lemma exact_int_low v low e z : exact_int v low e = Return z -> low <= z.
Proof.
  unfold exact_int. intros H. destruct (is_bool v); [done|]. apply bind_return in H as (y & _ & H).
  destruct (_ || _) eqn:E; [done|]. injection H as <-. by bools.
Qed.

(** The parts of a budget do not overlap and fill the window. *)
Lemma build_prompt_budget_parts w out safety b :
  build_prompt_budget w out safety = Return b ->
  window_ok (budget_context_window b) /\ 1 <= output_reserve_tokens b /\ 0 <= safety_margin_tokens b /\
  0 <= input_budget_tokens b /\
  budget_context_window b = output_reserve_tokens b + safety_margin_tokens b + input_budget_tokens b.
Proof.
  unfold build_prompt_budget. intros H. apply bind_return in H as (c & Hc & H).
  apply bind_return in H as (o & Ho & H). apply bind_return in H as (s & Hs & H).
  destruct (_ <? 0) eqn:E; [done|]. injection H as <-. bools. cbn.
  apply validated_context_window_ok in Hc as Hok. split; [done|]. split; [by eapply exact_int_low|].
  split; [|lia]. destruct safety as [v|]; [by eapply exact_int_low|].
  rewrite default_safety_exact in Hs by done. injection Hs as <-. unfold MIN_SAFETY_MARGIN_TOKENS. lia.
Qed.

(** ** The admission loop *)

Abbreviation cost ic := (estimated_tokens (snd ic)).

Lemma admit_indexes limit used order : (admit_components limit used order).1 `sublist_of` order.*1.
Proof.
  revert used. induction order as [|[i c] order IH]; intros used; simpl; [constructor|].
  destruct (_ <=? _).
  - specialize (IH (used + estimated_tokens c)). destruct (admit_components _ _ order). by constructor.
  - by constructor.
Qed.

Lemma admit_member_rest limit used i c order j :
  i ∉ order.*1 -> j ∈ order.*1 ->
  (j ∈ (admit_components limit used ((i, c) :: order)).1 <->
   j ∈ (admit_components limit (if used + estimated_tokens c <=? limit then used + estimated_tokens c else used) order).1).
Proof.
  intros Hi Hj. simpl. destruct (_ <=? _); [|done]. destruct (admit_components _ _ order) as [ixs z]. simpl.
  rewrite elem_of_cons. split; [|by right]. intros [->|?]; done.
Qed.

(** The tokens used are those of the admitted components, and never pass the limit. *)
Lemma admit_used limit used order :
  NoDup (order.*1) ->
  (admit_components limit used order).2 =
    used + sumZ ((fun ic => cost ic) <$>
                   filter (fun ic => ic.1 ∈ (admit_components limit used order).1) order) /\
  (used <= limit -> (admit_components limit used order).2 <= limit).
Proof.
  revert used. induction order as [|[i c] order IH]; intros used Hnd.
  { simpl. split; lia. }
  rewrite fmap_cons in Hnd. apply NoDup_cons in Hnd as [Hi Hnd].
  assert (forall l : list nat, (forall j, j ∈ order.*1 -> (j ∈ (admit_components limit used ((i, c) :: order)).1 <-> j ∈ l)) ->
    filter (fun ic => ic.1 ∈ (admit_components limit used ((i, c) :: order)).1) order =
    filter (fun ic : nat * PromptComponent => ic.1 ∈ l) order) as Hfil.
  { intros l Hl. apply list_filter_iff_strong. intros [j d] Hj. simpl. apply Hl.
    apply list_elem_of_fmap. exists (j, d). done. }
  pose proof (fun j => admit_member_rest limit used i c order j Hi) as Hmem.
  rewrite filter_cons. rewrite (Hfil _ Hmem). clear Hfil Hmem. simpl.
  destruct (used + estimated_tokens c <=? limit) eqn:E; bools.
  - specialize (IH (used + estimated_tokens c) Hnd). destruct (admit_components _ _ order) as [ixs z]. cbn [fst snd] in *.
    rewrite decide_True by (by left). rewrite fmap_cons, sumZ_cons. destruct IH as [IH1 IH2].
    split; [cbn [snd]; lia|]. intros _. by apply IH2.
  - specialize (IH used Hnd). rewrite decide_False; [done|]. intros H. apply Hi.
    pose proof (admit_indexes limit used order) as Hsub. by eapply elem_of_submseteq; [|apply sublist_submseteq].
Qed.

(** A component of the order is admitted exactly when it fits beside the admitted ones before it. *)
Lemma admit_iff limit used pre i c post :
  NoDup (pre ++ (i, c) :: post).*1 ->
  let ixs := (admit_components limit used (pre ++ (i, c) :: post)).1 in
  (i ∈ ixs <->
   used + sumZ ((fun ic => cost ic) <$> filter (fun ic => ic.1 ∈ ixs) pre) + estimated_tokens c <= limit).
Proof.
  revert used. induction pre as [|[j d] pre IH]; intros used Hnd; cbn [app] in *.
  - rewrite fmap_cons in Hnd. apply NoDup_cons in Hnd as [Hi _]. cbn zeta. cbn [filter list_filter map sumZ foldr]. simpl.
    destruct (_ <=? _) eqn:E; bools.
    + destruct (admit_components _ _ post). simpl. split; [intros _; lia|intros _; by left].
    + split; [|lia]. intros H. exfalso. apply Hi.
      by eapply elem_of_submseteq; [|apply sublist_submseteq, admit_indexes].
  - rewrite fmap_cons in Hnd. apply NoDup_cons in Hnd as [Hj Hnd]. cbn zeta.
    assert (i ∈ (pre ++ (i, c) :: post).*1) as Hin by (rewrite fmap_app, fmap_cons; set_solver).
    pose proof (fun k => admit_member_rest limit used j d _ k Hj) as Hmem.
    rewrite (Hmem i Hin). rewrite filter_cons.
    assert (filter (fun ic => ic.1 ∈ (admit_components limit used ((j, d) :: pre ++ (i, c) :: post)).1) pre =
      filter (fun ic : nat * PromptComponent => ic.1 ∈ (admit_components limit
        (if used + estimated_tokens d <=? limit then used + estimated_tokens d else used)
        (pre ++ (i, c) :: post)).1) pre) as ->.
    { apply list_filter_iff_strong. intros [k x] Hk. cbn [fst]. apply Hmem. rewrite fmap_app.
      apply elem_of_app. left. apply list_elem_of_fmap. by exists (k, x). }
    specialize (IH (if used + estimated_tokens d <=? limit then used + estimated_tokens d else used) Hnd).
    cbn zeta in IH. rewrite IH. clear IH Hmem. simpl.
    destruct (used + estimated_tokens d <=? limit) eqn:E; bools.
    + rewrite decide_True; [rewrite fmap_cons, sumZ_cons; cbn [snd]; lia|]. destruct (admit_components _ _ _). simpl. left.
    + rewrite decide_False; [lia|]. intros H. apply Hj.
      by eapply elem_of_submseteq; [|apply sublist_submseteq, admit_indexes].
Qed.

(** ** The admission order *)

(** [a] is considered before [b]: higher priority, or the same and an earlier position. *)
Definition precedes (a b : nat * PromptComponent) : Prop :=
  priority b.2 < priority a.2 \/ (priority a.2 = priority b.2 /\ (a.1 < b.1)%nat).

#[global] Instance precedes_dec a b : Decision (precedes a b).
Proof. unfold precedes. apply _. Defined.

Lemma enumerate_elem {A} (l : list A) i x : (i, x) ∈ enumerate l <-> l !! i = Some x.
Proof.
  unfold enumerate. rewrite list_elem_of_lookup. split.
  - intros (k & Hk). rewrite lookup_zip_with_Some in Hk. destruct Hk as (a & b & [= -> ->] & Ha & Hb).
    apply lookup_seq in Ha as [-> _]. done.
  - intros Hi. exists i. rewrite lookup_zip_with_Some. exists i, x. split; [done|]. split; [|done].
    apply lookup_seq. split; [done|]. by apply lookup_lt_is_Some_1.
Qed.

Lemma enumerate_fst {A} (l : list A) : (enumerate l).*1 = seq 0 (length l).
Proof. unfold enumerate. apply fst_zip. by rewrite length_seq. Qed.

Lemma enumerate_snd {A} (l : list A) : (enumerate l).*2 = l.
Proof. unfold enumerate. apply snd_zip. by rewrite length_seq. Qed.

Lemma admission_leb_spec a b :
  admission_leb a b = true <-> a.1 < b.1 \/ (a.1 = b.1 /\ (a.2 <= b.2)%nat).
Proof.
  unfold admission_leb. by rewrite orb_true_iff, andb_true_iff, Z.ltb_lt, Z.eqb_eq, Nat.leb_le.
Qed.

Lemma admission_leb_total a b : admission_leb a b = true \/ admission_leb b a = true.
Proof. rewrite !admission_leb_spec. lia. Qed.

Lemma admission_leb_trans a b c :
  admission_leb a b = true -> admission_leb b c = true -> admission_leb a c = true.
Proof. rewrite !admission_leb_spec. lia. Qed.

Lemma admission_leb_precedes a b :
  admission_leb (admission_key a) (admission_key b) = true -> a.1 <> b.1 -> precedes a b.
Proof. rewrite admission_leb_spec. unfold admission_key, precedes. simpl. lia. Qed.

Lemma precedes_asym a b : precedes a b -> ~ precedes b a.
Proof. unfold precedes. lia. Qed.

Lemma order_Permutation cs :
  optional_by_admission_order cs ≡ₚ filter (fun ic => required ic.2 = false) (enumerate cs).
Proof. apply sorted_by_Permutation. Qed.

Lemma order_NoDup cs : NoDup (optional_by_admission_order cs).*1.
Proof.
  rewrite order_Permutation. eapply sublist_NoDup; [apply (NoDup_seq 0 (length cs))|].
  rewrite <- enumerate_fst. apply fmap_sublist, sublist_filter.
Qed.

Lemma order_elem cs i c :
  (i, c) ∈ optional_by_admission_order cs <-> cs !! i = Some c /\ required c = false.
Proof. rewrite order_Permutation, list_elem_of_filter, enumerate_elem. simpl. tauto. Qed.

(** The part of the order before a component is what precedes it. *)
Lemma order_prefix cs pre x post (P : nat * PromptComponent -> Prop) `{!forall y, Decision (P y)} :
  optional_by_admission_order cs = pre ++ x :: post ->
  filter (fun y => P y /\ precedes y x) (optional_by_admission_order cs) = filter P pre.
Proof.
  intros Ho. pose proof (sorted_by_sorted admission_leb admission_key admission_leb_total admission_leb_trans
    (filter (fun ic => required ic.2 = false) (enumerate cs))) as Hs.
  fold (optional_by_admission_order cs) in Hs. pose proof (order_NoDup cs) as Hnd. rewrite Ho in Hs, Hnd |- *.
  rewrite filter_app. rewrite fmap_app, fmap_cons in Hnd. apply NoDup_app in Hnd as (_ & Hdis & Hnd).
  apply NoDup_cons in Hnd as [Hx _]. apply StronglySorted_app in Hs as (Hpre & _ & Hpost).
  apply StronglySorted_inv in Hpost as [_ Hpost]. rewrite Forall_forall in Hpost.
  assert (filter (fun y => P y /\ precedes y x) (x :: post) = []) as ->.
  { apply filter_none. intros y Hy [_ Hpr]. apply elem_of_cons in Hy as [->|Hy]; [unfold precedes in Hpr; lia|].
    apply (precedes_asym _ _ Hpr). apply admission_leb_precedes; [by apply Hpost|].
    intros E. apply Hx. rewrite E. apply list_elem_of_fmap. by exists y. }
  rewrite app_nil_r. apply list_filter_iff_strong. intros y Hy. split; [by intros [? _]|]. intros HP.
  split; [done|]. apply admission_leb_precedes; [apply Hpre; [done|left]|].
  intros E. apply (Hdis y.1); [apply list_elem_of_fmap; by exists y|]. rewrite E. left.
Qed.

(** ** Plans *)

(** Whether the plan includes the component at a position. *)
Definition included_at (p : PromptFrontierPlan) (i : nat) : bool :=
  default false (included <$> decisions p !! i).

(** The tokens of the included optional components that precede position [i]. *)
Definition admitted_before (p : PromptFrontierPlan) (cs : list PromptComponent) (i : nat) (c : PromptComponent) : Z :=
  sumZ ((fun ic => cost ic) <$>
    filter (fun jd => required jd.2 = false /\ included_at p jd.1 = true /\ precedes jd (i, c)) (enumerate cs)).

(** The tokens of the included components. *)
Definition included_tokens (p : PromptFrontierPlan) : Z :=
  sumZ (dec_tokens <$> filter (fun d => included d = true) (decisions p)).

Lemma decisions_lookup adm cs i :
  map (decide_component adm) (enumerate cs) !! i = (fun c => decide_component adm (i, c)) <$> cs !! i.
Proof.
  change (map ?f ?l) with (f <$> l). rewrite list_lookup_fmap. unfold enumerate.
  destruct (cs !! i) as [c|] eqn:E.
  - assert (zip (seq 0 (length cs)) cs !! i = Some (i, c)) as ->; [|done].
    apply lookup_zip_with_Some. exists i, c. split; [done|]. split; [|done].
    apply lookup_seq. split; [done|]. by eapply lookup_lt_Some.
  - assert (zip (seq 0 (length cs)) cs !! i = None) as ->; [|done].
    apply lookup_zip_with_None. by right.
Qed.

Lemma decide_component_included adm i c :
  included (decide_component adm (i, c)) = required c || bool_decide (i ∈ adm).
Proof. unfold decide_component. destruct (required c); [done|]. by case_bool_decide. Qed.

Lemma decide_component_fields adm i c :
  dec_name (decide_component adm (i, c)) = pc_name c /\
  dec_tokens (decide_component adm (i, c)) = estimated_tokens c /\
  dec_required (decide_component adm (i, c)) = required c.
Proof. unfold decide_component. destruct (required c); [done|]. by case_bool_decide. Qed.

(** The included tokens are the required ones and those of the admitted indexes. *)
Lemma included_split adm (l : list (nat * PromptComponent)) :
  sumZ (dec_tokens <$> filter (fun d => included d = true) (map (decide_component adm) l)) =
  sumZ (estimated_tokens <$> required_of l.*2) +
  sumZ ((fun ic => cost ic) <$> filter (fun ic => required ic.2 = false /\ ic.1 ∈ adm) l).
Proof.
  induction l as [|[i c] l IH]; [done|]. unfold required_of in *. cbn [map]. rewrite fmap_cons, !filter_cons.
  cbn [fst snd]. destruct (decide_component_fields adm i c) as (_ & Ht & _).
  pose proof (decide_component_included adm i c) as Hi.
  destruct (required c) eqn:Er; cbn [orb] in Hi.
  - rewrite (decide_True (P := included _ = true)), (decide_True (P := true = true)) by done.
    rewrite (decide_False (P := _ /\ _)) by (intros [? _]; done).
    rewrite !fmap_cons, !sumZ_cons, IH, Ht. lia.
  - rewrite (decide_False (P := false = true)) by done. case_bool_decide as Ha.
    + rewrite (decide_True (P := included _ = true)), (decide_True (P := _ /\ _)) by done.
      rewrite !fmap_cons, !sumZ_cons, IH, Ht. cbn [snd]. lia.
    + rewrite (decide_False (P := included _ = true)) by (by rewrite Hi).
      rewrite (decide_False (P := _ /\ _)) by (intros [_ ?]; done). done.
Qed.

(** The plan [plan_prompt] returns when the required components fit. *)
Definition admitted_of (b : PromptBudget) (cs : list PromptComponent) : list nat * Z :=
  admit_components (input_budget_tokens b) (required_tokens cs) (optional_by_admission_order cs).

Definition plan_of (limit : ModelPromptLimit) (b : PromptBudget) (cs : list PromptComponent)
    : PromptFrontierPlan :=
  let ds := map (decide_component (admitted_of b cs).1) (enumerate cs) in
  mkPlan limit b ds (admitted_of b cs).2 (input_budget_tokens b - (admitted_of b cs).2)
    (if existsb (fun d => negb (included d)) ds then fits_optional_omitted else fits)
    [] [] [] false [] DEFAULT_ESTIMATOR_UTF8_BYTES_PER_TOKEN.

Definition exhausted_of (limit : ModelPromptLimit) (b : PromptBudget) (cs : list PromptComponent) : ExhaustedInfo :=
  mkExhausted (required_tokens cs) b (map pc_name (required_of cs)) (source limit) None []
    (provider limit) (rejected_provider_metadata_tokens limit) (provider_metadata_floor_tokens limit).

Lemma admitted_of_fits b cs :
  required_tokens cs <= input_budget_tokens b -> (admitted_of b cs).2 <= input_budget_tokens b.
Proof. intros H. by apply (admit_used _ _ _ (order_NoDup cs)). Qed.

(** [plan_prompt] on unique names: exhausted or planned, decided by the required tokens. *)
Lemma plan_prompt_eq limit cs out safety b :
  build_prompt_budget (PInt (context_window_tokens limit)) out safety = Return b ->
  NoDup (map pc_name cs) ->
  plan_prompt limit cs out safety =
    Return (if input_budget_tokens b <? required_tokens cs then FrontierExhausted (exhausted_of limit b cs)
            else Planned (plan_of limit b cs)).
Proof.
  intros Hb Hnd. unfold plan_prompt. rewrite Hb. cbn [mbind outcome_bind].
  rewrite bool_decide_eq_true_2 by done. cbn [negb raise_if mbind outcome_bind].
  destruct (_ <? _) eqn:E; [done|]. bools. pose proof (admitted_of_fits b cs E) as Hfit.
  unfold plan_of. unfold admitted_of in *. destruct (admit_components _ _ _) as [adm used]. cbn [fst snd] in *.
  rewrite (proj2 (Z.ltb_ge _ 0)) by lia. done.
Qed.

Lemma plan_of_included limit b cs i c :
  cs !! i = Some c ->
  included_at (plan_of limit b cs) i = required c || bool_decide (i ∈ (admitted_of b cs).1).
Proof.
  intros Hi. unfold included_at, plan_of. cbn [decisions]. rewrite decisions_lookup, Hi. cbn [fmap option_fmap option_map default].
  apply decide_component_included.
Qed.

Lemma plan_of_tokens limit b cs :
  estimated_input_tokens (plan_of limit b cs) = included_tokens (plan_of limit b cs).
Proof.
  unfold included_tokens, plan_of. cbn [estimated_input_tokens decisions]. rewrite included_split, enumerate_snd.
  change (sumZ (estimated_tokens <$> required_of cs)) with (required_tokens cs). unfold admitted_of.
  rewrite (proj1 (admit_used _ _ _ (order_NoDup cs))). f_equal. apply sumZ_Permutation, fmap_Permutation.
  generalize (admit_components (input_budget_tokens b) (required_tokens cs) (optional_by_admission_order cs)).1 as adm.
  intros adm. rewrite order_Permutation, list_filter_filter. apply reflexive_eq, list_filter_iff.
  intros x. tauto.
Qed.

Lemma plan_of_admission limit b cs i c :
  cs !! i = Some c -> required c = false ->
  (included_at (plan_of limit b cs) i = true <->
   required_tokens cs + admitted_before (plan_of limit b cs) cs i c + estimated_tokens c
     <= input_budget_tokens b).
Proof.
  intros Hi Hr. rewrite (plan_of_included _ _ _ _ _ Hi), Hr. cbn [orb]. rewrite bool_decide_eq_true.
  assert ((i, c) ∈ optional_by_admission_order cs) as Hin by (by apply order_elem).
  apply list_elem_of_split in Hin as (pre & post & Ho). unfold admitted_of. rewrite Ho.
  pose proof (order_NoDup cs) as Hnd. rewrite Ho in Hnd.
  rewrite (admit_iff _ _ _ _ _ _ Hnd). rewrite <- Ho.
  enough (admitted_before (plan_of limit b cs) cs i c = sumZ ((fun ic => cost ic) <$>
    filter (fun ic => ic.1 ∈ (admit_components (input_budget_tokens b) (required_tokens cs)
                                (optional_by_admission_order cs)).1) pre)) as -> by lia.
  rewrite <- (order_prefix _ _ _ _ _ Ho). unfold admitted_before. apply sumZ_Permutation, fmap_Permutation.
  pose proof (plan_of_included limit b cs) as Hinc. unfold admitted_of in Hinc. revert Hinc.
  generalize (admit_components (input_budget_tokens b) (required_tokens cs) (optional_by_admission_order cs)).1 as adm.
  intros adm Hinc. rewrite order_Permutation, list_filter_filter. apply reflexive_eq, list_filter_iff_strong.
  intros [j d] Hj. apply enumerate_elem in Hj. cbn [fst snd]. rewrite (Hinc _ _ Hj).
  destruct (required d); cbn [orb]; [|rewrite bool_decide_eq_true; tauto].
  split; intros H; [by destruct H|by destruct H].
Qed.

(** What a result of [plan_prompt] says of its arguments. *)
Lemma plan_prompt_inv limit cs out safety r :
  plan_prompt limit cs out safety = Return r ->
  exists b, build_prompt_budget (PInt (context_window_tokens limit)) out safety = Return b /\
    NoDup (map pc_name cs) /\
    r = if input_budget_tokens b <? required_tokens cs then FrontierExhausted (exhausted_of limit b cs)
        else Planned (plan_of limit b cs).
Proof.
  intros H. destruct (build_prompt_budget (PInt (context_window_tokens limit)) out safety) as [b|e] eqn:Hb.
  2:{ unfold plan_prompt in H. by rewrite Hb in H. }
  exists b. split; [done|]. destruct (decide (NoDup (map pc_name cs))) as [Hnd|Hnd].
  - split; [done|]. rewrite (plan_prompt_eq _ _ _ _ _ Hb Hnd) in H. by injection H as <-.
  - unfold plan_prompt in H. rewrite Hb in H. cbn [mbind outcome_bind] in H.
    by rewrite bool_decide_eq_false_2 in H by done.
Qed.

Lemma budget_window limit out safety b :
  build_prompt_budget (PInt (context_window_tokens limit)) out safety = Return b ->
  budget_context_window b = context_window_tokens limit.
Proof.
  intros Hb. unfold build_prompt_budget in Hb. apply bind_return in Hb as (c & Hc & Hb).
  rewrite validated_context_window_int in Hc. destruct (bool_decide _); [|done]. injection Hc as <-.
  apply bind_return in Hb as (o & _ & Hb). apply bind_return in Hb as (s & _ & Hb).
  destruct (_ <? 0); [done|]. by injection Hb as <-.
Qed.

(** A plan stays within the window. *)
Lemma plan_of_within limit out safety b cs :
  build_prompt_budget (PInt (context_window_tokens limit)) out safety = Return b ->
  required_tokens cs <= input_budget_tokens b ->
  reserved_total_tokens (plan_of limit b cs) <= context_window_tokens limit.
Proof.
  intros Hb Hreq. pose proof (admitted_of_fits b cs Hreq). rewrite <- (budget_window _ _ _ _ Hb).
  apply build_prompt_budget_parts in Hb as (_ & _ & _ & _ & Hp). unfold reserved_total_tokens, plan_of.
  cbn [estimated_input_tokens budget]. lia.
Qed.

(** A plan that omits nothing accounts for every component. *)
Lemma plan_of_complete limit b cs :
  (forall d, d ∈ decisions (plan_of limit b cs) -> included d = true) ->
  estimated_input_tokens (plan_of limit b cs) = sumZ (estimated_tokens <$> cs).
Proof.
  intros Hall. rewrite plan_of_tokens. unfold included_tokens. rewrite filter_all by done.
  unfold plan_of. cbn [decisions]. f_equal. change (map ?f ?l) with (f <$> l).
  transitivity ((estimated_tokens ∘ snd) <$> enumerate cs).
  - rewrite <- list_fmap_compose. apply list_fmap_ext. intros j [i c] _. apply decide_component_fields.
  - by rewrite list_fmap_compose, enumerate_snd.
Qed.

Lemma plan_of_decision limit b cs d :
  d ∈ decisions (plan_of limit b cs) ->
  exists c, c ∈ cs /\ dec_name d = pc_name c /\ dec_required d = required c /\
            (required c = true -> included d = true).
Proof.
  intros Hd. apply list_elem_of_fmap in Hd as ([i c] & -> & Hic). apply enumerate_elem in Hic.
  exists c. split; [by eapply list_elem_of_lookup_2|].
  destruct (decide_component_fields (admitted_of b cs).1 i c) as (Hn & _ & Hr).
  split; [done|]. split; [done|]. intros Hc. by rewrite decide_component_included, Hc.
Qed.

(** Nothing is omitted when every optional component is known not to be. *)
Lemma plan_of_nothing_omitted limit b cs :
  (forall c, c ∈ cs -> required c = false -> pc_name c ∉ omitted_optional_components (plan_of limit b cs)) ->
  forall d, d ∈ decisions (plan_of limit b cs) -> included d = true.
Proof.
  intros Ho d Hd. destruct (plan_of_decision _ _ _ _ Hd) as (c & Hc & Hn & Hr & Hinc).
  destruct (required c) eqn:Er; [by apply Hinc|]. destruct (included d) eqn:Ei; [done|].
  exfalso. apply (Ho c Hc Er). rewrite <- Hn. apply list_elem_of_fmap. exists d. split; [done|].
  by apply list_elem_of_filter.
Qed.

(** C19: [plan_prompt] is all-required-or-error. With unique component names and a valid budget it
    raises [PromptFrontierExhausted], naming every required component and their total, exactly when
    the required tokens exceed the input budget; otherwise it plans, with one decision per
    component in the caller's order, every required component included, the accounted tokens equal
    to those of the included components, and output reserve, safety margin and accounted tokens
    together within the model's context window. *)
Theorem plan_prompt_required_or_error limit cs out safety b :
  build_prompt_budget (PInt (context_window_tokens limit)) out safety = Return b ->
  NoDup (map pc_name cs) ->
  if decide (input_budget_tokens b < required_tokens cs) then
    exists x, plan_prompt limit cs out safety = Return (FrontierExhausted x) /\
      exh_required_tokens x = required_tokens cs /\
      exh_required_components x = map pc_name (required_of cs)
  else
    exists p, plan_prompt limit cs out safety = Return (Planned p) /\
      dec_name <$> decisions p = map pc_name cs /\
      (forall i c, cs !! i = Some c -> required c = true -> included_at p i = true) /\
      estimated_input_tokens p = included_tokens p /\
      reserved_total_tokens p <= context_window_tokens limit.
Proof.
  intros Hb Hnd. rewrite (plan_prompt_eq _ _ _ _ _ Hb Hnd).
  destruct (decide _) as [Hlt|Hge].
  - rewrite (proj2 (Z.ltb_lt _ _)) by done. by eexists.
  - rewrite (proj2 (Z.ltb_ge _ _)) by lia. eexists. split; [done|]. split; [|split; [|split]].
    + unfold plan_of. cbn [decisions]. change (map ?f ?l) with (f <$> l).
      transitivity ((pc_name ∘ snd) <$> enumerate cs).
      * rewrite <- list_fmap_compose. apply list_fmap_ext. intros j [i c] _. apply decide_component_fields.
      * by rewrite list_fmap_compose, enumerate_snd.
    + intros i c Hi Hr. by rewrite (plan_of_included _ _ _ _ _ Hi), Hr.
    + apply plan_of_tokens.
    + eapply plan_of_within; [exact Hb|lia].
Qed.

(** Optional components are admitted greedily: in a plan, an optional component is included
    exactly when it fits beside the required components and the included optional ones that come
    before it by descending priority and, among equals, the caller's order; one that does not fit
    does not block a smaller one after it. *)
Theorem plan_prompt_greedy limit cs out safety b p i c :
  build_prompt_budget (PInt (context_window_tokens limit)) out safety = Return b ->
  plan_prompt limit cs out safety = Return (Planned p) ->
  cs !! i = Some c -> required c = false ->
  (included_at p i = true <->
   required_tokens cs + admitted_before p cs i c + estimated_tokens c <= input_budget_tokens b).
Proof.
  intros Hb Hp Hi Hr. apply plan_prompt_inv in Hp as (b' & Hb' & _ & Hp). rewrite Hb in Hb'.
  injection Hb' as <-. destruct (_ <? _); [done|]. injection Hp as ->. by apply plan_of_admission.
Qed.

(** On every window the resolver can return, the default budget of the binary64 code is the
    exact integer split: the margin [math.ceil(context * 0.05)] is five per cent rounded up with a
    floor of 512, and the budget exists exactly from 4608 tokens on, where the output reserve of
    4096 and the margin leave room for input. *)
Theorem default_budget_exact c :
  window_ok c ->
  let safety := Z.max 512 ((c + 19) / 20) in
  build_prompt_budget (PInt c) (PInt DEFAULT_OUTPUT_RESERVE_TOKENS) None =
    if c <? 4608
    then Raise (ValueError "output reserve plus safety margin exceeds context window")
    else Return (mkBudget c 4096 safety (c - 4096 - safety)).
Proof.
  intros Hc safety. rewrite build_prompt_budget_default by (unfold DEFAULT_OUTPUT_RESERVE_TOKENS; done || lia).
  unfold DEFAULT_OUTPUT_RESERVE_TOKENS, MIN_SAFETY_MARGIN_TOKENS. fold safety.
  pose proof (Z.div_mod (c + 19) 20 ltac:(lia)). pose proof (Z.mod_pos_bound (c + 19) 20 ltac:(lia)).
  destruct (c <? 4608) eqn:E; bools.
  - by rewrite (proj2 (Z.ltb_lt _ _)) by lia.
  - by rewrite (proj2 (Z.ltb_ge _ _)) by lia.
Qed.

Lemma default_budget_exact_witness :
  build_prompt_budget (PInt 65536) (PInt DEFAULT_OUTPUT_RESERVE_TOKENS) None =
    Return (mkBudget 65536 4096 3277 58163).
Proof. refine (default_budget_exact 65536 _). split; done. Defined.

Definition sample_limit : ModelPromptLimit :=
  mkLimit (u "openai") (u "m") 8192 unaudited_default None None None None None.
Definition sample_budget : PromptBudget := mkBudget 8192 4096 512 3584.
Definition sample_components : list PromptComponent :=
  [mkComponent (u "message_context") 3000 true 0; mkComponent (u "big") 600 false 2;
   mkComponent (u "small") 500 false 1].

Lemma sample_budget_ok :
  build_prompt_budget (PInt (context_window_tokens sample_limit)) (PInt 4096) None = Return sample_budget.
Proof. unfold sample_limit. rewrite build_prompt_budget_default; [reflexivity|split; done|lia]. Qed.

Lemma sample_names_unique : NoDup (map pc_name sample_components).
Proof. decided. Qed.

Lemma plan_prompt_required_or_error_witness :
  exists p, plan_prompt sample_limit sample_components (PInt 4096) None = Return (Planned p) /\
    dec_name <$> decisions p = map pc_name sample_components /\
    (forall i c, sample_components !! i = Some c -> required c = true -> included_at p i = true) /\
    estimated_input_tokens p = included_tokens p /\
    reserved_total_tokens p <= context_window_tokens sample_limit.
Proof.
  exact (plan_prompt_required_or_error sample_limit sample_components (PInt 4096) None sample_budget
           sample_budget_ok sample_names_unique).
Defined.

(** The bigger component of higher priority is left out, the smaller one goes in. *)
Lemma plan_prompt_greedy_witness :
  included_at (plan_of sample_limit sample_budget sample_components) 2 = true.
Proof.
  apply (plan_prompt_greedy sample_limit sample_components (PInt 4096) None sample_budget
           (plan_of sample_limit sample_budget sample_components) 2 (mkComponent (u "small") 500 false 1)).
  - exact sample_budget_ok.
  - rewrite (plan_prompt_eq _ _ _ _ _ sample_budget_ok sample_names_unique). vm_compute. reflexivity.
  - reflexivity.
  - reflexivity.
  - vm_compute. discriminate.
Defined.
End Plan.
