(* ===== verification/ToolSurface.v ===== *)
(** * Folding the tool surface
    ([backend/model_api_runtime/v2/tool_surface.py])

    The discovery-only form of a tool schema, the fold policy, the per-turn state that
    remembers which folded schemas the model asked for, and the selection of folded
    schemas by name or query. [str.lower] and [str.casefold] are parameters. *)

From S2P Require Import Prelude PyValue PromptEstimate.
Import Estimate.
Local Open Scope Z_scope.

Module Surface.

Definition MAX_COLLAPSED_DESCRIPTION_CHARS : nat := 120.

Inductive policy : Type := always | under_pressure.

#[global] Instance policy_eq_dec : EqDecision policy.
Proof. solve_decision. Defined.

(** [DEFAULT_COLLAPSE_POLICY] *)
Definition DEFAULT_COLLAPSE_POLICY : pystr := u "under_pressure".

Definition RESIDENT_TOOL_NAMES : list pystr :=
  map u ["mcp_tool_search"; "memory_search"; "memory_write"; "perception_snapshot"].

(** [s.split()] *)
Fixpoint words_from (cur : pystr) (s : pystr) : list pystr :=
  let flush := match cur with [] => [] | _ => [reverse cur] end in
  match s with
  | [] => flush
  | c :: t => if is_space c then flush ++ words_from [] t else words_from (c :: cur) t
  end.
Definition words (s : pystr) : list pystr := words_from [] s.

(** [needle in s] *)
Fixpoint contains (needle s : pystr) : bool :=
  startswith needle s || match s with [] => false | _ :: t => contains needle t end.

Definition normalize_collapse_policy (lower : pystr -> pystr) (value : option pystr) : outcome policy :=
  let raw := match value with None | Some [] => DEFAULT_COLLAPSE_POLICY | Some v => v end in
  let p := lower (strip raw) in
  if bool_decide (p = u "always") then Return always
  else if bool_decide (p = u "under_pressure") then Return under_pressure
  else Raise (ValueError "tool schema collapse policy must be always or under_pressure").

Definition collapsed_description (d : pystr) : pystr :=
  let d := join (u " ") (words d) in
  if (MAX_COLLAPSED_DESCRIPTION_CHARS <? length d)%nat
  then rstrip (take (MAX_COLLAPSED_DESCRIPTION_CHARS - 3) d) ++ u "..."
  else d.

Definition collapsed_tool_spec (s : ToolSpec) : ToolSpec :=
  mkSpec (spec_name s) (collapsed_description (spec_description s))
    (PDict [(u "type", PStr (u "object")); (u "properties", PDict []);
            (u "additionalProperties", PBool false)]).

(** ** Recovery of folded schemas *)

Record SchemaRecoveryState : Type := mkRecovery {
  full_specs : gmap pystr ToolSpec;
  pressure_collapsed_names : gset pystr;
  resolved_names : gset pystr;
}.

Definition set_pressure_collapsed (names : list pystr) (st : SchemaRecoveryState) : SchemaRecoveryState :=
  mkRecovery (full_specs st)
    (list_to_set (filter (fun n => is_Some (full_specs st !! n) /\ n ∉ resolved_names st) names))
    (resolved_names st).

(** [discoverable_specs]: [None] is the [KeyError] of a name without a schema. *)
Definition discoverable (st : SchemaRecoveryState) (n : pystr) : option ToolSpec :=
  if bool_decide (n ∈ pressure_collapsed_names st) && negb (bool_decide (n ∈ resolved_names st))
  then full_specs st !! n else None.

Definition protected_names (st : SchemaRecoveryState) : gset pystr := resolved_names st.

Definition recovery_needed (st : SchemaRecoveryState) : bool :=
  bool_decide (pressure_collapsed_names st ∖ resolved_names st <> ∅).

Definition resolve (names : list pystr) (st : SchemaRecoveryState) : SchemaRecoveryState * list pystr :=
  let resolved := filter (fun n => is_Some (discoverable st n)) names in
  (mkRecovery (full_specs st) (pressure_collapsed_names st ∖ list_to_set resolved)
     (resolved_names st ∪ list_to_set resolved), resolved).

(** ** Selection *)

Record selection : Type := mkSelection {
  sel_error : option string;
  selected : list pystr;
  not_found : list pystr;
}.

(** [l[:n]] *)
Definition slice_to {A} (l : list A) (n : Z) : list A :=
  if 0 <=? n then take (Z.to_nat n) l else take (length l - Z.to_nat (- n)) l.

Section Select.
Context (repr : pyval -> pystr) (casefold : pystr -> pystr).

(** The loop over [names]: the selected and the unknown ones, in order. *)
Fixpoint select_loop (specs : list (pystr * ToolSpec)) (max_results : Z) (seen : list pystr)
    (sel nf : list pystr) (raw : list pyval) : list pystr * list pystr :=
  match raw with
  | [] => (sel, nf)
  | v :: rest =>
      let name := strip (py_str repr (py_or v (PStr []))) in
      if bool_decide (name = []) || bool_decide (name ∈ seen)
      then select_loop specs max_results seen sel nf rest
      else
        let '(sel, nf) := match assoc specs name with
                          | Some _ => (sel ++ [name], nf)
                          | None => (sel, nf ++ [name])
                          end in
        if max_results <=? Zlen sel then (sel, nf)
        else select_loop specs max_results (name :: seen) sel nf rest
  end.

(** The rank of a schema for a query, [None] when a term is missing. *)
Definition rank (needle : pystr) (name : pystr) (s : ToolSpec) : option Z :=
  let folded_name := casefold name in
  let haystack := folded_name ++ u " " ++ casefold (spec_description s) in
  if negb (forallb (fun t => contains t haystack) (words needle)) then None
  else Some (if bool_decide (folded_name = needle) then 0
             else if startswith needle folded_name then 1
             else if contains needle folded_name then 2 else 3).

Definition ranked_leb (a b : Z * pystr) : bool :=
  (a.1 <? b.1) || ((a.1 =? b.1) && str_leb a.2 b.2).

Definition select_schema_names (args : option row) (specs : list (pystr * ToolSpec)) (max_results : Z)
    : selection :=
  let args := default ∅ args in
  let query := strip (py_str repr (py_or (get args "query") (PStr []))) in
  let names := match get args "names" with PList (v :: l) => Some (v :: l) | _ => None end in
  if eqb (bool_decide (is_Some names)) (negb (bool_decide (query = [])))
  then mkSelection (Some "provide exactly one of query or names"%string) [] []
  else match names with
       | Some raw => let '(sel, nf) := select_loop specs max_results [] [] [] raw in mkSelection None sel nf
       | None =>
           let needle := casefold query in
           let ranked := omap (fun kv => (fun r => (r, kv.1)) <$> rank needle kv.1 kv.2) specs in
           mkSelection None (slice_to (map snd (sorted_by ranked_leb id ranked)) max_results) []
       end.
End Select.

(** ** Properties *)

(** The invariant of the recovery state: folded names are known and not resolved. *)
Definition recovery_ok (st : SchemaRecoveryState) : Prop :=
  pressure_collapsed_names st ⊆ dom (full_specs st) /\ pressure_collapsed_names st ## resolved_names st.

Lemma set_pressure_collapsed_ok names st :
  recovery_ok (set_pressure_collapsed names st) /\
  resolved_names (set_pressure_collapsed names st) = resolved_names st.
Proof.
  split; [|done]. split; cbn.
  - intros n Hn. apply elem_of_list_to_set, list_elem_of_filter in Hn as [[[s Hs] _] _].
    by apply elem_of_dom; eexists.
  - intros n Hn Hr. apply elem_of_list_to_set, list_elem_of_filter in Hn as [[_ Hn] _]. done.
Qed.

Lemma resolve_ok names st :
  recovery_ok st ->
  recovery_ok (resolve names st).1 /\ resolved_names st ⊆ resolved_names (resolve names st).1.
Proof.
  intros [H1 H2]. unfold resolve, recovery_ok. cbn. set_solver.
Qed.

(** What the model asked for and was folded is what gets resolved. *)
Lemma resolve_exact names st n :
  recovery_ok st ->
  (n ∈ (resolve names st).2 <-> n ∈ names /\ n ∈ pressure_collapsed_names st).
Proof.
  intros [H1 H2]. unfold resolve. cbn. rewrite list_elem_of_filter. unfold discoverable. split.
  - intros [[s Hs] Hn]. destruct (_ && _) eqn:E; [|done]. bools. done.
  - intros [Hn Hc]. split; [|done]. rewrite bool_decide_eq_true_2 by done.
    rewrite bool_decide_eq_false_2 by set_solver. cbn. apply elem_of_dom. set_solver.
Qed.

Lemma length_collapsed_description d :
  (length (collapsed_description d) <= MAX_COLLAPSED_DESCRIPTION_CHARS)%nat.
Proof.
  unfold collapsed_description, MAX_COLLAPSED_DESCRIPTION_CHARS. set (x := join _ _).
  destruct (120 <? length x)%nat eqn:E; [|by apply Nat.ltb_ge in E].
  rewrite length_app. pose proof (length_rstrip (take (120 - 3) x)) as H. rewrite length_take in H.
  change (length (u "...")) with 3%nat. lia.
Qed.

(** A selection by name returns known names, without repetition, at most the maximum. *)
Lemma select_loop_sound repr specs m raw seen sel nf :
  0 < m -> NoDup sel -> Forall (fun n => n ∈ seen) sel -> Forall (fun n => is_Some (assoc specs n)) sel ->
  Zlen sel < m ->
  let '(sel', _) := select_loop repr specs m seen sel nf raw in
  NoDup sel' /\ Forall (fun n => is_Some (assoc specs n)) sel' /\ Zlen sel' <= m.
Proof.
  intros Hm. revert seen sel nf. induction raw as [|v raw IH]; intros seen sel nf Hnd Hseen Hk Hlen; cbn [select_loop].
  { split; [done|]. split; [done|lia]. }
  set (name := strip _). destruct (bool_decide (name = []) || bool_decide (name ∈ seen)) eqn:E; [by apply IH|]. bools.
  destruct (assoc specs name) as [s|] eqn:Es.
  - assert (NoDup (sel ++ [name])) as Hnd'.
    { apply NoDup_app. split; [done|]. split; [|apply NoDup_singleton].
      intros n Hn ->%list_elem_of_singleton. rewrite Forall_forall in Hseen. by apply Hseen in Hn. }
    assert (Forall (fun n => is_Some (assoc specs n)) (sel ++ [name])) as Hk'
      by (apply Forall_app; split; [done|]; constructor; [by rewrite Es|done]).
    assert (Zlen (sel ++ [name]) = Zlen sel + 1) as Hl by (rewrite Zlen_app; done).
    destruct (m <=? Zlen (sel ++ [name])) eqn:Em; bools; [split; [done|split; [done|lia]]|].
    apply IH; [done| |done|done]. apply Forall_app. split; [|constructor; [by left|done]].
    eapply Forall_impl; [exact Hseen|]. intros n Hn. by right.
  - destruct (m <=? Zlen sel) eqn:Em; bools; [lia|]. apply IH; [done| |done|done].
    eapply Forall_impl; [exact Hseen|]. intros n Hn. by right.
Qed.

End Surface.
