(* ===== verification/PromptRound.v ===== *)
(** * The budget of one provider round
    ([backend/model_api_runtime/v2/prompt_frontier.py], [plan_provider_round];
    [tool_loop.py], the surface it sends; [worker.py], the adaptive planner)

    A round offers messages and a tool catalog. The plan admits the messages and the
    native exchanges whole, and the catalog complete or, under pressure, folded to its
    directory. The tool loop then derives from the plan the schemas it sends. *)

From S2P Require Import Prelude PyValue Utf8 PyFloat PromptLimit PromptEstimate PromptPlan ToolSurface.
Import Limit Estimate Plan Surface.
Local Open Scope Z_scope.

Module Round.

Record RoundArgs : Type := mkArgs {
  arg_limit : ModelPromptLimit;
  arg_messages : list message;
  arg_tools : option (list ToolSpec);
  required_tool_names : list pystr;
  protected_tool_names : list pystr;
  collapsed_tool_specs : gmap pystr ToolSpec;
  recovery_tool_name : pystr;
  recovery_tool_active : bool;
  tool_schema_collapse_policy : option pystr;
  arg_output_reserve : pyval;
  arg_safety_margin : option pyval;
  arg_ratio : pyval;
  arg_image_reserve : pyval;
  message_component_bytes : list byte_input;
}.

Definition exchange_of (m : message) : option ToolExchange :=
  match m with MExchange x => Some x | MValue _ => None end.

Section Round.
Context (lower : pystr -> pystr) (repr : pyval -> pystr) (float_repr : pyfloat -> pystr).
Context (float_of_text : pystr -> option pyfloat).
Context (a : RoundArgs).

Let size := prompt_structure_utf8_bytes repr float_repr.

Definition ordinary_messages : list message := filter (fun m => is_tool_exchange m = false) (arg_messages a).
Definition exchanges : list ToolExchange := omap exchange_of (arg_messages a).

Definition is_system (m : message) : bool :=
  match m with
  | MValue (PDict d) => bool_decide (py_str repr (py_or (dict_get d "role") (PStr [])) = u "system")
  | _ => false
  end.

(** A record built from a length. *)
Definition byte_record (name : string) (values : list pyval) : outcome (list PromptByteComponent) :=
  match values with
  | [] => Return []
  | _ => n ← size (PList values); Return [mkBytes (u name) n]
  end.

(** The generic split into system, tail and transcript. A message equal to a system
    message is one, so [not in system_messages] is the negated test. *)
Definition normalized_message_bytes : outcome (list PromptByteComponent) :=
  match message_component_bytes a with
  | [] =>
      sys ← byte_record "system" (map message_value (filter (fun m => is_system m = true) ordinary_messages));
      tail ← byte_record "tail" (map message_value (filter (fun m => is_system m = false) ordinary_messages));
      trans ← byte_record "tool_transcript" (map exchange_dict exchanges);
      Return (sys ++ tail ++ trans)
  | items =>
      cs ← normalize_prompt_byte_components repr items;
      Return (filter (fun c => bc_name c <> u "tools") cs)
  end.

Definition observed_components (msg_bytes : list PromptByteComponent) (observed : list ToolSpec)
    : outcome (list PromptByteComponent) :=
  tools ← byte_record "tools" (map spec_dict observed);
  normalize_prompt_byte_components repr (map BRecord (msg_bytes ++ tools)).

Definition attach_exhaustion (msg_bytes : list PromptByteComponent) (observed : list ToolSpec)
    (x : ExhaustedInfo) : outcome ExhaustedInfo :=
  ratio ← validated_estimator_ratio float_of_text (arg_ratio a);
  bytes ← observed_components msg_bytes observed;
  Return (mkExhausted (exh_required_tokens x) (exh_budget x) (exh_required_components x)
            (exh_limit_source x) (Some ratio) bytes (exh_provider x)
            (exh_rejected_provider_metadata_tokens x) (exh_provider_metadata_floor_tokens x)).

(** The components every attempt starts from. *)
Definition base_components : outcome (list PromptComponent) :=
  msgs ← messages_component repr float_repr float_of_text ordinary_messages (u "message_context") true 0
           (arg_ratio a) (arg_image_reserve a);
  match exchanges with
  | [] => Return [msgs]
  | xs => t ← tool_transcript_component float_repr float_of_text xs true 0 (arg_ratio a);
          Return [msgs; t]
  end.

Definition offered_tools : list ToolSpec := default [] (arg_tools a).

Definition collapsed_by_name (n : pystr) : option ToolSpec :=
  if bool_decide (n = []) then None else collapsed_tool_specs a !! n.

(** [base_required_names | _CORE_TOOL_FLOOR_NAMES] *)
Definition in_required_names (n : pystr) : bool :=
  (negb (bool_decide (n = [])) && bool_decide (n ∈ required_tool_names a ++ protected_tool_names a))
  || bool_decide (n ∈ RESIDENT_TOOL_NAMES).

Definition split_catalog (catalog : list ToolSpec) : list ToolSpec * list ToolSpec :=
  (filter (fun t => in_required_names (spec_name t) = true) catalog,
   filter (fun t => in_required_names (spec_name t) = false) catalog).

Definition schemas_component (tools : list ToolSpec) (name : string) (req : bool) (prio : Z)
    : outcome (list PromptComponent) :=
  match tools with
  | [] => Return []
  | _ => c ← tool_schemas_component float_repr tools (u name) req prio; Return [c]
  end.

(** The schema components of a complete catalog and of a folded one. *)
Definition split_components (catalog : list ToolSpec) : outcome (list PromptComponent) :=
  let '(req, opt) := split_catalog catalog in
  cr ← schemas_component req "required_tool_schemas" true 0;
  co ← schemas_component opt "tool_schemas" false 1;
  Return (cr ++ co).

Definition folded_components (catalog : list ToolSpec) : outcome (list PromptComponent) :=
  schemas_component catalog "required_tool_schemas" true 0.

(** [plan_prompt] whose exhaustion carries the byte counts of the tools observed. *)
Definition planned_with (msg_bytes : list PromptByteComponent) (cs : list PromptComponent)
    (observed : list ToolSpec) : outcome (planned PromptFrontierPlan) :=
  r ← plan_prompt (arg_limit a) cs (arg_output_reserve a) (arg_safety_margin a);
  match r with
  | Planned p => Return (Planned p)
  | FrontierExhausted x => y ← attach_exhaustion msg_bytes observed x; Return (FrontierExhausted y)
  end.

Definition atomic_plan (msg_bytes : list PromptByteComponent) (base : list PromptComponent)
    (catalog : list ToolSpec) : outcome (planned PromptFrontierPlan) :=
  cs ← split_components catalog;
  planned_with msg_bytes (base ++ cs) (split_catalog catalog).1.

Definition finalize (pol : policy) (msg_bytes : list PromptByteComponent) (included : list ToolSpec)
    (collapsed : list pystr) (p : PromptFrontierPlan) : outcome PromptFrontierPlan :=
  let names := map spec_name included in
  let collapsed_names := filter (fun n => n ∈ collapsed) names in
  bytes ← observed_components msg_bytes included;
  ratio ← validated_estimator_ratio float_of_text (arg_ratio a);
  Return (mkPlan (model_limit p) (budget p) (decisions p) (estimated_input_tokens p)
            (remaining_input_tokens p) (status p) (map spec_name offered_tools) names collapsed_names
            (bool_decide (pol = always) || recovery_tool_active a || negb (bool_decide (collapsed_names = [])))
            bytes ratio).

(** The recovery tool stays out while it is latent. *)
Definition latent (pol : policy) (t : ToolSpec) : bool :=
  bool_decide (pol = under_pressure) && negb (bool_decide (recovery_tool_name a = []))
  && bool_decide (spec_name t = recovery_tool_name a) && negb (recovery_tool_active a).

Definition baseline_tools (pol : policy) : list ToolSpec := filter (fun t => latent pol t = false) offered_tools.

(** [required_name_set]: the names of the required part of the baseline. *)
Definition required_name_set (pol : policy) : list pystr :=
  map spec_name (split_catalog (baseline_tools pol)).1.

Definition pressure_recovery_needed (pol : policy) : bool :=
  bool_decide (pol = always) || recovery_tool_active a
  || existsb (fun t => negb (bool_decide (spec_name t ∈ required_name_set pol))) (baseline_tools pol).

Definition folds (pol : policy) (t : ToolSpec) : bool :=
  negb (bool_decide (spec_name t = recovery_tool_name a))
  && negb (bool_decide (spec_name t ∈ required_name_set pol)).

Definition fold_spec (t : ToolSpec) : ToolSpec :=
  default (collapsed_tool_spec t) (collapsed_by_name (spec_name t)).

Definition degrade_tool (pol : policy) (t : ToolSpec) : list ToolSpec :=
  if bool_decide (spec_name t = recovery_tool_name a)
  then if pressure_recovery_needed pol then [t] else []
  else if folds pol t then [fold_spec t] else [t].

Definition degraded_tools (pol : policy) : list ToolSpec := offered_tools ≫= degrade_tool pol.

Definition folded_names (pol : policy) : list pystr :=
  map spec_name (filter (fun t => folds pol t = true) offered_tools).

Definition degraded_round (pol : policy) (msg_bytes : list PromptByteComponent) (base : list PromptComponent)
    : outcome (planned PromptFrontierPlan) :=
  cs ← folded_components (degraded_tools pol);
  r ← planned_with msg_bytes (base ++ cs) (degraded_tools pol);
  match r with
  | Planned p => q ← finalize pol msg_bytes (degraded_tools pol) (folded_names pol) p; Return (Planned q)
  | FrontierExhausted x => Return (FrontierExhausted x)
  end.

Definition plan_provider_round : outcome (planned PromptFrontierPlan) :=
  msg_bytes ← normalized_message_bytes;
  base ← base_components;
  pol ← normalize_collapse_policy lower (tool_schema_collapse_policy a);
  match arg_tools a with
  | None =>
      r ← atomic_plan msg_bytes base [];
      match r with
      | Planned p => q ← finalize pol msg_bytes [] [] p; Return (Planned q)
      | FrontierExhausted x => Return (FrontierExhausted x)
      end
  | Some _ =>
      match pol with
      | under_pressure =>
          r ← atomic_plan msg_bytes base (baseline_tools pol);
          match r with
          | FrontierExhausted x => Return (FrontierExhausted x)
          | Planned p =>
              if bool_decide ((split_catalog (baseline_tools pol)).2 = []) ||
                 negb (bool_decide (u "tool_schemas" ∈ omitted_optional_components p))
              then q ← finalize pol msg_bytes (baseline_tools pol) [] p; Return (Planned q)
              else degraded_round pol msg_bytes base
          end
      | always => degraded_round pol msg_bytes base
      end
  end.

(** ** What the tool loop sends *)

(** The schemas of the next provider call, from the plan and the folded specs. *)
Definition tools_sent (p : PromptFrontierPlan) : option (list ToolSpec) :=
  match offered_tool_names p with
  | [] => arg_tools a
  | _ =>
      match
        map (fun s => if bool_decide (spec_name s ∈ pressure_collapsed_tool_names p)
                      then fold_spec s else s)
          (filter (fun s => spec_name s ∈ included_tool_names p) offered_tools)
      with
      | [] => None
      | l => Some l
      end
  end.


(** ** Properties *)

(** The two shapes of a successful round: the complete baseline or the folded directory. *)
Inductive surface_case (pol : policy) (p0 : PromptFrontierPlan)
    : list ToolSpec -> list pystr -> outcome (list PromptComponent) -> Prop :=
| complete_surface :
    (split_catalog (baseline_tools pol)).2 = [] \/ u "tool_schemas" ∉ omitted_optional_components p0 ->
    surface_case pol p0 (baseline_tools pol) [] (split_components (baseline_tools pol))
| folded_surface :
    pressure_recovery_needed pol = true ->
    surface_case pol p0 (degraded_tools pol) (folded_names pol) (folded_components (degraded_tools pol)).

Lemma finalize_fields pol mb tools folded p0 p :
  finalize pol mb tools folded p0 = Return p ->
  budget p = budget p0 /\ estimated_input_tokens p = estimated_input_tokens p0 /\
  offered_tool_names p = map spec_name offered_tools /\
  included_tool_names p = map spec_name tools /\
  pressure_collapsed_tool_names p = filter (fun n => n ∈ folded) (map spec_name tools) /\
  schema_recovery_needed p =
    bool_decide (pol = always) || recovery_tool_active a
    || negb (bool_decide (filter (fun n => n ∈ folded) (map spec_name tools) = [])).
Proof using Type.
  unfold finalize. intros H. apply bind_return in H as (bytes & _ & H). apply bind_return in H as (r & _ & H).
  by injection H as <-.
Qed.

Lemma planned_with_planned mb cs obs p :
  planned_with mb cs obs = Return (Planned p) ->
  plan_prompt (arg_limit a) cs (arg_output_reserve a) (arg_safety_margin a) = Return (Planned p).
Proof using Type.
  unfold planned_with. intros H. apply bind_return in H as ([q|x] & Hq & H); [by injection H as ->|].
  by apply bind_return in H as (y & _ & H).
Qed.

(** An optional part in the baseline is what makes recovery needed. *)
Lemma optional_needs_recovery pol :
  (split_catalog (baseline_tools pol)).2 <> [] -> pressure_recovery_needed pol = true.
Proof using Type.
  intros Hne. unfold pressure_recovery_needed. apply orb_true_iff. right. apply existsb_exists.
  destruct (split_catalog (baseline_tools pol)).2 as [|t l] eqn:E; [done|]. exists t.
  assert (t ∈ (split_catalog (baseline_tools pol)).2) as Ht by (rewrite E; left).
  apply list_elem_of_filter in Ht as [Hr Ht]. split; [by apply list_elem_of_In|].
  apply negb_true_iff, bool_decide_eq_false. unfold required_name_set. intros Hn.
  apply list_elem_of_fmap in Hn as (t' & Hname & Ht'). apply list_elem_of_filter in Ht' as [Hr' _].
  rewrite <- Hname in Hr'. congruence.
Qed.

Lemma degraded_round_planned pol mb base p :
  degraded_round pol mb base = Return (Planned p) ->
  exists cs p0, folded_components (degraded_tools pol) = Return cs /\
    plan_prompt (arg_limit a) (base ++ cs) (arg_output_reserve a) (arg_safety_margin a) = Return (Planned p0) /\
    finalize pol mb (degraded_tools pol) (folded_names pol) p0 = Return p.
Proof using Type.
  unfold degraded_round. intros H. apply bind_return in H as (cs & Hcs & H).
  apply bind_return in H as ([p0|x] & Hp0 & H); [|done]. apply bind_return in H as (q & Hq & H).
  injection H as ->. exists cs, p0. split; [done|]. split; [|done]. by eapply planned_with_planned.
Qed.

(** Everything a planned round says. *)
Lemma round_planned p :
  plan_provider_round = Return (Planned p) ->
  exists pol mb base cs p0 tools folded,
    base_components = Return base /\
    plan_prompt (arg_limit a) (base ++ cs) (arg_output_reserve a) (arg_safety_margin a) = Return (Planned p0) /\
    finalize pol mb tools folded p0 = Return p /\
    surface_case pol p0 tools folded (Return cs).
Proof using Type.
  unfold plan_provider_round. intros H. apply bind_return in H as (mb & Hmb & H).
  apply bind_return in H as (base & Hbase & H). apply bind_return in H as (pol & Hpol & H).
  assert (forall pol, pressure_recovery_needed pol = true -> degraded_round pol mb base = Return (Planned p) ->
    exists pol mb base cs p0 tools folded,
    base_components = Return base /\
    plan_prompt (arg_limit a) (base ++ cs) (arg_output_reserve a) (arg_safety_margin a) = Return (Planned p0) /\
    finalize pol mb tools folded p0 = Return p /\
    surface_case pol p0 tools folded (Return cs)) as Hdeg.
  { intros pol' Hneed Hd. apply degraded_round_planned in Hd as (cs & p0 & Hcs & Hp0 & Hf).
    exists pol', mb, base, cs, p0, (degraded_tools pol'), (folded_names pol').
    split; [done|]. split; [done|]. split; [done|]. rewrite <- Hcs. by constructor. }
  destruct (arg_tools a) as [ts|] eqn:Et.
  - destruct pol; [by apply (Hdeg always)|].
    apply bind_return in H as ([p0|x] & Hp0 & H); [|done]. unfold atomic_plan in Hp0.
    apply bind_return in Hp0 as (cs & Hcs & Hp0). apply planned_with_planned in Hp0.
    destruct (_ || _) eqn:Eo.
    + apply bind_return in H as (q & Hq & H). injection H as ->.
      exists under_pressure, mb, base, cs, p0, (baseline_tools under_pressure), [].
      split; [done|]. split; [done|]. split; [done|]. rewrite <- Hcs. constructor.
      apply orb_true_iff in Eo as [Eo|Eo]; bools; [by left|by right].
    + bools. apply (Hdeg under_pressure); [by apply optional_needs_recovery|done].
  - apply bind_return in H as ([p0|x] & Hp0 & H); [|done]. unfold atomic_plan in Hp0.
    apply bind_return in Hp0 as (cs & Hcs & Hp0). apply planned_with_planned in Hp0.
    apply bind_return in H as (q & Hq & H). injection H as ->.
    assert (baseline_tools pol = []) as Hb by (unfold baseline_tools, offered_tools; by rewrite Et).
    exists pol, mb, base, cs, p0, [], []. split; [done|]. split; [done|]. split; [done|].
    rewrite <- Hcs, <- Hb. constructor. rewrite Hb. by left.
Qed.

(** Folded specs are filed under their own names. *)
Definition well_keyed : Prop := map_Forall (fun n s => spec_name s = n) (collapsed_tool_specs a).

Lemma latent_name pol t t' : spec_name t = spec_name t' -> latent pol t = latent pol t'.
Proof using Type. unfold latent. by intros ->. Qed.

Lemma folds_name pol t t' : spec_name t = spec_name t' -> folds pol t = folds pol t'.
Proof using Type. unfold folds. by intros ->. Qed.

Lemma fold_spec_name t : well_keyed -> spec_name (fold_spec t) = spec_name t.
Proof using Type.
  intros Hk. unfold fold_spec, collapsed_by_name. case_bool_decide; [done|].
  destruct (collapsed_tool_specs a !! spec_name t) as [s|] eqn:E; [|done]. by apply (Hk _ _ E).
Qed.

(** Under need of recovery, degradation folds in place. *)
Lemma degraded_tools_map pol :
  pressure_recovery_needed pol = true ->
  degraded_tools pol = map (fun t => if folds pol t then fold_spec t else t) offered_tools.
Proof using Type.
  intros Hn. unfold degraded_tools. induction offered_tools as [|t l IH]; [done|].
  cbn [map mbind list_bind]. rewrite IH. unfold degrade_tool, folds. rewrite Hn.
  case_bool_decide; [done|]. cbn [negb andb]. by destruct (negb _).
Qed.

Lemma degraded_tools_names pol :
  well_keyed -> pressure_recovery_needed pol = true ->
  map spec_name (degraded_tools pol) = map spec_name offered_tools.
Proof using Type.
  intros Hk Hn. rewrite degraded_tools_map by done. rewrite map_map. apply map_ext. intros t.
  destruct (folds pol t); [by apply fold_spec_name|done].
Qed.

Lemma folded_names_elem pol t :
  t ∈ offered_tools -> (spec_name t ∈ folded_names pol <-> folds pol t = true).
Proof using Type.
  intros Ht. unfold folded_names. change (map ?f ?l) with (f <$> l). rewrite list_elem_of_fmap. split.
  - intros (t' & Hname & Ht'). apply list_elem_of_filter in Ht' as [Hf _]. by rewrite (folds_name pol t t').
  - intros Hf. exists t. split; [done|]. by apply list_elem_of_filter.
Qed.

(** The loop sends the list the plan was made for. *)
Lemma tools_sent_surface pol p0 p mb tools folded r :
  well_keyed -> surface_case pol p0 tools folded r -> finalize pol mb tools folded p0 = Return p ->
  default [] (tools_sent p) = tools.
Proof using Type.
  intros Hk Hs Hf. apply finalize_fields in Hf as (_ & _ & Ho & Hi & Hc & _). unfold tools_sent.
  rewrite Ho, Hi, Hc.
  assert (map (fun s => if bool_decide (spec_name s ∈ filter (fun n => n ∈ folded) (map spec_name tools))
                        then fold_spec s else s)
            (filter (fun s => spec_name s ∈ map spec_name tools) offered_tools) = tools) as Heq.
  { clear Ho Hi Hc. destruct Hs as [_|Hneed].
    - rewrite (filter_none _ (map spec_name (baseline_tools pol))) by (intros n _ Hn; by apply elem_of_nil in Hn).
      transitivity (filter (fun s => spec_name s ∈ map spec_name (baseline_tools pol)) offered_tools).
      { etransitivity; [|apply map_id]. apply map_ext. intros s. done. }
      unfold baseline_tools at 2. apply list_filter_iff_strong. intros t Ht.
      change (map ?f ?l) with (f <$> l). rewrite list_elem_of_fmap. split.
      + intros (t' & Hname & Ht'). apply list_elem_of_filter in Ht' as [Hl _]. by rewrite (latent_name pol t t').
      + intros Hl. exists t. split; [done|]. by apply list_elem_of_filter.
    - rewrite degraded_tools_names by done. rewrite (filter_all _ offered_tools).
      2:{ intros t Ht. apply list_elem_of_fmap. by exists t. }
      rewrite degraded_tools_map by done. apply map_ext_in. intros t Ht%list_elem_of_In.
      assert (spec_name t ∈ map spec_name offered_tools) by (apply list_elem_of_fmap; by exists t).
      destruct (folds pol t) eqn:E.
      + rewrite bool_decide_eq_true_2; [done|]. apply list_elem_of_filter. split; [|done].
        by apply folded_names_elem.
      + rewrite bool_decide_eq_false_2; [done|]. rewrite list_elem_of_filter. intros [Hn _].
        apply folded_names_elem in Hn; [|done]. congruence. }
  rewrite Heq. destruct (map spec_name offered_tools) as [|n ns] eqn:Eo; [|by destruct tools].
  assert (offered_tools = []) as E0 by (by destruct offered_tools).
  rewrite E0 in Heq. simpl in Heq. subst tools.
  unfold offered_tools in E0. by destruct (arg_tools a).
Qed.

Lemma base_components_required base c : base_components = Return base -> c ∈ base -> required c = true.
Proof using Type.
  unfold base_components. intros H Hc. apply bind_return in H as (m & Hm & H).
  assert (required m = true) as Hmr.
  { unfold messages_component in Hm. apply bind_return in Hm as (r & _ & Hm).
    apply bind_return in Hm as (? & _ & Hm). destruct (image_accounting_value _ _) as [v n].
    apply bind_return in Hm as (c0 & Hc0 & Hm). apply make_component_spec in Hm as (_ & _ & -> & _).
    unfold structured_component in Hc0. apply bind_return in Hc0 as (z & _ & Hc0).
    by apply make_component_spec in Hc0 as (_ & _ & -> & _). }
  destruct exchanges as [|x xs].
  - injection H as <-. by apply list_elem_of_singleton in Hc as ->.
  - apply bind_return in H as (t & Ht & H). injection H as <-.
    apply elem_of_cons in Hc as [->|Hc]; [done|]. apply list_elem_of_singleton in Hc as ->.
    unfold tool_transcript_component, structured_component in Ht. apply bind_return in Ht as (z & _ & Ht).
    by apply make_component_spec in Ht as (_ & _ & -> & _).
Qed.

Lemma schemas_component_fields tools name req prio cs c :
  schemas_component tools name req prio = Return cs -> c ∈ cs ->
  pc_name c = strip (u name) /\ required c = req /\ tools <> [].
Proof using Type.
  unfold schemas_component. intros H Hc. destruct tools as [|t l]; [injection H as <-; by apply elem_of_nil in Hc|].
  apply bind_return in H as (c0 & H0 & H). injection H as <-. apply list_elem_of_singleton in Hc as ->.
  unfold tool_schemas_component in H0. apply bind_return in H0 as (x & _ & H0). apply bind_return in H0 as (y & _ & H0).
  apply bind_return in H0 as (z & _ & H0). apply bind_return in H0 as (w & _ & H0).
  apply make_component_spec in H0 as (_ & -> & -> & _). done.
Qed.

(** The optional component of a complete surface is the one the plan kept. *)
Lemma surface_nothing_omitted pol b base cs tools folded :
  base_components = Return base ->
  surface_case pol (plan_of (arg_limit a) b (base ++ cs)) tools folded (Return cs) ->
  forall d, d ∈ decisions (plan_of (arg_limit a) b (base ++ cs)) -> included d = true.
Proof using Type.
  intros Hbase Hs. apply plan_of_nothing_omitted. intros c Hc Hr. apply elem_of_app in Hc as [Hc|Hc].
  { apply (base_components_required _ _ Hbase) in Hc. congruence. }
  remember (Return cs) as r eqn:Er. destruct Hs as [Hopt|_].
  - unfold split_components in Er.
    destruct (split_catalog (baseline_tools pol)) as [rq op]. cbn [snd] in Hopt.
    apply bind_return in Er as (cr & Hcr & Er). apply bind_return in Er as (co & Hco & Er). injection Er as <-.
    apply elem_of_app in Hc as [Hc|Hc].
    + apply (schemas_component_fields _ _ _ _ _ _ Hcr) in Hc as (_ & ? & _). congruence.
    + apply (schemas_component_fields _ _ _ _ _ _ Hco) in Hc as (-> & _ & Hne).
      destruct Hopt as [->|Hopt]; [done|].
      assert (strip (u "tool_schemas") = u "tool_schemas") as -> by (vm_compute; reflexivity). done.
  - unfold folded_components in Er.
    apply (schemas_component_fields _ _ _ _ _ _ Er) in Hc as (_ & ? & _). congruence.
Qed.

(** C10: a planned round budgets what is sent. The schemas the tool loop derives from the plan are
    the ones the plan accounted for: the accounted tokens are those of the messages, the native
    exchanges and the schema components of exactly that list, and with the output reserve and the
    safety margin they stay within the model's context window. *)
Theorem round_budgets_what_is_sent p :
  well_keyed -> plan_provider_round = Return (Planned p) ->
  let sent := default [] (tools_sent p) in
  exists base cs, base_components = Return base /\
    (split_components sent = Return cs \/ folded_components sent = Return cs) /\
    estimated_input_tokens p = sumZ (estimated_tokens <$> base ++ cs) /\
    reserved_total_tokens p <= context_window_tokens (arg_limit a).
Proof using Type.
  intros Hk H sent. apply round_planned in H as (pol & mb & base & cs & p0 & tools & folded & Hbase & Hp & Hf & Hs).
  assert (sent = tools) as -> by (by eapply tools_sent_surface).
  exists base, cs. split; [done|]. split; [by inversion Hs; [left|right]|].
  apply plan_prompt_inv in Hp as (b & Hb & _ & Hp). destruct (_ <? _) eqn:E; [done|]. bools. injection Hp as ->.
  apply finalize_fields in Hf as (Hbud & Hest & _). split.
  - rewrite Hest. apply plan_of_complete. by eapply surface_nothing_omitted.
  - unfold reserved_total_tokens. rewrite Hest, Hbud. by eapply plan_of_within.
Qed.

(** A required name is never folded. *)
Lemma required_not_folded pol t :
  t ∈ offered_tools -> in_required_names (spec_name t) = true -> folds pol t = false.
Proof using Type.
  intros Ht Hr. unfold folds. apply andb_false_iff. destruct (latent pol t) eqn:El.
  - left. unfold latent in El. bools. apply negb_false_iff. by apply bool_decide_eq_true.
  - right. apply negb_false_iff, bool_decide_eq_true. unfold required_name_set. apply list_elem_of_fmap.
    exists t. split; [done|]. apply list_elem_of_filter. split; [done|]. by apply list_elem_of_filter.
Qed.

(** What a plan folds is offered, and not required. *)
Lemma collapsed_not_required p n :
  plan_provider_round = Return (Planned p) -> n ∈ pressure_collapsed_tool_names p ->
  in_required_names n = false /\ n ∈ map spec_name offered_tools.
Proof using Type.
  intros H Hn. apply round_planned in H as (pol & mb & base & cs & p0 & tools & folded & _ & _ & Hf & Hs).
  apply finalize_fields in Hf as (_ & _ & _ & _ & Hc & _). rewrite Hc in Hn.
  apply list_elem_of_filter in Hn as [Hn _]. destruct Hs as [_|_]; [by apply elem_of_nil in Hn|].
  apply list_elem_of_fmap in Hn as (t & -> & Ht). apply list_elem_of_filter in Ht as [Hfold Ht]. split.
  - destruct (in_required_names (spec_name t)) eqn:E; [|done].
    rewrite (required_not_folded pol t Ht E) in Hfold. done.
  - apply list_elem_of_fmap. by exists t.
Qed.

(** A planned round keeps the directory. The names sent are the names the plan includes; every
    offered tool is among them except a latent recovery tool while nothing is folded; a resident,
    required or protected tool that is included is sent with its complete schema; and when a schema
    is folded the whole directory is sent, the recovery tool with it, and recovery is announced. *)
Theorem round_keeps_directory p ts :
  well_keyed -> arg_tools a = Some ts -> plan_provider_round = Return (Planned p) ->
  let sent := default [] (tools_sent p) in
  map spec_name sent = included_tool_names p /\
  (forall t, t ∈ ts -> spec_name t ∈ included_tool_names p \/
     (spec_name t = recovery_tool_name a /\ recovery_tool_active a = false /\
      pressure_collapsed_tool_names p = [])) /\
  (forall t, t ∈ ts -> in_required_names (spec_name t) = true ->
     spec_name t ∈ included_tool_names p -> t ∈ sent) /\
  (pressure_collapsed_tool_names p <> [] ->
     included_tool_names p = map spec_name ts /\ schema_recovery_needed p = true).
Proof using Type.
  intros Hk Ets H sent. assert (offered_tools = ts) as Hoff by (unfold offered_tools; by rewrite Ets).
  apply round_planned in H as (pol & mb & base & cs & p0 & tools & folded & _ & _ & Hf & Hs).
  assert (sent = tools) as -> by (by eapply tools_sent_surface).
  apply finalize_fields in Hf as (_ & _ & _ & Hi & Hc & Hrec). rewrite Hi. split; [done|].
  assert (pressure_collapsed_tool_names p <> [] -> schema_recovery_needed p = true) as Hann.
  { intros Hne. rewrite Hrec, <- Hc, (bool_decide_eq_false_2 _ Hne). by rewrite orb_true_r. }
  remember (Return cs) as r eqn:Er. destruct Hs as [_|Hneed].
  - rewrite filter_none in Hc by (intros n _ Hn; by apply elem_of_nil in Hn). split; [|split].
    + intros t Ht. destruct (latent pol t) eqn:El.
      * right. unfold latent in El. bools. done.
      * left. apply list_elem_of_fmap. exists t. split; [done|]. apply list_elem_of_filter. by rewrite Hoff.
    + intros t Ht _ Hin. apply list_elem_of_fmap in Hin as (t' & Hname & Ht').
      apply list_elem_of_filter in Ht' as [Hl _]. apply list_elem_of_filter. rewrite Hoff.
      by rewrite (latent_name pol t t').
    + by rewrite Hc.
  - rewrite degraded_tools_names, Hoff by done. split; [|split].
    + intros t Ht. left. apply list_elem_of_fmap. by exists t.
    + intros t Ht Hr _. rewrite <- Hoff in Ht. rewrite degraded_tools_map by done.
      apply list_elem_of_fmap. exists t. by rewrite (required_not_folded pol t Ht Hr).
    + intros Hne. split; [done|by apply Hann].
Qed.

(** Which required set a refused round was refused for. *)
Lemma planned_with_exhausted mb cs obs x :
  planned_with mb cs obs = Return (FrontierExhausted x) ->
  exists b, build_prompt_budget (PInt (context_window_tokens (arg_limit a))) (arg_output_reserve a)
              (arg_safety_margin a) = Return b /\
    input_budget_tokens b < required_tokens cs /\ exh_required_tokens x = required_tokens cs.
Proof using Type.
  unfold planned_with. intros H. apply bind_return in H as ([q|y] & Hq & H); [done|].
  apply bind_return in H as (z & Hz & H). injection H as ->.
  apply plan_prompt_inv in Hq as (b & Hb & _ & Hq). exists b. split; [done|].
  destruct (_ <? _) eqn:E; [|done]. bools. injection Hq as ->. split; [done|].
  unfold attach_exhaustion in Hz. apply bind_return in Hz as (r & _ & Hz). apply bind_return in Hz as (by' & _ & Hz).
  by injection Hz as <-.
Qed.

(** The messages, the native exchanges and either the required schemas of the baseline or the
    whole folded directory exceed the input budget, and the error reports that total. *)
Definition refused_for (x : ExhaustedInfo) : Prop :=
  exists pol base cs b,
    base_components = Return base /\
    build_prompt_budget (PInt (context_window_tokens (arg_limit a))) (arg_output_reserve a)
      (arg_safety_margin a) = Return b /\
    (schemas_component (split_catalog (baseline_tools pol)).1 "required_tool_schemas" true 0 = Return cs \/
     folded_components (degraded_tools pol) = Return cs) /\
    exh_required_tokens x = sumZ (estimated_tokens <$> base ++ cs) /\
    input_budget_tokens b < exh_required_tokens x.

Lemma required_tokens_all base cs :
  base_components = Return base -> (forall c, c ∈ cs -> required c = true) ->
  required_tokens (base ++ cs) = sumZ (estimated_tokens <$> base ++ cs).
Proof using Type.
  intros Hbase Hcs. unfold required_tokens, required_of. rewrite filter_all; [done|]. intros c Hc.
  apply elem_of_app in Hc as [Hc|Hc]; [by eapply base_components_required|by apply Hcs].
Qed.

Lemma required_schemas tools name prio cs c :
  schemas_component tools name true prio = Return cs -> c ∈ cs -> required c = true.
Proof using Type. intros H Hc. by apply (schemas_component_fields _ _ _ _ _ _ H) in Hc as (_ & ? & _). Qed.

Lemma degraded_refused pol mb base x :
  base_components = Return base -> degraded_round pol mb base = Return (FrontierExhausted x) -> refused_for x.
Proof using Type.
  intros Hbase Hd. unfold degraded_round in Hd. apply bind_return in Hd as (cs & Hcs & Hd).
  apply bind_return in Hd as ([p0|y] & Hy & Hd); [by apply bind_return in Hd as (q & _ & Hd)|].
  injection Hd as ->. apply planned_with_exhausted in Hy as (b & Hb & Hlt & Hx).
  rewrite (required_tokens_all _ _ Hbase) in Hlt, Hx by (intros c; by eapply required_schemas).
  exists pol, base, cs, b. rewrite Hx. auto.
Qed.

Lemma atomic_refused pol mb base x :
  base_components = Return base -> atomic_plan mb base (baseline_tools pol) = Return (FrontierExhausted x) ->
  refused_for x.
Proof using Type.
  intros Hbase Ha. unfold atomic_plan, split_components in Ha. apply bind_return in Ha as (cs & Hcs & Ha).
  apply bind_return in Hcs as (cr & Hcr & Hcs). apply bind_return in Hcs as (co & Hco & Hcs). injection Hcs as <-.
  apply planned_with_exhausted in Ha as (b & Hb & Hlt & Hx).
  assert (required_tokens (base ++ cr ++ co) = required_tokens (base ++ cr)) as Hreq.
  { unfold required_tokens, required_of. rewrite !filter_app, (filter_none _ co), !app_nil_r; [done|].
    intros c Hc Ht. apply (schemas_component_fields _ _ _ _ _ _ Hco) in Hc as (_ & ? & _). congruence. }
  rewrite Hreq, (required_tokens_all _ _ Hbase) in Hlt, Hx by (intros c; by eapply required_schemas).
  exists pol, base, cr, b. rewrite Hx. auto.
Qed.

(** A round is refused only for what may not be dropped: when it raises
    [PromptFrontierExhausted], the messages, the native exchanges and either the required schemas of
    the baseline or the whole folded directory exceed the input budget, and the error reports that
    total. *)
Theorem round_refused_for_required x :
  plan_provider_round = Return (FrontierExhausted x) -> refused_for x.
Proof using Type.
  unfold plan_provider_round. intros H. apply bind_return in H as (mb & _ & H).
  apply bind_return in H as (base & Hbase & H). apply bind_return in H as (pol & _ & H).
  destruct (arg_tools a) as [ts|] eqn:Et.
  - destruct pol; [by eapply degraded_refused|]. apply bind_return in H as ([p0|y] & Hp0 & H).
    + destruct (_ || _); [by apply bind_return in H as (q & _ & H)|by eapply degraded_refused].
    + injection H as ->. by eapply atomic_refused.
  - apply bind_return in H as ([p0|y] & Hp0 & H); [by apply bind_return in H as (q & _ & H)|].
    injection H as ->. apply (atomic_refused always mb base x Hbase).
    unfold baseline_tools, offered_tools. by rewrite Et.
Qed.

End Round.

(** ** A round under pressure *)

Definition sample_tools : list ToolSpec :=
  [mkSpec (u "memory_search") (u "Search the memory.") (PDict [(u "type", PStr (u "object"))]);
   mkSpec (u "calendar") (replicate 3000 120%N) (PDict []);
   mkSpec (u "mcp_tool_search") (u "Find a tool.") (PDict [])].

Definition sample_args (window : Z) : RoundArgs :=
  mkArgs (mkLimit (u "openai") (u "m") window unaudited_default None None None None None)
    [MValue (PDict [(u "role", PStr (u "user")); (u "content", PStr (u "hello"))])]
    (Some sample_tools) [] [] ∅ (u "mcp_tool_search") false None (PInt 7000) None
    (PFloat (FNum fone)) (PInt 8192) [].

Abbreviation sample_round window :=
  (plan_provider_round ascii_lower (fun _ => []) (fun _ => []) (fun _ => None) (sample_args window)).

Lemma sample_round_planned :
  exists p, sample_round 8192 = Return (Planned p) /\
    included_tool_names p = map spec_name sample_tools /\ pressure_collapsed_tool_names p = [u "calendar"].
Proof. eexists. split; [vm_compute; reflexivity|]. split; vm_compute; reflexivity. Qed.

Lemma round_budgets_what_is_sent_witness :
  exists p base cs,
    sample_round 8192 = Return (Planned p) /\
    base_components (fun _ => []) (fun _ => []) (fun _ => None) (sample_args 8192) = Return base /\
    (split_components (fun _ => []) (sample_args 8192) (default [] (tools_sent (sample_args 8192) p)) = Return cs \/
     folded_components (fun _ => []) (default [] (tools_sent (sample_args 8192) p)) = Return cs) /\
    estimated_input_tokens p = sumZ (estimated_tokens <$> base ++ cs) /\
    reserved_total_tokens p <= context_window_tokens (arg_limit (sample_args 8192)).
Proof.
  destruct sample_round_planned as (p & Hp & _).
  destruct (round_budgets_what_is_sent ascii_lower (fun _ => []) (fun _ => []) (fun _ => None) (sample_args 8192)
              p (map_Forall_empty _) Hp) as (base & cs & H).
  exists p, base, cs. split; [exact Hp|exact H].
Defined.

(** The calendar's schema is folded, the resident one is sent as it is. *)
Lemma round_keeps_directory_witness :
  exists p, pressure_collapsed_tool_names p = [u "calendar"] /\
    mkSpec (u "memory_search") (u "Search the memory.") (PDict [(u "type", PStr (u "object"))])
      ∈ default [] (tools_sent (sample_args 8192) p).
Proof.
  destruct sample_round_planned as (p & Hp & Hi & Hc). exists p. split; [exact Hc|].
  destruct (round_keeps_directory ascii_lower (fun _ => []) (fun _ => []) (fun _ => None) (sample_args 8192)
              p sample_tools (map_Forall_empty _) eq_refl Hp) as (_ & _ & H & _).
  apply H; [unfold sample_tools; left|vm_compute; reflexivity|]. rewrite Hi. unfold sample_tools.
  cbn [map spec_name]. left.
Defined.

Lemma sample_round_refused : exists x, sample_round 7550 = Return (FrontierExhausted x).
Proof. eexists. vm_compute. reflexivity. Qed.

Lemma round_refused_for_required_witness :
  exists x, refused_for (fun _ => []) (fun _ => []) (fun _ => None) (sample_args 7550) x.
Proof.
  destruct sample_round_refused as (x & Hx). exists x.
  exact (round_refused_for_required ascii_lower (fun _ => []) (fun _ => []) (fun _ => None) (sample_args 7550)
           x Hx).
Defined.
End Round.
