(* ===== verification/SchemaRecovery.v ===== *)
(** * Folded schemas over a turn
    ([backend/model_api_runtime/v2/worker.py], [_SchemaRecovery];
    [tool_loop.py], the round that consults it)

    The recovery contract of a turn: each round is planned with the resolved names
    protected, the names it folded are recorded, a call to a folded tool is refused until
    its manual is loaded, and [mcp_tool_search] loads manuals. The user-MCP half of the
    contract (its candidates, its protected and folded names) is a parameter of each step. *)

From S2P Require Import Prelude PyValue PromptLimit PromptEstimate PromptPlan ToolSurface PromptRound.
Import Estimate Plan Surface Round.
Local Open Scope Z_scope.

Module Recovery.

(** [_SCHEMA_SEARCH_MAX_RESULTS] *)
Definition SCHEMA_SEARCH_MAX_RESULTS : Z := 8.

(** [SchemaRecoveryState({spec.name: spec ...})] *)
Definition new_recovery (specs : gmap pystr ToolSpec) : SchemaRecoveryState := mkRecovery specs ∅ ∅.

(** [platform.discoverable_specs()] as items. *)
Definition discoverable_specs (st : SchemaRecoveryState) : list (pystr * ToolSpec) :=
  omap (fun n => (fun s => (n, s)) <$> discoverable st n) (elements (pressure_collapsed_names st)).

(** [requires_resolution], for a name the user-MCP turn does not hold back itself. *)
Definition requires_resolution (st : SchemaRecoveryState) (mcp_requires : pystr -> bool) (n : pystr) : bool :=
  bool_decide (is_Some (discoverable st n)) || mcp_requires n.

(** [record_surface]'s platform half. *)
Definition record_surface (p : PromptFrontierPlan) (st : SchemaRecoveryState) : SchemaRecoveryState :=
  set_pressure_collapsed (pressure_collapsed_tool_names p) st.

(** [{**platform, **mcp}] *)
Definition merge_items (platform mcp : list (pystr * ToolSpec)) : list (pystr * ToolSpec) :=
  map (fun kv => (kv.1, default kv.2 (assoc mcp kv.1))) platform
  ++ filter (fun kv => assoc platform kv.1 = None) mcp.

Section Turn.
Context (lower casefold : pystr -> pystr) (repr : pyval -> pystr) (float_repr : pyfloat -> pystr).
Context (float_of_text : pystr -> option pyfloat).

(** [_SchemaRecovery.resolve]: the new state and the platform manuals handed back. *)
Definition resolve_search (mcp_candidates : list (pystr * ToolSpec)) (args : option row)
    (st : SchemaRecoveryState) : SchemaRecoveryState * list pystr :=
  let candidates := merge_items (discoverable_specs st) mcp_candidates in
  let sel := select_schema_names repr casefold args candidates SCHEMA_SEARCH_MAX_RESULTS in
  match sel_error sel with
  | Some _ => (st, [])
  | None => resolve (filter (fun n => is_Some (full_specs st !! n)) (selected sel)) st
  end.

(** A round of the tool loop: planned with the resolved names protected, then recorded. *)
Definition round_of (st : SchemaRecoveryState) (a : RoundArgs) (p : PromptFrontierPlan) : Prop :=
  (forall n, n ∈ protected_names st -> n ∈ protected_tool_names a) /\
  plan_provider_round lower repr float_repr float_of_text a = Return (Planned p).

Inductive turn_step : SchemaRecoveryState -> SchemaRecoveryState -> Prop :=
| step_round st a p : round_of st a p -> turn_step st (record_surface p st)
| step_search st mcp args : turn_step st (resolve_search mcp args st).1.

Definition turn_run : relation SchemaRecoveryState := rtc turn_step.

(** The invariant of a turn. *)
Definition turn_ok (specs : gmap pystr ToolSpec) (st : SchemaRecoveryState) : Prop :=
  full_specs st = specs /\ recovery_ok st /\ resolved_names st ⊆ dom specs.

Lemma turn_step_ok specs st st' :
  turn_ok specs st -> turn_step st st' -> turn_ok specs st' /\ resolved_names st ⊆ resolved_names st'.
Proof using Type.
  intros (Hf & Hok & Hr) Hs. destruct Hs as [st a p _|st mcp args].
  - destruct (set_pressure_collapsed_ok (pressure_collapsed_tool_names p) st) as [Hok' _].
    by repeat split; try apply Hok'.
  - unfold resolve_search. destruct (sel_error _); [by split|].
    set (names := filter _ _). destruct (resolve_ok names st Hok) as [Hok' Hsub]. split; [|done].
    split; [done|]. split; [done|]. intros n Hn. cbn in Hn. apply elem_of_union in Hn as [Hn|Hn]; [by apply Hr|].
    apply elem_of_list_to_set, list_elem_of_filter in Hn as [_ Hn]. apply list_elem_of_filter in Hn as [Hn _].
    rewrite <- Hf. by apply elem_of_dom.
Qed.

Lemma turn_run_ok specs st st' :
  turn_ok specs st -> turn_run st st' -> turn_ok specs st' /\ resolved_names st ⊆ resolved_names st'.
Proof using Type.
  intros Hok Hr. induction Hr as [|st st1 st2 Hs _ IH]; [done|].
  destruct (turn_step_ok _ _ _ Hok Hs) as [Hok1 Hsub1]. destruct (IH Hok1) as [Hok2 Hsub2].
  split; [done|]. by etransitivity.
Qed.

Lemma new_recovery_ok specs : turn_ok specs (new_recovery specs).
Proof using Type. unfold turn_ok, recovery_ok, new_recovery. cbn. set_solver. Qed.

(** Over any rounds and searches of a turn, the call guard knows the surface that was sent: a
    round folds no schema the model has loaded, and afterwards a platform tool is held back exactly
    when that round folded it. *)
Theorem recovery_guard_exact specs st a p :
  specs !! [] = None -> turn_run (new_recovery specs) st -> round_of st a p ->
  (forall n, n ∈ resolved_names st -> n ∉ pressure_collapsed_tool_names p) /\
  (forall n, is_Some (specs !! n) ->
     (requires_resolution (record_surface p st) (fun _ => false) n = true <->
      n ∈ pressure_collapsed_tool_names p)).
Proof using Type.
  intros Hne Hrun [Hprot Hp]. destruct (turn_run_ok _ _ _ (new_recovery_ok specs) Hrun) as [(Hf & Hok & Hr) _].
  assert (forall n, n ∈ resolved_names st -> n ∉ pressure_collapsed_tool_names p) as Hres.
  { intros n Hn Hc. destruct (collapsed_not_required _ _ _ _ _ _ _ Hp Hc) as [Hreq _].
    unfold in_required_names in Hreq. apply orb_false_iff in Hreq as [Hreq _].
    assert (n <> []) as Hnn by (intros ->; apply Hr, elem_of_dom in Hn as [s Hs]; congruence).
    rewrite (bool_decide_eq_false_2 _ Hnn), bool_decide_eq_true_2 in Hreq; [done|].
    apply elem_of_app. right. by apply Hprot. }
  split; [done|]. intros n Hn. unfold requires_resolution. rewrite orb_false_r, bool_decide_eq_true.
  unfold discoverable, record_surface, set_pressure_collapsed. cbn [pressure_collapsed_names resolved_names full_specs].
  rewrite Hf. split.
  - intros [s Hs]. destruct (_ && _) eqn:E; [|done]. bools.
    by apply elem_of_list_to_set, list_elem_of_filter in H as [_ H].
  - intros Hc. rewrite bool_decide_eq_true_2, bool_decide_eq_false_2; [done| |].
    + intros Hres'. by apply (Hres n Hres').
    + apply elem_of_list_to_set, list_elem_of_filter. split; [|done]. split; [done|].
      intros Hres'. by apply (Hres n Hres').
Qed.

End Turn.

Definition sample_specs : gmap pystr ToolSpec :=
  list_to_map (map (fun s => (spec_name s, s)) sample_tools).

(** After a round that folded the calendar, a call to it is held back. *)
Lemma recovery_guard_exact_witness :
  exists p, pressure_collapsed_tool_names p = [u "calendar"] /\
    requires_resolution (record_surface p (new_recovery sample_specs)) (fun _ => false) (u "calendar") = true /\
    requires_resolution (record_surface p (new_recovery sample_specs)) (fun _ => false) (u "memory_search") = false.
Proof.
  destruct sample_round_planned as (p & Hp & _ & Hc). exists p. split; [exact Hc|].
  destruct (recovery_guard_exact Limit.ascii_lower id (fun _ => []) (fun _ => []) (fun _ => None) sample_specs
              (new_recovery sample_specs) (sample_args 8192) p) as [_ H].
  - vm_compute. reflexivity.
  - apply rtc_refl.
  - split; [|exact Hp]. intros n Hn. change (n ∈ (∅ : gset pystr)) in Hn. destruct (not_elem_of_empty n Hn).
  - split.
    + apply H; [eexists; vm_compute; reflexivity|]. rewrite Hc. left.
    + destruct (requires_resolution _ _ (u "memory_search")) eqn:E; [|reflexivity].
      apply H in E; [|eexists; vm_compute; reflexivity]. rewrite Hc in E. apply list_elem_of_singleton in E.
      vm_compute in E. discriminate.
Defined.
End Recovery.
