(* ===== verification/SlotProtocol.v ===== *)
(** * The progress protocol between a slot child and its parent
    ([backend/model_api_runtime/v2/slot_protocol.py])

    Records with validating constructors, their encoding as JSON-like objects, and the
    strict decoder. Numbers are kept as the value they arrive as, like the dataclass
    fields. *)

From S2P Require Import Prelude PyValue PyFloat EnclaveBroker.
Import Broker.
Local Open Scope Z_scope.

Module Slot.

Definition MAX_ID : nat := 200.
Definition MAX_STAGE : nat := 120.

Definition LANES : list pystr :=
  map u ["chat"; "manual_wake"; "heartbeat"; "scheduled"; "screen_watch"; "profile"; "dream"; "capture";
         "maintenance"; "trajectory_review"].

Definition bounded_text (v : pyval) (field : string) (maximum : nat) : outcome pystr :=
  match v with
  | PStr s => if bool_decide (s = []) || (maximum <? length s)%nat then Raise (ValueError ("invalid " ++ field))
              else Return s
  | _ => Raise (ValueError ("invalid " ++ field))
  end.

(** The value is checked, and kept as it is. *)
Definition finite_number (v : pyval) (field : string) : outcome unit :=
  match v with
  | PInt z => f ← float_of_Z z;
              raise_if (negb (isfinite f) || fltb f (FNum 0)) (ValueError ("invalid " ++ field))
  | PFloat f => raise_if (negb (isfinite f) || fltb f (FNum 0)) (ValueError ("invalid " ++ field))
  | _ => Raise (ValueError ("invalid " ++ field))
  end.

Record ActiveJobIdentity : Type := mkJob { job_id : Z; lane : pystr; claimed_by : pystr }.

#[global] Instance ActiveJobIdentity_eq_dec : EqDecision ActiveJobIdentity.
Proof. solve_decision. Defined.

Record SlotProgress : Type := mkProgress {
  p_slot_id : pystr;
  p_slot_generation : pystr;
  monotonic_at : pyval;
  turn_start : option pyval;
  stage : pystr;
  active_job : option ActiveJobIdentity;
}.

Record LoopHeartbeat : Type := mkHeartbeat { h_slot_generation : pystr; h_monotonic_at : pyval }.

Inductive SlotMessage : Type :=
| Progress (p : SlotProgress)
| Heartbeat (h : LoopHeartbeat).

(** [==] on the numbers and on the records. *)
Definition number_eqb (a b : pyval) : bool :=
  match a, b with
  | PInt x, PInt y => x =? y
  | PInt x, PFloat (FNum t) | PFloat (FNum t), PInt x => t =? x * fone
  | PFloat (FNum x), PFloat (FNum y) => x =? y
  | _, _ => false
  end.

Definition progress_eqb (p q : SlotProgress) : bool :=
  bool_decide (p_slot_id p = p_slot_id q) && bool_decide (p_slot_generation p = p_slot_generation q)
  && number_eqb (monotonic_at p) (monotonic_at q)
  && match turn_start p, turn_start q with
     | None, None => true
     | Some a, Some b => number_eqb a b
     | _, _ => false
     end
  && bool_decide (stage p = stage q) && bool_decide (active_job p = active_job q).

(** ** Constructors with [__post_init__] *)

Definition make_job (i l b : pyval) : outcome ActiveJobIdentity :=
  match i with
  | PInt z =>
      _ ← raise_if (z <=? 0) (ValueError "invalid job_id");
      _ ← raise_if (unhashable l) (TypeError "unhashable type");
      match l with
      | PStr lane =>
          _ ← raise_if (negb (bool_decide (lane ∈ LANES))) (ValueError "invalid lane");
          owner ← bounded_text b "claimed_by" MAX_ID;
          Return (mkJob z lane owner)
      | _ => Raise (ValueError "invalid lane")
      end
  | _ => Raise (ValueError "invalid job_id")
  end.

(** [None] is Python's [None]. *)
Definition make_progress (s g m a x : pyval) (j : option ActiveJobIdentity) : outcome SlotProgress :=
  s ← bounded_text s "slot_id" MAX_ID;
  g ← bounded_text g "slot_generation" MAX_ID;
  _ ← finite_number m "monotonic_at";
  start ← match a with PNone => Return None | _ => _ ← finite_number a "turn_start"; Return (Some a) end;
  x ← bounded_text x "stage" MAX_STAGE;
  _ ← raise_if (negb (Bool.eqb (bool_decide (start = None)) (bool_decide (j = None))))
        (ValueError "turn_start and active_job must be set or cleared together");
  Return (mkProgress s g m start x j).

Definition make_heartbeat (g m : pyval) : outcome LoopHeartbeat :=
  g ← bounded_text g "slot_generation" MAX_ID;
  _ ← finite_number m "monotonic_at";
  Return (mkHeartbeat g m).

(** ** Messages *)

Definition encode_job (j : option ActiveJobIdentity) : pyval :=
  match j with
  | None => PNone
  | Some j => PDict [(u "i", PInt (job_id j)); (u "l", PStr (lane j)); (u "b", PStr (claimed_by j))]
  end.

Definition encode_message (m : SlotMessage) : row :=
  match m with
  | Heartbeat h =>
      list_to_map [("v", PInt 1); ("t", PStr (u "h")); ("g", PStr (h_slot_generation h)); ("m", h_monotonic_at h)]
  | Progress p =>
      list_to_map [("v", PInt 1); ("t", PStr (u "p")); ("s", PStr (p_slot_id p)); ("g", PStr (p_slot_generation p));
                   ("m", monotonic_at p); ("a", default PNone (turn_start p)); ("x", PStr (stage p));
                   ("j", encode_job (active_job p))]
  end.

(** [set(d) == {k1, k2, k3}] for the items of a dictionary. *)
Definition item_keys_are (d : list (pystr * pyval)) (ks : list string) : bool :=
  forallb (fun kv => bool_decide (kv.1 ∈ map u ks)) d &&
  forallb (fun k => bool_decide (is_Some (assoc d (u k)))) ks.

Definition decode_job (v : pyval) : outcome (option ActiveJobIdentity) :=
  match v with
  | PNone => Return None
  | PDict d =>
      _ ← raise_if (negb (item_keys_are d ["i"; "l"; "b"])) (ValueError "invalid active job schema");
      let field k := default PNone (assoc d (u k)) in
      j ← make_job (field "i") (field "l") (field "b");
      Return (Some j)
  | _ => Raise (ValueError "invalid active job schema")
  end.

Definition decode_message (payload : pyval + row) : outcome SlotMessage :=
  match payload with
  | inl _ => Raise (ValueError "slot message must be an object")
  | inr payload =>
      let kind := get payload "t" in
      if is_text kind "h" then
        _ ← raise_if (negb (keys_are payload ["v"; "t"; "g"; "m"]) || negb (is_one (get payload "v")))
              (ValueError "invalid loop heartbeat schema");
        h ← make_heartbeat (get payload "g") (get payload "m");
        Return (Heartbeat h)
      else
        _ ← raise_if (negb (is_text kind "p") ||
                      negb (keys_are payload ["v"; "t"; "s"; "g"; "m"; "a"; "x"; "j"]))
              (ValueError "invalid slot progress schema");
        _ ← raise_if (negb (is_one (get payload "v"))) (ValueError "unsupported slot protocol version");
        j ← decode_job (get payload "j");
        p ← make_progress (get payload "s") (get payload "g") (get payload "m") (get payload "a")
              (get payload "x") j;
        Return (Progress p)
  end.

(** ** Properties *)

Definition text_in_bounds (s : pystr) (maximum : nat) : Prop := s <> [] /\ (length s <= maximum)%nat.
Definition number_ok (v : pyval) : Prop := forall field, finite_number v field = Return tt.
Definition job_ok (j : ActiveJobIdentity) : Prop :=
  0 < job_id j /\ lane j ∈ LANES /\ text_in_bounds (claimed_by j) MAX_ID.

(** The records the constructors accept. *)
Definition message_ok (m : SlotMessage) : Prop :=
  match m with
  | Heartbeat h => text_in_bounds (h_slot_generation h) MAX_ID /\ number_ok (h_monotonic_at h)
  | Progress p =>
      text_in_bounds (p_slot_id p) MAX_ID /\ text_in_bounds (p_slot_generation p) MAX_ID /\
      number_ok (monotonic_at p) /\ (forall v, turn_start p = Some v -> number_ok v) /\
      text_in_bounds (stage p) MAX_STAGE /\
      (turn_start p = None <-> active_job p = None) /\ (forall j, active_job p = Some j -> job_ok j)
  end.

Lemma bounded_text_ok s field maximum :
  text_in_bounds s maximum -> bounded_text (PStr s) field maximum = Return s.
Proof.
  intros [Hne Hlen]. unfold bounded_text. rewrite bool_decide_eq_false_2 by done.
  rewrite (proj2 (Nat.ltb_ge _ _)) by lia. done.
Qed.

Lemma bounded_text_inv v field maximum s :
  bounded_text v field maximum = Return s -> v = PStr s /\ text_in_bounds s maximum.
Proof.
  unfold bounded_text. destruct v as [| | | |t| |]; try done. intros H.
  destruct (_ || _) eqn:E; [done|]. injection H as ->. apply orb_false_iff in E as [E1 E2].
  apply bool_decide_eq_false in E1. apply Nat.ltb_ge in E2. done.
Qed.

Lemma finite_number_inv v field : finite_number v field = Return tt -> number_ok v.
Proof.
  unfold number_ok, finite_number. destruct v; try done.
  - intros H field'. destruct (float_of_Z z) as [f|]; [|done]. cbn [mbind outcome_bind] in *.
    apply raise_if_return in H. by rewrite H.
  - intros H field'. apply raise_if_return in H. by rewrite H.
Qed.

Lemma number_not_none v : number_ok v -> v <> PNone.
Proof. intros H ->. by specialize (H ""%string). Qed.

Lemma make_job_ok j :
  job_ok j -> make_job (PInt (job_id j)) (PStr (lane j)) (PStr (claimed_by j)) = Return j.
Proof.
  intros (Hi & Hl & Hb). unfold make_job. rewrite (proj2 (Z.leb_gt _ 0)) by lia. cbn [raise_if unhashable mbind outcome_bind].
  rewrite bool_decide_eq_true_2 by done. cbn [negb raise_if mbind outcome_bind].
  rewrite bounded_text_ok by done. by destruct j.
Qed.

Lemma decode_encode_job j :
  (forall k, j = Some k -> job_ok k) -> decode_job (encode_job j) = Return j.
Proof.
  intros Hj. destruct j as [k|]; [|done]. unfold decode_job, encode_job.
  assert (item_keys_are [(u "i", PInt (job_id k)); (u "l", PStr (lane k)); (u "b", PStr (claimed_by k))]
            ["i"; "l"; "b"] = true) as -> by reflexivity.
  cbn [negb raise_if mbind outcome_bind].
  change (default PNone (assoc [(u "i", PInt (job_id k)); (u "l", PStr (lane k)); (u "b", PStr (claimed_by k))] (u "i")))
    with (PInt (job_id k)).
  change (default PNone (assoc [(u "i", PInt (job_id k)); (u "l", PStr (lane k)); (u "b", PStr (claimed_by k))] (u "l")))
    with (PStr (lane k)).
  change (default PNone (assoc [(u "i", PInt (job_id k)); (u "l", PStr (lane k)); (u "b", PStr (claimed_by k))] (u "b")))
    with (PStr (claimed_by k)).
  by rewrite make_job_ok by (by apply Hj).
Qed.


Lemma get_encoded (m : row) k v : m !! k = Some v -> get m k = v.
Proof. intros H. unfold get. by rewrite H. Qed.

Ltac field k v := rewrite (get_encoded _ k v) by (cbn [encode_message list_to_map foldr]; by simplify_map_eq).

Lemma decode_encode_heartbeat h :
  message_ok (Heartbeat h) -> decode_message (inr (encode_message (Heartbeat h))) = Return (Heartbeat h).
Proof.
  intros [Hg Hm]. unfold decode_message. field "t"%string (PStr (u "h")). field "v"%string (PInt 1).
  field "g"%string (PStr (h_slot_generation h)). field "m"%string (h_monotonic_at h).
  assert (keys_are (encode_message (Heartbeat h)) ["v"; "t"; "g"; "m"] = true) as -> by (vm_compute; reflexivity).
  cbn [is_text is_one negb orb raise_if mbind outcome_bind Z.eqb]. rewrite bool_decide_eq_true_2 by done.
  unfold make_heartbeat. rewrite bounded_text_ok by done. cbn [mbind outcome_bind]. rewrite (Hm _). by destruct h.
Qed.

Lemma decode_encode_progress p :
  message_ok (Progress p) -> decode_message (inr (encode_message (Progress p))) = Return (Progress p).
Proof.
  intros (Hs & Hg & Hm & Ha & Hx & Hiff & Hj). unfold decode_message.
  field "t"%string (PStr (u "p")). field "v"%string (PInt 1). field "s"%string (PStr (p_slot_id p)).
  field "g"%string (PStr (p_slot_generation p)). field "m"%string (monotonic_at p).
  field "a"%string (default PNone (turn_start p)). field "x"%string (PStr (stage p)).
  field "j"%string (encode_job (active_job p)).
  assert (keys_are (encode_message (Progress p)) ["v"; "t"; "s"; "g"; "m"; "a"; "x"; "j"] = true) as ->
    by (vm_compute; reflexivity).
  assert (is_text (PStr (u "p")) "h" = false) as -> by (vm_compute; reflexivity).
  assert (is_text (PStr (u "p")) "p" = true) as -> by (vm_compute; reflexivity).
  cbn [negb orb raise_if mbind outcome_bind is_one Z.eqb]. rewrite (decode_encode_job _ Hj).
  cbn [Z.eqb Pos.eqb negb raise_if mbind outcome_bind]. unfold make_progress.
  rewrite (bounded_text_ok (p_slot_id p)) by done. cbn [mbind outcome_bind].
  rewrite (bounded_text_ok (p_slot_generation p)) by done. cbn [mbind outcome_bind].
  rewrite (Hm _). cbn [mbind outcome_bind].
  assert (match default PNone (turn_start p) with
          | PNone => Return None
          | _ => _ ← finite_number (default PNone (turn_start p)) "turn_start";
                 Return (Some (default PNone (turn_start p)))
          end = Return (turn_start p)) as ->.
  { destruct (turn_start p) as [v|]; [|done]. cbn [default].
    pose proof (Ha v eq_refl) as Hv. pose proof (number_not_none v Hv). rewrite (Hv _).
    by destruct v. }
  cbn [mbind outcome_bind]. rewrite (bounded_text_ok (stage p)) by done. cbn [mbind outcome_bind].
  assert (Bool.eqb (bool_decide (turn_start p = None)) (bool_decide (active_job p = None)) = true) as ->.
  { apply eqb_true_iff. by apply bool_decide_ext. }
  by destruct p.
Qed.

Lemma make_job_inv i l b j : make_job i l b = Return j -> job_ok j.
Proof.
  unfold make_job. destruct i; try done. intros H. apply bind_return in H as ([] & H1%raise_if_return & H).
  apply bind_return in H as ([] & _ & H). destruct l as [| | | |lane| |]; try done.
  apply bind_return in H as ([] & H2%raise_if_return & H). apply bind_return in H as (owner & Ho & H).
  injection H as <-. bools. apply bounded_text_inv in Ho as [_ Ho]. done.
Qed.

Lemma make_progress_inv s g m a x j p :
  make_progress s g m a x j = Return p -> (forall k, j = Some k -> job_ok k) ->
  message_ok (Progress p) /\ s = PStr (p_slot_id p) /\ g = PStr (p_slot_generation p) /\
  m = monotonic_at p /\ a = default PNone (turn_start p) /\ x = PStr (stage p) /\ j = active_job p.
Proof.
  unfold make_progress. intros H Hj. apply bind_return in H as (s' & Hs%bounded_text_inv & H).
  apply bind_return in H as (g' & Hg%bounded_text_inv & H).
  apply bind_return in H as ([] & Hm & H). apply bind_return in H as (st & Hst & H).
  apply bind_return in H as (x' & Hx%bounded_text_inv & H). apply bind_return in H as ([] & Hb%raise_if_return & H).
  injection H as <-. destruct Hs as [-> Hs], Hg as [-> Hg], Hx as [-> Hx]. cbn [message_ok p_slot_id p_slot_generation
    monotonic_at turn_start stage active_job].
  assert (a = default PNone st /\ forall v, st = Some v -> number_ok v) as [-> Hn].
  { destruct a; try (apply bind_return in Hst as ([] & Hf & [= <-]); split; [done|]; intros v [= <-];
      by eapply finite_number_inv). by injection Hst as <-. }
  apply finite_number_inv in Hm. apply negb_false_iff, eqb_prop in Hb.
  assert (st = None <-> j = None) as Hiff.
  { split; intros E; apply (bool_decide_eq_true_1 _); [rewrite <- Hb|rewrite Hb]; by apply bool_decide_eq_true_2. }
  destruct Hs, Hg, Hx. split; [|done]. split; [done|]. split; [done|]. split; [done|]. split; [exact Hn|].
  split; [done|]. by split.
Qed.

Lemma decode_job_inv v j : decode_job v = Return j -> forall k, j = Some k -> job_ok k.
Proof.
  unfold decode_job. intros H k ->. destruct v; try done. apply bind_return in H as ([] & _ & H).
  apply bind_return in H as (j & Hj & [= <-]). by eapply make_job_inv.
Qed.

Lemma is_text_inv v s : is_text v s = true -> v = PStr (u s).
Proof. unfold is_text. destruct v; try done. intros H. bools. by subst. Qed.

Lemma keys_are_none payload ks k : keys_are payload ks = true -> k ∉ ks -> get payload k = PNone.
Proof.
  unfold keys_are. intros H Hk. bools. unfold get. destruct (payload !! k) as [v|] eqn:E; [|done].
  exfalso. apply Hk. apply (elem_of_list_to_set (C := gset string)). rewrite <- H. by apply elem_of_dom.
Qed.

Lemma heartbeat_fields payload h k :
  get payload "t" = PStr (u "h") -> get payload "g" = PStr (h_slot_generation h) ->
  get payload "m" = h_monotonic_at h -> keys_are payload ["v"; "t"; "g"; "m"] = true ->
  k ∈ ["t"; "s"; "g"; "m"; "a"; "x"] -> get payload k = get (encode_message (Heartbeat h)) k.
Proof.
  intros Ht Hg Hm Hk Hin.
  assert (keys_are (encode_message (Heartbeat h)) ["v"; "t"; "g"; "m"] = true) as He by (vm_compute; reflexivity).
  destruct (decide (k ∈ ["v"; "t"; "g"; "m"])) as [Hy|Hn]; [|by rewrite !(keys_are_none _ _ k Hk), (keys_are_none _ _ k He)].
  repeat (apply elem_of_cons in Hy as [->|Hy]); [| | | |by apply elem_of_nil in Hy].
  - exfalso. revert Hin. apply (bool_decide_unpack _). vm_compute. exact I.
  - rewrite Ht. by field "t"%string (PStr (u "h")).
  - rewrite Hg. by field "g"%string (PStr (h_slot_generation h)).
  - rewrite Hm. by field "m"%string (h_monotonic_at h).
Qed.

Lemma progress_fields payload p k :
  get payload "t" = PStr (u "p") -> get payload "s" = PStr (p_slot_id p) ->
  get payload "g" = PStr (p_slot_generation p) -> get payload "m" = monotonic_at p ->
  get payload "a" = default PNone (turn_start p) -> get payload "x" = PStr (stage p) ->
  k ∈ ["t"; "s"; "g"; "m"; "a"; "x"] -> get payload k = get (encode_message (Progress p)) k.
Proof.
  intros Ht Hs Hg Hm Ha Hx Hin.
  repeat (apply elem_of_cons in Hin as [->|Hin]); [| | | | | |by apply elem_of_nil in Hin].
  - rewrite Ht. by field "t"%string (PStr (u "p")).
  - rewrite Hs. by field "s"%string (PStr (p_slot_id p)).
  - rewrite Hg. by field "g"%string (PStr (p_slot_generation p)).
  - rewrite Hm. by field "m"%string (monotonic_at p).
  - rewrite Ha. by field "a"%string (default PNone (turn_start p)).
  - rewrite Hx. by field "x"%string (PStr (stage p)).
Qed.

(** C40: the slot protocol round-trips and is strict: every valid message decodes to itself; and
    whatever decodes is a valid message (bounded identity texts, a known lane, a positive job id,
    finite clocks, turn start and job set together) whose encoding has the payload's type, slot, generation, clock, turn start and stage. *)
Theorem slot_protocol_roundtrip :
  (forall m, message_ok m -> decode_message (inr (encode_message m)) = Return m) /\
  (forall payload m, decode_message (inr payload) = Return m ->
     message_ok m /\
     forall k, k ∈ ["t"; "s"; "g"; "m"; "a"; "x"] -> get payload k = get (encode_message m) k).
Proof.
  split.
  - intros [p|h] Hok; [by apply decode_encode_progress|by apply decode_encode_heartbeat].
  - intros payload m H. unfold decode_message in H. destruct (is_text (get payload "t") "h") eqn:Et.
    + apply bind_return in H as ([] & Hk%raise_if_return & H). apply bind_return in H as (h & Hh & [= <-]).
      unfold make_heartbeat in Hh. apply bind_return in Hh as (g & [Hg Hgb]%bounded_text_inv & Hh).
      apply bind_return in Hh as ([] & Hm%finite_number_inv & [= <-]). split; [done|]. bools.
      apply is_text_inv in Et. intros k. by apply heartbeat_fields.
    + apply bind_return in H as ([] & Hk%raise_if_return & H). apply bind_return in H as ([] & _ & H).
      apply bind_return in H as (j & Hj & H). apply bind_return in H as (p & Hp & [= <-]).
      apply make_progress_inv in Hp as (Hok & Hs & Hg & Hm & Ha & Hx & _); [|by eapply decode_job_inv].
      split; [done|]. bools. apply is_text_inv in H. intros k. by apply progress_fields.
Qed.

Definition sample_job : ActiveJobIdentity := mkJob 7 (u "chat") (u "w:foreground-0:1").
Definition sample_progress : SlotProgress :=
  mkProgress (u "foreground-0") (u "gen1") (PInt 5) (Some (PInt 3)) (u "provider_round") (Some sample_job).

Lemma sample_job_ok : job_ok sample_job.
Proof.
  split; [reflexivity|]. split; [decided|]. split; [discriminate|]. apply Nat.leb_le. vm_compute. reflexivity.
Qed.

Lemma small_number_ok z : 0 <= z < 2 ^ 53 -> number_ok (PInt z).
Proof.
  intros Hz field. unfold finite_number. rewrite float_of_Z_small by done. cbn [mbind outcome_bind isfinite negb orb fltb].
  pose proof fone_pos. by rewrite (proj2 (Z.ltb_ge _ 0)) by nia.
Qed.

Lemma text_small s maximum : bool_decide (s <> []) && (length s <=? maximum)%nat = true -> text_in_bounds s maximum.
Proof. intros H. apply andb_true_iff in H as [H1 H2]. bools. by apply Nat.leb_le in H2. Qed.

Lemma slot_protocol_roundtrip_witness :
  decode_message (inr (encode_message (Progress sample_progress))) = Return (Progress sample_progress).
Proof.
  apply (proj1 slot_protocol_roundtrip). cbn [message_ok].
  split; [apply text_small; vm_compute; reflexivity|]. split; [apply text_small; vm_compute; reflexivity|].
  split; [apply small_number_ok; split; reflexivity || discriminate|].
  split; [intros v [= <-]; apply small_number_ok; split; reflexivity || discriminate|].
  split; [apply text_small; vm_compute; reflexivity|].
  split; [split; discriminate|]. intros j [= <-]. exact sample_job_ok.
Defined.
End Slot.
