(* ===== verification/Supervisor.v ===== *)
(** * One slot's child process and its supervisor
    ([backend/model_api_runtime/v2/child_supervisor.py])

    The lifecycle of a slot: spawn, progress messages, physical kill, fenced kill and
    restart, graceful stop. Lifecycle operations hold the lifecycle lock, so they are whole
    steps; messages the reader still handles while one is under way are an argument of it.
    What the operating system answers (whether a child dies, whether a call fails) and the
    fresh generation names are arguments too. The world has, beside the supervisor's fields,
    the enclave broker it shares with its siblings, and what is true of the processes: which
    children are alive, with which generation each was started, which generations were
    dropped at the broker. *)

From S2P Require Import Prelude PyValue PyFloat EnclaveBroker SlotProtocol.
Import Broker Slot.
Local Open Scope Z_scope.

Module Supervisor.

(** The fields of [ChildSupervisor]; instants are parent [time.monotonic()] readings. *)
Record sup : Type := mkSup {
  proc : option nat;
  read_conn : bool;
  started_at : option Z;
  startup_complete : bool;
  last_progress_at : option Z;
  last_slot_progress_at : option Z;
  generation : pystr;
  retired_generations : gset pystr;
  snapshot : option SlotProgress;
  turn_progress_at : option Z;
}.

Record world : Type := mkWorld {
  w_sup : sup;
  w_broker : broker;
  live : gset nat;
  spawned : gmap nat pystr;
  dropped : gset pystr;
}.

Definition new_sup : sup := mkSup None false None false None None [] ∅ None None.

(** What a kill and the join after it come to: the child is gone, it is still there, or a call
    raised, with the child gone or not. *)
Inductive kill_answer : Type :=
| Dies
| Survives
| CallFails (died : bool).

Record KillOutcome : Type := mkOutcome { out_active_job : option ActiveJobIdentity; terminated : bool }.

Definition set_live (l : gset nat) (w : world) : world :=
  mkWorld (w_sup w) (w_broker w) l (spawned w) (dropped w).
Definition set_sup (s : sup) (w : world) : world :=
  mkWorld s (w_broker w) (live w) (spawned w) (dropped w).
Definition set_broker (b : broker) (w : world) : world :=
  mkWorld (w_sup w) b (live w) (spawned w) (dropped w).

Definition close_conn (s : sup) : sup :=
  mkSup (proc s) false (started_at s) (startup_complete s) (last_progress_at s) (last_slot_progress_at s)
    (generation s) (retired_generations s) (snapshot s) (turn_progress_at s).

(** A new generation name, without a snapshot. *)
Definition invalidate (p : option nat) (gen : pystr) (ret : gset pystr) (s : sup) : sup :=
  mkSup p (read_conn s) (started_at s) (startup_complete s) (last_progress_at s) (last_slot_progress_at s)
    gen ret None None.

(** The physical effect of an answer on the tracked child. *)
Definition physical (ans : kill_answer) (pid : nat) (l : gset nat) : gset nat :=
  match ans with Dies | CallFails true => l ∖ {[pid]} | _ => l end.

Definition confirms (ans : kill_answer) : bool := match ans with Dies => true | _ => false end.

Definition snapshot_job (s : sup) : option ActiveJobIdentity := snapshot s ≫= active_job.

(** Adding a generation, unless it is the empty name. *)
Definition with_generation (g : pystr) (gs : gset pystr) : gset pystr :=
  if bool_decide (g = []) then gs else {[g]} ∪ gs.

(** ** Observations *)

(** An age in clock units; [None] is [math.inf]. *)
Abbreviation age := (option Z).
Definition age_since (now : Z) (t : option Z) : age := (fun t => Z.max 0 (now - t)) <$> t.

Record liveness : Type := mkLiveness {
  alive : bool;
  lv_startup_complete : bool;
  startup_age_sec : age;
  event_loop_heartbeat_age_sec : age;
  last_slot_progress_age_sec : age;
  active_turn_count : Z;
  current_turn_age_sec : Z;
  current_turn_stall_age_sec : Z;
}.

(** [poll_liveness]; [turn_age] is the parent clock minus the child's [turn_start]. *)
Definition poll_liveness (now : Z) (turn_age : SlotProgress -> Z) (w : world) : liveness :=
  let s := w_sup w in
  mkLiveness
    (match proc s with Some pid => bool_decide (pid ∈ live w) | None => false end)
    (startup_complete s) (age_since now (started_at s)) (age_since now (last_progress_at s))
    (age_since now (last_slot_progress_at s))
    (if snapshot_job s then 1 else 0)
    (match snapshot s with
     | Some p => match turn_start p with Some _ => Z.max 0 (turn_age p) | None => 0 end
     | None => 0
     end)
    (match turn_progress_at s with Some t => Z.max 0 (now - t) | None => 0 end).

Inductive drain_state : Type := drain_unknown | drain_busy | drain_idle.

(** [drain_witness]'s state and progress clock. *)
Definition drain_witness (own_slot : pystr) (w : world) : drain_state * option pyval :=
  let s := w_sup w in
  match proc s, snapshot s with
  | Some pid, Some p =>
      if bool_decide (pid ∈ live w) && bool_decide (p_slot_id p = own_slot)
         && bool_decide (p_slot_generation p = generation s)
      then (match active_job p with
            | Some _ => drain_busy
            | None => if bool_decide (stage p = u "idle") then drain_idle else drain_unknown
            end, Some (monotonic_at p))
      else (drain_unknown, None)
  | _, _ => (drain_unknown, None)
  end.

Definition child_pid (w : world) : option nat :=
  match proc (w_sup w) with
  | Some pid => if bool_decide (pid ∈ live w) then Some pid else None
  | None => None
  end.

Section Supervisor.
Context (clock : nat -> Z) (repr : pyval -> pystr).
(** [self._pool] and [self._slot_id]. *)
Context (own_pool : pool) (own_slot : pystr).

(** [_drop_broker_generations] *)
Definition drop_generations (gs : gset pystr) (w : world) : world :=
  mkWorld (w_sup w) (foldr (fun g b => (drop_generation clock g b).1) (w_broker w) (elements gs))
    (live w) (spawned w) (gs ∪ dropped w).

(** ** Messages *)

Definition own_request (s : sup) (r : EnclaveRequest) : bool :=
  bool_decide (slot_generation r = generation s) && bool_decide (req_pool r = own_pool)
  && bool_decide (slot_id r = own_slot).

(** What a decoded progress message does to the fields. *)
Definition note_message (now : Z) (m : SlotMessage) (s : sup) : sup :=
  match m with
  | Heartbeat h =>
      if bool_decide (h_slot_generation h = generation s)
      then mkSup (proc s) (read_conn s) (started_at s) true (Some now) (last_slot_progress_at s)
             (generation s) (retired_generations s) (snapshot s) (turn_progress_at s)
      else s
  | Progress p =>
      if bool_decide (p_slot_generation p = generation s)
      then mkSup (proc s) (read_conn s) (started_at s) true (Some now) (Some now)
             (generation s) (retired_generations s) (Some p)
             (match active_job p with None => None | Some _ => Some now end)
      else s
  end.

(** [_handle_message]: the broker's decoder may raise, which ends the reader. *)
Definition handle_message (now : Z) (msg : pyval + row) (w : world) : outcome world :=
  bm ← decode_child_message repr msg;
  match bm with
  | Some (MsgAcquire r) =>
      Return (if own_request (w_sup w) r then set_broker (request clock r (w_broker w)).1.1 w else w)
  | Some (MsgRelease rid gen) =>
      Return (if bool_decide (gen = generation (w_sup w))
              then set_broker (release clock rid gen (w_broker w)).1 w else w)
  | Some (MsgCancel rid gen) =>
      Return (if bool_decide (gen = generation (w_sup w))
              then set_broker (cancel clock rid gen (w_broker w)).1.1 w else w)
  | None =>
      match decode_message msg with
      | Return m => Return (set_sup (note_message now m (w_sup w)) w)
      | Raise (TypeError _) | Raise (ValueError _) => Return w
      | Raise e => Raise e
      end
  end.

(** The messages a reader handles one after the other; it ends at the first that raises. *)
Fixpoint handle_messages (msgs : list (Z * (pyval + row))) (w : world) : world :=
  match msgs with
  | [] => w
  | (now, msg) :: rest =>
      match handle_message now msg w with
      | Return w' => handle_messages rest w'
      | Raise _ => w
      end
  end.

(** The [finally] of [_drain_loop]. *)
Definition reader_end (w : world) : world :=
  match proc (w_sup w) with
  | Some pid => if bool_decide (generation (w_sup w) = []) || bool_decide (pid ∈ live w) then w
                else drop_generations {[generation (w_sup w)]} w
  | None => w
  end.

(** [grant_enclave]: whether the grant is written to this child's pipe. *)
Definition grant_enclave (r : EnclaveRequest) (s : sup) : bool := own_request s r && read_conn s.

(** ** Lifecycle *)

(** [_kill_locked]. The owner and the generation are read before the reader stops. *)
Definition kill_locked (msgs : list (Z * (pyval + row))) (ans : kill_answer) (fresh : pystr) (w : world)
    : world * KillOutcome :=
  let active := snapshot_job (w_sup w) in
  let dead := generation (w_sup w) in
  let w := handle_messages msgs w in
  let '(w, done_) := match proc (w_sup w) with
                     | None => (w, true)
                     | Some pid => (set_live (physical ans pid (live w)) w, confirms ans)
                     end in
  let w := set_sup (close_conn (w_sup w)) w in
  (if done_
   then let gs := with_generation dead (retired_generations (w_sup w)) in
        drop_generations gs (set_sup (invalidate None fresh ∅ (w_sup w)) w)
   else w, mkOutcome active done_).

(** [kill]'s result: the owner, only when the child is gone. *)
Definition kill_result (o : KillOutcome) : option ActiveJobIdentity :=
  if terminated o then out_active_job o else None.

(** [_kill_if_snapshot_locked]: [killed] is whether the signal call returns; the reader may
    handle [msgs] after the generation is invalidated. *)
Definition kill_if_snapshot_locked (expected : SlotProgress) (killed : bool) (msgs : list (Z * (pyval + row))) (ans : kill_answer) (fresh : pystr) (w : world)
    : world * bool :=
  let s := w_sup w in
  match snapshot s with
  | Some p =>
      if negb (progress_eqb p expected) then (w, false) else
      if negb killed && bool_decide (is_Some (proc s)) then (w, false) else
      let dead := generation s in
      let w := handle_messages msgs (set_sup (invalidate (proc s) fresh (retired_generations s) s) w) in
      let '(w, done_) := match proc (w_sup w) with
                         | None => (w, true)
                         | Some pid => (set_live (physical ans pid (live w)) w, confirms ans)
                         end in
      let s := close_conn (w_sup w) in
      if done_
      then (drop_generations (with_generation dead (retired_generations s))
              (set_sup (mkSup None false (started_at s) (startup_complete s) (last_progress_at s)
                          (last_slot_progress_at s) (generation s) ∅ (snapshot s) (turn_progress_at s)) w), true)
      else (set_sup (mkSup (proc s) false (started_at s) (startup_complete s) (last_progress_at s)
                       (last_slot_progress_at s) (generation s) (with_generation dead (retired_generations s))
                       (snapshot s) (turn_progress_at s)) w, false)
  | None => (w, false)
  end.

(** A new process with its pipe, clocks and generation. *)
Definition spawn (pid : nat) (gen : pystr) (now : Z) (w : world) : world :=
  let s := w_sup w in
  mkWorld (mkSup (Some pid) true (Some now) false (Some now) (Some now) gen (retired_generations s) None None)
    (w_broker w) ({[pid]} ∪ live w) (<[pid := gen]> (spawned w)) (dropped w).

(** [_start_locked]: a live child is kept, an exited one is reaped first. *)
Definition start_locked (pid : nat) (gen reap_gen : pystr) (now : Z) (w : world) : world :=
  match proc (w_sup w) with
  | Some old => if bool_decide (old ∈ live w) then w
                else spawn pid gen now (kill_locked [] Dies reap_gen w).1
  | None => spawn pid gen now w
  end.

Definition restart_if_snapshot (expected : SlotProgress) (killed : bool) (msgs : list (Z * (pyval + row))) (ans : kill_answer) (fresh reap_gen gen : pystr) (pid : nat)
    (now : Z) (w : world) : world * bool :=
  let '(w1, ok) := kill_if_snapshot_locked expected killed msgs ans fresh w in
  if ok then (start_locked pid gen reap_gen now w1, true) else (w1, false).

(** [_stop_locked] *)
Definition stop_locked (msgs : list (Z * (pyval + row))) (ans : kill_answer) (fresh : pystr) (w : world) : world :=
  let dead := generation (w_sup w) in
  let w := handle_messages msgs w in
  let '(w, done_) := match proc (w_sup w) with
                     | None => (w, true)
                     | Some pid => (set_live (physical ans pid (live w)) w, confirms ans)
                     end in
  let s := close_conn (w_sup w) in
  let gs := with_generation dead (retired_generations s) in
  if done_ then drop_generations gs (set_sup (invalidate None fresh ∅ s) w)
  else set_sup (invalidate (proc s) fresh gs s) w.

(** A child may exit at any time. *)
Definition child_exit (pid : nat) (w : world) : world := set_live (live w ∖ {[pid]}) w.

End Supervisor.
End Supervisor.
