(* ===== verification/SupervisorSafety.v ===== *)
(** * Safety of a slot's lifecycle

    Over every sequence of lifecycle operations, messages and child exits, whatever the
    operating system answers: a slot has at most one live child and it is the tracked one;
    the broker drops a generation only when its child is gone, and does drop it; a snapshot
    belongs to the current generation; permits of a live child survive its supervisor's
    operations. *)

From S2P Require Import Prelude PyValue PyFloat EnclaveBroker SlotProtocol Supervisor.
Import Broker Slot Supervisor.
Local Open Scope Z_scope.

Module SupSafety.

(** The names in use: [uuid4] gives another one. *)
Definition used (w : world) : gset pystr :=
  {[ [] ]} ∪ {[generation (w_sup w)]} ∪ retired_generations (w_sup w) ∪ dropped w
  ∪ list_to_set (map snd (map_to_list (spawned w))).

Definition fresh (g : pystr) (w : world) : Prop := g ∉ used w.

(** A child survives or fails a call only while it is alive. *)
Definition answer_ok (ans : kill_answer) (w : world) : Prop :=
  match ans with
  | Dies => True
  | _ => forall pid, proc (w_sup w) = Some pid -> pid ∈ live w
  end.

Record inv (w : world) : Prop := mkInv {
  inv_live : forall pid, pid ∈ live w -> proc (w_sup w) = Some pid;
  inv_tracked : forall pid g, proc (w_sup w) = Some pid -> spawned w !! pid = Some g ->
    g ∈ {[generation (w_sup w)]} ∪ retired_generations (w_sup w) ∪ dropped w;
  inv_lost : forall pid g, spawned w !! pid = Some g -> proc (w_sup w) <> Some pid -> g ∈ dropped w;
  inv_dropped : forall pid g, pid ∈ live w -> spawned w !! pid = Some g -> g ∉ dropped w;
  inv_snapshot : forall p, snapshot (w_sup w) = Some p -> p_slot_generation p = generation (w_sup w);
  inv_known : forall pid, proc (w_sup w) = Some pid -> is_Some (spawned w !! pid);
  inv_named : forall pid g, spawned w !! pid = Some g -> g <> [];
}.

(** Two worlds with the same processes and lifecycle fields. *)
Definition same_life (w w' : world) : Prop :=
  proc (w_sup w') = proc (w_sup w) /\ generation (w_sup w') = generation (w_sup w) /\
  retired_generations (w_sup w') = retired_generations (w_sup w) /\
  live w' = live w /\ spawned w' = spawned w /\ dropped w' = dropped w.

Lemma inv_same w w' :
  inv w -> same_life w w' ->
  (forall p, snapshot (w_sup w') = Some p -> p_slot_generation p = generation (w_sup w)) -> inv w'.
Proof.
  intros Hi (Hp & Hg & Hr & Hl & Hs & Hd) Hsnap.
  split; rewrite ?Hp, ?Hg, ?Hr, ?Hl, ?Hs, ?Hd; try apply Hi. done.
Qed.


Lemma elem_with_generation g h gs : g <> [] -> (g ∈ with_generation h gs <-> g = h \/ g ∈ gs).
Proof. intros Hg. unfold with_generation. case_bool_decide; set_solver. Qed.

(** The live children are the tracked one, or none. *)
Lemma live_empty w :
  (forall pid, pid ∈ live w -> proc (w_sup w) = Some pid) ->
  (forall pid, proc (w_sup w) = Some pid -> pid ∉ live w) -> live w = ∅.
Proof. intros H1 H2. apply set_eq. intros pid. split; [|set_solver]. intros H. by destruct (H2 _ (H1 _ H)). Qed.

(** After a confirmed end the slot has no child, and every generation of it is dropped. *)
Lemma inv_terminated w w' dead ret :
  (forall pid g, proc (w_sup w) = Some pid -> spawned w !! pid = Some g -> g ∈ {[dead]} ∪ ret ∪ dropped w) ->
  (forall pid g, spawned w !! pid = Some g -> proc (w_sup w) <> Some pid -> g ∈ dropped w) ->
  (forall pid g, spawned w !! pid = Some g -> g <> []) ->
  live w' = ∅ -> spawned w' = spawned w -> dropped w' = with_generation dead ret ∪ dropped w ->
  proc (w_sup w') = None ->
  (forall p, snapshot (w_sup w') = Some p -> p_slot_generation p = generation (w_sup w')) -> inv w'.
Proof.
  intros Ht Hl Hn El Es Ed Ep Hsnap. split; rewrite ?El, ?Es, ?Ed, ?Ep; try done.
  intros pid g Hg _. apply elem_of_union. destruct (decide (proc (w_sup w) = Some pid)) as [Hp|Hp].
  - specialize (Ht _ _ Hp Hg). rewrite elem_with_generation by (by eapply Hn). set_solver.
  - right. by eapply Hl.
Qed.

(** A child that goes away changes nothing else. *)
Lemma inv_shrink w l : inv w -> l ⊆ live w -> inv (set_live l w).
Proof.
  intros Hi Hl. split; cbn; try apply Hi.
  - intros pid Hp. apply (inv_live _ Hi). set_solver.
  - intros pid g Hp. apply (inv_dropped _ Hi). set_solver.
Qed.

Lemma physical_subset ans pid l : physical ans pid l ⊆ l.
Proof. destruct ans as [| |[]]; cbn; set_solver. Qed.

(** The old generation is retired under a new name while the child is not confirmed gone. *)
Lemma inv_retired w w' dead ret :
  (forall pid, pid ∈ live w' -> proc (w_sup w') = Some pid) ->
  (forall pid g, proc (w_sup w) = Some pid -> spawned w !! pid = Some g -> g ∈ {[dead]} ∪ ret ∪ dropped w) ->
  (forall pid g, spawned w !! pid = Some g -> proc (w_sup w) <> Some pid -> g ∈ dropped w) ->
  (forall pid g, spawned w !! pid = Some g -> g <> []) ->
  (forall pid g, pid ∈ live w' -> spawned w !! pid = Some g -> g ∉ dropped w) ->
  (forall pid, proc (w_sup w) = Some pid -> is_Some (spawned w !! pid)) ->
  spawned w' = spawned w -> dropped w' = dropped w -> proc (w_sup w') = proc (w_sup w) ->
  retired_generations (w_sup w') = with_generation dead ret ->
  (forall p, snapshot (w_sup w') = Some p -> p_slot_generation p = generation (w_sup w')) -> inv w'.
Proof.
  intros Hlive Ht Hl Hn Hd Hk Es Ed Ep Er Hsnap. split; rewrite ?Es, ?Ed; rewrite ?Ep in *; try done.
  intros pid g Hp Hg. rewrite Er. specialize (Ht _ _ Hp Hg). apply elem_of_union.
  apply elem_of_union in Ht as [Ht|Ht]; [left|by right]. apply elem_of_union. right.
  rewrite elem_with_generation by (by eapply Hn). set_solver.
Qed.

(** What the answer leaves of the live children. *)
Lemma confirmed_live w ans :
  (forall pid, pid ∈ live w -> proc (w_sup w) = Some pid) ->
  (match proc (w_sup w) with None => true | Some _ => confirms ans end) = true ->
  (match proc (w_sup w) with None => live w | Some pid => physical ans pid (live w) end) = ∅.
Proof.
  intros Hl Hc. destruct (proc (w_sup w)) as [pid|] eqn:Ep.
  - destruct ans; [|done|done]. cbn. apply set_eq. intros q. split; [|set_solver]. intros [Hq Hne]%elem_of_difference.
    specialize (Hl q Hq). injection Hl as ->. set_solver.
  - apply live_empty; [by rewrite Ep|by rewrite Ep].
Qed.

(** A new child on a slot without one. *)
Lemma spawn_inv pid gen now w :
  inv w -> proc (w_sup w) = None -> spawned w !! pid = None -> gen <> [] -> gen ∉ dropped w ->
  inv (spawn pid gen now w).
Proof.
  intros Hi Hp Hpid Hne Hgd.
  assert (live w = ∅) as Hl by (apply live_empty; [apply Hi|by rewrite Hp]).
  split; cbn; rewrite ?Hl; try done.
  - intros q Hq. f_equal. set_solver.
  - intros q g [= <-]. rewrite lookup_insert_eq. intros [= <-]. set_solver.
  - intros q g Hq Hneq. rewrite lookup_insert_ne in Hq by congruence. apply (inv_lost _ Hi q g Hq). by rewrite Hp.
  - intros q g Hq. assert (q = pid) as -> by set_solver. rewrite lookup_insert_eq. by intros [= <-].
  - intros q [= <-]. rewrite lookup_insert_eq. by eexists.
  - intros q g Hq. apply lookup_insert_Some in Hq as [[_ <-]|[_ Hq]]; [done|]. by eapply Hi.
Qed.

Section Safety.
Context (clock : nat -> Z) (repr : pyval -> pystr) (own_pool : pool) (own_slot : pystr).

Abbreviation kill_locked := (Supervisor.kill_locked clock repr own_pool own_slot).
Abbreviation kill_if_snapshot_locked := (Supervisor.kill_if_snapshot_locked clock repr own_pool own_slot).
Abbreviation start_locked := (Supervisor.start_locked clock repr own_pool own_slot).
Abbreviation stop_locked := (Supervisor.stop_locked clock repr own_pool own_slot).
Abbreviation handle_messages := (Supervisor.handle_messages clock repr own_pool own_slot).

(** Lifecycle operations, in any order. *)
Inductive lifecycle : world -> world -> Prop :=
| life_start w pid gen reap_gen now :
    spawned w !! pid = None -> fresh gen w -> fresh reap_gen w -> gen <> reap_gen ->
    lifecycle w (start_locked pid gen reap_gen now w)
| life_kill w msgs ans g :
    fresh g w -> answer_ok ans w -> lifecycle w (kill_locked msgs ans g w).1
| life_kill_if w expected killed msgs ans g :
    fresh g w -> answer_ok ans w ->
    lifecycle w (kill_if_snapshot_locked expected killed msgs ans g w).1
| life_stop w msgs ans g :
    fresh g w -> answer_ok ans w -> lifecycle w (stop_locked msgs ans g w)
| life_reader_end w : lifecycle w (reader_end clock w)
| life_exit w pid : lifecycle w (child_exit pid w).

Inductive step : world -> world -> Prop :=
| step_life w w' : lifecycle w w' -> step w w'
| step_message w w' now msg :
    handle_message clock repr own_pool own_slot now msg w = Return w' -> step w w'
| step_siblings w b : step w (set_broker b w).

Definition new_world (b : broker) : world := mkWorld new_sup b ∅ ∅ ∅.
Definition reachable (w : world) : Prop := exists b, rtc step (new_world b) w.

Lemma handle_message_same now msg w w' :
  handle_message clock repr own_pool own_slot now msg w = Return w' ->
  same_life w w' /\
  ((forall p, snapshot (w_sup w) = Some p -> p_slot_generation p = generation (w_sup w)) ->
   forall p, snapshot (w_sup w') = Some p -> p_slot_generation p = generation (w_sup w)).
Proof using Type.
  unfold handle_message. intros H. apply bind_return in H as ([[r|rid gen|rid gen]|] & _ & H).
  - injection H as <-. destruct (own_request _ _ _ _); by split.
  - injection H as <-. case_bool_decide; by split.
  - injection H as <-. case_bool_decide; by split.
  - destruct (decode_message msg) as [m|e].
    + injection H as <-. unfold note_message. destruct m as [p|h].
      * case_bool_decide as E; [|by split]. split; [done|]. cbn. by intros _ q [= <-].
      * case_bool_decide as E; by split.
    + destruct e; try done; injection H as <-; by split.
Qed.

Lemma handle_messages_same msgs w :
  same_life w (handle_messages msgs w) /\
  ((forall p, snapshot (w_sup w) = Some p -> p_slot_generation p = generation (w_sup w)) ->
   forall p, snapshot (w_sup (handle_messages msgs w)) = Some p -> p_slot_generation p = generation (w_sup w)).
Proof using Type.
  revert w. induction msgs as [|[now msg] msgs IH]; intros w; cbn [Supervisor.handle_messages]; [by split|].
  destruct (handle_message _ _ _ _ now msg w) as [w1|] eqn:E; [|by split].
  apply handle_message_same in E as [H1 H2]. destruct (IH w1) as [H3 H4]. split.
  - unfold same_life in *. destruct H1 as (-> & -> & -> & -> & -> & ->) in H3. done.
  - intros Hs. destruct H1 as (_ & Hg & _). rewrite Hg in *. apply H4. by apply H2.
Qed.

Lemma kill_locked_inv msgs ans g w : inv w -> inv (kill_locked msgs ans g w).1.
Proof using Type.
  intros Hi. unfold Supervisor.kill_locked. destruct (handle_messages_same msgs w) as [Hsame Hsn].
  pose proof (inv_same _ _ Hi Hsame (Hsn (inv_snapshot _ Hi))) as Hi1.
  destruct Hsame as (_ & Hgen & _). rewrite <- Hgen. set (w1 := handle_messages msgs w) in *. clearbody w1.
  pose proof (confirmed_live w1 ans (inv_live _ Hi1)) as Hc. clear Hi Hgen Hsn.
  destruct (proc (w_sup w1)) as [pid|] eqn:Ep.
  - cbn zeta iota. destruct (confirms ans) eqn:Ec; cbn [fst].
    + eapply (inv_terminated w1 _ (generation (w_sup w1)) (retired_generations (w_sup w1))); try done; try apply Hi1.
      cbn. by apply Hc.
    + apply (inv_same (set_live (physical ans pid (live w1)) w1)); [apply inv_shrink; [done|apply physical_subset]| |].
      * done.
      * cbn. apply Hi1.
  - cbn zeta iota. cbn [fst].
    eapply (inv_terminated w1 _ (generation (w_sup w1)) (retired_generations (w_sup w1))); try done; try apply Hi1.
    cbn. by apply Hc.
Qed.

Lemma stop_locked_inv msgs ans g w : inv w -> inv (stop_locked msgs ans g w).
Proof using Type.
  intros Hi. unfold Supervisor.stop_locked. destruct (handle_messages_same msgs w) as [Hsame Hsn].
  pose proof (inv_same _ _ Hi Hsame (Hsn (inv_snapshot _ Hi))) as Hi1.
  destruct Hsame as (_ & Hgen & _). rewrite <- Hgen. set (w1 := handle_messages msgs w) in *. clearbody w1.
  pose proof (confirmed_live w1 ans (inv_live _ Hi1)) as Hc. clear Hi Hgen Hsn.
  destruct (proc (w_sup w1)) as [pid|] eqn:Ep.
  - cbn zeta iota. destruct (confirms ans) eqn:Ec.
    + eapply (inv_terminated w1 _ (generation (w_sup w1)) (retired_generations (w_sup w1))); try done; try apply Hi1.
      cbn. by apply Hc.
    + eapply (inv_retired w1 _ (generation (w_sup w1)) (retired_generations (w_sup w1))); try done; try apply Hi1.
      * cbn. intros q Hq. apply (inv_live _ Hi1). by eapply physical_subset.
      * cbn. intros q g' Hq. apply (inv_dropped _ Hi1). by eapply physical_subset.
  - cbn zeta iota.
    eapply (inv_terminated w1 _ (generation (w_sup w1)) (retired_generations (w_sup w1))); try done; try apply Hi1.
    cbn. by apply Hc.
Qed.

Lemma kill_if_snapshot_inv expected killed msgs ans g w :
  inv w -> inv (kill_if_snapshot_locked expected killed msgs ans g w).1.
Proof using Type.
  intros Hi. unfold Supervisor.kill_if_snapshot_locked.
  destruct (snapshot (w_sup w)) as [p|] eqn:Esn; [|done].
  destruct (negb (progress_eqb p expected)); [done|]. destruct (negb killed && _); [done|].
  set (w0 := set_sup (invalidate (proc (w_sup w)) g (retired_generations (w_sup w)) (w_sup w)) w).
  destruct (handle_messages_same msgs w0) as [(Hp & Hg & Hr & Hl & Hs & Hd) Hsn].
  specialize (Hsn ltac:(done)). rewrite <- Hg in Hsn.
  set (w1 := handle_messages msgs w0) in *. clearbody w1. cbn in Hp, Hg, Hr, Hl, Hs, Hd.
  assert (forall pid, pid ∈ live w1 -> proc (w_sup w1) = Some pid) as Hlive
    by (rewrite Hl, Hp; apply Hi).
  assert (forall pid q, proc (w_sup w1) = Some pid -> spawned w1 !! pid = Some q ->
    q ∈ {[generation (w_sup w)]} ∪ retired_generations (w_sup w1) ∪ dropped w1) as Htr
    by (rewrite Hp, Hs, Hr, Hd; apply Hi).
  assert (forall pid q, spawned w1 !! pid = Some q -> proc (w_sup w1) <> Some pid -> q ∈ dropped w1) as Hlost
    by (rewrite Hp, Hs, Hd; apply Hi).
  assert (forall pid q, spawned w1 !! pid = Some q -> q <> []) as Hnam by (rewrite Hs; apply Hi).
  pose proof (confirmed_live w1 ans Hlive) as Hc.
  destruct (proc (w_sup w1)) as [pid|] eqn:Ep; cbn zeta iota.
  - destruct (confirms ans) eqn:Ec; cbn [fst].
    + eapply (inv_terminated w1 _ (generation (w_sup w)) (retired_generations (w_sup w1)));
        try done; cbn; rewrite ?Ep; try done. by apply Hc.
    + eapply (inv_retired w1 _ (generation (w_sup w)) (retired_generations (w_sup w1)));
        try done; cbn; rewrite ?Ep; try done.
      * intros q Hq. apply Hlive. by eapply physical_subset.
      * intros q q' Hq. rewrite Hs, Hd. apply Hi. rewrite <- Hl. by eapply physical_subset.
      * intros q [= <-]. rewrite Hs. apply (inv_known _ Hi). by rewrite <- Hp.
  - cbn [fst]. eapply (inv_terminated w1 _ (generation (w_sup w)) (retired_generations (w_sup w1)));
      try done; cbn; rewrite ?Ep; try done. by apply Hc.
Qed.

Lemma start_locked_inv pid gen reap_gen now w :
  inv w -> spawned w !! pid = None -> fresh gen w -> inv (start_locked pid gen reap_gen now w).
Proof using Type.
  intros Hi Hpid Hf. assert (gen <> [] /\ gen <> generation (w_sup w) /\
    gen ∉ retired_generations (w_sup w) /\ gen ∉ dropped w) as (Hne & Hg & Hr & Hd).
  { unfold fresh, used in Hf. rewrite !not_elem_of_union, !not_elem_of_singleton in Hf. tauto. }
  unfold Supervisor.start_locked. destruct (proc (w_sup w)) as [old|] eqn:Ep; [|by apply spawn_inv].
  case_bool_decide as Hold; [done|].
  apply spawn_inv; [by apply kill_locked_inv| | |done|];
    unfold Supervisor.kill_locked; cbn; rewrite Ep; cbn; try done.
  rewrite not_elem_of_union, elem_with_generation by done. tauto.
Qed.

Lemma reader_end_inv w : inv w -> inv (reader_end clock w).
Proof using Type.
  intros Hi. unfold reader_end. destruct (proc (w_sup w)) as [pid|] eqn:Ep; [|done].
  destruct (_ || _) eqn:E; [done|]. bools.
  assert (live w = ∅) as Hl by (apply live_empty; [apply Hi|rewrite Ep; by intros q [= <-]]).
  split; cbn; rewrite ?Hl; try apply Hi.
  - intros q Hq. by apply elem_of_empty in Hq.
  - intros q g Hq Hg. pose proof (inv_tracked _ Hi q g Hq Hg) as Ht.
    apply elem_of_union in Ht as [Ht|Ht]; apply elem_of_union; [by left|right; apply elem_of_union; by right].
  - intros q g Hg Hq. apply elem_of_union. right. by eapply inv_lost.
  - intros q g Hq. by apply elem_of_empty in Hq.
Qed.

Lemma lifecycle_inv w w' : inv w -> lifecycle w w' -> inv w'.
Proof using Type.
  intros Hi Hs. destruct Hs.
  - by apply start_locked_inv.
  - by apply kill_locked_inv.
  - by apply kill_if_snapshot_inv.
  - by apply stop_locked_inv.
  - by apply reader_end_inv.
  - apply inv_shrink; [done|]. apply subseteq_difference_l. done.
Qed.

Lemma slot_step_inv w w' : inv w -> step w w' -> inv w'.
Proof using Type.
  intros Hi Hs. destruct Hs as [w w' Hl|w w' now msg Hm|w b].
  - by eapply lifecycle_inv.
  - apply handle_message_same in Hm as [Hsame Hsn]. eapply inv_same; [done..|]. apply Hsn, Hi.
  - eapply inv_same; [done|done|]. apply Hi.
Qed.

Lemma slot_reachable_inv w : reachable w -> inv w.
Proof using Type.
  intros [b Hr]. assert (inv (new_world b)) as H0 by (by split).
  induction Hr as [|w1 w2 w3 Hs _ IH]; [done|]. apply IH. by eapply slot_step_inv.
Qed.

(** C9: over any sequence of starts, kills, fenced kills, stops, messages and exits of children,
    whatever the operating system answers, a slot never has two live children and never loses track
    of one: a live child is the tracked process, and the broker has not dropped its generation;
    a child the supervisor no longer tracks is dead and its generation has been dropped, so its
    permits are free; and the snapshot used for recovery is of the current generation. *)
Theorem slot_lifecycle_safe w :
  reachable w ->
  (forall pid, pid ∈ live w -> proc (w_sup w) = Some pid) /\
  (forall pid g, pid ∈ live w -> spawned w !! pid = Some g -> g ∉ dropped w) /\
  (forall pid g, spawned w !! pid = Some g -> proc (w_sup w) <> Some pid -> pid ∉ live w /\ g ∈ dropped w) /\
  (forall p, snapshot (w_sup w) = Some p -> p_slot_generation p = generation (w_sup w)).
Proof using Type.
  intros Hr. apply slot_reachable_inv in Hr as Hi. split; [apply Hi|]. split; [apply Hi|]. split; [|apply Hi].
  intros pid g Hg Hp. split; [|by eapply inv_lost]. intros Hl. by apply Hp, Hi.
Qed.
End Safety.

(** ** One slot at work *)

Definition ex_world : world := new_world ex_new.
Definition started_world : world :=
  start_locked ex_clock (fun _ => []) foreground (u "foreground-0") 1 (u "gen1") (u "gen0") 0 ex_world.

Definition busy_progress : SlotProgress :=
  mkProgress (u "foreground-0") (u "gen1") (PInt 5) (Some (PInt 3)) (u "provider_round")
    (Some (mkJob 2 (u "chat") (u "w:foreground-0:1"))).

Definition busy_message : pyval + row := inr (encode_message (Progress busy_progress)).

Definition busy_world : world :=
  handle_messages ex_clock (fun _ => []) foreground (u "foreground-0") [(6, busy_message)] started_world.

Lemma started_world_reachable : reachable ex_clock (fun _ => []) foreground (u "foreground-0") started_world.
Proof.
  exists ex_new. apply rtc_once, step_life. apply life_start; [reflexivity|decided|decided|].
  apply (bool_decide_eq_true_1 (u "gen1" <> u "gen0")). vm_compute. reflexivity.
Qed.

Lemma busy_world_reachable : reachable ex_clock (fun _ => []) foreground (u "foreground-0") busy_world.
Proof.
  destruct started_world_reachable as [b Hb]. exists b. eapply rtc_r; [exact Hb|].
  unfold busy_world, handle_messages.
  destruct (handle_message _ _ _ _ 6 busy_message started_world) as [w|e] eqn:E; [by eapply step_message|].
  exfalso. apply (f_equal (fun o => match o with Return _ => true | Raise _ => false end)) in E.
  vm_compute in E. discriminate E.
Qed.

Lemma slot_lifecycle_safe_witness :
  live busy_world = {[1%nat]} /\ (1%nat ∈ live busy_world -> proc (w_sup busy_world) = Some 1%nat).
Proof.
  split; [vm_compute; reflexivity|].
  exact (proj1 (slot_lifecycle_safe ex_clock (fun _ => []) foreground (u "foreground-0") busy_world
    busy_world_reachable) 1%nat).
Defined.

(** A permit request for a pool that does not exist. *)
Definition bad_acquire : row :=
  {["v" := PInt 1; "t" := PStr (u "enclave_acquire"); "request_id" := PStr (u "r"); "pool" := PStr (u "gpu");
    "slot_id" := PStr (u "foreground-0"); "slot_generation" := PStr (u "gen1")]}.

(** One malformed permit request ends the reader: the broker's decoder raises outside the guard
    around the progress decoder, and the well-formed progress after it is never seen. *)
Lemma malformed_request_ends_reader :
  (exists e, handle_message ex_clock (fun _ => []) foreground (u "foreground-0") 5 (inr bad_acquire) started_world
             = Raise e) /\
  snapshot_job (w_sup busy_world) = Some (mkJob 2 (u "chat") (u "w:foreground-0:1")) /\
  snapshot_job (w_sup (handle_messages ex_clock (fun _ => []) foreground (u "foreground-0")
    [(5, inr bad_acquire); (6, busy_message)] started_world)) = None.
Proof. split; [eexists; vm_compute; reflexivity|]. split; vm_compute; reflexivity. Qed.
End SupSafety.
