(* ===== verification/Watchdog.v ===== *)
(** * The slot watchdog and claim recovery
    ([backend/model_api_runtime/v2/watchdog.py], [claim_recovery.py])

    When a slot's child must be killed, what the parent does then (confirm the kill, recover
    the exact claim, start the replacement), and the bounded queue that retries a recovery
    which failed. The database is seen through [ClaimStore], the promise of the job queue that
    a recovery releases the claim it names; [WatchdogSafety] discharges it with the queue's own
    theorems. *)

From S2P Require Import Prelude PyValue PyFloat EnclaveBroker SlotProtocol Supervisor.
Import Broker Slot Supervisor.
Local Open Scope Z_scope.

Module Watchdog.

(** ** The decision *)

(** The keys of the liveness dictionary; [None] is an absent key. *)
Record live_dict : Type := mkLive {
  d_alive : bool;
  d_startup_complete : option bool;
  d_startup_age : option age;
  d_event_loop_heartbeat_age : option age;
  d_last_slot_progress_age : option age;
  d_last_progress_age : option age;
  d_active_turn_count : Z;
  d_turn_stall_age : option age;
  d_turn_age : option age;
}.

(** [a > t], true of [math.inf]. *)
Definition age_gt (a : age) (t : Z) : bool := match a with Some x => t <? x | None => true end.

Record budgets : Type := mkBudgets {
  child_liveness_timeout_sec : Z;
  turn_stall_timeout_sec : Z;
  turn_absolute_timeout_sec : Z;
  child_startup_timeout_sec : option Z;
}.

Definition startup_budget (b : budgets) : Z := default (child_liveness_timeout_sec b) (child_startup_timeout_sec b).

Definition slot_age (l : live_dict) : age :=
  match d_last_slot_progress_age l with
  | Some a => a
  | None => match d_last_progress_age l with Some a => a | None => None end
  end.

Definition should_kill (l : live_dict) (b : budgets) (jobs_claimable : bool) : bool :=
  if negb (d_alive l) then true else
  match d_startup_complete l with
  | Some false => age_gt (default None (d_startup_age l)) (startup_budget b)
  | _ =>
      match d_event_loop_heartbeat_age l with
      | Some a => age_gt a (child_liveness_timeout_sec b)
      | None => false
      end
      || (age_gt (slot_age l) (child_liveness_timeout_sec b) && (d_active_turn_count l =? 0) && jobs_claimable)
      || match d_turn_stall_age l with Some a => age_gt a (turn_stall_timeout_sec b) | None => false end
      || match d_turn_age l with Some a => age_gt a (turn_absolute_timeout_sec b) | None => false end
  end.

(** Whether the queue has to be asked before deciding. *)
Definition should_check_queue (l : live_dict) (b : budgets) : bool :=
  age_gt (slot_age l) (child_liveness_timeout_sec b) && (d_active_turn_count l =? 0).

(** The decision of one pass of the loop. [task] is whether an earlier query is still in
    flight; [answer] what the wait for the query gives ([None]: it timed out), [finished]
    whether a query no longer needed has ended. A failed query ends the pass without a kill. *)
Definition watchdog_tick (task : bool) (l : live_dict) (b : budgets) (answer : option (outcome bool))
    (finished : bool) : bool * outcome bool :=
  if should_kill l b false then (task, Return true)
  else if should_check_queue l b then
    match answer with
    | Some (Return claimable) => (false, Return (should_kill l b claimable))
    | Some (Raise e) => (false, Raise e)
    | None => (true, Return (should_kill l b false))
    end
  else (task && negb finished, Return (should_kill l b false)).

(** The dictionary [poll_liveness] returns. *)
Definition live_of (l : liveness) : live_dict :=
  mkLive (alive l) (Some (lv_startup_complete l)) (Some (startup_age_sec l))
    (Some (event_loop_heartbeat_age_sec l)) (Some (last_slot_progress_age_sec l))
    (Some (event_loop_heartbeat_age_sec l)) (active_turn_count l)
    (Some (Some (current_turn_stall_age_sec l))) (Some (Some (current_turn_age_sec l))).

(** ** The database behind it *)

Class ClaimStore (D T : Type) := {
  cs_valid : D -> Prop;
  (** The row is claimed or running under this owner. *)
  cs_holds : Z -> pystr -> D -> Prop;
  (** [recover_killed_job] at an instant. *)
  cs_recover : T -> Z -> pystr -> string -> D -> outcome D;
  cs_recover_valid t i o r d d' : cs_valid d -> cs_recover t i o r d = Return d' -> cs_valid d';
  cs_recover_releases t i o r d d' : cs_valid d -> cs_recover t i o r d = Return d' -> ~ cs_holds i o d';
}.

Section Queue.
Context {D T : Type} `{!ClaimStore D T}.

(** How a recovery call ends: its own way, or with an error before or after the commit. *)
Inductive call_end : Type := Completes | FailsBefore | FailsAfter.

(** The database after the call, and whether it returned. *)
Definition recovery_call (e : call_end) (t : T) (i : Z) (o : pystr) (r : string) (d : D) : D * bool :=
  match e with
  | FailsBefore => (d, false)
  | _ => match cs_recover t i o r d with
         | Return d' => (d', match e with Completes => true | _ => false end)
         | Raise _ => (d, false)
         end
  end.

(** ** The retry queue *)

(** Instants are [time.monotonic()] in nanoseconds. *)
Definition SECOND : Z := 1000000000.
Definition DELAYS : list Z := map (Z.mul SECOND) [1; 2; 4; 8; 16].

Record recovery_request : Type := mkRequest {
  rq_job : Z;
  rq_owner : pystr;
  rq_reason : string;
  attempt : nat;
  due_at : Z;
}.

Definition rq_key (r : recovery_request) : Z * pystr := (rq_job r, rq_owner r).

(** [self._requests], in insertion order. *)
Abbreviation retry_queue := (list recovery_request).

(** [max(1, min(int(limit), 256))] *)
Definition queue_limit (limit : Z) : Z := Z.max 1 (Z.min limit 256).

Definition enqueue (limit now : Z) (i : Z) (o : pystr) (reason : string) (q : retry_queue) : retry_queue * bool :=
  if bool_decide ((i, o) ∈ map rq_key q) then (q, true)
  else if queue_limit limit <=? Zlen q then (q, false)
  else (q ++ [mkRequest i o reason 0 (now + SECOND)], true).

(** A failed call: the next delay, or the end of the retries. *)
Definition after_failure (now : Z) (r : recovery_request) : option recovery_request :=
  let n := S (attempt r) in
  n_delay ← DELAYS !! n;
  Some (mkRequest (rq_job r) (rq_owner r) (rq_reason r) n (now + n_delay)).

Definition replace_request (k : Z * pystr) (f : recovery_request -> option recovery_request) (q : retry_queue)
    : retry_queue :=
  omap (fun r => if bool_decide (rq_key r = k) then f r else Some r) q.

(** An [enqueue] call: the clock, the claim and the reason. *)
Abbreviation enqueue_call := (Z * Z * pystr * string)%type.

Definition enqueue_all (limit : Z) (l : list enqueue_call) (q : retry_queue) : retry_queue :=
  foldl (fun q '(now, i, o, reason) => (enqueue limit now i o reason q).1) q l.

(** How one awaited recovery goes: its end, the claims enqueued meanwhile, the clock after it. *)
Record attempt_env : Type := mkAttempt {
  at_end : call_end;
  at_time : T;
  at_enqueued : list enqueue_call;
  at_clock : Z;
}.

(** The body of the [for] loop for one due request. *)
Definition retry_one (limit : Z) (a : attempt_env) (r : recovery_request) (q : retry_queue) (d : D)
    : retry_queue * D :=
  let '(d', ok) := recovery_call (at_end a) (at_time a) (rq_job r) (rq_owner r) (rq_reason r) d in
  let q := enqueue_all limit (at_enqueued a) q in
  (replace_request (rq_key r) (fun r => if ok then None else after_failure (at_clock a) r) q, d').

Fixpoint retry_due (limit : Z) (attempts : list attempt_env) (due : list recovery_request) (q : retry_queue)
    (d : D) : retry_queue * D :=
  match due, attempts with
  | r :: due, a :: attempts =>
      let '(q, d) := retry_one limit a r q d in retry_due limit attempts due q d
  | _, _ => (q, d)
  end.

Definition due_requests (now : Z) (q : retry_queue) : list recovery_request :=
  filter (fun r => due_at r <= now) q.

(** One pass of [run]: the requests due at [now], in order. *)
Definition retry_pass (limit now : Z) (attempts : list attempt_env) (q : retry_queue) (d : D) : retry_queue * D :=
  retry_due limit attempts (due_requests now q) q d.

(** ** The kill *)

(** The owner to recover: the kill's own, or the earlier snapshot's. *)
Definition recovery_target (out : KillOutcome) (before : option SlotProgress) : option ActiveJobIdentity :=
  match out_active_job out with
  | Some j => Some j
  | None => before ≫= active_job
  end.

(** How [supervisor.start] ends: it returns, the process cannot be spawned, or
    it raises after the spawn, when the reader thread cannot be started. *)
Inductive start_end : Type := Starts | SpawnFails | ReaderFails.

(** The awaits at which the task may be cancelled; the call behind an await
    goes on in its thread. *)
Inductive cancel_point : Type := InCapacityWrite | InKill | InRecovery | InStart.

#[global] Instance cancel_point_eq_dec : EqDecision cancel_point.
Proof. solve_decision. Defined.

(** What a kill meets: messages read while it waits, what the system answers, how the recovery
    call and the start go, the names and clock of the replacement, and a cancellation. *)
Record kill_env : Type := mkKill {
  ke_msgs : list (Z * (pyval + row));
  ke_answer : kill_answer;
  ke_fresh : pystr;
  ke_end : call_end;
  ke_time : T;
  ke_clock : Z;
  ke_pid : nat;
  ke_gen : pystr;
  ke_reap_gen : pystr;
  ke_start : start_end;
  ke_cancel : option cancel_point;
}.

Definition cancelled : exn := Other "CancelledError".

Section Kill.
Context (clock : nat -> Z) (repr : pyval -> pystr) (own_pool : pool) (own_slot : pystr).

(** The recovery inside the [try]: a cancellation is no [Exception], so it is
    neither queued nor logged. *)
Definition kill_recovery (limit : option Z) (k : kill_env) (target : option ActiveJobIdentity) (d : D)
    (q : retry_queue) : D * retry_queue * outcome unit :=
  match target with
  | None => (d, q, Return tt)
  | Some j =>
      let '(d, ok) := recovery_call (ke_end k) (ke_time k) (job_id j) (claimed_by j) "slot_watchdog_timeout" d in
      if bool_decide (ke_cancel k = Some InRecovery) then (d, q, Raise cancelled)
      else (d, if ok then q else
               match limit with
               | Some n => (enqueue n (ke_clock k) (job_id j) (claimed_by j) "slot_watchdog_timeout" q).1
               | None => q
               end, Return tt)
  end.

(** The [finally]: the replacement. *)
Definition kill_start (k : kill_env) (w : world) : world * outcome unit :=
  match ke_start k with
  | SpawnFails => (w, Raise (Other "OSError"))
  | e => (start_locked clock repr own_pool own_slot (ke_pid k) (ke_gen k) (ke_reap_gen k) (ke_clock k) w,
          if bool_decide (ke_cancel k = Some InStart) then Raise cancelled
          else match e with ReaderFails => Raise (RuntimeError "can't start new thread") | _ => Return tt end)
  end.

(** [_kill_child]: [before] is the snapshot taken ahead of the capacity write; [limit] that of the
    retry queue, when there is one. A result that raises ends the pass of the loop. *)
Definition kill_child (limit : option Z) (before : option SlotProgress) (k : kill_env) (w : world) (d : D)
    (q : retry_queue) : world * D * retry_queue * outcome unit :=
  if bool_decide (ke_cancel k = Some InCapacityWrite) then (w, d, q, Raise cancelled) else
  let '(w, out) := kill_locked clock repr own_pool own_slot (ke_msgs k) (ke_answer k) (ke_fresh k) w in
  if bool_decide (ke_cancel k = Some InKill) then (w, d, q, Raise cancelled) else
  if negb (terminated out) then (w, d, q, Return tt) else
  let '(d, q, r) := kill_recovery limit k (recovery_target out before) d q in
  let '(w, r') := kill_start k w in
  (w, d, q, _ ← r'; r).
End Kill.

End Queue.

#[global] Arguments attempt_env : clear implicits.
#[global] Arguments kill_env : clear implicits.
End Watchdog.
