(* ===== verification/WatchdogSafety.v ===== *)
(** * What the watchdog guarantees

    When it kills, what a kill leaves behind, the bounds of the retry queue, and the job
    queue as the claim store the recovery runs against. *)

From S2P Require Import Prelude PyValue PyFloat Utf8 EnclaveBroker CaptureFailure JobTable WakeSchedule JobQueue JobInv JobFinish JobSafety SlotProtocol Supervisor SupervisorSafety Watchdog.
Import Broker Slot Supervisor Watchdog.
Local Open Scope Z_scope.

Module WatchdogSafety.

(** ** The decision *)

(** Older than a budget; a clock that was never set is. *)
Definition older (now t : Z) (since : option Z) : Prop :=
  match since with Some x => t < Z.max 0 (now - x) | None => True end.

Lemma age_gt_since now since t : age_gt (age_since now since) t = true <-> older now t since.
Proof. destruct since as [x|]; cbn; [apply Z.ltb_lt|done]. Qed.

(** The reasons to kill, in the supervisor's own terms. *)
Definition wedged (now : Z) (turn_age : SlotProgress -> Z) (b : budgets) (claimable : bool) (w : world) : Prop :=
  let s := w_sup w in
  child_pid w = None \/
  (startup_complete s = false /\ older now (startup_budget b) (started_at s)) \/
  (startup_complete s = true /\
   (older now (child_liveness_timeout_sec b) (last_progress_at s) \/
    (older now (child_liveness_timeout_sec b) (last_slot_progress_at s) /\ snapshot_job s = None /\
     claimable = true) \/
    turn_stall_timeout_sec b < match turn_progress_at s with Some t => Z.max 0 (now - t) | None => 0 end \/
    turn_absolute_timeout_sec b <
      match snapshot s with
      | Some p => match turn_start p with Some _ => Z.max 0 (turn_age p) | None => 0 end
      | None => 0
      end)).

Lemma alive_child now turn_age w : alive (poll_liveness now turn_age w) = bool_decide (is_Some (child_pid w)).
Proof.
  unfold child_pid. cbn. destruct (proc (w_sup w)) as [pid|]; [|done]. case_bool_decide; done.
Qed.

Lemma should_kill_wedged now turn_age b claimable w :
  should_kill (live_of (poll_liveness now turn_age w)) b claimable = true <->
  wedged now turn_age b claimable w.
Proof.
  unfold should_kill, wedged. change (d_alive (live_of ?l)) with (alive l). rewrite alive_child.
  destruct (child_pid w) as [pid|]; [|split; [by left|done]].
  rewrite bool_decide_true by done. cbn.
  destruct (startup_complete (w_sup w)) eqn:Es; cbn.
  - rewrite !orb_true_iff, !andb_true_iff, !age_gt_since, !Z.ltb_lt.
    destruct (snapshot_job (w_sup w)); cbn; intuition (try done; try congruence).
  - rewrite age_gt_since. intuition (try done; try congruence).
Qed.
Lemma checks_queue now turn_age b w :
  should_check_queue (live_of (poll_liveness now turn_age w)) b = true <->
  older now (child_liveness_timeout_sec b) (last_slot_progress_at (w_sup w)) /\ snapshot_job (w_sup w) = None.
Proof.
  unfold should_check_queue. cbn. rewrite andb_true_iff, age_gt_since.
  destruct (snapshot_job (w_sup w)); cbn; intuition done.
Qed.

Lemma wedged_mono now turn_age b w : wedged now turn_age b false w -> wedged now turn_age b true w.
Proof. unfold wedged. intuition (try done; tauto). Qed.

(** A pass of the watchdog kills exactly when its slot is wedged: no live child; a start-up longer
    than its own budget; or, once started, a silent event loop, a turn that stalls or overruns, or a slot
    that makes no progress with no job while the queue says, in time, that there is work. A query
    that fails or times out never kills, and an idle slot with a live loop is spared. *)
Theorem watchdog_decision_exact now turn_age b w task answer finished :
  (watchdog_tick task (live_of (poll_liveness now turn_age w)) b answer finished).2 = Return true <->
  wedged now turn_age b (bool_decide (answer = Some (Return true))) w.
Proof.
  pose proof (should_kill_wedged now turn_age b false w) as H0.
  pose proof (should_kill_wedged now turn_age b true w) as H1.
  pose proof (checks_queue now turn_age b w) as Hq. unfold watchdog_tick.
  destruct (should_kill _ b false) eqn:Ek; cbn [snd].
  { case_bool_decide; [|tauto]. split; [|done]. intros _. apply wedged_mono. tauto. }
  assert (~ wedged now turn_age b false w) as Hn by (intros H; by apply H0 in H).
  destruct (should_check_queue _ b).
  - destruct answer as [[[]|e]|]; cbn [snd]; [rewrite bool_decide_true by done|rewrite bool_decide_false by done..].
    + rewrite <- H1. split; congruence.
    + rewrite Ek. split; [congruence|done].
    + split; [congruence|done].
    + split; [congruence|done].
  - cbn [snd]. split; [congruence|]. case_bool_decide; [|done]. unfold wedged in *. intuition.
Qed.

(** ** The kill *)

Section Kill.
Context {D T : Type} `{!ClaimStore D T}.

Lemma recovery_call_valid e t i o r d : cs_valid d -> cs_valid (recovery_call e t i o r d).1.
Proof.
  intros Hd. unfold recovery_call. destruct e; [|done|];
    (destruct (cs_recover t i o r d) as [d'|] eqn:E; [|done]); by eapply cs_recover_valid.
Qed.

Lemma recovery_call_releases e t i o r d d' :
  cs_valid d -> recovery_call e t i o r d = (d', true) -> ~ cs_holds i o d'.
Proof.
  intros Hd. unfold recovery_call. destruct e; [|done|];
    (destruct (cs_recover t i o r d) as [d1|] eqn:E; [|done]); intros [= <-]; by eapply cs_recover_releases.
Qed.

Lemma enqueue_result limit now i o r q :
  (enqueue limit now i o r q).2 = true -> (i, o) ∈ map rq_key (enqueue limit now i o r q).1.
Proof.
  unfold enqueue. case_bool_decide as E; [done|]. destruct (_ <=? _); [done|]. intros _. cbn.
  rewrite map_app. apply elem_of_app. right. by left.
Qed.

Lemma enqueue_full limit now i o r q :
  (enqueue limit now i o r q).2 = false -> queue_limit limit <= Zlen q /\ (enqueue limit now i o r q).1 = q.
Proof. unfold enqueue. case_bool_decide; [done|]. destruct (_ <=? _) eqn:E; [|done]. bools. done. Qed.

Context (clock : nat -> Z) (repr : pyval -> pystr) (own_pool : pool) (own_slot : pystr).
Abbreviation kill_locked := (Supervisor.kill_locked clock repr own_pool own_slot).
Abbreviation start_locked := (Supervisor.start_locked clock repr own_pool own_slot).
Abbreviation reachable := (SupSafety.reachable clock repr own_pool own_slot).

(** What a kill does to the slot. *)
Lemma kill_locked_kept msgs ans g w :
  terminated (kill_locked msgs ans g w).2 = false ->
  proc (w_sup (kill_locked msgs ans g w).1) = proc (w_sup w) /\ spawned (kill_locked msgs ans g w).1 = spawned w /\
  dropped (kill_locked msgs ans g w).1 = dropped w.
Proof.
  unfold Supervisor.kill_locked.
  destruct (SupSafety.handle_messages_same clock repr own_pool own_slot msgs w) as [(Hp & _ & _ & _ & Hs & Hd) _].
  set (w1 := handle_messages _ _ _ _ msgs w) in *. clearbody w1.
  destruct (proc (w_sup w1)) as [pid|] eqn:Ep; cbn; [|done]. destruct (confirms ans); cbn; [done|].
  rewrite Ep. done.
Qed.

Lemma kill_locked_gone msgs ans g w :
  terminated (kill_locked msgs ans g w).2 = true ->
  proc (w_sup (kill_locked msgs ans g w).1) = None /\ spawned (kill_locked msgs ans g w).1 = spawned w /\
  dropped (kill_locked msgs ans g w).1 = with_generation (generation (w_sup w)) (retired_generations (w_sup w)) ∪ dropped w.
Proof.
  unfold Supervisor.kill_locked.
  destruct (SupSafety.handle_messages_same clock repr own_pool own_slot msgs w) as [(Hp & Hg & Hr & _ & Hs & Hd) _].
  set (w1 := handle_messages _ _ _ _ msgs w) in *. clearbody w1.
  destruct (proc (w_sup w1)) as [pid|] eqn:Ep; cbn; [destruct (confirms ans); cbn; [|done]|];
    rewrite Hr, Hs, Hd; done.
Qed.

Lemma start_locked_none pid gen reap_gen now w :
  proc (w_sup w) = None -> start_locked pid gen reap_gen now w = spawn pid gen now w.
Proof. intros H. unfold Supervisor.start_locked. by rewrite H. Qed.
(** The job a kill has to recover: the one the slot was running when the kill
    began, or else the one of the earlier snapshot. *)
Definition running_job (before : option SlotProgress) (w : world) (j : ActiveJobIdentity) : Prop :=
  snapshot_job (w_sup w) = Some j \/
  (snapshot_job (w_sup w) = None /\ exists p, before = Some p /\ active_job p = Some j).

Lemma kill_locked_job msgs ans g w : out_active_job (kill_locked msgs ans g w).2 = snapshot_job (w_sup w).
Proof.
  unfold Supervisor.kill_locked. destruct (proc _) as [pid|]; cbn; [by destruct (confirms ans)|done].
Qed.

Lemma running_job_target before msgs ans g w j :
  running_job before w j -> recovery_target (kill_locked msgs ans g w).2 before = Some j.
Proof.
  unfold recovery_target. rewrite kill_locked_job. by intros [->|[-> (p & -> & Hp)]].
Qed.

(** The claim of [j] after the recovery of a kill: released, queued for retry,
    or left to the lease reaper because there is no room or no queue, or because
    the task was cancelled. *)
Definition claim_settled (limit : option Z) (k : kill_env T) (j : ActiveJobIdentity) (d : D)
    (q : list recovery_request) : Prop :=
  ~ cs_holds (job_id j) (claimed_by j) d \/ (job_id j, claimed_by j) ∈ map rq_key q \/
  match limit with Some n => queue_limit n <= Zlen q | None => True end \/ ke_cancel k = Some InRecovery.

Lemma kill_recovers limit k target d q :
  cs_valid d ->
  let '(d', q', _) := kill_recovery limit k target d q in
  cs_valid d' /\ forall j, target = Some j -> claim_settled limit k j d' q'.
Proof.
  intros Hd. unfold kill_recovery. destruct target as [j|]; [|done].
  pose proof (recovery_call_valid (ke_end k) (ke_time k) (job_id j) (claimed_by j) "slot_watchdog_timeout" d Hd) as Hv.
  destruct (recovery_call _ _ _ _ _ d) as [d' ok] eqn:E. cbn [fst] in Hv.
  case_bool_decide as Hc; (split; [done|]); intros j' [= <-]; unfold claim_settled; [tauto|].
  destruct ok; [left; exact (recovery_call_releases _ _ _ _ _ _ _ Hd E)|]. right. destruct limit as [n|]; [|tauto].
  destruct (enqueue n (ke_clock k) (job_id j) (claimed_by j) "slot_watchdog_timeout" q).2 eqn:Eq.
  - left. by apply enqueue_result.
  - right. left. apply enqueue_full in Eq as [H ->]. done.
Qed.

(** After a confirmed kill: the replacement runs, unless it could not be spawned
    or the task was cancelled before it; then no child is left and the next pass
    of the watchdog kills, and starts, again. *)
Definition replaced (k : kill_env T) (w' : world) : Prop :=
  if bool_decide (ke_cancel k = Some InKill) || match ke_start k with SpawnFails => true | _ => false end
  then live w' = ∅ /\ proc (w_sup w') = None /\
       (forall now turn_age b, should_kill (live_of (poll_liveness now turn_age w')) b false = true)
  else live w' = {[ke_pid k]} /\ proc (w_sup w') = Some (ke_pid k) /\ generation (w_sup w') = ke_gen k.

Lemma kill_start_replaces k w :
  ke_cancel k <> Some InKill -> live w = ∅ -> proc (w_sup w) = None ->
  replaced k (kill_start clock repr own_pool own_slot k w).1 /\ dropped (kill_start clock repr own_pool own_slot k w).1 = dropped w.
Proof.
  intros Hc Hl Hp. unfold replaced, kill_start. rewrite bool_decide_false by done. cbn [orb].
  assert (forall now turn_age b, should_kill (live_of (poll_liveness now turn_age w)) b false = true) as Hkill.
  { intros now turn_age b. unfold should_kill. change (d_alive (live_of ?l)) with (alive l). cbn. by rewrite Hp. }
  rewrite start_locked_none by done. destruct (ke_start k); cbn; rewrite ?Hl, ?union_empty_r_L; done.
Qed.

(** C5: a kill decided by the watchdog, whatever the system answers and
    wherever its task is cancelled. A task cancelled while it writes the capacity
    has done nothing. Unless the child is confirmed dead the claim stays as it
    was in the database, nothing is queued and no replacement is started. Once
    it is confirmed dead, every earlier generation has been dropped at the
    broker; exactly one child is alive, the replacement, or, when it could not be
    spawned or the task was cancelled before, none, and the next pass kills and
    starts again; and unless the task was cancelled during the kill itself, the
    job the slot was running is no longer claimed by it, or its recovery is
    queued for retry, or the retry queue is absent or full or the task was
    cancelled in the recovery and the lease reaper is left. *)
Theorem killed_slot_replaced limit before k w d q :
  reachable w -> cs_valid d ->
  let out := (kill_locked (ke_msgs k) (ke_answer k) (ke_fresh k) w).2 in
  let '(w', d', q', r) := kill_child clock repr own_pool own_slot limit before k w d q in
  cs_valid d' /\
  if bool_decide (ke_cancel k = Some InCapacityWrite) then w' = w /\ d' = d /\ q' = q
  else if terminated out then
    replaced k w' /\ (forall pid g, spawned w !! pid = Some g -> g ∈ dropped w') /\
    (forall j, running_job before w j ->
       if bool_decide (ke_cancel k = Some InKill) then d' = d /\ q' = q else claim_settled limit k j d' q')
  else d' = d /\ q' = q /\ proc (w_sup w') = proc (w_sup w) /\ spawned w' = spawned w /\ dropped w' = dropped w.
Proof.
  intros Hr Hd out. subst out. unfold kill_child. case_bool_decide as Hcap; [done|].
  pose proof (SupSafety.kill_locked_inv clock repr own_pool own_slot (ke_msgs k) (ke_answer k) (ke_fresh k) w
    (SupSafety.slot_reachable_inv _ _ _ _ _ Hr)) as Hi.
  pose proof (kill_locked_kept (ke_msgs k) (ke_answer k) (ke_fresh k) w) as Hk.
  pose proof (kill_locked_gone (ke_msgs k) (ke_answer k) (ke_fresh k) w) as Hg.
  pose proof (running_job_target before (ke_msgs k) (ke_answer k) (ke_fresh k) w) as Hj.
  destruct (kill_locked _ _ _ w) as [w1 out]. cbn [fst snd] in *.
  destruct (terminated out) eqn:Et; cbn [negb].
  2: { destruct (Hk eq_refl) as (H1 & H2 & H3). by case_bool_decide. }
  destruct (Hg eq_refl) as (Hp & Hs & _).
  assert (live w1 = ∅) as Hl by (apply SupSafety.live_empty; [apply Hi|by rewrite Hp]).
  assert (forall pid g, spawned w !! pid = Some g -> g ∈ dropped w1) as Hdrop.
  { intros pid g Hpg. apply (SupSafety.inv_lost _ Hi pid g); [by rewrite Hs|by rewrite Hp]. }
  case_bool_decide as Hck.
  - split; [done|]. split; [|split; [done|done]]. unfold replaced. rewrite bool_decide_true by done. cbn [orb].
    split; [done|]. split; [done|]. intros now turn_age b. unfold should_kill.
    change (d_alive (live_of ?l)) with (alive l). cbn. by rewrite Hp.
  - pose proof (kill_recovers limit k (recovery_target out before) d q Hd) as Hrec.
    destruct (kill_recovery _ _ _ _ _) as [[d' q'] r]. destruct Hrec as [Hv Hrec].
    destruct (kill_start_replaces k w1 Hck Hl Hp) as [Hrep Hdr].
    destruct (kill_start _ _ _ _ k w1) as [w2 r']. cbn [fst] in *.
    split; [done|]. split; [done|]. split; [by rewrite Hdr|]. intros j Hrj. by apply Hrec, Hj.
Qed.
End Kill.

(** ** The retry queue *)

Section Retry.
Context {D T : Type} `{!ClaimStore D T}.
Context (limit : Z).

#[local] Arguments Nat.sub : simpl never.

(** The calls a queued request can still cost. *)
Definition calls_left (q : list recovery_request) : nat := sum_list_with (fun r => 5 - attempt r)%nat q.

Record queue_ok (q : list recovery_request) : Prop := mkQueueOk {
  qo_len : Zlen q <= queue_limit limit;
  qo_keys : NoDup (map rq_key q);
  qo_attempts : Forall (fun r => (attempt r < 5)%nat) q;
}.

Lemma queue_ok_nil : queue_ok [].
Proof. split; [unfold queue_limit, Zlen; cbn [length]; lia|constructor|constructor]. Qed.

Lemma enqueue_ok now i o r q : queue_ok q -> queue_ok (enqueue limit now i o r q).1.
Proof.
  intros [H1 H2 H3]. unfold enqueue. case_bool_decide as E; [done|]. destruct (_ <=? _) eqn:El; [done|]. bools. split; cbn.
  - unfold Zlen in *. rewrite length_app. cbn. lia.
  - rewrite map_app. apply NoDup_app. split; [done|]. split; [|apply NoDup_singleton].
    intros x Hx Hx'. apply list_elem_of_singleton in Hx' as ->. done.
  - apply Forall_app. split; [done|]. repeat constructor; cbn; lia.
Qed.

Lemma enqueue_calls now i o r q : (calls_left (enqueue limit now i o r q).1 <= calls_left q + 5)%nat.
Proof.
  unfold enqueue, calls_left. case_bool_decide; cbn [fst]; [lia|]. destruct (_ <=? _); cbn [fst]; [lia|].
  rewrite sum_list_with_app. cbn. lia.
Qed.

Lemma enqueue_keeps now i o r q k : k ∈ map rq_key q -> k ∈ map rq_key (enqueue limit now i o r q).1.
Proof.
  unfold enqueue. case_bool_decide; [done|]. destruct (_ <=? _); cbn; [done|]. rewrite map_app, elem_of_app. by left.
Qed.

Lemma enqueue_all_ok l q :
  queue_ok q -> queue_ok (enqueue_all limit l q) /\
  (calls_left (enqueue_all limit l q) <= calls_left q + 5 * length l)%nat /\
  forall k, k ∈ map rq_key q -> k ∈ map rq_key (enqueue_all limit l q).
Proof.
  unfold enqueue_all. revert q.
  induction l as [|[[[now i] o] r] l IH]; intros q Hq; cbn [foldl length]; [split; [done|]; split; [lia|done]|].
  destruct (IH _ (enqueue_ok now i o r q Hq)) as (H1 & H2 & H3).
  pose proof (enqueue_calls now i o r q). split; [done|]. split; [lia|]. intros k Hk. by apply H3, enqueue_keeps.
Qed.
(** What one handled call makes of the request it was for. *)
Definition settled (f : recovery_request -> option recovery_request) : Prop :=
  forall r, (attempt r < 5)%nat ->
  match f r with
  | Some r' => rq_key r' = rq_key r /\ (attempt r < attempt r' < 5)%nat
  | None => True
  end.

Lemma settled_after (ok : bool) now : settled (fun r => if ok then None else after_failure now r).
Proof.
  intros r Hr. destruct ok; [done|]. unfold after_failure. destruct (DELAYS !! S (attempt r)) as [n|] eqn:E; cbn; [|done].
  apply lookup_lt_Some in E. cbn in E. split; [done|lia].
Qed.

Lemma replace_request_cons k f r q :
  replace_request k f (r :: q) =
  match (if bool_decide (rq_key r = k) then f r else Some r) with
  | Some r' => r' :: replace_request k f q
  | None => replace_request k f q
  end.
Proof. reflexivity. Qed.

Lemma replace_request_keys k f q :
  settled f -> Forall (fun r => (attempt r < 5)%nat) q ->
  map rq_key (replace_request k f q) `sublist_of` map rq_key q /\
  Forall (fun r => (attempt r < 5)%nat) (replace_request k f q) /\
  (calls_left (replace_request k f q) <= calls_left q)%nat.
Proof.
  intros Hf. unfold calls_left. induction q as [|r q IH]; intros Hq; [done|]. rewrite replace_request_cons.
  inversion_clear Hq as [|? ? Hr Hq']. destruct (IH Hq') as (H1 & H2 & H3). clear IH.
  case_bool_decide as E.
  - specialize (Hf r Hr). destruct (f r) as [r'|]; cbn.
    + destruct Hf as [-> Ha]. split; [by constructor|]. split; [constructor; [lia|done]|lia].
    + split; [by constructor|]. split; [done|lia].
  - cbn. split; [by constructor|]. split; [by constructor|lia].
Qed.

(** The handled request costs one of its calls. *)
Lemma replace_request_costs k f q :
  settled f -> Forall (fun r => (attempt r < 5)%nat) q -> k ∈ map rq_key q ->
  (calls_left (replace_request k f q) + 1 <= calls_left q)%nat.
Proof.
  intros Hf Hq Hk. apply list_elem_of_fmap in Hk as (r & -> & Hr).
  apply list_elem_of_split in Hr as (l1 & l2 & ->).
  apply Forall_app in Hq as [Hq1 [Hr Hq2]%Forall_cons].
  destruct (replace_request_keys (rq_key r) f l1 Hf Hq1) as (_ & _ & H1).
  destruct (replace_request_keys (rq_key r) f l2 Hf Hq2) as (_ & _ & H2).
  unfold replace_request, calls_left in *. rewrite omap_app, !sum_list_with_app. cbn. rewrite bool_decide_true by done.
  specialize (Hf r Hr). destruct (f r) as [r'|]; cbn; [destruct Hf as [_ Ha]|]; lia.
Qed.

Lemma replace_request_other k k' f q :
  settled f -> Forall (fun r => (attempt r < 5)%nat) q -> k' <> k -> k' ∈ map rq_key q ->
  k' ∈ map rq_key (replace_request k f q).
Proof.
  intros Hf Hq Hne Hk. apply list_elem_of_fmap in Hk as (r & -> & Hr). apply list_elem_of_fmap. exists r.
  split; [done|]. apply list_elem_of_omap. exists r. split; [done|]. by rewrite bool_decide_false.
Qed.

Lemma retry_one_ok a r q d :
  queue_ok q -> rq_key r ∈ map rq_key q ->
  let q' := (retry_one limit a r q d).1 in
  queue_ok q' /\ (calls_left q' + 1 <= calls_left q + 5 * length (at_enqueued a))%nat /\
  forall k, k <> rq_key r -> k ∈ map rq_key q -> k ∈ map rq_key q'.
Proof.
  intros Hq Hk. unfold retry_one. destruct (recovery_call _ _ _ _ _ d) as [d' ok]. cbn [fst]. cbv zeta.
  destruct (enqueue_all_ok (at_enqueued a) q Hq) as ([H1 H2 H3] & Hc & Hin).
  pose proof (settled_after ok (at_clock a)) as Hs.
  destruct (replace_request_keys (rq_key r) _ _ Hs H3) as (Hsub & Ha & _).
  pose proof (replace_request_costs (rq_key r) _ _ Hs H3 (Hin _ Hk)) as Hcost.
  split; [split|].
  - apply sublist_length in Hsub. rewrite !length_map in Hsub. unfold Zlen in *. lia.
  - by eapply sublist_NoDup.
  - done.
  - split; [lia|]. intros k Hne Hkq. apply replace_request_other; [done|done|done|]. by apply Hin.
Qed.

Abbreviation enqueued := (sum_list_with (fun a : attempt_env T => length (at_enqueued a))).

Lemma retry_due_ok attempts due q d :
  queue_ok q -> NoDup (map rq_key due) -> (forall r, r ∈ due -> rq_key r ∈ map rq_key q) ->
  let q' := (retry_due limit attempts due q d).1 in
  queue_ok q' /\
  (calls_left q' + length due `min` length attempts <= calls_left q + 5 * enqueued attempts)%nat.
Proof.
  revert attempts q d. induction due as [|r due IH]; intros attempts q d Hq Hnd Hin.
  { destruct attempts; cbn [retry_due fst length]; (split; [done|]); lia. }
  destruct attempts as [|a attempts]; [cbn [retry_due fst length]; split; [done|]; lia|]. cbn [retry_due].
  assert (rq_key r ∈ map rq_key q) as Hr by (apply Hin; by left).
  destruct (retry_one_ok a r q d Hq Hr) as (H1 & H2 & H3).
  destruct (retry_one limit a r q d) as [q1 d1]. cbn [fst] in *. cbn in Hnd. apply NoDup_cons in Hnd as [Hn1 Hn2].
  destruct (IH attempts q1 d1 H1 Hn2) as [H4 H5].
  - intros r' Hr'. apply H3; [|apply Hin; by right]. intros Heq. apply Hn1. rewrite <- Heq.
    apply list_elem_of_fmap. by exists r'.
  - split; [done|]. cbn [length sum_list_with] in *. lia.
Qed.

(** ** Histories *)

Inductive queue_event : Type :=
| EvEnqueue (now i : Z) (o : pystr) (reason : string)
| EvPass (now : Z) (attempts : list (attempt_env T)).

(** The queue and database after a history, with the recovery calls made and the claims given in. *)
Fixpoint run_events (evs : list queue_event) (q : list recovery_request) (d : D) : list recovery_request * D * nat * nat :=
  match evs with
  | [] => (q, d, 0, 0)%nat
  | EvEnqueue now i o reason :: evs =>
      let '(q, d, calls, given) := run_events evs (enqueue limit now i o reason q).1 d in (q, d, calls, S given)
  | EvPass now attempts :: evs =>
      let n := Nat.min (length (due_requests now q)) (length attempts) in
      let '(q, d) := retry_pass limit now attempts q d in
      let '(q, d, calls, given) := run_events evs q d in (q, d, calls + n, given + enqueued attempts)%nat
  end.

Lemma run_events_ok evs q d q' d' calls given :
  queue_ok q -> run_events evs q d = (q', d', calls, given) ->
  queue_ok q' /\ (calls_left q' + calls <= calls_left q + 5 * given)%nat.
Proof.
  revert q d q' d' calls given.
  induction evs as [|[now i o reason|now attempts] evs IH]; intros q d q' d' calls given Hq; cbn [run_events].
  - intros [= <- <- <- <-]. split; [done|lia].
  - destruct (run_events evs _ d) as [[[q1 d1] c1] g1] eqn:E. intros [= <- <- <- <-].
    apply IH in E as [H1 H2]; [|by apply enqueue_ok]. pose proof (enqueue_calls now i o reason q). split; [done|lia].
  - unfold retry_pass.
    destruct (retry_due_ok attempts (due_requests now q) q d Hq) as [H1 H2].
    { eapply sublist_NoDup; [apply Hq|]. apply fmap_sublist, sublist_filter. }
    { intros r [_ Hr]%list_elem_of_filter. apply list_elem_of_fmap. by exists r. }
    destruct (retry_due limit attempts _ q d) as [q1 d1]. cbn [fst] in *.
    destruct (run_events evs q1 d1) as [[[q2 d2] c2] g2] eqn:E. intros [= <- <- <- <-].
    apply IH in E as [H3 H4]; [|done]. split; [done|lia].
Qed.

(** C39: the retry queue stays bounded whatever happens: at most its limit, hence at most 256 requests,
    one per claim, each with fewer than five failed calls behind it; and over any history every claim
    given in costs at most five recovery calls, so with no new claims the retries end. *)
Theorem retry_queue_bounded evs d q' d' calls given :
  run_events evs [] d = (q', d', calls, given) ->
  Zlen q' <= queue_limit limit <= 256 /\ NoDup (map rq_key q') /\ Forall (fun r => (attempt r < 5)%nat) q' /\
  (calls <= 5 * given)%nat.
Proof.
  intros E. apply run_events_ok in E as [[H1 H2 H3] H4]; [|apply queue_ok_nil].
  split; [unfold queue_limit in *; lia|]. split; [done|]. split; [done|]. cbn in H4. lia.
Qed.
End Retry.
(** ** The job queue as the claim store *)

Module QueueStore.
Import Queue Inv Finish Safety.

(** The text column of a Python string; a surrogate cannot be sent. *)
Definition column_text (s : pystr) : outcome string :=
  bs ← Utf8.encode s; Return (String.string_of_list_ascii (Ascii.ascii_of_N <$> bs)).

Definition holds (i : Z) (o : pystr) (d : db) : Prop :=
  exists w j, column_text o = Return w /\ j ∈ d_jobs d /\ claims i w j = true.

Definition recover (cfg : config) (ob : observed) (i : Z) (o : pystr) (reason : string) (d : db) : outcome db :=
  w ← column_text o;
  r ← recover_killed_job cfg ob i w reason d;
  Return (match r with Some r => rc_db r | None => d end).

Lemma update_one_found p sets d j : select_job p d = Some j -> (update_one p sets d).2 = true.
Proof. unfold update_one. by intros ->. Qed.

(** A held claim is always recovered: [None] means there was none. *)
Lemma general_recovers {A} cfg i w reason now (f : db -> db * option A) d j :
  select_job (claims i w) d = Some j -> general_watchdog_recover cfg i w reason now f d <> None.
Proof.
  intros Hs. unfold general_watchdog_recover. destruct (update_one _ _ d) as [d1 [|]] eqn:E1.
  { by destruct (recover_review_runner _ _ _ d1). }
  destruct (update_one (claims i w) _ d) as [d2 b] eqn:E2.
  pose proof (update_one_found (claims i w) (fun k => [SetStatus expired; SetFinished (Some now);
    SetError (Some GENERAL_WATCHDOG_REQUEUE_EXHAUSTED); SetAttempts (j_attempts k + 1)] ++ drop_claim) d j Hs) as H.
  rewrite E2 in H. cbn in H. subst b. destruct (f d2) as [d3 a]. by destruct (recover_review_runner _ _ _ d3).
Qed.

Lemma recover_none_unclaimed cfg ob i w reason d :
  wf d -> recover_killed_job cfg ob i w reason d = Return None -> select_job (claims i w) d = None.
Proof.
  intros Hwf. unfold recover_killed_job. destruct (select_job (claims i w) d) as [j|] eqn:Es; [|done].
  destruct (claims_row _ _ _ _ Hwf Es) as (Hj & Hc & Ho & Hcb).
  assert (forall rec rs d0 lane,
    (d1 ← record_recovery_event i lane rec reason d0;
     Return (Some (mkRecovered d1 lane rec rs None))) = Return None -> Some j = None) as Hfinish.
  { intros rec rs d0 ln (d1 & _ & H)%bind_return. done. }
  destruct (String.eqb (j_lane j) "capture") eqn:El.
  { unfold recover_capture_watchdog. rewrite Hj, El, String.eqb_refl, Ho, Hcb, Z.eqb_refl. cbn.
    rewrite String.eqb_refl. cbn.
    pose proof (general_recovers cfg i w reason (ob_now ob)
      (record_capture_crash cfg ob j GENERAL_WATCHDOG_REQUEUE_EXHAUSTED) d j Es) as Hg.
    destruct (general_watchdog_recover _ _ _ _ _ _ _) as [[[[d1 r1] rs] fs]|]; [|done].
    intros (d2 & _ & H)%bind_return. done. }
  repeat case_goal; try (by apply Hfinish);
    try (match goal with |- context [recover_review_runner ?a ?b ?c ?d] => destruct (recover_review_runner a b c d) end;
         by apply Hfinish).
  all: exfalso; by eapply (general_recovers cfg i w reason (ob_now ob) (fun d => (d, @None unit)) d j Es).
Qed.

Lemma lost_not_held i o w d : wf d -> column_text o = Return w -> lost i w d -> ~ holds i o d.
Proof.
  intros Hwf Ho (j & Hj & Hl) (w' & k & Hw & Hk & Hc). rewrite Ho in Hw. injection Hw as <-.
  pose proof (job_at_unique _ _ Hwf Hk) as Hjk. unfold claims, is_owner in Hc. bools.
  rewrite H, Hj in Hjk. injection Hjk as ->. done.
Qed.

#[export] Program Instance queue_claim_store (cfg : config) : ClaimStore db observed := {
  cs_valid := reachable cfg;
  cs_holds := holds;
  cs_recover := recover cfg;
}.
Next Obligation.
  intros cfg ob i o reason d d' Hd (w & _ & (r & Hr & [= <-])%bind_return)%bind_return.
  destruct r as [r|]; [|done]. eapply reach_step; [exact Hd|]. by eapply st_recover.
Qed.
Next Obligation.
  intros cfg ob i o reason d d' Hd (w & Hw & (r & Hr & [= <-])%bind_return)%bind_return.
  pose proof (reachable_wf _ _ Hd) as Hwf. destruct r as [r|].
  - eapply lost_not_held; [|exact Hw|by eapply recover_killed_lost].
    eapply reachable_wf, reach_step; [exact Hd|by eapply st_recover].
  - apply recover_none_unclaimed in Hr; [|done]. intros (w' & k & Hw' & Hk & Hc). rewrite Hw in Hw'. injection Hw' as <-.
    unfold select_job, select_jobs in Hr. destruct (filter _ (d_jobs d)) as [|x l] eqn:E; [|done].
    assert (k ∈ filter (fun j => claims i w j = true) (d_jobs d)) as H by (by apply list_elem_of_filter).
    rewrite E in H. by apply not_elem_of_nil in H.
Qed.
End QueueStore.
(** ** A slot killed in its turn *)

Section Example_kill.
Import Queue Safety QueueStore.

Definition ex_kill (ans : kill_answer) (e : call_end) : kill_env observed :=
  mkKill [] ans (u "gen2") e (Safety.at_time 30) 30 2 (u "gen3") (u "gen4") Starts None.

Definition ex_killed (ans : kill_answer) (e : call_end) : world * db * list recovery_request * outcome unit :=
  kill_child (ClaimStore0 := queue_claim_store sample_cfg) ex_clock (fun _ => []) foreground (u "foreground-0")
    (Some 256) None (ex_kill ans e) SupSafety.busy_world claimed_db [].
End Example_kill.

Lemma ex_running : running_job None SupSafety.busy_world (mkJob 2 (u "chat") (u "w:foreground-0:1")).
Proof. left. vm_compute. reflexivity. Qed.

Lemma ex_killed_confirmed ans :
  terminated (kill_locked ex_clock (fun _ => []) foreground (u "foreground-0") [] ans (u "gen2")
    SupSafety.busy_world).2 = confirms ans.
Proof. destruct ans; vm_compute; reflexivity. Qed.

(** The claim was held, the kill is confirmed: the replacement runs and the claim is released or
    queued for retry; a child that survives keeps its claim and gets no replacement. *)
Lemma killed_slot_replaced_witness :
  live (ex_killed Dies FailsBefore).1.1.1 = {[2%nat]} /\
  (~ QueueStore.holds 2 (u "w:foreground-0:1") (ex_killed Dies FailsBefore).1.1.2 \/
   (2, u "w:foreground-0:1") ∈ map rq_key (ex_killed Dies FailsBefore).1.2 \/
   queue_limit 256 <= Zlen (ex_killed Dies FailsBefore).1.2 \/ @None cancel_point = Some InRecovery) /\
  (ex_killed Survives Completes).1.1.2 = Safety.claimed_db.
Proof.
  pose proof (killed_slot_replaced (ClaimStore0 := QueueStore.queue_claim_store Safety.sample_cfg) ex_clock
    (fun _ => []) foreground (u "foreground-0") (Some 256) None (ex_kill Dies FailsBefore) SupSafety.busy_world
    Safety.claimed_db [] SupSafety.busy_world_reachable Safety.claimed_db_reachable) as H1.
  pose proof (killed_slot_replaced (ClaimStore0 := QueueStore.queue_claim_store Safety.sample_cfg) ex_clock
    (fun _ => []) foreground (u "foreground-0") (Some 256) None (ex_kill Survives Completes) SupSafety.busy_world
    Safety.claimed_db [] SupSafety.busy_world_reachable Safety.claimed_db_reachable) as H2.
  unfold ex_killed. cbv zeta in H1, H2. cbn [ex_kill ke_msgs ke_answer ke_fresh ke_pid ke_gen ke_cancel] in H1, H2.
  rewrite ex_killed_confirmed in H1, H2. cbn [confirms] in H1, H2.
  change (bool_decide (@None cancel_point = Some InCapacityWrite)) with false in H1, H2.
  change (bool_decide (@None cancel_point = Some InKill)) with false in H1. cbv iota in H1, H2.
  destruct (kill_child _ _ _ _ _ _ (ex_kill Dies FailsBefore) _ _ _) as [[[w1 d1] q1] r1].
  destruct (kill_child _ _ _ _ _ _ (ex_kill Survives Completes) _ _ _) as [[[w2 d2] q2] r2].
  destruct H1 as (_ & Hrep & _ & Hj). destruct H2 as (_ & Hd & _).
  split; [exact (proj1 Hrep)|]. split; [|exact Hd]. exact (Hj _ ex_running).
Defined.

(** One claim, five failed calls, each at the delay the one before set. *)
Definition ex_attempt (now : Z) : attempt_env Queue.observed := mkAttempt FailsBefore (Safety.at_time now) [] (now * SECOND).
Definition ex_pass (now : Z) : queue_event := EvPass (now * SECOND) [ex_attempt now].
Definition ex_history : list queue_event :=
  [EvEnqueue 0 2 (u "w:foreground-0:1") "slot_watchdog_timeout"; ex_pass 1; ex_pass 3; ex_pass 7; ex_pass 15;
   ex_pass 31; ex_pass 63].

Lemma retry_queue_bounded_witness :
  exists d', run_events (ClaimStore0 := QueueStore.queue_claim_store Safety.sample_cfg) 256 ex_history []
               Safety.claimed_db = ([], d', 5%nat, 1%nat) /\ (5 <= 5 * 1)%nat.
Proof.
  destruct (run_events (ClaimStore0 := QueueStore.queue_claim_store Safety.sample_cfg) 256 ex_history []
    Safety.claimed_db) as [[[q d'] c] g] eqn:E.
  assert (q = [] /\ c = 5%nat /\ g = 1%nat) as (-> & -> & ->).
  { apply (f_equal (fun x => (x.1.1.1, x.1.2, x.2))) in E. vm_compute in E. by injection E as <- <- <-. }
  exists d'. split; [done|].
  exact (proj2 (proj2 (proj2 (retry_queue_bounded 256 ex_history Safety.claimed_db [] d' 5 1 E)))).
Defined.
End WatchdogSafety.
