(* ===== verification/WorkspacePath.v ===== *)
(** * Workspace paths ([backend/workspace/backends.py], the path rules)

    Every model-visible file name passes [canonical_path]; every name a model
    may change passes [model_writable_path]. The file translates both, with the
    [str.split] and [posixpath.normpath] they call, and characterises exactly
    which texts they accept. *)

From S2P Require Import Prelude PyValue.
Local Open Scope Z_scope.

Module WPath.

(** ** [value.split("/")] and [posixpath.normpath] *)

Abbreviation SEP := 47%N.

Fixpoint split_sep (s : pystr) : list pystr :=
  match s with
  | [] => [[]]
  | c :: t =>
      if (c =? SEP)%N then [] :: split_sep t
      else match split_sep t with
           | [] => [[c]]
           | p :: ps => (c :: p) :: ps
           end
  end.

(** One component of the loop of [normpath]; the list of kept components is
    held last first. *)
Definition norm_step (rooted : bool) (acc : list pystr) (comp : pystr) : list pystr :=
  if bool_decide (comp = [] \/ comp = u ".") then acc
  else if bool_decide (comp <> u "..")
          || (negb rooted && bool_decide (acc = []))
          || bool_decide (head acc = Some (u ".."))
  then comp :: acc
  else tail acc.

(** POSIX keeps exactly two leading slashes; three or more count as one. *)
Definition initial_slashes (s : pystr) : nat :=
  match s with
  | 47%N :: 47%N :: 47%N :: _ => 1
  | 47%N :: 47%N :: _ => 2
  | 47%N :: _ => 1
  | _ => 0
  end.

Definition normpath (s : pystr) : pystr :=
  if bool_decide (s = []) then u "."
  else
    let n := initial_slashes s in
    let comps := reverse (foldl (norm_step (bool_decide (n <> O))) [] (split_sep s)) in
    let p := replicate n SEP ++ join [SEP] comps in
    if bool_decide (p = []) then u "." else p.

(** ** The rules *)

Definition ARTIFACTS_ROOT : pystr := u "/artifacts".
Definition WORKSPACE_ROOT : pystr := u "/workspace".
Definition MEMORY_ROOT : pystr := u "/memory".
Definition SKILLS_ROOT : pystr := u "/skills".
Definition WORKING_MEMORY_PATH : pystr := u "/memory/WORKING.md".
Definition ROOTS : list pystr := [ARTIFACTS_ROOT; WORKSPACE_ROOT; MEMORY_ROOT; SKILLS_ROOT].
Definition READ_ONLY_ROOTS : list pystr := [ARTIFACTS_ROOT; SKILLS_ROOT].
Definition MAX_PATH_CHARS : Z := 512.

(** [p == root or p.startswith(root + "/")] *)
Definition under (root p : pystr) : bool := bool_decide (p = root) || startswith (root ++ [SEP]) p.

Section Rules.
Context (repr : pyval -> pystr).

Definition canonical_path (raw : pyval) (allow_root : bool) : outcome pystr :=
  let value := strip (py_str repr (py_or raw (PStr []))) in
  if negb (startswith [SEP] value) then Raise WorkspaceInvalidPath
  else if bool_decide (0%N ∈ value) || bool_decide (92%N ∈ value) then Raise WorkspaceInvalidPath
  else if MAX_PATH_CHARS <? Zlen value then Raise WorkspaceInvalidPath
  else if existsb (fun part => bool_decide (part = u "." \/ part = u "..")) (split_sep value)
  then Raise WorkspaceInvalidPath
  else
    let normalized := normpath value in
    if bool_decide (normalized <> value) then Raise WorkspaceInvalidPath
    else if bool_decide (normalized = [SEP]) then
      (if allow_root then Return normalized else Raise WorkspaceInvalidPath)
    else if negb (existsb (fun root => under root normalized) ROOTS) then Raise WorkspaceInvalidPath
    else Return normalized.
End Rules.

Inductive entry_kind : Type := artifact | workspace | working_memory | skill.

#[global] Instance entry_kind_eq_dec : EqDecision entry_kind.
Proof. solve_decision. Defined.

Definition kind_for_path (path : pystr) : outcome entry_kind :=
  if startswith (ARTIFACTS_ROOT ++ [SEP]) path then Return artifact
  else if startswith (WORKSPACE_ROOT ++ [SEP]) path then Return workspace
  else if bool_decide (path = WORKING_MEMORY_PATH) then Return working_memory
  else if startswith (SKILLS_ROOT ++ [SEP]) path then Return skill
  else Raise WorkspaceInvalidPath.

Definition assert_model_writable (path : pystr) : outcome unit :=
  if existsb (fun root => under root path) READ_ONLY_ROOTS then Raise WorkspaceReadOnly
  else _ ← kind_for_path path; Return tt.

Definition model_writable_path (repr : pyval -> pystr) (raw : pyval) : outcome pystr :=
  path ← canonical_path repr raw false;
  _ ← assert_model_writable path;
  Return path.

(** ** Well-formed paths *)

Definition segment (s : pystr) : Prop :=
  s <> [] /\ SEP ∉ s /\ 0%N ∉ s /\ 92%N ∉ s /\ s <> u "." /\ s <> u "..".

Definition path_of (segs : list pystr) : pystr := SEP :: join [SEP] segs.

(** A chain of proper segments inside one of the four namespaces. *)
Definition vfs_path (p : pystr) : Prop :=
  exists root segs, p = path_of (root :: segs) /\ root ∈ u <$> ["artifacts"; "workspace"; "memory"; "skills"]%string
                    /\ Forall segment segs /\ Zlen p <= MAX_PATH_CHARS.

Definition writable (p : pystr) : Prop :=
  p = WORKING_MEMORY_PATH \/ exists seg segs, p = path_of (u "workspace" :: seg :: segs).

(** ** Splitting and joining *)

Lemma split_free s : Forall (fun p => SEP ∉ p) (split_sep s).
Proof.
  induction s as [|c s IH]; simpl; [repeat constructor; set_solver|].
  destruct (N.eqb_spec c SEP) as [->|Hc]; [constructor; [set_solver|done]|].
  destruct (split_sep s) as [|p ps]; [repeat constructor; set_solver|].
  apply Forall_cons in IH as [Hp IH]. constructor; [set_solver|done].
Qed.

Lemma join_split s : join [SEP] (split_sep s) = s.
Proof.
  induction s as [|c s IH]; simpl; [done|].
  destruct (N.eqb_spec c SEP) as [->|Hc].
  - destruct (split_sep s) as [|p ps] eqn:E; [by destruct s; simpl in E; repeat case_match|].
    change (SEP :: join [SEP] (p :: ps) = SEP :: s). by rewrite IH.
  - destruct (split_sep s) as [|p [|q ps]]; simpl in *; by rewrite <- IH.
Qed.

Lemma split_plain a : SEP ∉ a -> split_sep a = [a].
Proof.
  induction a as [|c a IH]; intros Ha; simpl; [done|].
  destruct (N.eqb_spec c SEP) as [->|Hc]; [exfalso; apply Ha; left|].
  rewrite IH by set_solver. done.
Qed.

Lemma split_app a b : SEP ∉ a -> split_sep (a ++ SEP :: b) = a :: split_sep b.
Proof.
  induction a as [|c a IH]; intros Ha; simpl; [done|].
  destruct (N.eqb_spec c SEP) as [->|Hc]; [exfalso; apply Ha; left|].
  rewrite IH by set_solver. done.
Qed.

Lemma split_join l : l <> [] -> Forall (fun p => SEP ∉ p) l -> split_sep (join [SEP] l) = l.
Proof.
  intros Hl. induction l as [|p [|q l] IH]; intros H; [done|..].
  - apply split_plain. by apply Forall_cons in H as [? _].
  - apply Forall_cons in H as [Hp H].
    change (join [SEP] (p :: q :: l)) with (p ++ SEP :: join [SEP] (q :: l)).
    rewrite split_app by done. f_equal. by apply IH.
Qed.

(** ** Normalisation of a rooted path without dots *)

Abbreviation dotted := (fun part : pystr => bool_decide (part = u "." \/ part = u "..")).

Lemma norm_plain parts acc :
  existsb dotted parts = false ->
  foldl (norm_step true) acc parts = reverse (filter (fun p => p <> []) parts) ++ acc.
Proof.
  revert acc. induction parts as [|p parts IH]; intros acc H; [done|].
  simpl in H. apply orb_false_iff in H as [Hp H]. bools. cbn [foldl]. rewrite IH by done.
  unfold norm_step. rewrite filter_cons. destruct (decide (p = [])) as [->|Hne].
  - rewrite bool_decide_true by tauto. rewrite decide_False by tauto. done.
  - rewrite bool_decide_false by tauto. rewrite (bool_decide_true (p <> u "..")) by tauto. simpl.
    rewrite decide_True by done. rewrite reverse_cons, <- app_assoc. done.
Qed.

Lemma normpath_plain s :
  startswith [SEP] s = true -> existsb dotted (split_sep s) = false ->
  normpath s = replicate (initial_slashes s) SEP ++ join [SEP] (filter (fun p => p <> []) (split_sep s)).
Proof.
  intros Hs Hd. destruct s as [|c t]; [done|].
  unfold startswith in Hs. bools. simpl in Hs. injection Hs as ->.
  assert (initial_slashes (SEP :: t) <> O) as Hn by (unfold initial_slashes; repeat case_match; done).
  unfold normpath. rewrite bool_decide_false by done. rewrite (bool_decide_true (_ <> O)) by done.
  rewrite norm_plain by done. rewrite app_nil_r, reverse_involutive.
  rewrite bool_decide_false; [done|]. destruct (initial_slashes (SEP :: t)); done.
Qed.

Lemma filter_id (l : list pystr) : Forall (fun p => p <> []) l -> filter (fun p => p <> []) l = l.
Proof. induction 1 as [|p l Hp _ IH]; [done|]. rewrite filter_cons, decide_True, IH; done. Qed.
(** ** Which texts are accepted *)

Lemma startswith_spec p s : startswith p s = true <-> exists t, s = p ++ t.
Proof.
  unfold startswith. rewrite bool_decide_eq_true. split.
  - intros H. exists (drop (length p) s). rewrite <- H at 1. symmetry. apply take_drop.
  - intros (t & ->). by rewrite take_app_length.
Qed.

Definition rest_of (segs : list pystr) : pystr :=
  match segs with [] => [] | _ => SEP :: join [SEP] segs end.

Lemma path_of_cons r segs : path_of (r :: segs) = SEP :: r ++ rest_of segs.
Proof. unfold path_of, rest_of. destruct segs; simpl; [by rewrite app_nil_r|done]. Qed.

(** A first segment decides which root a path is under. *)
Lemma under_first name r segs :
  SEP ∉ name -> SEP ∉ r -> under (SEP :: name) (path_of (r :: segs)) = true <-> r = name.
Proof.
  intros Hn Hr. rewrite path_of_cons. unfold under. rewrite orb_true_iff, bool_decide_eq_true, startswith_spec.
  unfold rest_of. split.
  - intros [H|(t & H)].
    + injection H as H. destruct segs as [|s segs]; [by rewrite app_nil_r in H|]. exfalso. apply Hn.
      rewrite <- H. set_solver.
    + simpl in H. injection H as H. rewrite <- app_assoc in H. simpl in H.
      destruct segs as [|s segs].
      * exfalso. apply Hr. rewrite app_nil_r in H. rewrite H. set_solver.
      * by apply split_first in H as [? _].
  - intros ->. destruct segs as [|s segs]; [left; by rewrite app_nil_r|].
    right. exists (join [SEP] (s :: segs)). simpl. by rewrite <- app_assoc.
Qed.

Lemma roots_names : ROOTS = (fun n => SEP :: u n) <$> ["artifacts"; "workspace"; "memory"; "skills"]%string.
Proof. vm_compute. done. Qed.

Definition names : list string := ["artifacts"; "workspace"; "memory"; "skills"]%string.

Lemma names_free n : n ∈ names -> SEP ∉ u n.
Proof. intros H. unfold names in H. repeat (apply elem_of_cons in H as [->|H]; [decided|]). by apply elem_of_nil in H. Qed.

Lemma under_roots r segs :
  SEP ∉ r -> existsb (fun root => under root (path_of (r :: segs))) ROOTS = true <-> r ∈ u <$> names.
Proof.
  intros Hr. rewrite roots_names. fold names. rewrite existsb_exists. split.
  - intros (root & Hin%list_elem_of_In & Hu). apply list_elem_of_fmap in Hin as (n & -> & Hn).
    apply under_first in Hu as ->; [|by apply names_free|done]. by apply list_elem_of_fmap_2.
  - intros H. apply list_elem_of_fmap in H as (n & -> & Hn). exists (SEP :: u n).
    split; [apply list_elem_of_In; by apply (list_elem_of_fmap_2 (fun n => SEP :: u n))|].
    apply under_first; [by apply names_free..|done].
Qed.

(** Nothing under a root starts with two slashes. *)
Lemma under_single s : existsb (fun root => under root s) ROOTS = true -> initial_slashes s = 1%nat.
Proof.
  rewrite roots_names. intros H. apply existsb_exists in H as (root & Hin%list_elem_of_In & Hu).
  apply list_elem_of_fmap in Hin as (n & -> & Hn).
  assert (exists c t, s = SEP :: c :: t /\ (c =? SEP)%N = false) as (c & t & -> & Hc).
  { unfold under in Hu. rewrite orb_true_iff, bool_decide_eq_true, startswith_spec in Hu.
    repeat (apply elem_of_cons in Hn as [->|Hn]; [destruct Hu as [->|(t & ->)]; vm_compute; eauto|]).
    by apply elem_of_nil in Hn. }
  apply N.eqb_neq in Hc. unfold initial_slashes. repeat case_match; done.
Qed.

Lemma join_nil (l : list pystr) : Forall (fun p => p <> []) l -> join [SEP] l = [] -> l = [].
Proof. intros H E. destruct l as [|p [|q l]]; [done|..]; simpl in E; apply Forall_cons in H as [H _]; [done|].
  by destruct p. Qed.

Lemma normal_parts t :
  initial_slashes (SEP :: t) = 1%nat -> t <> [] -> existsb dotted (split_sep (SEP :: t)) = false ->
  normpath (SEP :: t) = SEP :: t -> Forall (fun p => p <> []) (split_sep t).
Proof.
  intros H1 Ht Hd HN. rewrite normpath_plain, H1 in HN by done.
  change (split_sep (SEP :: t)) with ([] :: split_sep t) in HN.
  rewrite filter_cons, decide_False in HN by tauto. simpl in HN. injection HN as HN.
  set (l := filter (fun p : pystr => p <> []) (split_sep t)) in *.
  assert (Forall (fun p => p <> []) l) as Hne
    by (apply Forall_forall; intros p Hp; by apply list_elem_of_filter in Hp as [? _]).
  assert (l <> []) as Hl by (intros E; rewrite E in HN; by destruct t).
  assert (Forall (fun p => SEP ∉ p) l) as Hf.
  { apply Forall_forall. intros p Hp. apply list_elem_of_filter in Hp as [_ Hp].
    revert p Hp. apply Forall_forall, split_free. }
  rewrite <- HN, split_join; done.
Qed.

Lemma elem_join c (l : list pystr) : c ∈ join [SEP] l -> c = SEP \/ exists p, p ∈ l /\ c ∈ p.
Proof.
  induction l as [|p [|q l] IH]; intros H; [by apply elem_of_nil in H|..].
  - right. exists p. split; [left|done].
  - change (c ∈ p ++ SEP :: join [SEP] (q :: l)) in H.
    apply elem_of_app in H as [H|H]; [right; exists p; split; [left|done]|].
    apply elem_of_cons in H as [->|H]; [by left|].
    destruct (IH H) as [->|(p' & Hp & Hc)]; [by left|]. right. exists p'. split; [by right|done].
Qed.

Lemma join_elem c p (l : list pystr) : p ∈ l -> c ∈ p -> c ∈ join [SEP] l.
Proof.
  intros Hp Hc. induction l as [|q [|q' l] IH]; [by apply elem_of_nil in Hp|..].
  - by apply list_elem_of_singleton in Hp as ->.
  - change (c ∈ q ++ SEP :: join [SEP] (q' :: l)). apply elem_of_app.
    apply elem_of_cons in Hp as [->|Hp]; [by left|]. right. right. by apply IH.
Qed.

(** What [canonical_path] checks of a text, as one boolean. *)
Definition passes (v : pystr) : bool :=
  startswith [SEP] v && negb (bool_decide (0%N ∈ v) || bool_decide (92%N ∈ v)) && (Zlen v <=? MAX_PATH_CHARS)
  && negb (existsb dotted (split_sep v)) && bool_decide (normpath v = v) && negb (bool_decide (v = [SEP]))
  && existsb (fun root => under root v) ROOTS.

Lemma canonical_passes repr raw p :
  canonical_path repr raw false = Return p <->
  p = strip (py_str repr (py_or raw (PStr []))) /\ passes p = true.
Proof.
  unfold canonical_path, passes. set (v := strip _). rewrite Z.ltb_antisym.
  destruct (startswith [SEP] v) eqn:E1; cbn [negb]; [|split; [done|intros [-> H]; by rewrite E1 in H]].
  destruct (bool_decide (0%N ∈ v) || bool_decide (92%N ∈ v)) eqn:E2; cbn [negb];
    [split; [done|intros [-> H]; by rewrite E1, E2 in H]|].
  destruct (Zlen v <=? MAX_PATH_CHARS) eqn:E3; cbn [negb]; [|split; [done|intros [-> H]; by rewrite E1, E2, E3 in H]].
  destruct (existsb dotted (split_sep v)) eqn:E4; cbn [negb]; [split; [done|intros [-> H]; by rewrite E1, E2, E3, E4 in H]|].
  destruct (decide (normpath v = v)) as [E5|E5].
  2:{ rewrite bool_decide_true by done. split; [done|intros [-> H]].
      by rewrite E1, E2, E3, E4, (bool_decide_false (normpath v = v)) in H. }
  rewrite bool_decide_false by (intros ?; done). rewrite E5.
  destruct (bool_decide (v = [SEP])) eqn:E6; [split; [done|intros [-> H]; bools; done]|].
  destruct (existsb (fun root => under root v) ROOTS) eqn:E7; cbn [negb].
  - split; [intros H; injection H as H; subst p|by intros [-> _]]. split; [done|].
    by rewrite E1, E2, E3, E4, E6, E7, (bool_decide_true (normpath v = v)).
  - split; [done|intros [-> H]]. bools. congruence.
Qed.

Lemma vfs_segments root segs :
  root ∈ u <$> names -> Forall segment segs -> Forall segment (root :: segs).
Proof.
  intros Hr Hs. constructor; [|done]. apply list_elem_of_fmap in Hr as (n & -> & Hn). unfold names in Hn.
  repeat (apply elem_of_cons in Hn as [->|Hn]; [repeat split; decided|]). by apply elem_of_nil in Hn.
Qed.

Lemma passes_path v : passes v = true -> vfs_path v.
Proof.
  unfold passes. rewrite !andb_true_iff, !negb_true_iff, Z.leb_le.
  intros [[[[[[E1 E2] E3] E4] E5%bool_decide_eq_true] E6%bool_decide_eq_false] E7].
  apply orb_false_iff in E2 as [E2%bool_decide_eq_false E2'%bool_decide_eq_false].
  destruct v as [|c t]; [done|]. apply startswith_spec in E1 as (t' & E1). simpl in E1. injection E1 as -> <-.
  assert (t <> []) as Ht by (intros ->; done).
  pose proof (normal_parts t (under_single _ E7) Ht E4 E5) as Hne.
  pose proof (split_free t) as Hf. pose proof (join_split t) as Hj.
  destruct (split_sep t) as [|r segs] eqn:Hsp; [by destruct t; simpl in Hsp; repeat case_match|].
  assert (SEP :: t = path_of (r :: segs)) as Hp by (unfold path_of; by rewrite Hj).
  exists r, segs. split; [done|]. apply Forall_cons in Hf as [Hr Hf]. split; [|split; [|done]].
  - apply (under_roots r segs); [done|]. by rewrite <- Hp.
  - apply Forall_forall. intros s Hs. apply Forall_cons in Hne as [_ Hne].
    assert (s ∈ split_sep t) as Hin by (rewrite Hsp; by right).
    assert (dotted s = false) as Hd.
    { apply not_true_iff_false. intros Hd. apply not_true_iff_false in E4. apply E4.
      apply existsb_exists. exists s. split; [|done]. right. by apply list_elem_of_In. }
    apply bool_decide_eq_false in Hd. rewrite Forall_forall in Hne, Hf. split; [by apply Hne|]. split; [by apply Hf|].
    assert (forall c, c ∈ s -> c ∈ SEP :: t) as Hup.
    { intros c Hc. right. rewrite <- Hj. apply (join_elem c s); [by right|done]. }
    split; [by intros ?%Hup|]. split; [by intros ?%Hup|]. tauto.
Qed.

Lemma path_passes v : vfs_path v -> passes v = true.
Proof.
  intros (r & segs & Hv & Hr & Hs & Hlen).
  pose proof (vfs_segments r segs Hr Hs) as Hall. rewrite Forall_forall in Hall.
  assert (SEP ∉ r) as Hrf by (apply (Hall r); left).
  assert (Forall (fun p => SEP ∉ p) (r :: segs)) as Hf by (apply Forall_forall; intros s ?%Hall; apply H).
  assert (split_sep v = [] :: r :: segs) as Hsp.
  { rewrite Hv. unfold path_of. change (split_sep (SEP :: ?t)) with ([] :: split_sep t). by rewrite split_join. }
  assert (existsb (fun root => under root v) ROOTS = true) as E7 by (rewrite Hv; by apply under_roots).
  assert (startswith [SEP] v = true) as E1 by (apply startswith_spec; exists (join [SEP] (r :: segs)); by rewrite Hv).
  assert (existsb dotted (split_sep v) = false) as E4.
  { apply not_true_iff_false. rewrite existsb_exists, Hsp. intros (s & Hin%list_elem_of_In & Hd%bool_decide_eq_true).
    apply elem_of_cons in Hin as [->|Hin]; [by destruct Hd|]. destruct (Hall s Hin) as (_ & _ & _ & _ & ? & ?). tauto. }
  assert (forall c, c <> SEP -> c ∈ v -> exists s, s ∈ r :: segs /\ c ∈ s) as Hin.
  { intros c Hc Hcv. rewrite Hv in Hcv. apply elem_of_cons in Hcv as [?|Hcv]; [done|].
    by apply elem_join in Hcv as [?|?]. }
  unfold passes. rewrite !andb_true_iff, !negb_true_iff, Z.leb_le, orb_false_iff, !bool_decide_eq_false, bool_decide_eq_true.
  repeat split; try done.
  - intros Hc. destruct (Hin 0%N ltac:(done) Hc) as (s & Hsin & Hc'). by destruct (Hall s Hsin) as (_ & _ & ? & _).
  - intros Hc. destruct (Hin 92%N ltac:(done) Hc) as (s & Hsin & Hc'). by destruct (Hall s Hsin) as (_ & _ & _ & ? & _).
  - rewrite normpath_plain, (under_single v E7), Hsp by done. rewrite filter_cons, decide_False by tauto.
    rewrite filter_id; [by rewrite Hv|]. apply Forall_forall. intros s ?%Hall. apply H.
  - rewrite Hv, path_of_cons. intros H. injection H as H. apply app_eq_nil in H as [-> _].
    by destruct (Hall [] ltac:(left)).
Qed.

Lemma canonical_iff repr raw p :
  canonical_path repr raw false = Return p <-> p = strip (py_str repr (py_or raw (PStr []))) /\ vfs_path p.
Proof. rewrite canonical_passes. split; intros [? ?]; split; auto using passes_path, path_passes. Qed.

(** With the root allowed, the root is the only other result. *)
Lemma canonical_root repr raw p : canonical_path repr raw true = Return p -> p = [SEP] \/ vfs_path p.
Proof.
  intros H. destruct (decide (p = [SEP])) as [|Hne]; [by left|]. right.
  apply (canonical_iff repr raw p). revert H. unfold canonical_path.
  destruct (negb (startswith _ _)); [done|]. destruct (bool_decide _ || _); [done|].
  destruct (_ <? _); [done|]. destruct (existsb _ _); [done|]. destruct (bool_decide (_ <> _)); [done|].
  destruct (decide (normpath (strip (py_str repr (py_or raw (PStr [])))) = [SEP])) as [E|E].
  - rewrite bool_decide_true by done. rewrite E. intros [= <-]. done.
  - by rewrite bool_decide_false.
Qed.

(** ** Stripping again changes nothing *)

Lemma lstrip_idem s : lstrip (lstrip s) = lstrip s.
Proof. induction s as [|c s IH]; simpl; [done|]. destruct (is_space c) eqn:E; [done|]. simpl. by rewrite E. Qed.

Lemma strip_path v p : p = strip v -> vfs_path p -> strip p = p.
Proof.
  intros Hp (r & segs & Hv & _). unfold strip in *.
  assert (lstrip p = p) as ->.
  { rewrite Hv. unfold path_of. done. }
  rewrite Hp. unfold rstrip. by rewrite !reverse_involutive, lstrip_idem.
Qed.

Lemma canonical_again repr raw p :
  canonical_path repr raw false = Return p -> canonical_path repr (PStr p) false = Return p.
Proof.
  rewrite !canonical_iff. intros [Hp Hv]. split; [|done].
  assert (truthy (PStr p) = true) as Ht.
  { destruct Hv as (r & segs & -> & _). unfold path_of. simpl. done. }
  unfold py_or. rewrite Ht. symmetry. by eapply strip_path.
Qed.

(** ** Paths a model may change *)

Lemma prefix_first name r segs :
  SEP ∉ name -> SEP ∉ r ->
  startswith ((SEP :: name) ++ [SEP]) (path_of (r :: segs)) = true <-> r = name /\ segs <> [].
Proof.
  intros Hn Hr. rewrite startswith_spec, path_of_cons. unfold rest_of. split.
  - intros (t & H). simpl in H. injection H as H. rewrite <- app_assoc in H. simpl in H.
    destruct segs as [|s segs].
    + exfalso. apply Hr. rewrite app_nil_r in H. rewrite H. set_solver.
    + by apply split_first in H as [? _].
  - intros [-> Hs]. destruct segs as [|s segs]; [done|]. exists (join [SEP] (s :: segs)).
    simpl. by rewrite <- app_assoc.
Qed.

Lemma path_of_inj l k :
  l <> [] -> k <> [] -> Forall (fun p => SEP ∉ p) l -> Forall (fun p => SEP ∉ p) k -> path_of l = path_of k -> l = k.
Proof. intros Hl Hk Fl Fk H. injection H as H. by rewrite <- (split_join l), <- (split_join k), H. Qed.

Lemma first_eq r segs r' segs' :
  SEP ∉ r -> SEP ∉ r' -> path_of (r :: segs) = path_of (r' :: segs') -> r = r' /\ (segs = [] <-> segs' = []).
Proof.
  intros Hr Hr' H. rewrite !path_of_cons in H. injection H as H. unfold rest_of in H.
  destruct segs as [|s segs], segs' as [|s' segs']; rewrite ?app_nil_r in H.
  - done.
  - exfalso. apply Hr. rewrite H. set_solver.
  - exfalso. apply Hr'. rewrite <- H. set_solver.
  - by apply (split_first SEP) in H as [-> _].
Qed.

Lemma free_of segs : Forall segment segs -> Forall (fun p => SEP ∉ p) segs.
Proof. intros H. eapply Forall_impl; [exact H|]. intros s Hs. apply Hs. Qed.

Lemma not_read_only r segs :
  SEP ∉ r -> existsb (fun root => under root (path_of (r :: segs))) READ_ONLY_ROOTS = true <->
  r = u "artifacts" \/ r = u "skills".
Proof.
  intros Hr. unfold READ_ONLY_ROOTS. cbn [existsb]. rewrite orb_false_r, orb_true_iff.
  change ARTIFACTS_ROOT with (SEP :: u "artifacts"). change SKILLS_ROOT with (SEP :: u "skills").
  rewrite !under_first; [done|decided|done|decided|done].
Qed.

Lemma assert_writable_iff p : vfs_path p -> assert_model_writable p = Return tt <-> writable p.
Proof.
  intros (r & segs & Hv & Hr & Hs & _). pose proof (vfs_segments r segs Hr Hs) as Hall.
  pose proof (free_of _ Hall) as Hf. pose proof Hf as [Hrf _]%Forall_cons.
  assert (Forall (fun s => SEP ∉ s) [u "memory"; u "WORKING.md"]) as Hm by decided.
  assert (p = WORKING_MEMORY_PATH <-> r :: segs = [u "memory"; u "WORKING.md"]) as HW.
  { change WORKING_MEMORY_PATH with (path_of [u "memory"; u "WORKING.md"]). rewrite Hv.
    split; [apply path_of_inj; done|by intros ->]. }
  assert (writable p <-> r :: segs = [u "memory"; u "WORKING.md"] \/ (r = u "workspace" /\ segs <> [])) as ->.
  { unfold writable. rewrite HW. split; intros [?|H]; [by left| |by left|].
    - right. destruct H as (s & ss & H). rewrite Hv in H.
      apply first_eq in H as [-> H]; [split; [done|by intros ?%H]|done|decided].
    - right. destruct H as [-> H]. destruct segs as [|s ss]; [done|]. by exists s, ss. }
  unfold assert_model_writable, kind_for_path. rewrite Hv.
  destruct (existsb _ READ_ONLY_ROOTS) eqn:Ero.
  { apply not_read_only in Ero; [|done]. split; [done|]. intros [[= -> ->]|[-> _]]; destruct Ero as [H|H]; vm_compute in H; discriminate. }
  assert (~ (r = u "artifacts" \/ r = u "skills")) as Hro by (rewrite <- not_read_only, Ero; done).
  pose proof (fun name Hn => prefix_first name r segs Hn Hrf) as Hpre.
  change ARTIFACTS_ROOT with (SEP :: u "artifacts"). change SKILLS_ROOT with (SEP :: u "skills").
  change WORKSPACE_ROOT with (SEP :: u "workspace").
  destruct (startswith _ (path_of (r :: segs))) eqn:Ea at 1; [apply Hpre in Ea; [tauto|decided]|].
  destruct (startswith ((SEP :: u "workspace") ++ _) _) eqn:Ew; [apply Hpre in Ew; [|decided]; split; [by right|done]|].
  rewrite <- Hv. destruct (decide (p = WORKING_MEMORY_PATH)) as [HWp|HWp].
  { rewrite bool_decide_true by done. split; [intros _; left; by apply HW|done]. }
  rewrite bool_decide_false by done. rewrite Hv.
  destruct (startswith ((SEP :: u "skills") ++ _) _) eqn:Es; [apply Hpre in Es; [tauto|decided]|].
  split; [done|]. intros [H|H]; [by apply HW in H|].
  exfalso. apply not_true_iff_false in Ew. apply Ew. apply Hpre; [decided|done].
Qed.

Lemma writable_iff repr raw p :
  model_writable_path repr raw = Return p <->
  p = strip (py_str repr (py_or raw (PStr []))) /\ vfs_path p /\ writable p.
Proof.
  unfold model_writable_path. rewrite bind_return. setoid_rewrite bind_return. split.
  - intros (p' & Hc & [] & Ha & [= <-]). apply canonical_iff in Hc as [Hp Hv].
    split; [done|]. split; [done|]. by apply assert_writable_iff.
  - intros (Hp & Hv & Hw). exists p. split; [by apply canonical_iff|].
    exists tt. split; [by apply assert_writable_iff|done].
Qed.

Lemma writable_again repr raw p :
  model_writable_path repr raw = Return p -> model_writable_path repr (PStr p) = Return p.
Proof.
  intros H. pose proof H as (Hp & Hv & Hw)%writable_iff. apply writable_iff. split; [|done].
  assert (canonical_path repr raw false = Return p) as Hc by by apply canonical_iff.
  by apply canonical_again, canonical_iff in Hc as [? _].
Qed.

Lemma writable_kind p :
  vfs_path p -> writable p -> exists k, kind_for_path p = Return k /\ (k = workspace \/ k = working_memory).
Proof.
  intros Hv Hw. apply assert_writable_iff in Hw; [|done]. destruct Hv as (r & segs & Hp & Hr & Hs & _).
  pose proof (free_of _ (vfs_segments r segs Hr Hs)) as [Hrf _]%Forall_cons.
  unfold assert_model_writable in Hw. destruct (existsb _ _) eqn:Ero; [done|].
  assert (~ (r = u "artifacts" \/ r = u "skills")) as Hro.
  { rewrite <- (not_read_only r segs Hrf), <- Hp, Ero. done. }
  apply bind_return in Hw as (k & Hk & _). exists k. split; [done|]. unfold kind_for_path in Hk. rewrite Hp in Hk.
  change ARTIFACTS_ROOT with (SEP :: u "artifacts") in Hk. change SKILLS_ROOT with (SEP :: u "skills") in Hk.
  destruct (startswith ((SEP :: u "artifacts") ++ _) _) eqn:Ea; [apply prefix_first in Ea; [tauto|decided|done]|].
  destruct (startswith (WORKSPACE_ROOT ++ _) _); [injection Hk as <-; by left|].
  destruct (bool_decide _); [injection Hk as <-; by right|].
  destruct (startswith ((SEP :: u "skills") ++ _) _) eqn:Es; [apply prefix_first in Es; [tauto|decided|done]|done].
Qed.

(** C27: the path rules accept exactly the well-formed names. A name is canonical
    iff, stripped, it is a chain of non-empty segments without separators, NUL,
    backslash or dot segments inside one of the four namespaces and within 512
    characters (two leading slashes, which POSIX normalisation keeps, included
    in what is refused); a model may change it iff moreover it is the working
    memory file or lies strictly inside the workspace namespace. An accepted name
    is a fixed point of the check and has a writable kind. *)
Theorem path_rules_exact repr raw p :
  let text := strip (py_str repr (py_or raw (PStr []))) in
  (canonical_path repr raw false = Return p <-> p = text /\ vfs_path p) /\
  (model_writable_path repr raw = Return p <-> p = text /\ vfs_path p /\ writable p) /\
  (model_writable_path repr raw = Return p ->
     model_writable_path repr (PStr p) = Return p /\
     exists k, kind_for_path p = Return k /\ (k = workspace \/ k = working_memory)).
Proof.
  cbv zeta. split; [apply canonical_iff|]. split; [apply writable_iff|].
  intros H. split; [by eapply writable_again|].
  apply writable_iff in H as (_ & Hv & Hw). by apply writable_kind.
Qed.

(** A padded name is accepted without its padding. *)
Lemma path_rules_exact_witness :
  model_writable_path (fun _ => []) (PStr (u "/workspace/a/b.md")) = Return (u "/workspace/a/b.md") /\
  vfs_path (u "/workspace/a/b.md").
Proof.
  assert (model_writable_path (fun _ => []) (PStr (u " /workspace/a/b.md ")) = Return (u "/workspace/a/b.md")) as H
    by (vm_compute; reflexivity).
  destruct (path_rules_exact (fun _ => []) (PStr (u " /workspace/a/b.md ")) (u "/workspace/a/b.md")) as (_ & Hw & Hf).
  split; [exact (proj1 (Hf H))|]. exact (proj1 (proj2 (proj1 Hw H))).
Defined.

Example double_slash_refused : canonical_path (fun _ => []) (PStr (u "//workspace/a")) false = Raise WorkspaceInvalidPath.
Proof. vm_compute. reflexivity. Qed.
Example double_slash_normal : normpath (u "//workspace/a") = u "//workspace/a".
Proof. vm_compute. reflexivity. Qed.
End WPath.
