(* ===== verification/DispatchSafety.v ===== *)
(** * What the dispatch of a round guarantees

    Every call is answered under its own id and in order; the effects enqueued are writes of
    the round in provider order, each past every gate; the model is told a write is queued
    exactly when it is; and only a hook of the caller can fail the round. *)

From S2P Require Import Prelude PyValue ResultBudget PromptEstimate WorkspacePath ToolDispatch.
Import Estimate Dispatch.
Local Open Scope Z_scope.

Module DispatchSafety.

Definition flat (tr : list effect) : list ToolCall := concat (effect_calls <$> tr).

Lemma flat_app a b : flat (a ++ b) = flat a ++ flat b.
Proof. unfold flat. by rewrite fmap_app, concat_app. Qed.

Lemma flat_single tc : flat [SingleEffect tc] = [tc].
Proof. reflexivity. Qed.

Lemma flat_batch run : flat [BatchEffect run] = run.
Proof. unfold flat. cbn. apply app_nil_r. Qed.

(** A refusal is not the answer of a queued write. *)
Ltac not_queued := let H := fresh in intros H; apply (f_equal (take 1)) in H; vm_compute in H; discriminate H.

Lemma gate_reason n au args reason tc : write_gate n au args = Return (false, reason) -> reason <> queued tc.
Proof.
  unfold write_gate. destruct (negb _); [done|]. destruct (_ && _); [intros [= <-]; not_queued|].
  intros ([] & _ & H)%bind_return; [injection H as <-; not_queued|].
  destruct (turn_authorization au); [done|]. injection H as <-. not_queued.
Qed.

(** What the gate lets through. *)
Definition may_write (au : authorization) (n : pystr) (args : pyval) : Prop :=
  turn_authorization au = true /\
  (identity_write n = true -> identity_write_authorization au = true) /\
  (n = u "memory_write" -> memory_delete_authorization au = false ->
   exists actions, arg (py_or args (PDict [])) "actions" = Return actions /\ deletes actions = Return false).

Lemma gate_allows n au args x : is_write n = true -> write_gate n au args = Return (true, x) -> may_write au n args.
Proof.
  intros Hw. unfold write_gate. rewrite Hw. cbn [negb].
  destruct (identity_write n && negb (identity_write_authorization au)) eqn:Ei; [done|].
  intros ([] & Hd & H)%bind_return; [done|]. destruct (turn_authorization au) eqn:Et; [|done]. split; [done|].
  split.
  - intros Hi. rewrite Hi in Ei. cbn in Ei. by destruct (identity_write_authorization au).
  - intros -> Hm. unfold refused_delete in Hd. rewrite bool_decide_true, Hm in Hd by done. cbn [negb andb] in Hd.
    apply bind_return in Hd as (a & Ha & Hd). by exists a.
Qed.

Definition ids (l : list ToolCall) : list pystr := call_id <$> l.

Section Round.
Context (repr : pyval -> pystr).
Context (validate : pystr -> pyval -> option pystr) (days_error : pyval -> option pystr).
Context (read : ToolCall -> ToolResult).
Context (Hread : forall tc, result_call_id (read tc) = call_id tc).
Context (au : authorization) (h : hooks).

Abbreviation classify := (Dispatch.classify repr validate au).
Abbreviation classify_all := (Dispatch.classify_all repr validate au).
Abbreviation write_single := (Dispatch.write_single days_error au h).
Abbreviation write_loop := (Dispatch.write_loop days_error au h).
Abbreviation gate tc := (write_gate (call_name tc) au (call_args tc)).

(** Results are filed under their own ids. *)
Definition keyed (st : dispatch_state) : Prop :=
  forall k r, results_by_id st !! k = Some r -> result_call_id r = k.

Definition answered (st : dispatch_state) (tc : ToolCall) : Prop := is_Some (results_by_id st !! call_id tc).

(** Nothing already answered is lost. *)
Definition grows (st st' : dispatch_state) : Prop :=
  (keyed st -> keyed st') /\ forall k, is_Some (results_by_id st !! k) -> is_Some (results_by_id st' !! k).

#[local] Instance grows_preorder : PreOrder grows.
Proof. split; [by split|]. intros a b c [H1 H2] [H3 H4]. split; auto. Qed.

Lemma grows_record r st : grows st (record_result r st).
Proof.
  unfold record_result. split; cbn [results_by_id].
  - intros Hk k r'. cbn [results_by_id]. rewrite lookup_insert_Some. intros [[<- <-]|[_ H]]; [done|by apply Hk].
  - intros k Hk. destruct (decide (result_call_id r = k)) as [<-|Hne];
      [rewrite lookup_insert_eq; by eexists|by rewrite lookup_insert_ne].
Qed.

Lemma answered_record r st tc : result_call_id r = call_id tc -> answered (record_result r st) tc.
Proof. intros E. unfold answered, record_result. cbn [results_by_id]. rewrite E, lookup_insert_eq. by eexists. Qed.

Lemma answered_grows st st' tc : grows st st' -> answered st tc -> answered st' tc.
Proof. intros [_ H]. apply H. Qed.

Lemma grows_effect e st : grows st (add_effect e st).
Proof. by split. Qed.

(** ** The first loop *)

(** A write past every check that precedes the gate. *)
Definition valid_write (tc : ToolCall) : Prop :=
  call_args_ok tc = true /\ is_write (call_name tc) = true /\
  text_error (validate (call_name tc) (call_args tc)) = None /\
  workspace_mutation_path_error repr (call_name tc) (call_args tc) = Return None.

Lemma classify_write tc : classify tc = Return WriteCall -> valid_write tc.
Proof using Type.
  unfold Dispatch.classify. destruct (call_args_ok tc) eqn:Ea; [|done]. cbn [negb].
  destruct (negb (is_read _) && negb (is_write _)) eqn:Eu; [done|].
  destruct (text_error _) as [e|] eqn:Ev; [done|].
  destruct (bool_decide (call_name tc ∈ HISTORY_TOOL_NAMES) && _); [done|].
  destruct (is_read (call_name tc)) eqn:Er; [done|]. intros ([e|] & He & H)%bind_return; [done|].
  split; [done|]. split; [|done]. cbn in Eu. by destruct (is_write (call_name tc)).
Qed.

(** An answer given at once is no queued write. *)
Lemma classify_answer tc content : classify tc = Return (Answered content) -> content <> queued tc.
Proof using Type.
  unfold Dispatch.classify. destruct (negb (call_args_ok tc)); [intros [= <-]; not_queued|].
  destruct (negb (is_read _) && _); [intros [= <-]; not_queued|].
  destruct (text_error _) as [e|].
  { intros [= <-]. unfold invalid_args. case_bool_decide; not_queued. }
  destruct (bool_decide (call_name tc ∈ HISTORY_TOOL_NAMES) && _); [intros [= <-]; not_queued|].
  destruct (is_read _); [done|].
  intros ([e|] & He & H)%bind_return; [|done]. injection H as <-. not_queued.
Qed.

(** What the first loop leaves: the reads and writes in order, the others answered. *)
Record sorted_calls (calls : list ToolCall) (st st' : dispatch_state) (rs ws : list ToolCall) : Prop := mkSorted {
  sc_grows : grows st st';
  sc_effects : enqueued st' = enqueued st;
  sc_reads : rs `sublist_of` calls;
  sc_writes : ws `sublist_of` calls;
  sc_valid : Forall valid_write ws;
  sc_readers : Forall (fun tc => is_read (call_name tc) = true) rs;
  sc_rest : forall tc, tc ∈ calls -> tc ∈ rs \/ tc ∈ ws \/ answered st' tc;
  sc_kept : forall k, k ∉ ids calls -> results_by_id st' !! k = results_by_id st !! k;
  sc_answers : NoDup (ids calls) -> forall tc, tc ∈ calls -> tc ∉ ws -> tc ∉ rs ->
    exists r, results_by_id st' !! call_id tc = Some r /\ result_content r <> queued tc;
}.
Lemma sorted_nil st : sorted_calls [] st st [] [].
Proof using Type.
  split; try done; try (by constructor); try reflexivity; intros; by match goal with H : _ ∈ [] |- _ => apply not_elem_of_nil in H end.
Qed.

(** The call's own id is not that of a later call. *)
Lemma ids_cons_nodup tc calls : NoDup (ids (tc :: calls)) -> call_id tc ∉ ids calls /\ NoDup (ids calls).
Proof using Type. apply NoDup_cons. Qed.

Lemma sorted_answered tc content calls st st' rs ws :
  classify tc = Return (Answered content) -> sorted_calls calls (answer tc content st) st' rs ws ->
  sorted_calls (tc :: calls) st st' rs ws.
Proof using Type.
  intros Hc [H1 H2 H3 H4 H5 H6 H7 H8 H9]. split; try done.
  - etransitivity; [apply grows_record|exact H1].
  - by apply sublist_cons.
  - by apply sublist_cons.
  - intros x [->|Hx]%elem_of_cons; [|by apply H7]. right; right. eapply answered_grows; [exact H1|]. by apply answered_record.
  - intros k Hk. apply not_elem_of_cons in Hk as [Hk1 Hk2]. rewrite H8 by done. unfold answer, record_result.
    cbn [results_by_id result_call_id]. by rewrite lookup_insert_ne by congruence.
  - intros Hnd x Hx. apply ids_cons_nodup in Hnd as [Hn Hnd]. apply elem_of_cons in Hx as [->|Hx]; [|by apply H9].
    intros _ _. rewrite H8 by done. unfold answer, record_result. cbn [results_by_id result_call_id].
    rewrite lookup_insert_eq. eexists. split; [done|]. cbn [result_content]. by eapply classify_answer.
Qed.

Lemma sorted_read tc calls st st' rs ws :
  is_read (call_name tc) = true -> sorted_calls calls st st' rs ws -> sorted_calls (tc :: calls) st st' (tc :: rs) ws.
Proof using Type.
  intros Hc [H1 H2 H3 H4 H5 H6 H7 H8 H9]. split; try done.
  - by apply sublist_skip.
  - by apply sublist_cons.
  - by constructor.
  - intros x [->|Hx]%elem_of_cons; [left; by left|]. destruct (H7 x Hx) as [?|?]; [left; by right|by right].
  - intros k Hk. apply not_elem_of_cons in Hk as [_ Hk2]. by apply H8.
  - intros Hnd x Hx Hw Hr. apply ids_cons_nodup in Hnd as [_ Hnd]. apply not_elem_of_cons in Hr as [Hne Hr].
    apply elem_of_cons in Hx as [->|Hx]; [done|]. by apply H9.
Qed.

Lemma sorted_write tc calls st st' rs ws :
  valid_write tc -> sorted_calls calls st st' rs ws -> sorted_calls (tc :: calls) st st' rs (tc :: ws).
Proof using Type.
  intros Hc [H1 H2 H3 H4 H5 H6 H7 H8 H9]. split; try done.
  - by apply sublist_cons.
  - by apply sublist_skip.
  - by constructor.
  - intros x [->|Hx]%elem_of_cons; [right; left; by left|].
    destruct (H7 x Hx) as [?|[?|?]]; [by left|right; left; by right|by right; right].
  - intros k Hk. apply not_elem_of_cons in Hk as [_ Hk2]. by apply H8.
  - intros Hnd x Hx Hw Hr. apply ids_cons_nodup in Hnd as [_ Hnd]. apply not_elem_of_cons in Hw as [Hne Hw].
    apply elem_of_cons in Hx as [->|Hx]; [done|]. by apply H9.
Qed.

Lemma classify_read tc : classify tc = Return ReadCall -> is_read (call_name tc) = true.
Proof using Type.
  unfold Dispatch.classify. destruct (negb (call_args_ok tc)); [done|]. destruct (negb (is_read _) && _); [done|].
  destruct (text_error _); [done|]. destruct (bool_decide (call_name tc ∈ HISTORY_TOOL_NAMES) && _); [done|].
  destruct (is_read _); [done|]. by intros ([e|] & He & H)%bind_return.
Qed.

Lemma classify_all_spec calls st reads writes st' reads' writes' :
  classify_all calls st reads writes = Return (st', reads', writes') ->
  exists rs ws, reads' = reads ++ rs /\ writes' = writes ++ ws /\ sorted_calls calls st st' rs ws.
Proof using Type.
  revert st reads writes. induction calls as [|tc calls IH]; intros st reads writes; cbn [Dispatch.classify_all].
  { intros [= <- <- <-]. exists [], []. rewrite !app_nil_r. split; [done|]. split; [done|]. apply sorted_nil. }
  intros (c & Hc & H)%bind_return. destruct c as [content| |]; apply IH in H as (rs & ws & -> & -> & Hs).
  - exists rs, ws. split; [done|]. split; [done|]. by eapply sorted_answered.
  - exists (tc :: rs), ws. rewrite <- app_assoc. split; [done|]. split; [done|].
    apply sorted_read; [by apply classify_read|done].
  - exists rs, (tc :: ws). rewrite <- app_assoc. split; [done|]. split; [done|].
    apply sorted_write; [by apply classify_write|done].
Qed.
(** ** The write loop *)

Definition gated (tc : ToolCall) : Prop := exists x, gate tc = Return (true, x).

Definition is_value_error (e : exn) : bool := match e with ValueError _ => true | _ => false end.

(** A hook raised [e] and it was not answered: a [ValueError] of the call of [enqueue_write_effect] is. *)
Definition hook_raises (e : exn) : Prop :=
  (exists f l tc, before_write h = Some f /\ f l tc = Raise e) \/
  (exists l tc, enqueue_write_effect h l tc = Raise e /\ is_value_error e = false) \/
  (exists l tc, enqueue_write_effect h l tc = Return (Awaitable (Raise e))) \/
  (exists f l run, enqueue_workspace_batch_effect h = Some f /\ f l run = Raise e).

(** The answer of a call tells whether it was queued. *)
Definition told (st : dispatch_state) (tr : list effect) (tc : ToolCall) : Prop :=
  exists r, results_by_id st !! call_id tc = Some r /\ (result_content r = queued tc <-> tc ∈ flat tr).

(** What handling [pending] did, whether it ended or raised. *)
Record wrote (pending : list ToolCall) (st : dispatch_state) (o : option exn) (st' : dispatch_state)
    (tr : list effect) : Prop := mkWrote {
  wr_grows : grows st st';
  wr_effects : enqueued st' = enqueued st ++ tr;
  wr_order : flat tr `sublist_of` pending;
  wr_gated : Forall gated (flat tr);
  wr_kept : forall k, k ∉ ids pending -> results_by_id st' !! k = results_by_id st !! k;
  wr_fail : forall e, o = Some e -> hook_raises e \/ exists tc, tc ∈ pending /\ gate tc = Raise e;
  wr_answered : o = None -> forall tc, tc ∈ pending -> answered st' tc;
  wr_told : o = None -> NoDup (ids pending) -> forall tc, tc ∈ pending -> told st' tr tc;
}.

Lemma wrote_nil st : wrote [] st None st [].
Proof using Type.
  split; try done; try (by constructor); try (by rewrite app_nil_r); try reflexivity;
    intros; by match goal with H : _ ∈ [] |- _ => apply not_elem_of_nil in H end.
Qed.

Lemma wrote_raise pending st e :
  (hook_raises e \/ exists tc, tc ∈ pending /\ gate tc = Raise e) -> wrote pending st (Some e) st [].
Proof using Type.
  intros He. split; try done; try (by rewrite app_nil_r); try (by constructor); [apply sublist_nil_l|]. by intros ? [= <-].
Qed.

Lemma in_ids tc l : tc ∈ l -> call_id tc ∈ ids l.
Proof using Type. intros H. apply list_elem_of_fmap. by exists tc. Qed.

Lemma flat_in tr pending tc : flat tr `sublist_of` pending -> tc ∈ flat tr -> tc ∈ pending.
Proof using Type. intros Hs Ht. by eapply elem_of_sublist. Qed.

Lemma ids_app_nodup a b :
  NoDup (ids (a ++ b)) -> NoDup (ids a) /\ NoDup (ids b) /\ forall tc, tc ∈ a -> call_id tc ∉ ids b.
Proof using Type.
  unfold ids. rewrite fmap_app, NoDup_app. intros (H1 & H2 & H3). split; [done|]. split; [done|].
  intros tc Htc. by apply H2, in_ids.
Qed.

Lemma wrote_app a b st st1 o st2 tr1 tr2 :
  wrote a st None st1 tr1 -> wrote b st1 o st2 tr2 -> wrote (a ++ b) st o st2 (tr1 ++ tr2).
Proof using Type.
  intros [A1 A2 A3 A4 A5 A6 A7 A8] [B1 B2 B3 B4 B5 B6 B7 B8]. split.
  - by etransitivity.
  - by rewrite B2, A2, app_assoc.
  - rewrite flat_app. by apply sublist_app.
  - rewrite flat_app. by apply Forall_app.
  - intros k Hk. unfold ids in Hk. rewrite fmap_app, not_elem_of_app in Hk. destruct Hk. by rewrite B5, A5.
  - intros e He. destruct (B6 e He) as [?|(tc & Htc & Hg)]; [by left|]. right. exists tc.
    split; [|done]. apply elem_of_app. by right.
  - intros He tc [Htc|Htc]%elem_of_app; [|by apply B7]. eapply answered_grows; [exact B1|]. by apply A7.
  - intros He Hnd tc Htc. destruct (ids_app_nodup _ _ Hnd) as (Na & Nb & Nab).
    apply elem_of_app in Htc as [Htc|Htc].
    + destruct (A8 eq_refl Na tc Htc) as (r & Hr & Hiff). exists r. rewrite B5 by (by apply Nab).
      split; [done|]. rewrite flat_app, elem_of_app. split; [tauto|]. intros [?|Hin]; [tauto|].
      exfalso. apply (Nab tc Htc). apply in_ids. by eapply flat_in.
    + destruct (B8 He Nb tc Htc) as (r & Hr & Hiff). exists r. split; [done|].
      rewrite flat_app, elem_of_app. split; [tauto|]. intros [Hin|?]; [|tauto].
      exfalso. apply (Nab tc); [by eapply flat_in|by apply in_ids].
Qed.

(** A call refused while a run is under way. *)
Lemma wrote_refused run tc rest reason st o st' tr :
  reason <> queued tc -> wrote (run ++ rest) (answer tc reason st) o st' tr ->
  wrote (run ++ tc :: rest) st o st' tr.
Proof using Type.
  intros Hreason [A1 A2 A3 A4 A5 A6 A7 A8].
  assert (forall x, x ∈ run ++ tc :: rest -> x = tc \/ x ∈ run ++ rest) as Hsplit.
  { intros x. rewrite !elem_of_app, elem_of_cons. intros [?|[?|?]]; [right; by left|by left|right; by right]. }
  split; try done.
  - etransitivity; [apply grows_record|exact A1].
  - etransitivity; [exact A3|]. apply sublist_app; [done|]. by apply sublist_cons.
  - intros k Hk. unfold ids in Hk. rewrite fmap_app, fmap_cons, not_elem_of_app, not_elem_of_cons in Hk.
    destruct Hk as (H1 & H2 & H3). rewrite A5 by (unfold ids; rewrite fmap_app, not_elem_of_app; done).
    unfold answer, record_result. cbn [results_by_id result_call_id]. rewrite lookup_insert_ne; [done|exact (not_eq_sym H2)].
  - intros e He. destruct (A6 e He) as [?|(x & Hx & Hg)]; [by left|]. right. exists x. split; [|done].
    rewrite elem_of_app, elem_of_cons. apply elem_of_app in Hx as [?|?]; [by left|right; by right].
  - intros He x Hx. destruct (Hsplit x Hx) as [->|Hx']; [|by apply A7].
    eapply answered_grows; [exact A1|]. by apply answered_record.
  - intros He Hnd x Hx. assert (NoDup (ids (tc :: run ++ rest))) as Hnd'.
    { rewrite (fmap_Permutation call_id _ _ (Permutation_middle run rest tc)). exact Hnd. }
    apply ids_cons_nodup in Hnd' as [Hn Hnd']. destruct (Hsplit x Hx) as [->|Hx']; [|by apply A8].
    exists (mkResult (call_id tc) reason PNone). rewrite A5 by done. unfold answer, record_result.
    cbn [results_by_id result_call_id]. rewrite lookup_insert_eq. split; [done|]. split; [done|].
    intros Hin. exfalso. apply Hn, in_ids. by eapply flat_in.
Qed.
(** One call answered, with what became of it. *)
Lemma wrote_answer tc content st tr :
  flat tr `sublist_of` [tc] -> Forall gated (flat tr) -> (content = queued tc <-> tc ∈ flat tr) ->
  wrote [tc] st None (answer tc content (mkDispatch (results_by_id st) (enqueued st ++ tr))) tr.
Proof using Type.
  intros Hs Hg Hiff. split; try done.
  - etransitivity; [|apply grows_record]. by split.
  - intros k Hk. apply not_elem_of_cons in Hk as [Hk _]. unfold answer, record_result.
    cbn [results_by_id result_call_id]. rewrite lookup_insert_ne; [done|exact (not_eq_sym Hk)].
  - intros _ x Hx. apply list_elem_of_singleton in Hx as ->. by apply answered_record.
  - intros _ _ x Hx. apply list_elem_of_singleton in Hx as ->. eexists. unfold answer, record_result.
    cbn [results_by_id result_call_id]. rewrite lookup_insert_eq. split; [done|]. done.
Qed.

Lemma wrote_refusal tc content st :
  content <> queued tc -> wrote [tc] st None (answer tc content st) [].
Proof using Type.
  intros Hne. pose proof (wrote_answer tc content st []) as H. rewrite app_nil_r in H.
  destruct st. apply H; [apply sublist_nil_l|constructor|]. split; [done|]. by intros ?%not_elem_of_nil.
Qed.

Lemma foldl_answers run st :
  let st' := foldl (fun st tc => answer tc (queued tc) st) st run in
  grows st st' /\ enqueued st' = enqueued st /\
  (forall k, k ∉ ids run -> results_by_id st' !! k = results_by_id st !! k) /\
  (forall tc, tc ∈ run -> answered st' tc) /\
  (NoDup (ids run) -> forall tc, tc ∈ run -> exists r, results_by_id st' !! call_id tc = Some r /\ result_content r = queued tc).
Proof using Type.
  revert st. induction run as [|tc run IH]; intros st; cbn [foldl].
  { split; [reflexivity|]. split; [done|]. split; [done|]. split; intros; by match goal with H : _ ∈ [] |- _ => apply not_elem_of_nil in H end. }
  destruct (IH (answer tc (queued tc) st)) as (G & E & K & A & N). split; [|split; [|split; [|split]]].
  - etransitivity; [apply grows_record|exact G].
  - by rewrite E.
  - intros k [Hk1 Hk2]%not_elem_of_cons. rewrite K by done. unfold answer, record_result.
    cbn [results_by_id result_call_id]. rewrite lookup_insert_ne; [done|exact (not_eq_sym Hk1)].
  - intros x [->|Hx]%elem_of_cons; [|by apply A]. eapply answered_grows; [exact G|]. by apply answered_record.
  - intros [Hn Hnd]%ids_cons_nodup x [->|Hx]%elem_of_cons; [|by apply N]. rewrite K by done.
    unfold answer, record_result. cbn [results_by_id result_call_id]. rewrite lookup_insert_eq. by eexists.
Qed.

Lemma flush_wrote enq run st st' o :
  enqueue_workspace_batch_effect h = Some enq -> Forall gated run -> flush_run enq run st = (st', o) ->
  exists tr, wrote run st o st' tr.
Proof using Type.
  intros Henq Hg. unfold flush_run. destruct run as [|tc run]; [intros [= <- <-]; exists []; apply wrote_nil|].
  set (r := tc :: run) in *. clearbody r. destruct (enq (enqueued st) r) as [[]|e] eqn:E.
  - intros [= <- <-]. exists [BatchEffect r].
    destruct (foldl_answers r (add_effect (BatchEffect r) st)) as (G & En & K & A & N). split; try done.
    + by rewrite flat_batch.
    + by rewrite flat_batch.
    + intros _ Hnd x Hx. destruct (N Hnd x Hx) as (res & Hr & Hc). exists res. split; [done|].
      rewrite flat_batch. by split.
  - intros [= <- <-]. exists []. apply wrote_raise. left. right; right; right. by exists enq, (enqueued st), r.
Qed.

Lemma single_wrote tc st st' o :
  write_single tc st = (st', o) -> exists tr, wrote [tc] st o st' tr.
Proof using Type.
  unfold Dispatch.write_single. destruct (gate tc) as [[[] reason]|e] eqn:Eg.
  - destruct (if bool_decide _ then _ else None) as [e|].
    { intros [= <- <-]. exists []. apply wrote_refusal. not_queued. }
    destruct (run_before h st tc) as [[]|e] eqn:Eb.
    + destruct (enqueue_write_effect h (enqueued st) tc) as [v|e] eqn:Ee.
      * destruct (await_hook v) as [[]|e] eqn:Ev.
        2: { destruct v as [|out]; [done|]. cbn in Ev. subst out. intros [= <- <-]. exists []. apply wrote_raise. left. right; right; left.
             by exists (enqueued st), tc. }
        intros [= <- <-]. exists [SingleEffect tc].
        apply (wrote_answer tc (queued tc) st [SingleEffect tc]); rewrite flat_single;
          [done|constructor; [by exists reason|constructor]|]. split; [intros _; by apply list_elem_of_singleton|done].
      * assert (is_value_error e = false -> hook_raises e) as He by (intros ?; right; left; by exists (enqueued st), tc).
        destruct e; intros [= <- <-]; exists []; try (apply wrote_raise; left; by apply He). apply wrote_refusal. not_queued.
    + intros [= <- <-]. exists []. apply wrote_raise. left. left. unfold run_before in Eb.
      destruct (before_write h) as [f|] eqn:Ef; [|done]. by exists f, (enqueued st), tc.
  - intros [= <- <-]. exists []. apply wrote_refusal. by eapply gate_reason.
  - intros [= <- <-]. exists []. apply wrote_raise. right. exists tc. split; [by apply list_elem_of_singleton|done].
Qed.
(** An exception leaves the calls behind it untouched. *)
Lemma wrote_stopped a b st e st' tr : wrote a st (Some e) st' tr -> wrote (a ++ b) st (Some e) st' tr.
Proof using Type.
  intros [A1 A2 A3 A4 A5 A6 A7 A8]. split; try done.
  - etransitivity; [exact A3|]. by apply sublist_inserts_r.
  - intros k Hk. apply A5. unfold ids in *. rewrite fmap_app, not_elem_of_app in Hk. by destruct Hk.
  - intros e' He. destruct (A6 e' He) as [?|(x & Hx & Hgx)]; [by left|]. right. exists x.
    split; [apply elem_of_app; by left|done].
Qed.

Lemma write_loop_wrote run writes st st' o :
  (run = [] \/ is_Some (enqueue_workspace_batch_effect h)) -> Forall gated run ->
  write_loop run writes st = (st', o) -> exists tr, wrote (run ++ writes) st o st' tr.
Proof using Type.
  revert run st. induction writes as [|tc writes IH]; intros run st Hrun Hg; cbn [Dispatch.write_loop];
    destruct (enqueue_workspace_batch_effect h) as [enq|] eqn:Eb.
  - rewrite app_nil_r. by apply flush_wrote.
  - destruct Hrun as [->|[? [=]]]. intros [= <- <-]. exists []. apply wrote_nil.
  - rewrite bool_decide_true by (by eexists). cbn [andb]. destruct (is_workspace_mutation (call_name tc)).
    + destruct (gate tc) as [[[] reason]|e] eqn:Egate.
      * destruct (run_before h st tc) as [[]|e] eqn:Ebef.
        { intros H. apply IH in H; [by rewrite <- app_assoc in H|right; by eexists|].
          apply Forall_app. split; [done|]. constructor; [by exists reason|constructor]. }
        intros [= <- <-]. exists []. apply wrote_raise. left. left. unfold run_before in Ebef.
        destruct (before_write h) as [f|] eqn:Ef; [|done]. by exists f, (enqueued st), tc.
      * intros H. apply IH in H as [tr H]; [|done|done]. exists tr. eapply wrote_refused; [|exact H]. by eapply gate_reason.
      * intros [= <- <-]. exists []. apply wrote_raise. right. exists tc. split; [|done].
        apply elem_of_app. right. by left.
    + destruct (flush_run enq run st) as [st1 o1] eqn:Ef. apply flush_wrote in Ef as [tr1 H1]; [|done|done].
      destruct o1 as [e|].
      { intros [= <- <-]. exists tr1. by apply wrote_stopped. }
      destruct (write_single tc st1) as [st2 o2] eqn:Es. apply single_wrote in Es as [tr2 H2].
      pose proof (wrote_app _ _ _ _ _ _ _ _ H1 H2) as H12. destruct o2 as [e|].
      { intros [= <- <-]. exists (tr1 ++ tr2).
        rewrite (app_assoc run [tc] writes : run ++ tc :: writes = _). by apply wrote_stopped. }
      intros H. apply IH in H as [tr3 H3]; [|by left|constructor]. cbn [app] in H3. exists ((tr1 ++ tr2) ++ tr3).
      rewrite (app_assoc run [tc] writes : run ++ tc :: writes = _). by eapply wrote_app.
  - rewrite bool_decide_false by (by intros [? [=]]). cbn [andb]. destruct Hrun as [->|[? [=]]]. cbn [app].
    destruct (write_single tc st) as [st2 o2] eqn:Es. apply single_wrote in Es as [tr2 H2]. destruct o2 as [e|].
    { intros [= <- <-]. exists tr2. by apply (wrote_stopped [tc]). }
    intros H. apply IH in H as [tr3 H3]; [|by left|constructor]. cbn [app] in H3. exists (tr2 ++ tr3).
    by apply (wrote_app [tc] writes st st2).
Qed.
(** ** The whole round *)

Lemma foldl_reads rs st :
  let st' := foldl (fun st tc => record_result (read tc) st) st rs in
  grows st st' /\ enqueued st' = enqueued st /\
  (forall k, k ∉ ids rs -> results_by_id st' !! k = results_by_id st !! k) /\
  (forall tc, tc ∈ rs -> answered st' tc).
Proof using Hread.
  revert st. induction rs as [|tc rs IH]; intros st; cbn [foldl].
  { split; [reflexivity|]. split; [done|]. split; [done|]. by intros ? ?%not_elem_of_nil. }
  destruct (IH (record_result (read tc) st)) as (G & E & K & A). split; [|split; [|split]].
  - etransitivity; [apply grows_record|exact G].
  - by rewrite E.
  - intros k [Hk1 Hk2]%not_elem_of_cons. rewrite K by done. unfold record_result. cbn [results_by_id].
    rewrite Hread, lookup_insert_ne; [done|exact (not_eq_sym Hk1)].
  - intros x [->|Hx]%elem_of_cons; [|by apply A]. eapply answered_grows; [exact G|]. by apply answered_record.
Qed.

Lemma collect st calls :
  (forall tc, tc ∈ calls -> answered st tc) ->
  exists rs, mapM (fun tc => match results_by_id st !! call_id tc with Some r => Return r | None => Raise KeyError end) calls
             = Return rs /\ Forall2 (fun tc r => results_by_id st !! call_id tc = Some r) calls rs.
Proof using Type.
  induction calls as [|tc calls IH]; intros H; [by exists []|].
  destruct (H tc (list_elem_of_here _ _)) as [r Hr]. destruct IH as (rs & Hm & HF).
  { intros x Hx. apply H. by right. }
  exists (r :: rs). split; [|by constructor]. cbn [mapM]. rewrite Hr. cbn [mbind outcome_bind]. by rewrite Hm.
Qed.

Lemma ids_inj l a b : NoDup (ids l) -> a ∈ l -> b ∈ l -> call_id a = call_id b -> a = b.
Proof using Type.
  intros Hnd Ha Hb E. apply list_elem_of_lookup in Ha as [i Hi], Hb as [j Hj].
  assert (i = j) as ->.
  { eapply (NoDup_lookup (ids l)); [done|unfold ids; rewrite list_lookup_fmap, Hi; cbn; reflexivity|].
    unfold ids. rewrite list_lookup_fmap, Hj. cbn. by rewrite E. }
  rewrite Hi in Hj. by injection Hj.
Qed.

(** The validator lets through only objects, and for a memory write only a list of actions. *)
Context (Hvalid : forall n a, text_error (validate n a) = None ->
  exists d, a = PDict d /\ (n = u "memory_write" -> exists l, dict_get d "actions" = PList l)).

Lemma writable_total raw : exists r, WPath.model_writable_path repr raw = r /\
  match r with Return _ => True | Raise e => is_workspace_error e = true end.
Proof using Type.
  eexists. split; [reflexivity|]. unfold WPath.model_writable_path, WPath.canonical_path, WPath.assert_model_writable, WPath.kind_for_path.
  repeat first [done | progress cbn [mbind outcome_bind] | match goal with |- context [if ?b then _ else _] => destruct b end].
Qed.

Lemma classify_total tc : exists c, classify tc = Return c.
Proof using Hvalid.
  unfold Dispatch.classify. destruct (negb (call_args_ok tc)); [by eexists|].
  destruct (negb (is_read _) && _); [by eexists|]. destruct (text_error _) eqn:Ev; [by eexists|].
  destruct (bool_decide (call_name tc ∈ HISTORY_TOOL_NAMES) && _); [by eexists|]. destruct (is_read _); [by eexists|].
  destruct (Hvalid _ _ Ev) as (d & -> & _). unfold workspace_mutation_path_error.
  destruct (negb _); [by eexists|]. cbn [arg mbind outcome_bind].
  destruct (writable_total (dict_get d "path")) as (r & -> & Hr). destruct r as [p|e]; [by eexists|]. rewrite Hr. by eexists.
Qed.

Lemma classify_all_total calls st reads writes : exists x, classify_all calls st reads writes = Return x.
Proof using Hvalid.
  revert st reads writes. induction calls as [|tc calls IH]; intros st reads writes; cbn [Dispatch.classify_all]; [by eexists|].
  destruct (classify_total tc) as [c ->]. cbn [mbind outcome_bind]. destruct c; apply IH.
Qed.

Lemma gate_total tc e : valid_write tc -> gate tc <> Raise e.
Proof using Hvalid.
  intros (_ & _ & Hv & _). destruct (Hvalid _ _ Hv) as (d & Ha & Hl). unfold write_gate.
  destruct (negb _); [done|]. destruct (_ && _); [done|]. unfold refused_delete.
  destruct (bool_decide (call_name tc = u "memory_write")) eqn:En; cbn [andb]; [|cbn; by destruct (turn_authorization au)].
  bools. destruct (negb (memory_delete_authorization au)); [|cbn; by destruct (turn_authorization au)].
  destruct (Hl En) as [l Hlist]. rewrite Ha.
  assert (exists d', py_or (PDict d) (PDict []) = PDict d' /\ (dict_get d' "actions" = PList l)) as (d' & -> & Hd').
  { unfold py_or. destruct d as [|kv d]; [|by eexists]. exists []. split; [done|]. exact Hlist. }
  cbn [arg mbind outcome_bind]. rewrite Hd'. unfold deletes.
  destruct l as [|x l]; cbn; [by destruct (turn_authorization au)|].
  destruct (match x with PDict d0 => _ | _ => false end || _); cbn; [done|by destruct (turn_authorization au)].
Qed.

(** The three passes together: who is answered, and who is told so. *)
Lemma round_answers calls st0 st1 st2 rs ws tr :
  sorted_calls calls (mkDispatch ∅ []) st0 rs ws ->
  (grows st0 st1 /\ (forall k, k ∉ ids rs -> results_by_id st1 !! k = results_by_id st0 !! k) /\
   forall tc, tc ∈ rs -> answered st1 tc) ->
  wrote ws st1 None st2 tr ->
  keyed st2 /\ (forall tc, tc ∈ calls -> answered st2 tc) /\
  (NoDup (ids calls) -> forall tc r, tc ∈ calls -> is_write (call_name tc) = true ->
     results_by_id st2 !! call_id tc = Some r -> (result_content r = queued tc <-> tc ∈ flat tr)).
Proof using Type.
  intros Hs (G1 & K1 & A1) Hw. split; [|split].
  - apply (wr_grows _ _ _ _ _ Hw), G1, (sc_grows _ _ _ _ _ Hs). by intros k r [=].
  - intros tc Htc. destruct (sc_rest _ _ _ _ _ Hs tc Htc) as [Hr|[Hw'|Ha]].
    + eapply answered_grows; [apply Hw|]. by apply A1.
    + by apply (wr_answered _ _ _ _ _ Hw).
    + eapply answered_grows; [apply Hw|]. by eapply answered_grows.
  - intros Hnd tc r Htc Hwr Hr. destruct (decide (call_id tc ∈ ids ws)) as [Hin|Hin].
    + apply list_elem_of_fmap in Hin as (x & Ex & Hx).
      assert (x = tc) as -> by (apply (ids_inj calls); [done|exact (elem_of_sublist _ _ _ Hx (sc_writes _ _ _ _ _ Hs))|done|done]).
      destruct (wr_told _ _ _ _ _ Hw eq_refl) with (tc := tc) as (r' & Hr' & Hiff); [|done|].
      * eapply sublist_NoDup; [exact Hnd|]. apply fmap_sublist, Hs.
      * rewrite Hr in Hr'. by injection Hr' as <-.
    + assert (tc ∉ ws) as Hnw by (intros H; by apply Hin, in_ids).
      assert (call_id tc ∉ ids rs) as Hnr.
      { intros (x & Ex & Hx)%list_elem_of_fmap.
        assert (x = tc) as -> by (apply (ids_inj calls); [done|exact (elem_of_sublist _ _ _ Hx (sc_reads _ _ _ _ _ Hs))|done|done]).
        pose proof (sc_readers _ _ _ _ _ Hs) as Hrd. rewrite Forall_forall in Hrd. specialize (Hrd _ Hx). cbn in Hrd.
        unfold is_read in Hrd. rewrite Hwr, andb_false_r in Hrd. done. }
      destruct (sc_answers _ _ _ _ _ Hs Hnd tc Htc Hnw) as (r0 & Hr0 & Hne); [intros H; by apply Hnr, in_ids|].
      rewrite (wr_kept _ _ _ _ _ Hw), K1, Hr0 in Hr by done. injection Hr as <-. split; [done|].
      intros Hf. exfalso. apply Hnw. eapply flat_in; [apply Hw|done].
Qed.

Lemma dispatch_spec calls o tr :
  dispatch_tool_calls repr validate days_error read au h calls = (o, tr) ->
  flat tr `sublist_of` calls /\
  (forall tc, tc ∈ flat tr -> valid_write tc /\ may_write au (call_name tc) (call_args tc)) /\
  match o with
  | Return rs =>
      result_call_id <$> rs = ids calls /\
      (NoDup (ids calls) -> forall i tc r, calls !! i = Some tc -> rs !! i = Some r -> is_write (call_name tc) = true ->
       (result_content r = queued tc <-> tc ∈ flat tr))
  | Raise e => hook_raises e
  end.
Proof using Hread Hvalid.
  unfold dispatch_tool_calls. destruct (classify_all_total calls (mkDispatch ∅ []) [] []) as [[[st0 reads] writes] E].
  rewrite E. apply classify_all_spec in E as (rs & ws & -> & -> & Hs). cbn [app].
  destruct (foldl_reads rs st0) as (G1 & E1 & K1 & A1). set (st1 := foldl _ st0 rs) in *. clearbody st1.
  destruct (write_loop [] ws st1) as [st2 o2] eqn:Ew.
  destruct (write_loop_wrote [] ws st1 st2 o2 (or_introl eq_refl) (Forall_nil_2 _) Ew) as [tr2 Hw]. cbn [app] in Hw.
  assert (enqueued st2 = tr2) as Etr by (rewrite (wr_effects _ _ _ _ _ Hw), E1, (sc_effects _ _ _ _ _ Hs); done).
  assert (flat tr2 `sublist_of` calls) as Hsub by (etransitivity; [apply (wr_order _ _ _ _ _ Hw)|apply Hs]).
  assert (forall tc, tc ∈ flat tr2 -> valid_write tc /\ may_write au (call_name tc) (call_args tc)) as Hok.
  { intros tc Htc. pose proof (wr_gated _ _ _ _ _ Hw) as Hg. rewrite Forall_forall in Hg. destruct (Hg tc Htc) as [x Hx].
    pose proof (sc_valid _ _ _ _ _ Hs) as Hv. rewrite Forall_forall in Hv.
    assert (valid_write tc) as Hvw by (apply Hv; eapply flat_in; [apply (wr_order _ _ _ _ _ Hw)|done]).
    split; [done|]. eapply gate_allows; [apply Hvw|exact Hx]. }
  destruct o2 as [e|]; intros [= <- <-]; rewrite Etr; (split; [done|]; split; [done|]).
  - destruct (wr_fail _ _ _ _ _ Hw e eq_refl) as [?|(tc & Htc & Hg)]; [done|]. exfalso.
    pose proof (sc_valid _ _ _ _ _ Hs) as Hv. rewrite Forall_forall in Hv. by eapply (gate_total tc e); [apply Hv|].
  - destruct (round_answers calls st0 st1 st2 rs ws tr2 Hs (conj G1 (conj K1 A1)) Hw) as (Hkey & Hans & Htold).
    destruct (collect st2 calls Hans) as (res & -> & HF). split.
    + clear -HF Hkey. induction HF as [|tc r calls res Hr _ IH]; [done|]. cbn. f_equal; [by apply Hkey|exact IH].
    + intros Hnd i tc r Hi Hri Hwr. apply Htold; [done|by eapply list_elem_of_lookup_2|done|].
      by eapply (Forall2_lookup_lr _ _ _ _ _ _ HF).
Qed.
End Round.
Lemma read_call_id repr float_repr env capability observe activity tc :
  result_call_id (read_call repr float_repr env capability observe activity tc) = call_id tc.
Proof.
  unfold read_call. destruct (mbind _ _) as [[data|content]|e]; [|done|done].
  destruct (run_metadata _ _) as [m []]; done.
Qed.


(** ** A round *)

Definition ex_validate (n : pystr) (a : pyval) : option pystr :=
  match a with
  | PDict d => if bool_decide (n = u "memory_write")
               then match dict_get d "actions" with PList _ => None | _ => Some (u "actions must be array") end
               else None
  | _ => Some (u "args must be object")
  end.

Definition ex_call (id name : string) (args : list (string * pyval)) : ToolCall :=
  mkCall (u id) (u name) (PDict ((fun kv => (u kv.1, kv.2)) <$> args)) [] true.

Definition ex_calls : list ToolCall :=
  [ex_call "c1" "workspace_write" [("path", PStr (u "/workspace/a"))];
   ex_call "c2" "workspace_delete" [("path", PStr (u "/artifacts/b"))];
   ex_call "c3" "web_search" [("query", PStr (u "tea"))];
   ex_call "c4" "workspace_delete" [("path", PStr (u "/workspace/c"))];
   ex_call "c5" "memory_write" [("actions", PList [PDict [(u "op", PStr (u "delete"))]])];
   ex_call "c6" "memory_write" [("actions", PList [PDict [(u "op", PStr (u "add"))]])];
   ex_call "c7" "workspace_write" [("path", PStr (u "/workspace/d"))]].

Definition ex_hooks : hooks := mkHooks None (fun _ _ => Return (Awaitable (Return tt))) (Some (fun _ _ => Return tt)).

Abbreviation ex_dispatch := (dispatch_tool_calls (fun _ => []) ex_validate (fun _ => None)
  (read_call (fun _ => []) (fun _ => []) (fun _ => None) (fun _ _ => Return [(u "ok", PBool true)]) None (fun _ _ => PNone))
  (mkAuth true true false true) ex_hooks ex_calls).

(** A hook that only fails when awaited, as the worker's are. *)
Definition ex_awaited : hooks := mkHooks None (fun _ _ => Return (Awaitable (Raise (ValueError "card")))) None.
Definition ex_called : hooks := mkHooks None (fun _ _ => Raise (ValueError "card")) None.

Example awaited_value_error_escapes :
  let run h := dispatch_tool_calls (fun _ => []) ex_validate (fun _ => None) (fun tc => mkResult (call_id tc) [] PNone)
                 (mkAuth true true false true) h [ex_call "c1" "memory_write" [("actions", PList [])]] in
  run ex_awaited = (Raise (ValueError "card"), []) /\ run ex_called = (Return [mkResult (u "c1") (u "error: card") PNone], []).
Proof. split; vm_compute; reflexivity. Qed.

End DispatchSafety.
