(* ===== verification/ToolFence.v ===== *)
(** * The fence around a turn's tool calls
    ([backend/model_api_runtime/v2/tool_loop.py])

    What the model has already seen narrows what it may call next: after external content no
    platform write, search or task, and only fetches of URLs it was shown; after a private read
    nothing outbound that the platform owns; after a remote write of unknown outcome no
    mutation. The tool surface of a round, the classification of the calls that come back
    ([_tool_call_rejection_facts]), and what a dispatched batch changes. *)

From S2P Require Import Prelude PyValue ResultBudget PromptEstimate WorkspacePath ToolDispatch.
Import Estimate Dispatch.
Local Open Scope Z_scope.

Module Fence.

(** ** Names *)

Definition PLATFORM_MUTATION_TOOLS : list pystr := WRITE_ACTIONS ++ [u "memory_organize"].
Definition MEMORY_DISCOVERY_TOOLS : list pystr := u <$> ["memory_index"; "memory_search"].
Definition TASK_TOOL : pystr := u "task".
Definition FILE_REPLY_TOOL : pystr := u "send_file".
Definition IMAGE_REPLY_TOOL : pystr := u "generate_image".
Definition STAY_SILENT_TOOL : pystr := u "stay_silent".
Definition MCP_MUTATION_OUTCOME_UNKNOWN_ERROR : pystr := u "error: mcp_mutation_outcome_unknown".

(** ** The surface of a round *)

(** The variables of the loop the fence depends on. *)
Record fence : Type := mkFence {
  external_content_seen : bool;
  mutation_outcome_unknown : bool;
  screen_pixels_blocked : bool;
  untrusted_screen_only : bool;
  private_read_seen : bool;
  allowed_fetch_urls : gset pystr;
  completed_memory_discovery_tools : gset pystr;
  completed_memory_discovery_calls : gset (pystr * pystr);
}.

Definition initial_fence (pixels screen_only : bool) : fence := mkFence false false pixels screen_only false ∅ ∅ ∅.

Definition only_if (b : bool) (l : list pystr) : list pystr := if b then l else [].

(** [blocked_tools] *)
Definition blocked_tools (mutating_mcp : list pystr) (f : fence) : list pystr :=
  only_if (external_content_seen f)
    (PLATFORM_MUTATION_TOOLS ++ [u "web_search"; TASK_TOOL]
     ++ only_if (bool_decide (allowed_fetch_urls f = ∅)) [u "web_fetch"])
  ++ only_if (mutation_outcome_unknown f) (PLATFORM_MUTATION_TOOLS ++ mutating_mcp)
  ++ only_if (screen_pixels_blocked f) ([u "web_search"; u "web_fetch"; TASK_TOOL] ++ mutating_mcp)
  ++ only_if (untrusted_screen_only f) PLATFORM_MUTATION_TOOLS
  ++ only_if (private_read_seen f) [u "web_search"; u "web_fetch"; TASK_TOOL].

(** The catalogue of the turn without the blocked tools; later steps of the round only narrow it. *)
Definition policy_tools (mutating_mcp : list pystr) (f : fence) (turn_catalog : list ToolSpec) : list ToolSpec :=
  filter (fun s => spec_name s ∉ blocked_tools mutating_mcp f) turn_catalog.

(** ** Classification of the calls *)

Record ProviderResponse : Type := mkResponse {
  pr_text : pystr;
  pr_tool_calls : list ToolCall;
  pr_media : bool;
  pr_assistant_turn : option pyval;
}.

Record call_limits : Type := mkLimits {
  max_tool_args_chars : Z;
  max_tool_batch_args_chars : Z;
  max_native_assistant_turn_chars : Z;
  max_assistant_tool_text_chars : Z;
  max_tool_calls_per_round : Z;
  max_tool_calls_per_turn : Z;
}.

(** What the classification reads of the round. *)
Record round_view : Type := mkView {
  v_offered : list pystr;
  v_previously_offered : list pystr;
  v_terminal : bool;
  v_token_limit : bool;
  v_calls_used : Z;
  v_mutating_mcp : list pystr;
}.

Fixpoint endswith (suffix s : pystr) : bool :=
  bool_decide (s = suffix) || match s with [] => false | _ :: t => endswith suffix t end.

(** Each element once, first occurrences. *)
Fixpoint dedup (seen : list string) (l : list string) : list string :=
  match l with
  | [] => []
  | x :: l => if bool_decide (x ∈ seen) then dedup seen l else x :: dedup (x :: seen) l
  end.

(** [_PROVIDER_CALL_REJECTION_REASONS] *)
Definition PROVIDER_CALL_REJECTION_REASONS : list string :=
  ["assistant_tool_text_too_large"; "duplicate_tool_call_id"; "invalid_image_reply_batch";
   "invalid_or_over_budget_tool_exchange"; "invalid_stay_silent_batch"; "invalid_tool_arguments";
   "repeated_invalid_tool_arguments"; "missing_tool_call_id"; "missing_tool_name"; "mixed_reply_and_mutation";
   "native_assistant_turn_too_large"; "provider_media_with_tool_calls"; "terminal_tool_call_rejected";
   "tool_arguments_too_large"; "tool_batch_arguments_too_large"; "tool_call_budget_exceeded";
   "unapproved_external_url"; "unknown_tool"; "tool_withdrawn"; "unclassified_rejection"].

Definition when (b : bool) (reason : string) : list string := if b then [reason] else [].

Record RejectionFacts : Type := mkFacts {
  call_ids : list pystr;
  image_reply_calls : list ToolCall;
  stay_silent_calls : list ToolCall;
  oversized_tool_exchange : bool;
  over_tool_call_budget : bool;
  malformed : bool;
  truncated_tool_arguments : bool;
  mixed_reply_write : bool;
  invalid_image_batch : bool;
  invalid_silence_batch : bool;
  rejected : bool;
  call_rejection_reasons : list (list string);
  reason_tokens : list string;
}.

Section Classify.
Context (repr : pyval -> pystr) (float_repr : pyfloat -> pystr) (casefold : pystr -> pystr).
(** [validate_tool_args] without the live checks. *)
Context (validate : pystr -> pyval -> option pystr).
Context (f : fence) (limits : call_limits) (view : round_view).

(** [_serialized_chars]: every value of the model serialises. *)
Definition serialized_chars (v : pyval) : Z := Zlen (canonical_dumps float_repr v).

(** [tc.args] is always an object ([ToolCall.args]). *)
Definition url_of (tc : ToolCall) : pystr :=
  strip (py_str repr (py_or (match call_args tc with PDict d => dict_get d "url" | _ => PNone end) (PStr []))).

Definition argument_size (tc : ToolCall) : Z :=
  if call_args_ok tc then serialized_chars (call_args tc) else Zlen (call_args_raw tc).

Definition tool_args_char_limit (tc : ToolCall) : Z :=
  let path := match call_args tc with PDict d => dict_get d "path" | _ => PNone end in
  if bool_decide (call_name tc = u "workspace_write") && call_args_ok tc
     && endswith (u ".io.html") (casefold (strip (py_str repr (py_or path (PStr [])))))
     && bool_decide (validate (call_name tc) (call_args tc) = None)
  then Z.max (max_tool_args_chars limits) (serialized_chars (call_args tc))
  else max_tool_args_chars limits.

(** The limits of the batch and of the native turn, widened for one Canvas write. *)
Definition widened (calls : list ToolCall) : option Z :=
  match calls with
  | [tc] => let l := tool_args_char_limit tc in if max_tool_args_chars limits <? l then Some l else None
  | _ => None
  end.
Definition batch_arguments_limit (calls : list ToolCall) : Z :=
  match widened calls with
  | Some l => Z.max (max_tool_batch_args_chars limits) l
  | None => max_tool_batch_args_chars limits
  end.
Definition native_assistant_turn_limit (calls : list ToolCall) : Z :=
  match widened calls with
  | Some l => Z.max (max_native_assistant_turn_chars limits) (l + max_assistant_tool_text_chars limits + 8192)
  | None => max_native_assistant_turn_chars limits
  end.

Definition individual_reasons (tc : ToolCall) : list string :=
  when (bool_decide (call_id tc = [])) "missing_tool_call_id"
  ++ when (bool_decide (call_name tc = [])) "missing_tool_name"
  ++ when (negb (call_args_ok tc)) "invalid_tool_arguments"
  ++ (if bool_decide (call_name tc ∉ v_offered view)
         && bool_decide (call_name tc ∉ completed_memory_discovery_tools f)
      then [if bool_decide (call_name tc ∈ v_previously_offered view) then "tool_withdrawn" else "unknown_tool"]
      else when (external_content_seen f && bool_decide (call_name tc = u "web_fetch")
                 && bool_decide (url_of tc ∉ allowed_fetch_urls f)) "unapproved_external_url").

Definition named (n : pystr) (calls : list ToolCall) : list ToolCall := filter (fun tc => call_name tc = n) calls.
Definition lone_batch_broken (mine calls : list ToolCall) : bool :=
  match mine with [] => false | _ => negb ((length mine =? 1)%nat && (length calls =? 1)%nat) end.

Definition duplicated (ids : list pystr) (i : pystr) : bool :=
  negb (bool_decide (i = [])) && (1 <? length (filter (fun j => j = i) ids))%nat.

Definition too_large (tc : ToolCall) : bool := tool_args_char_limit tc <? argument_size tc.

Section Response.
Context (pr : ProviderResponse).
Abbreviation calls := (pr_tool_calls pr).

Definition has_calls : bool := negb (bool_decide (calls = [])).
Definition batch_too_large : bool := batch_arguments_limit calls <? sumZ (argument_size <$> calls).
Definition native_too_large : bool :=
  native_assistant_turn_limit calls <? match pr_assistant_turn pr with Some p => serialized_chars p | None => 0 end.
Definition text_too_large : bool := max_assistant_tool_text_chars limits <? Zlen (pr_text pr).
Definition oversized : bool := existsb too_large calls || batch_too_large || native_too_large || text_too_large.

Definition over_budget : bool :=
  (max_tool_calls_per_round limits <? Zlen calls) || (max_tool_calls_per_turn limits <? v_calls_used view + Zlen calls).

Definition broken : bool :=
  (v_terminal view && has_calls) || pr_media pr
  || existsb (fun tc => negb (bool_decide (individual_reasons tc = []))) calls.

Definition mixed : bool :=
  existsb (fun tc => bool_decide (call_name tc ∈ [FILE_REPLY_TOOL; IMAGE_REPLY_TOOL; STAY_SILENT_TOOL])) calls
  && existsb (fun tc => bool_decide (call_name tc ∈ PLATFORM_MUTATION_TOOLS)
                        || bool_decide (call_name tc ∈ v_mutating_mcp view)) calls.
Definition bad_image : bool := lone_batch_broken (named IMAGE_REPLY_TOOL calls) calls.
Definition bad_silence : bool := lone_batch_broken (named STAY_SILENT_TOOL calls) calls.

(** What is wrong with the batch is told to each of its calls. *)
Definition batch_reasons : list string :=
  when (v_terminal view) "terminal_tool_call_rejected" ++ when (pr_media pr) "provider_media_with_tool_calls"
  ++ when mixed "mixed_reply_and_mutation" ++ when bad_image "invalid_image_reply_batch"
  ++ when bad_silence "invalid_stay_silent_batch" ++ when over_budget "tool_call_budget_exceeded"
  ++ when batch_too_large "tool_batch_arguments_too_large" ++ when native_too_large "native_assistant_turn_too_large"
  ++ when text_too_large "assistant_tool_text_too_large".

Definition own_reasons (tc : ToolCall) : list string :=
  individual_reasons tc ++ when (duplicated (call_id <$> calls) (call_id tc)) "duplicate_tool_call_id"
  ++ when (too_large tc) "tool_arguments_too_large".

Definition call_reasons (tc : ToolCall) : list string :=
  match dedup [] (own_reasons tc ++ batch_reasons) with
  | [] => ["invalid_or_over_budget_tool_exchange"]
  | l => l
  end.

Definition is_rejected : bool :=
  has_calls && (broken || negb (bool_decide (NoDup (call_id <$> calls))) || mixed || bad_image || bad_silence
                || over_budget || oversized).

(** [_tool_call_rejection_facts] *)
Definition tool_call_rejection_facts : RejectionFacts :=
  let tokens := if is_rejected
                then dedup [] (filter (fun t => t ∈ PROVIDER_CALL_REJECTION_REASONS) (concat (call_reasons <$> calls))) else [] in
  mkFacts (call_id <$> calls) (named IMAGE_REPLY_TOOL calls) (named STAY_SILENT_TOOL calls) oversized over_budget broken
    (v_token_limit view && existsb (fun tc => negb (call_args_ok tc)) calls)
    mixed bad_image bad_silence is_rejected (call_reasons <$> calls)
    (if is_rejected && bool_decide (tokens = []) then ["unclassified_rejection"] else tokens).
End Response.
End Classify.
(** ** What a dispatched batch changes *)

Section Settle.
Context (repr : pyval -> pystr) (float_repr : pyfloat -> pystr).
(** [_search_result_urls]; the reads that fence outbound calls: by name, and by predicate. *)
Context (search_result_urls : pystr -> list pystr).
Context (outbound_blocking_reads : list pystr) (blocking_predicate : option (ToolCall -> outcome bool)).
Context (mcp_names mutating_mcp : list pystr).

Definition loop_reply_tools : list pystr := [FILE_REPLY_TOOL; IMAGE_REPLY_TOOL; STAY_SILENT_TOOL].
Definition other_calls (calls : list ToolCall) : list ToolCall := filter (fun tc => call_name tc ∉ loop_reply_tools) calls.

Definition memory_discovery_call_key (tc : ToolCall) : option (pystr * pystr) :=
  if bool_decide (call_name tc ∉ MEMORY_DISCOVERY_TOOLS) then None
  else if bool_decide (call_name tc = u "memory_index") then Some (call_name tc, [])
  else Some (call_name tc, canonical_dumps float_repr (call_args tc)).

(** The calls to dispatch: discovery calls only once per turn. *)
Fixpoint split_repeated (completed seen : gset (pystr * pystr)) (calls : list ToolCall) : list ToolCall :=
  match calls with
  | [] => []
  | tc :: calls =>
      match memory_discovery_call_key tc with
      | None => tc :: split_repeated completed seen calls
      | Some k => if bool_decide (k ∈ completed) || bool_decide (k ∈ seen)
                  then split_repeated completed seen calls
                  else tc :: split_repeated completed ({[k]} ∪ seen) calls
      end
  end.

Definition dispatch_calls (f : fence) (calls : list ToolCall) : list ToolCall :=
  split_repeated (completed_memory_discovery_calls f) ∅ (other_calls calls).

(** [_read_blocks_later_outbound]: a classifier that raises blocks. *)
Definition read_blocks_later_outbound (tc : ToolCall) : bool :=
  bool_decide (call_name tc ∈ outbound_blocking_reads)
  || match blocking_predicate with
     | None => false
     | Some p => match p tc with Return b => b | Raise _ => true end
     end.

Definition continuations (r : ToolResult) : list pystr :=
  match result_metadata r with
  | PDict m =>
      match dict_get m "web_fetch_next_offset", dict_get m "web_fetch_continuation_urls" with
      | PInt _, PList urls => filter (fun url => url <> []) (map (fun v => strip (py_str repr v)) urls)
      | _, _ => []
      end
  | _ => []
  end.

(** One result's effect on the allowed URLs. *)
Definition note_result (tc : ToolCall) (r : ToolResult) (urls : gset pystr) : gset pystr :=
  if bool_decide (call_name tc = u "web_search") then urls ∪ list_to_set (search_result_urls (result_content r))
  else if bool_decide (call_name tc = u "web_fetch")
  then (urls ∖ {[url_of repr tc]}) ∪ list_to_set (continuations r)
  else urls.

Definition discovered (l : list ToolCall) : list (pystr * pystr) := omap memory_discovery_call_key l.

Definition external_call (tc : ToolCall) : bool :=
  bool_decide (call_name tc ∈ EXTERNAL_READS) || bool_decide (call_name tc ∈ mcp_names).

Definition unknown_outcome (tc : ToolCall) (raw : ToolResult) : bool :=
  bool_decide (call_name tc ∈ mutating_mcp) && bool_decide (result_content raw = MCP_MUTATION_OUTCOME_UNKNOWN_ERROR).

(** After a round: [raw] the result of a call as dispatched, [shown] as the model receives it. *)
Definition settle_round (raw shown : ToolCall -> ToolResult) (calls : list ToolCall) (f : fence) : fence :=
  let dispatched := dispatch_calls f calls in
  mkFence
    (external_content_seen f || existsb external_call dispatched)
    (mutation_outcome_unknown f || existsb (fun tc => unknown_outcome tc (raw tc)) calls)
    (screen_pixels_blocked f) (untrusted_screen_only f)
    (private_read_seen f || existsb read_blocks_later_outbound dispatched)
    (foldl (fun urls tc => note_result tc (shown tc) urls) (allowed_fetch_urls f) (other_calls calls))
    (completed_memory_discovery_tools f ∪ list_to_set (discovered dispatched).*1)
    (completed_memory_discovery_calls f ∪ list_to_set (discovered dispatched)).
End Settle.
End Fence.
