(* ===== verification/FenceSafety.v ===== *)
(** * What the fence of a turn guarantees

    Over any rounds of a turn: what an accepted batch may contain, given what the model has
    seen before it, and that every rejected batch is told why. *)

From S2P Require Import Prelude PyValue ResultBudget PromptEstimate WorkspacePath ToolDispatch ToolFence.
Import Estimate Dispatch Fence.
Local Open Scope Z_scope.

Module FenceSafety.

Lemma when_nil b r : when b r = [] -> b = false.
Proof. by destruct b. Qed.

Lemma calls_present {A} (x : A) l `{Decision (l = [])} : x ∈ l -> negb (bool_decide (l = [])) = true.
Proof. intros Hx. apply negb_true_iff, bool_decide_eq_false. intros ->. by apply not_elem_of_nil in Hx. Qed.

Lemma in_existsb {A} (p : A -> bool) l : existsb p l = true <-> exists x, x ∈ l /\ p x = true.
Proof. rewrite existsb_exists. split; intros (x & Hx & Hp); exists x; split; try done; by apply list_elem_of_In. Qed.

Lemma filter_counted (l : list pystr) x : (0 < length (filter (fun j => j = x) l))%nat <-> x ∈ l.
Proof.
  split.
  - destruct (filter _ l) as [|y k] eqn:E; cbn; [lia|]. intros _. assert (y ∈ filter (fun j => j = x) l) as H by (rewrite E; by left).
    by apply list_elem_of_filter in H as [-> ?].
  - intros H. assert (x ∈ filter (fun j => j = x) l) as Hf by (by apply list_elem_of_filter).
    destruct (filter _ l); [by apply not_elem_of_nil in Hf|cbn; lia].
Qed.

(** An element counted twice is at another place too. *)
Lemma counted_twice (l : list pystr) i x : l !! i = Some x ->
  (1 < length (filter (fun j => j = x) l))%nat <-> exists j, l !! j = Some x /\ i <> j.
Proof.
  intros Hi. pose proof (lookup_lt_Some _ _ _ Hi) as Hlt. rewrite <- (take_drop_middle l i x Hi) at 1.
  rewrite filter_app, filter_cons_True, length_app by done. cbn [length].
  pose proof (filter_counted (take i l) x) as H1. pose proof (filter_counted (drop (S i) l) x) as H2. split.
  - intros H. assert (x ∈ take i l \/ x ∈ drop (S i) l) as [Hx|Hx].
    { destruct (decide (x ∈ take i l)); [by left|right]. apply H2. assert (~ (0 < length (filter (fun j => j = x) (take i l)))%nat) by tauto. lia. }
    + apply list_elem_of_lookup in Hx as [j Hj]. apply lookup_take_Some in Hj as [Hj ?]. exists j. split; [done|lia].
    + apply list_elem_of_lookup in Hx as [j Hj]. rewrite lookup_drop in Hj. eexists. split; [exact Hj|lia].
  - intros (j & Hj & Hne). assert (x ∈ take i l \/ x ∈ drop (S i) l) as [Hx|Hx]; [|apply H1 in Hx; lia|apply H2 in Hx; lia].
    destruct (decide (j < i)%nat).
    + left. apply list_elem_of_lookup. exists j. by rewrite lookup_take_lt.
    + right. apply list_elem_of_lookup. exists (j - S i)%nat. rewrite lookup_drop. rewrite <- Hj. f_equal. lia.
Qed.

(** ** Acceptance *)

Section Accept.
Context (repr : pyval -> pystr) (float_repr : pyfloat -> pystr) (casefold : pystr -> pystr).
Context (validate : pystr -> pyval -> option pystr).

Abbreviation facts := (tool_call_rejection_facts repr float_repr casefold validate).

Lemma accepted_reasons f limits view pr tc :
  rejected (facts f limits view pr) = false -> tc ∈ pr_tool_calls pr -> individual_reasons repr f view tc = [].
Proof using Type.
  intros H Htc. cbn [rejected tool_call_rejection_facts] in H. unfold is_rejected, broken, has_calls in H.
  rewrite (calls_present _ _ Htc) in H. cbn [andb] in H. do 6 (apply orb_false_iff in H as [H _]).
  apply orb_false_iff in H as [_ H]. apply (existsb_false _ _ _ H) in Htc. cbn in Htc.
  apply negb_false_iff, bool_decide_eq_true in Htc. exact Htc.
Qed.

(** An accepted call was offered or is a discovery the turn has made; a fetch after external content is
    of an allowed URL. *)
Lemma accepted_call f limits view pr tc :
  rejected (facts f limits view pr) = false -> tc ∈ pr_tool_calls pr ->
  (call_name tc ∈ v_offered view \/ call_name tc ∈ completed_memory_discovery_tools f) /\
  (external_content_seen f = true -> call_name tc = u "web_fetch" ->
   call_name tc ∈ v_offered view \/ call_name tc ∈ completed_memory_discovery_tools f -> url_of repr tc ∈ allowed_fetch_urls f).
Proof using Type.
  intros H Htc. pose proof (accepted_reasons _ _ _ _ _ H Htc) as Hr. unfold individual_reasons in Hr.
  apply app_eq_nil in Hr as [_ Hr]. apply app_eq_nil in Hr as [_ Hr]. apply app_eq_nil in Hr as [_ Hr].
  destruct (bool_decide (call_name tc ∉ v_offered view)) eqn:E1.
  - destruct (bool_decide (call_name tc ∉ completed_memory_discovery_tools f)) eqn:E2; [done|].
    apply bool_decide_eq_false, dec_stable in E2. split; [by right|]. intros He Hn _. cbn [andb] in Hr.
    rewrite He, bool_decide_true in Hr by done. cbn [andb] in Hr. apply when_nil, bool_decide_eq_false, dec_stable in Hr. done.
  - apply bool_decide_eq_false, dec_stable in E1. split; [by left|]. intros He Hn _. cbn [andb] in Hr.
    rewrite He, bool_decide_true in Hr by done. cbn [andb] in Hr. apply when_nil, bool_decide_eq_false, dec_stable in Hr. done.
Qed.

Lemma accepted_not_terminal f limits view pr tc :
  rejected (facts f limits view pr) = false -> tc ∈ pr_tool_calls pr -> v_terminal view = false.
Proof using Type.
  intros H Htc. cbn [rejected tool_call_rejection_facts] in H. unfold is_rejected, broken, has_calls in H.
  rewrite (calls_present _ _ Htc) in H. cbn [andb] in H. do 6 (apply orb_false_iff in H as [H _]).
  apply orb_false_iff in H as [H _]. apply orb_false_iff in H as [H _]. by rewrite andb_true_r in H.
Qed.

(** ** Reasons *)

(** The tokens the classification itself gives a call. *)
Definition SPECIFIC_REASONS : list string :=
  filter (fun t => t ∉ ["invalid_or_over_budget_tool_exchange"; "repeated_invalid_tool_arguments"; "unclassified_rejection"])
    PROVIDER_CALL_REJECTION_REASONS.

Lemma dedup_in seen l t : t ∈ dedup seen l <-> t ∈ l /\ t ∉ seen.
Proof using Type.
  revert seen. induction l as [|x l IH]; intros seen; cbn [dedup].
  { rewrite elem_of_nil. tauto. }
  case_bool_decide as Hx; rewrite ?elem_of_cons, IH, ?elem_of_cons.
  - split; [intros [? ?]; split; [by right|done]|]. intros [[->|?] ?]; done.
  - split; [|destruct (decide (t = x)) as [->|Hne]; [by left|]]; [intros [->|[? Hn]]; [split; [by left|done]|]|].
    + split; [by right|]. intros Hs. apply Hn. by right.
    + intros [[->|?] Hn]; [done|]. right. split; [done|]. by intros [->|?].
Qed.

Lemma when_in b r t : t ∈ when b r <-> b = true /\ t = r.
Proof using Type. destruct b; cbn; [rewrite list_elem_of_singleton; naive_solver|]. rewrite elem_of_nil. naive_solver. Qed.

Lemma when_specific b r : r ∈ SPECIFIC_REASONS -> Forall (fun t => t ∈ SPECIFIC_REASONS) (when b r).
Proof using Type. intros H. destruct b; [by apply Forall_singleton|constructor]. Qed.

Lemma reasons_specific f limits view pr tc :
  Forall (fun t => t ∈ SPECIFIC_REASONS)
    (own_reasons repr float_repr casefold validate f limits view pr tc ++ batch_reasons repr float_repr casefold validate limits view pr).
Proof using Type.
  unfold own_reasons, batch_reasons, individual_reasons.
  repeat (apply Forall_app; split); try (apply when_specific; decided).
  destruct (_ && _); [|apply when_specific; decided].
  constructor; [|constructor]. destruct (bool_decide _); decided.
Qed.

Lemma not_NoDup_counted (ids : list pystr) : ~ NoDup ids -> exists i, i ∈ ids /\ (1 < length (filter (fun j => j = i) ids))%nat.
Proof using Type.
  induction ids as [|i ids IH]; intros Hn; [by destruct Hn; constructor|].
  destruct (decide (i ∈ ids)) as [Hi|Hi].
  - exists i. split; [by left|]. rewrite filter_cons_True by done. cbn. assert (i ∈ filter (fun j => j = i) ids) as Hf
      by (by apply list_elem_of_filter). destruct (filter _ ids); [by apply not_elem_of_nil in Hf|cbn; lia].
  - destruct IH as (j & Hj & Hl); [intros Hnd; apply Hn; by constructor|]. exists j. split; [by right|].
    rewrite filter_cons. destruct (decide (i = j)); cbn; lia.
Qed.

(** ** The faults a call is told of *)

(** A call outside what the round offers, discoveries already made apart. *)
Definition not_offered (f : fence) (view : round_view) (tc : ToolCall) : Prop :=
  call_name tc ∉ v_offered view /\ call_name tc ∉ completed_memory_discovery_tools f.

(** What is wrong with one call of a response. *)
Inductive call_fault (f : fence) (limits : call_limits) (view : round_view) (pr : ProviderResponse) (tc : ToolCall) : string -> Prop :=
| no_id : call_id tc = [] -> call_fault f limits view pr tc "missing_tool_call_id"
| no_name : call_name tc = [] -> call_fault f limits view pr tc "missing_tool_name"
| bad_arguments : call_args_ok tc = false -> call_fault f limits view pr tc "invalid_tool_arguments"
| withdrawn : not_offered f view tc -> call_name tc ∈ v_previously_offered view -> call_fault f limits view pr tc "tool_withdrawn"
| unknown : not_offered f view tc -> call_name tc ∉ v_previously_offered view -> call_fault f limits view pr tc "unknown_tool"
| strange_url : ~ not_offered f view tc -> external_content_seen f = true -> call_name tc = u "web_fetch" ->
    url_of repr tc ∉ allowed_fetch_urls f -> call_fault f limits view pr tc "unapproved_external_url"
| same_id i j tc' : pr_tool_calls pr !! i = Some tc -> pr_tool_calls pr !! j = Some tc' -> i <> j ->
    call_id tc' = call_id tc -> call_id tc <> [] -> call_fault f limits view pr tc "duplicate_tool_call_id"
| large_arguments : tool_args_char_limit repr float_repr casefold validate limits tc < argument_size float_repr tc ->
    call_fault f limits view pr tc "tool_arguments_too_large".

(** What is wrong with the whole batch, and so with each of its calls. *)
Inductive batch_fault (limits : call_limits) (view : round_view) (pr : ProviderResponse) : string -> Prop :=
| terminal_round : v_terminal view = true -> batch_fault limits view pr "terminal_tool_call_rejected"
| with_media : pr_media pr = true -> batch_fault limits view pr "provider_media_with_tool_calls"
| reply_and_mutation tc tc' : tc ∈ pr_tool_calls pr -> call_name tc ∈ [FILE_REPLY_TOOL; IMAGE_REPLY_TOOL; STAY_SILENT_TOOL] ->
    tc' ∈ pr_tool_calls pr -> call_name tc' ∈ PLATFORM_MUTATION_TOOLS \/ call_name tc' ∈ v_mutating_mcp view ->
    batch_fault limits view pr "mixed_reply_and_mutation"
| image_not_alone tc : tc ∈ pr_tool_calls pr -> call_name tc = IMAGE_REPLY_TOOL -> length (pr_tool_calls pr) <> 1%nat ->
    batch_fault limits view pr "invalid_image_reply_batch"
| silence_not_alone tc : tc ∈ pr_tool_calls pr -> call_name tc = STAY_SILENT_TOOL -> length (pr_tool_calls pr) <> 1%nat ->
    batch_fault limits view pr "invalid_stay_silent_batch"
| too_many : max_tool_calls_per_round limits < Zlen (pr_tool_calls pr) \/
    max_tool_calls_per_turn limits < v_calls_used view + Zlen (pr_tool_calls pr) ->
    batch_fault limits view pr "tool_call_budget_exceeded"
| large_batch : batch_arguments_limit repr float_repr casefold validate limits (pr_tool_calls pr)
    < sumZ (argument_size float_repr <$> pr_tool_calls pr) -> batch_fault limits view pr "tool_batch_arguments_too_large"
| large_native : native_assistant_turn_limit repr float_repr casefold validate limits (pr_tool_calls pr)
    < match pr_assistant_turn pr with Some turn => serialized_chars float_repr turn | None => 0 end ->
    batch_fault limits view pr "native_assistant_turn_too_large"
| large_text : max_assistant_tool_text_chars limits < Zlen (pr_text pr) -> batch_fault limits view pr "assistant_tool_text_too_large".

Section Why.
Context (f : fence) (limits : call_limits) (view : round_view) (pr : ProviderResponse).
Abbreviation calls := (pr_tool_calls pr).
Abbreviation why tc := (own_reasons repr float_repr casefold validate f limits view pr tc
                    ++ batch_reasons repr float_repr casefold validate limits view pr).

Lemma duplicated_fault tc : tc ∈ calls ->
  duplicated (call_id <$> calls) (call_id tc) = true <->
  call_id tc <> [] /\ exists i j tc', calls !! i = Some tc /\ calls !! j = Some tc' /\ i <> j /\ call_id tc' = call_id tc.
Proof using Type.
  intros [i Hi]%list_elem_of_lookup. unfold duplicated. rewrite andb_true_iff, negb_true_iff, bool_decide_eq_false, Nat.ltb_lt.
  assert (forall k x, calls !! k = Some x -> (call_id <$> calls) !! k = Some (call_id x)) as Hmap by (intros k x Hk; by rewrite list_lookup_fmap, Hk).
  split; intros [He H]; (split; [done|]).
  - apply (counted_twice _ i _ (Hmap _ _ Hi)) in H as (j & Hj & Hne). rewrite list_lookup_fmap in Hj.
    destruct (calls !! j) as [tc'|] eqn:Ej; [|done]. injection Hj as Hj. by exists i, j, tc'.
  - destruct H as (i' & j & tc' & Hi' & Hj & Hne & Heq). apply (counted_twice _ i' _ (Hmap _ _ Hi')).
    exists j. split; [|done]. rewrite <- Heq. by apply Hmap.
Qed.

Lemma own_reasons_fault tc t : tc ∈ calls ->
  t ∈ own_reasons repr float_repr casefold validate f limits view pr tc <-> call_fault f limits view pr tc t.
Proof using Type.
  intros Htc. pose proof (duplicated_fault tc Htc) as Hdup. unfold own_reasons, individual_reasons, too_large.
  assert (t ∈ (if bool_decide (call_name tc ∉ v_offered view) && bool_decide (call_name tc ∉ completed_memory_discovery_tools f)
      then [if bool_decide (call_name tc ∈ v_previously_offered view) then "tool_withdrawn" else "unknown_tool"]
      else when (external_content_seen f && bool_decide (call_name tc = u "web_fetch")
                 && bool_decide (url_of repr tc ∉ allowed_fetch_urls f)) "unapproved_external_url") <->
    not_offered f view tc /\ call_name tc ∈ v_previously_offered view /\ t = "tool_withdrawn" \/
    not_offered f view tc /\ call_name tc ∉ v_previously_offered view /\ t = "unknown_tool" \/
    ~ not_offered f view tc /\ external_content_seen f = true /\ call_name tc = u "web_fetch" /\ url_of repr tc ∉ allowed_fetch_urls f /\
      t = "unapproved_external_url") as Hoff.
  { unfold not_offered. destruct (bool_decide (call_name tc ∉ v_offered view) && _) eqn:E.
    - apply andb_true_iff in E as [E1%bool_decide_eq_true E2%bool_decide_eq_true]. rewrite list_elem_of_singleton. case_bool_decide; tauto.
    - rewrite when_in, !andb_true_iff, !bool_decide_eq_true. apply andb_false_iff in E as [E%bool_decide_eq_false|E%bool_decide_eq_false]; tauto. }
  rewrite !elem_of_app, Hoff, !when_in, !bool_decide_eq_true, negb_true_iff, Hdup, Z.ltb_lt. clear Hoff Hdup. split.
  - intros [[[H ->]|[[H ->]|[[H ->]|[(H & H' & ->)|[(H & H' & ->)|(H & H1 & H2 & H3 & ->)]]]]]|[[(H & i & j & tc' & H1 & H2 & H3 & H4) ->]|[H ->]]].
    + exact (no_id _ _ _ _ _ H).
    + exact (no_name _ _ _ _ _ H).
    + exact (bad_arguments _ _ _ _ _ H).
    + exact (withdrawn _ _ _ _ _ H H').
    + exact (unknown _ _ _ _ _ H H').
    + exact (strange_url _ _ _ _ _ H H1 H2 H3).
    + exact (same_id _ _ _ _ _ i j tc' H1 H2 H3 H4 H).
    + exact (large_arguments _ _ _ _ _ H).
  - intros [H|H|H|H H'|H H'|H H1 H2 H3|i j tc' H1 H2 H3 H4 H|H]; [left|left|left|left|left|left|right; left|right; right]; repeat split; try done.
    + by left.
    + right. by left.
    + right; right. by left.
    + right; right; right. by left.
    + right; right; right; right. by left.
    + right; right; right; right; right. done.
    + by exists i, j, tc'.
Qed.

Lemma lone_batch_fault n :
  lone_batch_broken (named n calls) calls = true <-> exists tc, tc ∈ calls /\ call_name tc = n /\ length calls <> 1%nat.
Proof using Type.
  unfold lone_batch_broken, named. destruct (filter _ calls) as [|x l] eqn:E.
  - split; [done|]. intros (tc & Htc & Hn & _). assert (tc ∈ filter (fun tc => call_name tc = n) calls) as H by (by apply list_elem_of_filter).
    rewrite E in H. by apply not_elem_of_nil in H.
  - assert (x ∈ filter (fun tc => call_name tc = n) calls) as [Hn Hx]%list_elem_of_filter by (rewrite E; by left).
    assert (length (x :: l) <= length calls)%nat as Hle by (rewrite <- E; apply length_filter).
    rewrite negb_true_iff, andb_false_iff, !Nat.eqb_neq. split; [|intros (_ & _ & _ & Hne); by right].
    intros H. exists x. split; [done|]. split; [done|]. cbn in *. lia.
Qed.

Lemma batch_reasons_fault t : t ∈ batch_reasons repr float_repr casefold validate limits view pr <-> batch_fault limits view pr t.
Proof using Type.
  unfold batch_reasons, mixed, bad_image, bad_silence, over_budget, batch_too_large, native_too_large, text_too_large.
  rewrite !elem_of_app, !when_in, !lone_batch_fault, andb_true_iff, orb_true_iff, !in_existsb, !Z.ltb_lt.
  split.
  - intros [[H ->]|[[H ->]|[[[(x & Hx & Hx') (y & Hy & Hy')] ->]|[[(x & Hx & Hn & Hl) ->]|[[(x & Hx & Hn & Hl) ->]|[[H ->]|[[H ->]|[[H ->]|[H ->]]]]]]]]].
    + exact (terminal_round _ _ _ H).
    + exact (with_media _ _ _ H).
    + apply bool_decide_eq_true in Hx'. rewrite orb_true_iff, !bool_decide_eq_true in Hy'. exact (reply_and_mutation _ _ _ x y Hx Hx' Hy Hy').
    + exact (image_not_alone _ _ _ x Hx Hn Hl).
    + exact (silence_not_alone _ _ _ x Hx Hn Hl).
    + exact (too_many _ _ _ H).
    + exact (large_batch _ _ _ H).
    + exact (large_native _ _ _ H).
    + exact (large_text _ _ _ H).
  - intros [H|H|tc tc' H1 H2 H3 H4|tc H1 H2 H3|tc H1 H2 H3|H|H|H|H].
    3: { right; right; left. split; [|done]. split; [exists tc; by rewrite bool_decide_eq_true|exists tc'; by rewrite orb_true_iff, !bool_decide_eq_true]. }
    3: { right; right; right; left. split; [by exists tc|done]. }
    3: { right; right; right; right; left. split; [by exists tc|done]. }
    all: repeat first [left; split; [exact H|reflexivity] | split; [exact H|reflexivity] | right].
Qed.

(** What a call is told of. *)
Definition fault (tc : ToolCall) (t : string) : Prop := call_fault f limits view pr tc t \/ batch_fault limits view pr t.

Lemma why_fault tc t : tc ∈ calls -> t ∈ why tc <-> fault tc t.
Proof using Type. intros Htc. unfold fault. by rewrite elem_of_app, own_reasons_fault, batch_reasons_fault. Qed.

Lemma batch_wrong r : has_calls pr = true -> r ∈ batch_reasons repr float_repr casefold validate limits view pr ->
  exists tc t, tc ∈ calls /\ t ∈ why tc.
Proof using Type.
  unfold has_calls. destruct calls as [|tc l]; [done|]. intros _ Hr. exists tc, r.
  split; [by left|]. apply elem_of_app. by right.
Qed.

Lemma own_wrong tc r : tc ∈ calls -> r ∈ own_reasons repr float_repr casefold validate f limits view pr tc ->
  exists tc t, tc ∈ calls /\ t ∈ why tc.
Proof using Type. intros Htc Hr. exists tc, r. split; [done|]. apply elem_of_app. by left. Qed.

Lemma duplicate_wrong : ~ NoDup (call_id <$> calls) -> exists tc t, tc ∈ calls /\ t ∈ why tc.
Proof using Type.
  intros (i & Hi & Hc)%not_NoDup_counted. apply list_elem_of_fmap in Hi as (tc & -> & Htc).
  destruct (decide (call_id tc = [])) as [He|He].
  - apply (own_wrong tc "missing_tool_call_id"); [done|]. unfold own_reasons, individual_reasons.
    rewrite !elem_of_app, !when_in, bool_decide_eq_true. by left; left.
  - apply (own_wrong tc "duplicate_tool_call_id"); [done|]. unfold own_reasons. rewrite !elem_of_app, !when_in.
    right; left. split; [|done]. unfold duplicated. apply andb_true_iff. split; [by apply negb_true_iff, bool_decide_eq_false|].
    by apply Nat.ltb_lt.
Qed.

Lemma rejected_why :
  is_rejected repr float_repr casefold validate f limits view pr = true -> exists tc t, tc ∈ calls /\ t ∈ why tc.
Proof using Type.
  intros [Hc H]%andb_true_iff. unfold broken, oversized in H. rewrite Hc, andb_true_r in H.
  rewrite !orb_true_iff in H.
  destruct H as [[[[[[[[H|H]|H]|H]|H]|H]|H]|H]|[[[H|H]|H]|H]].
  all: try (eapply batch_wrong; [exact Hc|]; unfold batch_reasons; rewrite !elem_of_app, !when_in;
            repeat first [left; split; [exact H|reflexivity] | split; [exact H|reflexivity] | right]; fail).
  - apply in_existsb in H as (tc & Htc & Hr). apply negb_true_iff, bool_decide_eq_false in Hr.
    destruct (individual_reasons repr f view tc) as [|r l] eqn:El; [done|]. apply (own_wrong tc r); [done|].
    unfold own_reasons. rewrite El. by left.
  - apply duplicate_wrong. by apply negb_true_iff, bool_decide_eq_false in H.
  - apply in_existsb in H as (tc & Htc & Hr). apply (own_wrong tc "tool_arguments_too_large"); [done|].
    unfold own_reasons. rewrite !elem_of_app, !when_in. by right; right.
Qed.

(** Conversely a call with a reason gets its batch rejected. *)
Lemma why_rejected tc t : tc ∈ calls -> t ∈ why tc -> is_rejected repr float_repr casefold validate f limits view pr = true.
Proof using Type.
  intros Htc Ht. assert (has_calls pr = true) as Hc by (unfold has_calls; by apply (calls_present tc)).
  unfold is_rejected. rewrite Hc. cbn [andb]. apply not_false_iff_true. intros H.
  apply orb_false_iff in H as [H Hov]. apply orb_false_iff in H as [H Hbu]. apply orb_false_iff in H as [H Hsi].
  apply orb_false_iff in H as [H Him]. apply orb_false_iff in H as [H Hmi]. apply orb_false_iff in H as [Hbr Hnd].
  unfold broken in Hbr. rewrite Hc, andb_true_r in Hbr. apply orb_false_iff in Hbr as [[Hte Hme]%orb_false_iff Hind].
  unfold oversized in Hov. apply orb_false_iff in Hov as [[[Hla Hba]%orb_false_iff Hna]%orb_false_iff Htx].
  unfold own_reasons, batch_reasons in Ht. rewrite Hte, Hme, Hmi, Him, Hsi, Hbu, Hba, Hna, Htx in Ht. cbn [when app] in Ht.
  rewrite app_nil_r in Ht. apply (existsb_false _ _ _ Hind) in Htc as Hi. cbn in Hi. apply negb_false_iff, bool_decide_eq_true in Hi.
  apply (existsb_false _ _ _ Hla) in Htc as Hl. cbn in Hl. rewrite Hi, Hl in Ht. cbn [when app] in Ht. rewrite app_nil_r in Ht.
  apply when_in in Ht as [Hd _]. apply negb_false_iff, bool_decide_eq_true in Hnd.
  apply duplicated_fault in Hd as (_ & i & j & tc' & Hi' & Hj & Hne & Heq); [|done]. apply Hne.
  eapply (NoDup_lookup (call_id <$> calls)); [done|rewrite list_lookup_fmap, Hi'; reflexivity|by rewrite list_lookup_fmap, Hj, <- Heq].
Qed.

Lemma rejected_faults :
  is_rejected repr float_repr casefold validate f limits view pr = true <-> exists tc t, tc ∈ calls /\ fault tc t.
Proof using Type.
  split.
  - intros (tc & t & Htc & Ht)%rejected_why. exists tc, t. split; [done|]. by apply why_fault.
  - intros (tc & t & Htc & Ht). eapply why_rejected; [exact Htc|by apply why_fault].
Qed.

Lemma dedup_NoDup seen l : NoDup (dedup seen l).
Proof using Type.
  revert seen. induction l as [|x l IH]; intros seen; cbn [dedup]; [constructor|]. case_bool_decide; [done|].
  constructor; [|done]. intros [_ Hn]%dedup_in. apply Hn. by left.
Qed.

Lemma call_reasons_faults :
  Forall2 (fun tc l => NoDup l /\ ((forall t, t ∈ l <-> fault tc t) \/
                                   (forall t, ~ fault tc t) /\ l = ["invalid_or_over_budget_tool_exchange"]))
    calls (call_reasons repr float_repr casefold validate f limits view pr <$> calls).
Proof using Type.
  apply Forall2_fmap_r, Forall_Forall2_diag, Forall_forall. intros tc Htc. unfold compose, call_reasons. cbv beta.
  pose proof (dedup_NoDup [] (why tc)) as Hnd.
  assert (forall t, t ∈ dedup [] (why tc) <-> fault tc t) as Hin.
  { intros t. rewrite dedup_in, why_fault by done. split; [by intros [? _]|]. intros ?. split; [done|apply not_elem_of_nil]. }
  destruct (dedup [] (why tc)) as [|x l]; [|split; [exact Hnd|left; exact Hin]].
  split; [apply NoDup_singleton|]. right. split; [|done]. intros t Ht%Hin. by apply not_elem_of_nil in Ht.
Qed.

Lemma call_reasons_in tc t :
  t ∈ why tc -> t ∈ call_reasons repr float_repr casefold validate f limits view pr tc.
Proof using Type.
  intros Ht. unfold call_reasons. assert (t ∈ dedup [] (why tc)) as H by (apply dedup_in; split; [done|apply not_elem_of_nil]).
  destruct (dedup [] (why tc)); [by apply not_elem_of_nil in H|done].
Qed.

Lemma call_reasons_known tc t :
  t ∈ call_reasons repr float_repr casefold validate f limits view pr tc ->
  t ∈ "invalid_or_over_budget_tool_exchange" :: SPECIFIC_REASONS.
Proof using Type.
  unfold call_reasons. destruct (dedup [] (why tc)) as [|x l] eqn:E; [intros ->%list_elem_of_singleton; by left|].
  intros Ht. right. pose proof (reasons_specific f limits view pr tc) as HF. rewrite Forall_forall in HF. apply HF.
  rewrite <- E in Ht. by apply dedup_in in Ht as [Ht _].
Qed.

Lemma call_reasons_nonempty l :
  Forall (fun rs => rs <> []) (call_reasons repr float_repr casefold validate f limits view pr <$> l).
Proof using Type.
  apply Forall_fmap, Forall_forall. intros tc _. cbn. unfold call_reasons. by destruct (dedup [] (why tc)).
Qed.

Lemma known_token t :
  t ∈ "invalid_or_over_budget_tool_exchange" :: SPECIFIC_REASONS ->
  t ∈ PROVIDER_CALL_REJECTION_REASONS /\ t <> "unclassified_rejection".
Proof using Type.
  assert (Forall (fun t => t ∈ PROVIDER_CALL_REJECTION_REASONS /\ t <> "unclassified_rejection")
            ("invalid_or_over_budget_tool_exchange" :: SPECIFIC_REASONS)) as HF by decided.
  rewrite Forall_forall in HF. apply HF.
Qed.

Lemma tokens_spec :
  let tokens := dedup [] (filter (fun t => t ∈ PROVIDER_CALL_REJECTION_REASONS)
                  (concat (call_reasons repr float_repr casefold validate f limits view pr <$> calls))) in
  forall t, t ∈ tokens <-> exists tc, tc ∈ calls /\ t ∈ call_reasons repr float_repr casefold validate f limits view pr tc.
Proof using Type.
  intros tokens t. unfold tokens. rewrite dedup_in, list_elem_of_filter, (list_elem_of_In (concat _)), in_concat. split.
  - intros ((_ & l & Hl & Ht) & _). apply list_elem_of_In in Hl, Ht.
    apply list_elem_of_fmap in Hl as (tc & -> & Htc). by exists tc.
  - intros (tc & Htc & Ht). split; [|apply not_elem_of_nil]. split; [by apply known_token, (call_reasons_known tc)|].
    eexists. split; [apply list_elem_of_In, list_elem_of_fmap; by exists tc|by apply list_elem_of_In].
Qed.
End Why.
End Accept.

(** C21: a batch is rejected exactly for its faults, and told of them. A batch is rejected exactly if one of its calls has a
    fault: one of its own ([call_fault]) or one of the batch ([batch_fault]). Of a rejected batch each call is told of its own
    faults and the batch's, each once, and, if it has none, only that the exchange is invalid; the tokens recorded are those of
    the calls, from the closed catalogue, and the fallback [unclassified_rejection] is never used. *)
Theorem rejection_explained repr float_repr casefold validate f limits view pr :
  let facts := tool_call_rejection_facts repr float_repr casefold validate f limits view pr in
  let fault := fault repr float_repr casefold validate f limits view pr in
  (rejected facts = true <-> exists tc t, tc ∈ pr_tool_calls pr /\ fault tc t) /\
  Forall2 (fun tc l => NoDup l /\ ((forall t, t ∈ l <-> fault tc t) \/
                                   (forall t, ~ fault tc t) /\ l = ["invalid_or_over_budget_tool_exchange"]))
    (pr_tool_calls pr) (call_rejection_reasons facts) /\
  (forall t, t ∈ reason_tokens facts <-> rejected facts = true /\ exists l, l ∈ call_rejection_reasons facts /\ t ∈ l) /\
  (forall t, t ∈ reason_tokens facts -> t ∈ PROVIDER_CALL_REJECTION_REASONS /\ t <> "unclassified_rejection").
Proof.
  intros facts fault. pose proof (tokens_spec repr float_repr casefold validate f limits view pr) as Hspec. cbn zeta in Hspec.
  pose proof (rejected_faults repr float_repr casefold validate f limits view pr) as Hrej.
  unfold facts. cbn [rejected reason_tokens call_rejection_reasons tool_call_rejection_facts].
  set (tokens := dedup _ _) in *. split; [exact Hrej|]. split; [apply call_reasons_faults|].
  assert (forall t, t ∈ tokens <-> exists l, l ∈ call_reasons repr float_repr casefold validate f limits view pr <$> pr_tool_calls pr /\ t ∈ l) as Htok.
  { intros t. rewrite Hspec. split.
    - intros (tc & Htc & Ht). eexists. split; [by apply list_elem_of_fmap_2|done].
    - intros (l & (tc & -> & Htc)%list_elem_of_fmap & Ht). by exists tc. }
  destruct (is_rejected _ _ _ _ _ _ _ _) eqn:Er; cbn [andb].
  - destruct (proj1 Hrej eq_refl) as (tc & t & Htc & Ht).
    assert (t ∈ tokens) as Hin by (apply Hspec; exists tc; split; [done|by apply call_reasons_in, why_fault]).
    rewrite bool_decide_false by (intros E; rewrite E in Hin; by apply not_elem_of_nil in Hin).
    split; [intros t'; rewrite Htok; tauto|]. intros t' (tc' & Htc' & Ht')%Hspec. eapply known_token, call_reasons_known, Ht'.
  - split; [|by intros t ?%not_elem_of_nil]. intros t. split; [by intros ?%not_elem_of_nil|by intros [? _]].
Qed.

(** ** Turns *)

(** One provider round: what was offered, what came back, and, if its batch reached the dispatcher
    ([r_dispatched]; argument validation may send it back first), the results. *)
Record round : Type := mkRound {
  r_catalog : list ToolSpec;
  r_view : round_view;
  r_limits : call_limits;
  r_response : ProviderResponse;
  r_dispatched : bool;
  r_raw : ToolCall -> ToolResult;
  r_shown : ToolCall -> ToolResult;
}.

Definition r_calls (r : round) : list ToolCall := pr_tool_calls (r_response r).
Definition WAKE_REPLY_TOOL : pystr := u "reply".

(** Later steps of a round only narrow the policy's tools; a forced wake choice offers [reply] and
    [stay_silent]; a terminal round offers schemas it accepts no call of. *)
Definition surface_ok (mutating_mcp : list pystr) (f : fence) (r : round) : Prop :=
  v_terminal (r_view r) = true \/
  forall n, n ∈ v_offered (r_view r) ->
    n ∈ spec_name <$> policy_tools mutating_mcp f (r_catalog r) \/ n ∈ [WAKE_REPLY_TOOL; STAY_SILENT_TOOL].

(** ** Blocked names *)

Lemma elem_only_if b l n : n ∈ only_if b l <-> b = true /\ n ∈ l.
Proof. destruct b; cbn; [tauto|]. split; [intros H; by apply not_elem_of_nil in H|by intros [? _]]. Qed.

Definition WEB : list pystr := [u "web_search"; u "web_fetch"; TASK_TOOL].

Lemma elem_blocked mutating_mcp f n :
  n ∈ blocked_tools mutating_mcp f <->
  external_content_seen f = true /\ (n ∈ PLATFORM_MUTATION_TOOLS \/ n = u "web_search" \/ n = TASK_TOOL \/
                                     allowed_fetch_urls f = ∅ /\ n = u "web_fetch") \/
  mutation_outcome_unknown f = true /\ (n ∈ PLATFORM_MUTATION_TOOLS \/ n ∈ mutating_mcp) \/
  screen_pixels_blocked f = true /\ (n ∈ WEB \/ n ∈ mutating_mcp) \/
  untrusted_screen_only f = true /\ n ∈ PLATFORM_MUTATION_TOOLS \/
  private_read_seen f = true /\ n ∈ WEB.
Proof.
  unfold blocked_tools. rewrite !elem_of_app, !elem_only_if, !elem_of_app, elem_only_if, !elem_of_cons, bool_decide_eq_true.
  unfold WEB. rewrite !elem_of_cons, elem_of_nil. tauto.
Qed.

Lemma fixed_not_blocked mutating_mcp f n :
  Forall (fun m => startswith (u "mcp__") m = true) mutating_mcp ->
  n ∈ [WAKE_REPLY_TOOL; STAY_SILENT_TOOL] ++ MEMORY_DISCOVERY_TOOLS -> n ∉ blocked_tools mutating_mcp f.
Proof.
  intros Hprefix Hn Hb.
  assert (n ∈ (PLATFORM_MUTATION_TOOLS ++ [u "web_search"; u "web_fetch"; TASK_TOOL]) ++ mutating_mcp) as H.
  { apply elem_blocked in Hb. rewrite !elem_of_app. unfold WEB in Hb. set_solver. }
  clear Hb. apply elem_of_app in H as [H|H].
  - assert (Forall (fun m => m ∉ PLATFORM_MUTATION_TOOLS ++ [u "web_search"; u "web_fetch"; TASK_TOOL])
              ([WAKE_REPLY_TOOL; STAY_SILENT_TOOL] ++ MEMORY_DISCOVERY_TOOLS)) as HF by decided.
    rewrite Forall_forall in HF. by apply (HF n).
  - rewrite Forall_forall in Hprefix. apply Hprefix in H.
    assert (Forall (fun m => startswith (u "mcp__") m = false) ([WAKE_REPLY_TOOL; STAY_SILENT_TOOL] ++ MEMORY_DISCOVERY_TOOLS))
      as HF by decided.
    rewrite Forall_forall in HF. rewrite HF in H by done. done.
Qed.

Section Turn.
Context (repr : pyval -> pystr) (float_repr : pyfloat -> pystr) (casefold : pystr -> pystr).
Context (validate : pystr -> pyval -> option pystr) (search_result_urls : pystr -> list pystr).
Context (outbound_blocking_reads : list pystr) (blocking_predicate : option (ToolCall -> outcome bool)).
Context (mcp_names mutating_mcp : list pystr).

Definition executed (f : fence) (r : round) : bool :=
  negb (rejected (tool_call_rejection_facts repr float_repr casefold validate f (r_limits r) (r_view r) (r_response r)))
  && r_dispatched r.

Abbreviation settle := (settle_round repr float_repr search_result_urls outbound_blocking_reads blocking_predicate
                                 mcp_names mutating_mcp).

Definition after_round (f : fence) (r : round) : fence :=
  if executed f r then settle (r_raw r) (r_shown r) (r_calls r) f else f.

Definition run_turn : fence -> list round -> fence := foldl after_round.

(** The rounds whose batches ran, each with the calls that were dispatched. *)
Fixpoint history (f : fence) (rs : list round) : list (round * list ToolCall) :=
  match rs with
  | [] => []
  | r :: rs => (if executed f r then [(r, dispatch_calls float_repr f (r_calls r))] else []) ++ history (after_round f r) rs
  end.

(** A URL the model was shown: a search hit, or a page to continue. *)
Definition url_shown (h : list (round * list ToolCall)) (url : pystr) : Prop :=
  exists r d tc, (r, d) ∈ h /\ tc ∈ r_calls r /\
    (call_name tc = u "web_search" /\ url ∈ search_result_urls (result_content (r_shown r tc)) \/
     call_name tc = u "web_fetch" /\ url ∈ continuations repr (r_shown r tc)).

Definition outcome_lost (h : list (round * list ToolCall)) : Prop :=
  exists r d tc, (r, d) ∈ h /\ tc ∈ r_calls r /\ unknown_outcome mutating_mcp tc (r_raw r tc) = true.

(** What the fence knows of a history. *)
Record knows (pixels screen_only : bool) (h : list (round * list ToolCall)) (f : fence) : Prop := mkKnows {
  kn_external : external_content_seen f = existsb (external_call mcp_names) (concat h.*2);
  kn_private : private_read_seen f =
               existsb (read_blocks_later_outbound outbound_blocking_reads blocking_predicate) (concat h.*2);
  kn_unknown : outcome_lost h -> mutation_outcome_unknown f = true;
  kn_screen : screen_pixels_blocked f = pixels /\ untrusted_screen_only f = screen_only;
  kn_urls : forall url, url ∈ allowed_fetch_urls f -> url_shown h url;
  kn_tools : forall n, n ∈ completed_memory_discovery_tools f -> n ∈ MEMORY_DISCOVERY_TOOLS;
  kn_calls : completed_memory_discovery_calls f = list_to_set (discovered float_repr (concat h.*2));
  kn_once : NoDup (discovered float_repr (concat h.*2));
}.

(** ** Repeated discoveries *)

Lemma split_repeated_once completed seen calls :
  NoDup (discovered float_repr (split_repeated float_repr completed seen calls)) /\
  (forall k, k ∈ discovered float_repr (split_repeated float_repr completed seen calls) -> k ∉ completed /\ k ∉ seen).
Proof using Type.
  revert seen. induction calls as [|tc calls IH]; intros seen; [split; [constructor|intros k H; by apply not_elem_of_nil in H]|].
  cbn [split_repeated]. destruct (memory_discovery_call_key float_repr tc) as [k|] eqn:Ek.
  - destruct (bool_decide (k ∈ completed)) eqn:E1; [apply IH|]. destruct (bool_decide (k ∈ seen)) eqn:E2; [apply IH|].
    cbn [orb]. apply bool_decide_eq_false in E1, E2. destruct (IH ({[k]} ∪ seen)) as [Hnd Hk].
    unfold discovered in *. cbn [omap list_omap]. rewrite Ek. split.
    + constructor; [|exact Hnd]. intros H. apply Hk in H as [_ H]. set_solver.
    + intros k' [->|H]%elem_of_cons; [done|]. apply Hk in H as [? ?]. split; [done|set_solver].
  - destruct (IH seen) as [Hnd Hk]. unfold discovered in *. cbn [omap list_omap]. rewrite Ek. done.
Qed.

Lemma discovered_app a b : discovered float_repr (a ++ b) = discovered float_repr a ++ discovered float_repr b.
Proof using Type. apply omap_app. Qed.

Lemma discovered_tool tc k : memory_discovery_call_key float_repr tc = Some k -> k.1 ∈ MEMORY_DISCOVERY_TOOLS.
Proof using Type.
  unfold memory_discovery_call_key. case_bool_decide as H; [done|].
  case_bool_decide; intros [= <-]; exact H.
Qed.

(** ** The invariant *)

Lemma noted_urls (shown : ToolCall -> ToolResult) calls urls url :
  url ∈ foldl (fun us tc => note_result repr search_result_urls tc (shown tc) us) urls calls ->
  url ∈ urls \/ exists tc, tc ∈ calls /\
    (call_name tc = u "web_search" /\ url ∈ search_result_urls (result_content (shown tc)) \/
     call_name tc = u "web_fetch" /\ url ∈ continuations repr (shown tc)).
Proof using Type.
  revert urls. induction calls as [|tc calls IH]; intros urls H; [by left|]. cbn [foldl] in H.
  apply IH in H as [H|(x & Hx & Hu)]; [|right; exists x; split; [by right|done]].
  unfold note_result in H. case_bool_decide as E1; [|case_bool_decide as E2; [|by left]].
  - apply elem_of_union in H as [H|H%elem_of_list_to_set]; [by left|]. right. exists tc. split; [by left|by left].
  - apply elem_of_union in H as [H|H%elem_of_list_to_set]; [left; set_solver|]. right. exists tc. split; [by left|by right].
Qed.

Lemma concat_snoc {A B} (h : list (A * list B)) r d : concat (h ++ [(r, d)]).*2 = concat h.*2 ++ d.
Proof using Type. rewrite fmap_app, concat_app. cbn. by rewrite app_nil_r. Qed.

Lemma url_shown_mono h h' url : url_shown h url -> url_shown (h ++ h') url.
Proof using Type. intros (r & d & tc & H & ?). exists r, d, tc. split; [apply elem_of_app; by left|done]. Qed.

Lemma knows_step pixels screen_only h f r :
  knows pixels screen_only h f ->
  knows pixels screen_only (h ++ [(r, dispatch_calls float_repr f (r_calls r))]) (settle (r_raw r) (r_shown r) (r_calls r) f).
Proof using Type.
  intros [H1 H2 H3 H4 H5 H6 H7 H8]. set (d := dispatch_calls float_repr f (r_calls r)).
  destruct (split_repeated_once (completed_memory_discovery_calls f) ∅ (other_calls (r_calls r))) as [Hnd Hnew].
  fold (dispatch_calls float_repr f (r_calls r)) in Hnd, Hnew. fold d in Hnd, Hnew.
  split; rewrite ?concat_snoc; unfold settle_round; fold d; cbn [external_content_seen mutation_outcome_unknown
    screen_pixels_blocked untrusted_screen_only private_read_seen allowed_fetch_urls completed_memory_discovery_tools
    completed_memory_discovery_calls].
  - by rewrite existsb_app, H1.
  - by rewrite existsb_app, H2.
  - intros (r' & d' & tc & [Hin|Heq%list_elem_of_singleton]%elem_of_app & Htc & Hu).
    + apply orb_true_iff. left. apply H3. by exists r', d', tc.
    + injection Heq as -> ->. apply orb_true_iff. right. apply existsb_exists. exists tc. split; [by apply list_elem_of_In|done].
  - exact H4.
  - intros url [Hu|(tc & Htc & Hu)]%noted_urls; [by apply url_shown_mono, H5|].
    exists r, d, tc. split; [apply elem_of_app; right; by apply list_elem_of_singleton|]. split; [|done].
    by apply list_elem_of_filter in Htc as [_ Htc].
  - intros n [Hn|Hn%elem_of_list_to_set]%elem_of_union; [by apply H6|]. apply list_elem_of_fmap in Hn as (k & -> & Hk).
    apply list_elem_of_omap in Hk as (tc & _ & Hk). by eapply discovered_tool.
  - rewrite discovered_app, list_to_set_app_L. by f_equal.
  - rewrite discovered_app. apply NoDup_app. split; [done|]. split; [|done].
    intros k Hk Hd. apply Hnew in Hd as [Hd _]. apply Hd. rewrite H7. by apply elem_of_list_to_set.
Qed.

Lemma knows_run pixels screen_only rs h f :
  knows pixels screen_only h f -> knows pixels screen_only (h ++ history f rs) (run_turn f rs).
Proof using Type.
  revert h f. induction rs as [|r rs IH]; intros h f H; [by rewrite app_nil_r|]. cbn [history run_turn foldl].
  rewrite app_assoc. apply IH. unfold after_round. destruct (executed f r); [by apply knows_step|by rewrite app_nil_r].
Qed.

Lemma knows_initial pixels screen_only : knows pixels screen_only [] (initial_fence pixels screen_only).
Proof using Type.
  split; [done|done| |done| | |done|constructor].
  - intros (r & d & tc & H & _). by apply not_elem_of_nil in H.
  - intros url H. by apply elem_of_empty in H.
  - intros n H. by apply elem_of_empty in H.
Qed.

(** ** Blocked calls *)

Hypothesis Hprefix : Forall (fun n => startswith (u "mcp__") n = true) mutating_mcp.

Lemma executed_not_blocked f r tc :
  (forall n, n ∈ completed_memory_discovery_tools f -> n ∈ MEMORY_DISCOVERY_TOOLS) ->
  surface_ok mutating_mcp f r -> executed f r = true -> tc ∈ r_calls r -> call_name tc ∉ blocked_tools mutating_mcp f.
Proof using Hprefix.
  intros Hdisc Hs [He _]%andb_true_iff Htc. apply negb_true_iff in He.
  destruct (accepted_call _ _ _ _ _ _ _ _ _ He Htc) as [[Hn|Hn] _].
  - destruct Hs as [Hterm|Hs].
    + pose proof (accepted_not_terminal _ _ _ _ _ _ _ _ _ He Htc). congruence.
    + destruct (Hs _ Hn) as [H|H]; [|apply fixed_not_blocked; [exact Hprefix|apply elem_of_app; by left]].
      apply list_elem_of_fmap in H as (sp & -> & H). by apply list_elem_of_filter in H as [H _].
  - apply fixed_not_blocked; [exact Hprefix|apply elem_of_app; right; by apply Hdisc].
Qed.

Lemma fence_rules pixels screen_only h f r tc :
  knows pixels screen_only h f -> surface_ok mutating_mcp f r -> executed f r = true -> tc ∈ r_calls r ->
  (existsb (external_call mcp_names) (concat h.*2) = true ->
   call_name tc ∉ PLATFORM_MUTATION_TOOLS ++ [u "web_search"; TASK_TOOL] /\
   (call_name tc = u "web_fetch" -> url_shown h (url_of repr tc))) /\
  (existsb (read_blocks_later_outbound outbound_blocking_reads blocking_predicate) (concat h.*2) = true ->
   call_name tc ∉ WEB) /\
  (outcome_lost h -> call_name tc ∉ PLATFORM_MUTATION_TOOLS ++ mutating_mcp) /\
  (pixels = true -> call_name tc ∉ WEB ++ mutating_mcp) /\
  (screen_only = true -> call_name tc ∉ PLATFORM_MUTATION_TOOLS).
Proof using Hprefix.
  intros [H1 H2 H3 [H4 H4'] H5 H6 _ _] Hs He Htc.
  pose proof (executed_not_blocked f r tc H6 Hs He Htc) as Hb. rewrite elem_blocked in Hb.
  apply andb_true_iff in He as [He _]. apply negb_true_iff in He.
  destruct (accepted_call _ _ _ _ _ _ _ _ _ He Htc) as [Hoff Hurl].
  rewrite <- H1, <- H2, <- H4, <- H4'. split; [|split; [|split; [|split]]].
  - intros Hx. split; [|intros Hn; apply H5, Hurl; done]. intros [Hm|Hm]%elem_of_app; apply Hb; left; (split; [done|]); [by left|].
    apply elem_of_cons in Hm as [Hm|Hm%list_elem_of_singleton]; [right; by left|right; right; by left].
  - intros Hx Hm. apply Hb. do 4 right. done.
  - intros Hx Hm. apply Hb. right; left. split; [by apply H3|]. by apply elem_of_app.
  - intros Hx Hm. apply Hb. right; right; left. split; [done|]. by apply elem_of_app.
  - intros Hx Hm. apply Hb. do 3 right; left. done.
Qed.
End Turn.

(** C7: the fence of a turn holds over any rounds, whatever the provider answers. For a batch that
    runs, given what ran before it in the turn: after an external or MCP read it has no platform
    write, search or task, and fetches only URLs a shown search result or page continuation named;
    after a private read no search, fetch or task; after a remote write of unknown outcome no
    platform or MCP mutation; on a turn with screen pixels no search, fetch, task or MCP mutation, and on
    an unattended one no platform write. No memory discovery is ever dispatched twice. *)
Theorem turn_fence_safe repr float_repr casefold validate search_result_urls blocking_reads blocking_predicate
    mcp_names mutating_mcp pixels screen_only rs r :
  Forall (fun n => startswith (u "mcp__") n = true) mutating_mcp ->
  let run := run_turn repr float_repr casefold validate search_result_urls blocking_reads blocking_predicate mcp_names mutating_mcp in
  let f := run (initial_fence pixels screen_only) rs in
  let h := history repr float_repr casefold validate search_result_urls blocking_reads blocking_predicate mcp_names mutating_mcp
             (initial_fence pixels screen_only) rs in
  surface_ok mutating_mcp f r -> executed repr float_repr casefold validate f r = true ->
  NoDup (discovered float_repr (concat h.*2 ++ dispatch_calls float_repr f (r_calls r))) /\
  forall tc, tc ∈ r_calls r ->
  (existsb (external_call mcp_names) (concat h.*2) = true ->
   call_name tc ∉ PLATFORM_MUTATION_TOOLS ++ [u "web_search"; TASK_TOOL] /\
   (call_name tc = u "web_fetch" -> url_shown repr search_result_urls h (url_of repr tc))) /\
  (existsb (read_blocks_later_outbound blocking_reads blocking_predicate) (concat h.*2) = true -> call_name tc ∉ WEB) /\
  (outcome_lost mutating_mcp h -> call_name tc ∉ PLATFORM_MUTATION_TOOLS ++ mutating_mcp) /\
  (pixels = true -> call_name tc ∉ WEB ++ mutating_mcp) /\
  (screen_only = true -> call_name tc ∉ PLATFORM_MUTATION_TOOLS).
Proof.
  intros Hp run f h Hs He.
  pose proof (knows_run repr float_repr casefold validate search_result_urls blocking_reads blocking_predicate mcp_names
    mutating_mcp pixels screen_only rs [] _ (knows_initial _ _ _ _ _ _ _ _ _)) as Hk. cbn [app] in Hk. fold h in Hk.
  split.
  - rewrite <- (concat_snoc h r). by eapply kn_once, knows_step.
  - intros tc. by eapply fence_rules.
Qed.

(** ** A turn *)

Definition ex_args (n : pystr) (a : pyval) : option pystr := None.
Definition ex_spec (n : string) : ToolSpec := mkSpec (u n) [] PNone.
Definition ex_tool (id name : string) (args : list (string * pyval)) : ToolCall :=
  mkCall (u id) (u name) (PDict ((fun kv => (u kv.1, kv.2)) <$> args)) [] true.
Definition ex_catalog : list ToolSpec := ex_spec <$> ["web_search"; "web_fetch"; "memory_write"; "memory_index"; "task"].

Definition ex_round (offered : list string) (calls : list ToolCall) (result : string) : round :=
  let r tc := mkResult (call_id tc) (u result) PNone in
  mkRound ex_catalog (mkView (u <$> offered) [] false false 0 []) (mkLimits 4096 8192 8192 4096 8 32)
    (mkResponse [] calls false None) true r r.

(** A search, then a fetch of a URL no result named (rejected), then the fetch of the hit. *)
Definition ex_rounds : list round :=
  [ex_round ["web_search"; "memory_write"; "memory_index"] [ex_tool "a" "memory_index" []; ex_tool "b" "web_search" []] "http://x";
   ex_round ["web_fetch"; "memory_index"] [ex_tool "c" "web_fetch" [("url", PStr (u "http://y"))]] "secret"].
Definition ex_last : round :=
  ex_round ["web_fetch"; "memory_index"]
    [ex_tool "d" "memory_index" []; ex_tool "e" "web_fetch" [("url", PStr (u "http://x"))]] "page".

Abbreviation ex_run := (run_turn (fun _ => []) (fun _ => []) (fun s => s) ex_args (fun c => [c]) [] None [] []
                              (initial_fence false false) ex_rounds).
Abbreviation ex_history := (history (fun _ => []) (fun _ => []) (fun s => s) ex_args (fun c => [c]) [] None [] []
                              (initial_fence false false) ex_rounds).

(** The fetch of a URL nobody was shown did not run; the one of the search hit does. *)
Lemma turn_fence_safe_witness :
  (call_id <$> concat ex_history.*2) = [u "a"; u "b"] /\
  executed (fun _ => []) (fun _ => []) (fun s => s) ex_args ex_run ex_last = true /\
  url_shown (fun _ => []) (fun c => [c]) ex_history (u "http://x").
Proof.
  split; [vm_compute; reflexivity|]. split; [vm_compute; reflexivity|].
  refine (proj2 (proj1 (proj2 (turn_fence_safe (fun _ => []) (fun _ => []) (fun s => s) ex_args (fun c => [c]) [] None [] []
    false false ex_rounds ex_last (Forall_nil_2 _) _ _) (ex_tool "e" "web_fetch" [("url", PStr (u "http://x"))]) _) _) _).
  - right. intros n Hn. left.
    assert (Forall (fun m => m ∈ spec_name <$> policy_tools [] ex_run ex_catalog) (v_offered (r_view ex_last))) as HF by decided.
    rewrite Forall_forall in HF. exact (HF n Hn).
  - vm_compute; reflexivity.
  - right. left.
  - vm_compute; reflexivity.
  - reflexivity.
Defined.
End FenceSafety.
