(* ===== verification/Base64.v ===== *)
(** * URL-safe base64 without padding

    What [base64.urlsafe_b64encode(data).rstrip(b"=")] and
    [base64.urlsafe_b64decode(text + padding)] compute: the decoder takes both alphabets, skips
    other characters and ends at a complete padding. *)

From S2P Require Import Prelude PyValue.
Local Open Scope N_scope.

Module Base64.

Definition digit (n : N) : N :=
  if n <? 26 then 65 + n else if n <? 52 then 71 + n else if n <? 62 then n - 4 else if n =? 62 then 45 else 95.

Fixpoint encode (bs : list N) : pystr :=
  match bs with
  | a :: b :: c :: rest =>
      digit (a / 4) :: digit (a mod 4 * 16 + b / 16) :: digit (b mod 16 * 4 + c / 64) :: digit (c mod 64) :: encode rest
  | [a; b] => [digit (a / 4); digit (a mod 4 * 16 + b / 16); digit (b mod 16 * 4)]
  | [a] => [digit (a / 4); digit (a mod 4 * 16)]
  | [] => []
  end.

Definition value (c : N) : option N :=
  if (65 <=? c) && (c <=? 90) then Some (c - 65) else
  if (97 <=? c) && (c <=? 122) then Some (c - 71) else
  if (48 <=? c) && (c <=? 57) then Some (c + 4) else
  if (c =? 43) || (c =? 45) then Some 62 else
  if (c =? 47) || (c =? 95) then Some 63 else None.

(** [binascii.a2b_base64]: the place in the group of four, the bits left over, the padding seen. *)
Fixpoint a2b (s : pystr) (place left pads : N) : outcome (list N) :=
  match s with
  | [] => if place =? 0 then Return [] else Raise (ValueError "Incorrect padding")
  | c :: s =>
      if c =? 61 then
        if (2 <=? place) && (4 <=? place + (pads + 1)) then Return []
        else a2b s place left (if 2 <=? place then pads + 1 else pads)
      else match value c with
           | None => a2b s place left pads
           | Some v =>
               if place =? 0 then a2b s 1 v 0
               else if place =? 1 then bs ← a2b s 2 (v mod 16) 0; Return (left * 4 + v / 16 :: bs)
               else if place =? 2 then bs ← a2b s 3 (v mod 4) 0; Return (left * 16 + v / 4 :: bs)
               else bs ← a2b s 0 0 0; Return (left * 64 + v :: bs)
           end
  end.

(** [text + "=" * (-len(text) % 4)] *)
Definition padded (s : pystr) : pystr := s ++ replicate (Z.to_nat (- Zlen s mod 4)) 61.
Definition decode (s : pystr) : outcome (list N) := a2b (padded s) 0 0 0.

(** ** Round trip *)

Lemma digits_ok :
  Forall (fun n => value (digit n) = Some n /\ digit n <> 61 /\ digit n < 128 /\ digit n <> 46) (N.of_nat <$> seq 0 64).
Proof. decided. Qed.

Lemma digit_ok n : n < 64 -> value (digit n) = Some n /\ digit n <> 61 /\ digit n < 128 /\ digit n <> 46.
Proof. intros H. pose proof digits_ok as HF. rewrite Forall_forall in HF. apply HF, list_elem_of_fmap. exists (N.to_nat n).
  split; [lia|]. apply elem_of_seq. lia. Qed.

Lemma a2b_digit n s place left pads : n < 64 ->
  a2b (digit n :: s) place left pads =
  if place =? 0 then a2b s 1 n 0
  else if place =? 1 then bs ← a2b s 2 (n mod 16) 0; Return (left * 4 + n / 16 :: bs)
  else if place =? 2 then bs ← a2b s 3 (n mod 4) 0; Return (left * 16 + n / 4 :: bs)
  else bs ← a2b s 0 0 0; Return (left * 64 + n :: bs).
Proof.
  intros H. destruct (digit_ok n H) as (Hv & Hne & _). cbn [a2b]. rewrite (proj2 (N.eqb_neq _ _) Hne), Hv. done.
Qed.

(** Text in the alphabet, none of it padding or a dot. *)
Lemma encode_alphabet bs : Forall (fun b => b < 256) bs -> Forall (fun c => c < 128 /\ c <> 46) (encode bs).
Proof.
  assert (forall n, n < 64 -> digit n < 128 /\ digit n <> 46) as Hd by (intros n Hn; destruct (digit_ok n Hn) as (_ & _ & ? & ?); done).
  induction bs as [bs IH] using (induction_ltof1 _ (@length N)); unfold ltof in IH. intros HF.
  destruct bs as [|a [|b [|c bs]]]; cbn [encode]; [constructor| | |];
    repeat match goal with H : Forall _ (_ :: _) |- _ => apply Forall_cons in H as [? H] end;
    repeat (constructor; [apply Hd; (Z.to_euclidean_division_equations; lia) || (zify; Z.to_euclidean_division_equations; lia)|]); [constructor|constructor|].
  apply IH; [cbn; lia|done].
Qed.

Ltac bytes := zify; Z.to_euclidean_division_equations; lia.

Lemma padded_four a b c d s : padded (a :: b :: c :: d :: s) = a :: b :: c :: d :: padded s.
Proof.
  unfold padded. rewrite !Zlen_cons. cbn [app]. do 4 f_equal. f_equal. f_equal. f_equal.
  replace (- (1 + (1 + (1 + (1 + Zlen s)))))%Z with (- Zlen s + -1 * 4)%Z by lia. by rewrite Z.mod_add by lia.
Qed.

Lemma decode_encode_b64 bs : Forall (fun b => b < 256) bs -> decode (encode bs) = Return bs.
Proof.
  unfold decode. induction bs as [bs IH] using (induction_ltof1 _ (@length N)); unfold ltof in IH. intros HF.
  destruct bs as [|a [|b [|c bs]]]; cbn [encode];
    repeat match goal with H : Forall _ (_ :: _) |- _ => apply Forall_cons in H as [? H] end; [done| | |].
  - change (padded [digit (a / 4); digit (a mod 4 * 16)]) with [digit (a / 4); digit (a mod 4 * 16); 61; 61].
    rewrite !a2b_digit by bytes. vm_compute (a2b [61; 61] _ _ _). cbn [N.eqb Pos.eqb mbind outcome_bind]. do 2 f_equal. bytes.
  - change (padded [digit (a / 4); digit (a mod 4 * 16 + b / 16); digit (b mod 16 * 4)])
      with [digit (a / 4); digit (a mod 4 * 16 + b / 16); digit (b mod 16 * 4); 61].
    rewrite !a2b_digit by bytes. vm_compute (a2b [61] _ _ _). cbn [N.eqb Pos.eqb mbind outcome_bind]. do 2 f_equal; [bytes|f_equal; bytes].
  - rewrite padded_four. rewrite !a2b_digit by bytes. cbn [N.eqb Pos.eqb].
    rewrite IH by (done || (cbn; lia)). cbn [mbind outcome_bind]. do 2 f_equal; [bytes|f_equal; [bytes|f_equal; bytes]].
Qed.
End Base64.
