(* ===== verification/HistoryScan.v ===== *)
(** * The scan planner of history search
    ([backend/model_api_runtime/v2/history_search.py])

    A search walks the sequence numbers of a snapshot downwards: a query first looks at one
    batch of messages no summary covers yet, then at the ranges whose summaries match, then at
    the rest; a search by time only walks everything. The position of a search is a phase and two
    numbers, and a page may stop anywhere inside a batch. *)

From S2P Require Import Prelude PyValue.
Local Open Scope Z_scope.

Module Scan.

(** ** Ranges *)

Abbreviation range := (Z * Z)%type.

(** Clipped to [1, upper], empty ones dropped. *)
Fixpoint clip_ranges (upper : Z) (ranges : list range) : outcome (list range) :=
  match ranges with
  | [] => Return []
  | (s, e) :: rest =>
      if (s <=? 0) || (e <? s) then Raise (ValueError "invalid leaf hit range") else
      let s := Z.max 1 s in
      let e := Z.min e upper in
      l ← clip_ranges upper rest;
      Return (if s <=? e then (s, e) :: l else l)
  end.

(** The merging loop; [merged] has its last element first. *)
Definition merge_step (merged : list range) (r : range) : list range :=
  match merged with
  | (ls, le) :: rest =>
      if (r.1 <=? le + 1) && (ls <=? r.2 + 1) then (Z.min r.1 ls, Z.max r.2 le) :: rest else r :: merged
  | [] => [r]
  end.
Definition merge_ranges (l : list range) : list range := reverse (foldl merge_step [] l).

(** [sort(key=end, reverse=True)], then merge. *)
Definition descending (l : list range) : list range := sorted_by Z.leb (fun r => - r.2) l.
Definition merged_runs (l : list range) : list range := merge_ranges (descending l).

Definition normalize_leaf_hit_ranges (ranges : list range) (watermark snapshot : Z) : outcome (list range) :=
  clipped ← clip_ranges (Z.min watermark snapshot) ranges; Return (merged_runs clipped).

(** ** Shape, state, batch *)

Record ScanShape : Type := mkShape {
  snapshot_through_seq : Z;
  summary_watermark_seq : Z;
  has_query : bool;
  leaf_hit_ranges : list range;
}.

Definition make_shape (snapshot watermark : Z) (query : bool) (ranges : list range) : outcome ScanShape :=
  if (snapshot <? 0) || (watermark <? 0) then Raise (ValueError "scan shape seqs must be >= 0") else
  normalized ← normalize_leaf_hit_ranges ranges watermark snapshot;
  if negb query && negb (bool_decide (normalized = [])) then Raise (ValueError "leaf hits require a query")
  else Return (mkShape snapshot watermark query normalized).

Inductive scan_phase : Type := PHASE_UNCOMPRESSED | PHASE_LEAF_HITS | PHASE_RECENT | PHASE_DONE.
#[global] Instance scan_phase_eq_dec : EqDecision scan_phase.
Proof. solve_decision. Defined.

Record ScanState : Type := mkState {
  phase : scan_phase;
  resume_seq : Z;
  uncompressed_floor : Z;
}.

Definition make_state (p : scan_phase) (resume floor : Z) : outcome ScanState :=
  if (resume <? 0) || (floor <? 0) then Raise (ValueError "scan state seqs must be >= 0") else Return (mkState p resume floor).

Record ScanBatch : Type := mkBatch {
  batch_phase : scan_phase;
  min_seq : Z;
  max_seq : Z;
  batch_limit : Z;
}.

Definition scan_complete (st : ScanState) : bool := bool_decide (phase st = PHASE_DONE).

(** ** The planner *)

Section Planner.
Context (shape : ScanShape).
Abbreviation snapshot := (snapshot_through_seq shape).
Abbreviation watermark := (summary_watermark_seq shape).

Definition covered_intervals (st : ScanState) : list range :=
  merged_runs (leaf_hit_ranges shape ++ if 0 <? uncompressed_floor st then [(uncompressed_floor st, snapshot)] else []).

Fixpoint uncovered_below (covered : list range) (top : Z) : option range :=
  match covered with
  | [] => if 1 <=? top then Some (1, top) else None
  | (s, e) :: rest =>
      if top <? s then uncovered_below rest top
      else if e <? top then Some (e + 1, top)
      else if s - 1 <? 1 then None else uncovered_below rest (s - 1)
  end.

Definition highest_uncovered_run (st : ScanState) (ceiling : Z) : option range :=
  uncovered_below (covered_intervals st) (Z.min ceiling snapshot).

Definition set_phase (p : scan_phase) (resume : Z) (st : ScanState) : ScanState := mkState p resume (uncompressed_floor st).

(** [_normalize_state], from each phase on: a phase without work gives way to the next. *)
Definition normalize_recent (st : ScanState) : ScanState :=
  match highest_uncovered_run st (resume_seq st) with Some _ => st | None => set_phase PHASE_DONE 0 st end.

Definition normalize_leaf_hits (st : ScanState) : ScanState :=
  if has_query shape && existsb (fun r => r.1 <=? resume_seq st) (leaf_hit_ranges shape) then st
  else normalize_recent (set_phase PHASE_RECENT snapshot st).

Definition normalize_uncompressed (st : ScanState) : ScanState :=
  if has_query shape && (watermark + 1 <=? Z.min (resume_seq st) snapshot) then st
  else normalize_leaf_hits (set_phase PHASE_LEAF_HITS snapshot st).

Definition normalize_state (st : ScanState) : ScanState :=
  match phase st with
  | PHASE_UNCOMPRESSED => normalize_uncompressed st
  | PHASE_LEAF_HITS => normalize_leaf_hits st
  | PHASE_RECENT => normalize_recent st
  | PHASE_DONE => st
  end.

Definition initial_scan_state : ScanState :=
  normalize_state (mkState (if has_query shape then PHASE_UNCOMPRESSED else PHASE_RECENT) snapshot 0).

Definition next_batch (st : ScanState) (limit : Z) : outcome (option ScanBatch) :=
  if limit <=? 0 then Raise (ValueError "batch_limit must be positive") else
  let current := normalize_state st in
  match phase current with
  | PHASE_DONE => Return None
  | PHASE_UNCOMPRESSED =>
      Return (Some (mkBatch PHASE_UNCOMPRESSED (watermark + 1) (Z.min (resume_seq current) snapshot) limit))
  | PHASE_LEAF_HITS =>
      match List.find (fun r => r.1 <=? resume_seq current) (leaf_hit_ranges shape) with
      | Some (s, e) => Return (Some (mkBatch PHASE_LEAF_HITS s (Z.min e (resume_seq current)) limit))
      | None => Raise (Other "AssertionError")
      end
  | PHASE_RECENT =>
      match highest_uncovered_run current (resume_seq current) with
      | Some (lo, hi) => Return (Some (mkBatch PHASE_RECENT lo hi limit))
      | None => Raise (Other "AssertionError")
      end
  end.

(** How far a batch was checked: to its end, or down to [last_checked_seq]. *)
Definition checked_floor (batch : ScanBatch) (exhausted : bool) (last_checked : option Z) : outcome Z :=
  if exhausted then Return (min_seq batch) else
  match last_checked with
  | None => Raise (ValueError "last_checked_seq required unless exhausted")
  | Some s => if (min_seq batch <=? s) && (s <=? max_seq batch) then Return s
              else Raise (ValueError "last_checked_seq outside the batch window")
  end.

Definition advance_scan_state (st : ScanState) (batch : ScanBatch) (exhausted : bool) (last_checked : option Z)
    : outcome ScanState :=
  let current := normalize_state st in
  if negb (bool_decide (phase current = batch_phase batch))
  then Raise (ValueError "batch does not belong to the current scan phase") else
  floor ← checked_floor batch exhausted last_checked;
  successor ← (if bool_decide (phase current = PHASE_UNCOMPRESSED)
               then make_state PHASE_LEAF_HITS snapshot floor
               else make_state (phase current) (Z.max 0 (floor - 1)) (uncompressed_floor current));
  Return (normalize_state successor).
End Planner.

(** ** Sets of ranges *)

Definition inside (r : range) (x : Z) : Prop := r.1 <= x <= r.2.
#[global] Instance inside_dec r x : Decision (inside r x).
Proof. unfold inside. apply _. Defined.
Definition covers (l : list range) (x : Z) : Prop := exists r, r ∈ l /\ inside r x.

(** Descending, none empty, no two touching. *)
Definition apart (a b : range) : Prop := b.2 + 1 < a.1.
Definition proper (r : range) : Prop := r.1 <= r.2.
Definition separated (l : list range) : Prop := StronglySorted apart l /\ Forall proper l.

Lemma covers_nil x : ~ covers [] x.
Proof. intros (r & H & _). by apply not_elem_of_nil in H. Qed.

Lemma covers_cons r l x : covers (r :: l) x <-> inside r x \/ covers l x.
Proof.
  split.
  - intros (r' & [->|H]%elem_of_cons & Hx); [by left|right; by exists r'].
  - intros [H|(r' & H & Hx)]; [exists r; split; [by left|done]|exists r'; split; [by right|done]].
Qed.

Lemma covers_app l k x : covers (l ++ k) x <-> covers l x \/ covers k x.
Proof.
  induction l as [|r l IH]; cbn [app]; [|rewrite !covers_cons, IH; tauto].
  split; [by right|]. intros [H|H]; [by apply covers_nil in H|done].
Qed.

Lemma covers_Permutation l k x : l ≡ₚ k -> covers l x <-> covers k x.
Proof. intros H. split; intros (r & Hr & Hx); exists r; (split; [|done]); [by rewrite <- H|by rewrite H]. Qed.

(** One step of the loop, on a range that ends no later than the last one. *)
Lemma merge_step_spec merged r :
  StronglySorted (flip apart) merged -> Forall proper merged -> proper r -> (forall h, head merged = Some h -> r.2 <= h.2) ->
  StronglySorted (flip apart) (merge_step merged r) /\ Forall proper (merge_step merged r) /\
  (exists h, head (merge_step merged r) = Some h /\ r.2 <= h.2) /\
  forall x, covers (merge_step merged r) x <-> inside r x \/ covers merged x.
Proof.
  intros Hs HF Hr Hh. destruct merged as [|[ls le] rest]; cbn [merge_step].
  { split_and!; [by repeat constructor|by repeat constructor|by exists r|]. intros x. by rewrite covers_cons. }
  specialize (Hh _ eq_refl). cbn in Hh. apply StronglySorted_inv in Hs as [Hs Hall]. apply Forall_cons in HF as [Hp HF].
  unfold proper in Hr, Hp. cbn in Hp. destruct ((r.1 <=? le + 1) && (ls <=? r.2 + 1)) eqn:E; bools.
  - split_and!.
    + constructor; [done|]. eapply Forall_impl; [exact Hall|]. intros a. unfold apart, flip. cbn. lia.
    + constructor; [|done]. unfold proper. cbn. lia.
    + eexists. split; [done|]. cbn. lia.
    + intros x. rewrite !covers_cons. unfold inside. cbn. split; [intros [?|?]|intros [?|[?|?]]]; [|by right;right|left; lia|left; lia|by right].
      destruct (decide (ls <= x)); [right; left; lia|left; lia].
  - assert (r.2 + 1 < ls) as Hlt by (apply andb_false_iff in E as [E|E]; apply Z.leb_gt in E; lia).
    split_and!.
    + constructor; [by constructor|]. constructor; [done|]. eapply Forall_impl; [exact Hall|]. intros a. unfold apart, flip. cbn. lia.
    + by repeat constructor.
    + by exists r.
    + intros x. by rewrite covers_cons.
Qed.

Lemma merge_foldl l : forall merged,
  StronglySorted (fun a b : range => b.2 <= a.2) l -> Forall proper l ->
  StronglySorted (flip apart) merged -> Forall proper merged ->
  (forall h r, head merged = Some h -> r ∈ l -> r.2 <= h.2) ->
  StronglySorted (flip apart) (foldl merge_step merged l) /\ Forall proper (foldl merge_step merged l) /\
  forall x, covers (foldl merge_step merged l) x <-> covers l x \/ covers merged x.
Proof.
  induction l as [|r l IH]; intros merged Hl HFl Hs HF Hh; cbn [foldl].
  { split_and!; [done|done|]. intros x. split; [by right|]. intros [H|H]; [by apply covers_nil in H|done]. }
  apply StronglySorted_inv in Hl as [Hl Hall]. apply Forall_cons in HFl as [Hr HFl].
  destruct (merge_step_spec merged r Hs HF Hr) as (Hs' & HF' & (h & Eh & Hrh) & Hc).
  { intros h Eh. apply (Hh h r Eh). by left. }
  destruct (IH _ Hl HFl Hs' HF') as (Hs'' & HF'' & Hc'').
  { intros h' r' Eh' Hr'. rewrite Eh in Eh'. injection Eh' as <-. rewrite Forall_forall in Hall. specialize (Hall _ Hr'). cbn in Hall. lia. }
  split_and!; [done|done|]. intros x. rewrite Hc'', Hc, covers_cons. tauto.
Qed.

Lemma merged_runs_spec l : Forall proper l -> separated (merged_runs l) /\ forall x, covers (merged_runs l) x <-> covers l x.
Proof.
  intros HF. unfold merged_runs, merge_ranges, descending. set (k := sorted_by Z.leb (fun r : range => - r.2) l).
  assert (k ≡ₚ l) as Hp by apply sorted_by_Permutation.
  assert (StronglySorted (fun a b : range => b.2 <= a.2) k) as Hk.
  { apply (StronglySorted_weaken (fun a b : range => (- a.2 <=? - b.2) = true)).
    - intros a b H. apply Z.leb_le in H. lia.
    - apply sorted_by_sorted; intros; rewrite ?Z.leb_le in *; lia. }
  destruct (merge_foldl k [] Hk) as (Hs & HFm & Hc); [by rewrite Hp|constructor|constructor|done|].
  split; [split; [by apply sorted_reverse|by rewrite reverse_Permutation]|].
  intros x. rewrite (covers_Permutation _ (foldl merge_step [] k)) by apply reverse_Permutation.
  rewrite Hc, (covers_Permutation k l) by done. split; [intros [H|H]; [done|by apply covers_nil in H]|by left].
Qed.

Lemma clip_ranges_spec upper ranges l :
  clip_ranges upper ranges = Return l -> Forall (fun r => 1 <= r.1 <= r.2 /\ r.2 <= upper) l.
Proof.
  revert l. induction ranges as [|[s e] ranges IH]; intros l H; [injection H as <-; constructor|]. cbn [clip_ranges] in H.
  destruct (_ || _) eqn:E; [done|]. bools. apply bind_return in H as (k & Hk & H). injection H as <-.
  specialize (IH _ Hk). destruct (Z.max 1 s <=? Z.min e upper) eqn:El; [|done]. bools. constructor; [cbn; lia|done].
Qed.

(** ** Shapes *)

Record valid_shape (shape : ScanShape) : Prop := mkValid {
  vs_snapshot : 0 <= snapshot_through_seq shape;
  vs_watermark : 0 <= summary_watermark_seq shape;
  vs_separated : separated (leaf_hit_ranges shape);
  vs_bounds : Forall (fun r => 1 <= r.1 /\ r.2 <= Z.min (summary_watermark_seq shape) (snapshot_through_seq shape))
                (leaf_hit_ranges shape);
  vs_query : has_query shape = false -> leaf_hit_ranges shape = [];
}.

Lemma make_shape_valid snapshot watermark query ranges shape :
  make_shape snapshot watermark query ranges = Return shape -> valid_shape shape.
Proof.
  unfold make_shape. destruct (_ || _) eqn:E; [done|]. bools. intros (l & Hl & Hret)%bind_return.
  apply bind_return in Hl as (k & Hk & Hl). injection Hl as <-. apply clip_ranges_spec in Hk.
  destruct (merged_runs_spec k) as [Hs Hc]; [by eapply Forall_impl; [exact Hk|intros r; unfold proper; lia]|].
  destruct (negb query && _) eqn:Eq; [done|]. injection Hret as <-. split; cbn; [lia|lia|done| |].
  - destruct Hs as [_ HF]. rewrite Forall_forall in HF, Hk |- *. intros r Hr. specialize (HF r Hr). unfold proper in HF.
    assert (covers k r.1) as (a & Ha & H1) by (apply Hc; exists r; split; [done|unfold inside; lia]).
    assert (covers k r.2) as (b & Hb & H2) by (apply Hc; exists r; split; [done|unfold inside; lia]).
    specialize (Hk a Ha) as Ka. specialize (Hk b Hb) as Kb. unfold inside in *. lia.
  - intros ->. cbn in Eq. apply negb_false_iff, bool_decide_eq_true in Eq. exact Eq.
Qed.

(** ** What a state says has been checked *)

Section Checked.
Context (shape : ScanShape) (Hshape : valid_shape shape).
Abbreviation snapshot := (snapshot_through_seq shape).
Abbreviation watermark := (summary_watermark_seq shape).
Abbreviation ranges := (leaf_hit_ranges shape).

Definition first_batch (st : ScanState) (x : Z) : Prop := 0 < uncompressed_floor st /\ uncompressed_floor st <= x <= snapshot.

Definition checked (st : ScanState) (x : Z) : Prop :=
  match phase st with
  | PHASE_UNCOMPRESSED => False
  | PHASE_LEAF_HITS => first_batch st x \/ covers ranges x /\ resume_seq st < x
  | PHASE_RECENT => 1 <= x <= snapshot /\ (first_batch st x \/ covers ranges x \/ resume_seq st < x)
  | PHASE_DONE => 1 <= x <= snapshot
  end.

Record wf_state (st : ScanState) : Prop := mkWf {
  wf_resume : 0 <= resume_seq st <= snapshot;
  wf_floor : uncompressed_floor st = 0 \/ watermark < uncompressed_floor st <= snapshot;
  wf_first : phase st = PHASE_UNCOMPRESSED -> resume_seq st = snapshot /\ uncompressed_floor st = 0;
}.

Lemma ranges_inside x : covers ranges x -> 1 <= x <= snapshot /\ x <= watermark.
Proof using Hshape.
  intros (r & Hr & Hx). pose proof (vs_bounds _ Hshape) as HF. rewrite Forall_forall in HF. specialize (HF _ Hr).
  unfold inside in Hx. lia.
Qed.

Lemma covered_spec st : wf_state st ->
  separated (covered_intervals shape st) /\
  forall x, covers (covered_intervals shape st) x <-> covers ranges x \/ first_batch st x.
Proof using Hshape.
  intros Hwf. unfold covered_intervals.
  match goal with |- separated (merged_runs ?l) /\ _ => destruct (merged_runs_spec l) as [Hs Hc] end.
  - apply Forall_app. split; [apply (vs_separated _ Hshape)|]. destruct (0 <? uncompressed_floor st) eqn:E; bools; [|constructor].
    repeat constructor. unfold proper. cbn. pose proof (wf_floor _ Hwf). lia.
  - split; [done|]. intros x. rewrite Hc, covers_app. unfold first_batch. destruct (0 <? uncompressed_floor st) eqn:E; bools.
    + rewrite covers_cons. unfold inside. cbn. split; (intros [?|?]; [by left|right]).
      * destruct H as [?|H]; [done|by apply covers_nil in H].
      * left. tauto.
    + split; (intros [?|H]; [by left|]); [by apply covers_nil in H|lia].
Qed.

Lemma uncovered_below_spec covered : forall top,
  separated covered -> (forall x, covers covered x -> 1 <= x) ->
  match uncovered_below covered top with
  | Some (lo, hi) => 1 <= lo <= hi /\ hi <= top /\ (forall x, lo <= x <= hi -> ~ covers covered x) /\
                     (forall x, hi < x <= top -> covers covered x)
  | None => forall x, 1 <= x <= top -> covers covered x
  end.
Proof using Type.
  induction covered as [|[s e] covered IH]; intros top [Hs HF] Hpos; cbn [uncovered_below].
  { destruct (1 <=? top) eqn:E; bools; [|intros; lia]. split_and!; try lia. intros x _. apply covers_nil. }
  apply StronglySorted_inv in Hs as [Hs Hall]. apply Forall_cons in HF as [Hp HF]. unfold proper in Hp. cbn in Hp.
  assert (forall x, covers covered x -> x + 1 < s) as Hbelow.
  { intros x (r & Hr & Hx). rewrite Forall_forall in Hall. specialize (Hall r Hr). unfold apart in Hall. unfold inside in Hx. cbn in Hall. lia. }
  assert (forall x, covers covered x -> 1 <= x) as Hpos' by (intros x Hx; apply Hpos, covers_cons; by right).
  destruct (top <? s) eqn:E1; bools.
  { specialize (IH top (conj Hs HF) Hpos'). destruct (uncovered_below covered top) as [[lo hi]|].
    - destruct IH as (? & ? & Hn & Hy). split_and!; try lia; intros x Hx; rewrite covers_cons; [|right; by apply Hy].
      intros [Hi|Hi]; [unfold inside in Hi; cbn in Hi; lia|by apply (Hn x)].
    - intros x Hx. apply covers_cons. right. by apply IH. }
  destruct (e <? top) eqn:E2; bools.
  { assert (1 <= s) by (apply Hpos, covers_cons; left; unfold inside; cbn; lia).
    split_and!; try lia. intros x Hx. rewrite covers_cons. intros [Hi|Hi]; [unfold inside in Hi; cbn in Hi; lia|].
    apply Hbelow in Hi. lia. }
  destruct (s - 1 <? 1) eqn:E3; bools.
  { intros x Hx. apply covers_cons. left. unfold inside. cbn. lia. }
  specialize (IH (s - 1) (conj Hs HF) Hpos'). destruct (uncovered_below covered (s - 1)) as [[lo hi]|].
  - destruct IH as (? & ? & Hn & Hy). split_and!; try lia; intros x Hx; rewrite covers_cons.
    + intros [Hi|Hi]; [unfold inside in Hi; cbn in Hi; lia|by apply (Hn x)].
    + destruct (decide (s <= x)); [left; unfold inside; cbn; lia|right; apply Hy; lia].
  - intros x Hx. apply covers_cons. destruct (decide (s <= x)); [left; unfold inside; cbn; lia|right; apply IH; lia].
Qed.

Lemma run_spec st : wf_state st ->
  match highest_uncovered_run shape st (resume_seq st) with
  | Some (lo, hi) => 1 <= lo <= hi /\ hi <= resume_seq st /\
                     (forall x, lo <= x <= hi -> ~ (covers ranges x \/ first_batch st x)) /\
                     (forall x, hi < x <= resume_seq st -> covers ranges x \/ first_batch st x)
  | None => forall x, 1 <= x <= resume_seq st -> covers ranges x \/ first_batch st x
  end.
Proof using Hshape.
  intros Hwf. destruct (covered_spec st Hwf) as [Hs Hc]. unfold highest_uncovered_run.
  replace (Z.min (resume_seq st) snapshot) with (resume_seq st) by (pose proof (wf_resume _ Hwf); lia).
  pose proof (uncovered_below_spec (covered_intervals shape st) (resume_seq st) Hs) as H.
  destruct (uncovered_below _ _) as [[lo hi]|].
  - destruct H as (H1 & H2 & Hn & Hy).
    { intros x [Hx|Hx]%Hc; [apply ranges_inside in Hx; lia|unfold first_batch in Hx; lia]. }
    split_and!; try lia; [intros x Hx; rewrite <- Hc; by apply Hn|intros x Hx; apply Hc; by apply Hy].
  - intros x Hx. apply Hc, H; [|done]. intros y [Hy|Hy]%Hc; [apply ranges_inside in Hy; lia|unfold first_batch in Hy; lia].
Qed.

(** ** Normalisation keeps what was checked *)

Definition has_work (st : ScanState) : Prop :=
  match phase st with
  | PHASE_UNCOMPRESSED => has_query shape = true /\ watermark + 1 <= snapshot
  | PHASE_LEAF_HITS => exists r, r ∈ ranges /\ r.1 <= resume_seq st
  | PHASE_RECENT => highest_uncovered_run shape st (resume_seq st) <> None
  | PHASE_DONE => True
  end.

Definition same_checked (st st' : ScanState) : Prop := wf_state st' /\ has_work st' /\ forall x, checked st' x <-> checked st x.

Lemma normalize_recent_spec st : wf_state st -> phase st = PHASE_RECENT -> same_checked st (normalize_recent shape st).
Proof using Hshape.
  intros Hwf Hp. pose proof (run_spec st Hwf) as Hr. unfold normalize_recent.
  destruct (highest_uncovered_run shape st (resume_seq st)) as [[lo hi]|] eqn:E.
  - split; [done|]. split; [unfold has_work; by rewrite Hp, E|done].
  - split; [|split; [done|]].
    + pose proof (vs_snapshot _ Hshape). split; cbn; [lia|apply Hwf|done].
    + intros x. unfold checked. rewrite Hp. cbn. split; [|tauto]. intros Hx. split; [done|].
      destruct (decide (resume_seq st < x)); [by right; right|]. destruct (Hr x) as [?|?]; [lia|by right; left|by left].
Qed.

Lemma normalize_leaf_hits_spec st : wf_state st -> phase st = PHASE_LEAF_HITS -> same_checked st (normalize_leaf_hits shape st).
Proof using Hshape.
  intros Hwf Hp. unfold normalize_leaf_hits.
  destruct (has_query shape && existsb (fun r => r.1 <=? resume_seq st) ranges) eqn:E.
  - split; [done|]. split; [|done]. apply andb_true_iff in E as [_ E]. apply existsb_exists in E as (r & Hr & Hl).
    unfold has_work. rewrite Hp. exists r. split; [by apply list_elem_of_In|by apply Z.leb_le].
  - pose proof (vs_snapshot _ Hshape).
    assert (wf_state (set_phase PHASE_RECENT snapshot st)) as Hwf' by (split; cbn; [lia|apply Hwf|done]).
    destruct (normalize_recent_spec _ Hwf' eq_refl) as (H1 & H2 & H3). split; [done|]. split; [done|]. intros x. rewrite H3.
    unfold checked. rewrite Hp. cbn.
    assert (covers ranges x -> resume_seq st < x) as Hlow.
    { intros (r & Hr & Hx). apply andb_false_iff in E as [E|E]; [rewrite (vs_query _ Hshape E) in Hr; by apply not_elem_of_nil in Hr|].
      apply existsb_false with (x := r) in E; [|done]. apply Z.leb_gt in E. unfold inside in Hx. lia. }
    pose proof (ranges_inside x) as Hin. pose proof (wf_floor _ Hwf). pose proof (vs_watermark _ Hshape). unfold first_batch in *. cbn.
    split; [intros (? & [?|[?|?]]); [by left|right; tauto|lia]|]. intros [?|[? ?]]; [split; [lia|by left]|split; [tauto|tauto]].
Qed.

Lemma normalize_state_spec st : wf_state st -> same_checked st (normalize_state shape st).
Proof using Hshape.
  intros Hwf. unfold normalize_state. destruct (phase st) eqn:Hp.
  - unfold normalize_uncompressed. destruct (has_query shape && (watermark + 1 <=? Z.min (resume_seq st) snapshot)) eqn:E.
    + split; [done|]. split; [|done]. unfold has_work. rewrite Hp. bools. split; [done|lia].
    + pose proof (vs_snapshot _ Hshape). destruct (wf_first _ Hwf Hp) as [Hr Hf].
      assert (wf_state (set_phase PHASE_LEAF_HITS snapshot st)) as Hwf' by (split; cbn; [lia|by left|done]).
      destruct (normalize_leaf_hits_spec _ Hwf' eq_refl) as (H1 & H2 & H3). split; [done|]. split; [done|]. intros x. rewrite H3.
      unfold checked, first_batch. rewrite Hp. cbn. rewrite Hf. split; [|done]. intros [?|[Hc ?]]; [lia|].
      apply ranges_inside in Hc. lia.
  - by apply normalize_leaf_hits_spec.
  - by apply normalize_recent_spec.
  - split; [done|]. split; [unfold has_work; by rewrite Hp|done].
Qed.

(** ** One batch *)

Lemma find_first (p : range -> bool) l r : List.find p l = Some r ->
  exists pre post, l = pre ++ r :: post /\ p r = true /\ Forall (fun a => p a = false) pre.
Proof using Type.
  induction l as [|a l IH]; cbn [List.find]; [done|]. destruct (p a) eqn:E.
  - intros [= ->]. by exists [], l.
  - intros (pre & post & -> & ? & HF)%IH. exists (a :: pre), post. split_and!; [done|done|by constructor].
Qed.

(** A window of the phase that nothing has checked, and what checking it down to [c] adds. *)
Definition fresh_window (st : ScanState) (b : ScanBatch) : Prop :=
  1 <= min_seq b <= max_seq b /\ max_seq b <= snapshot /\ forall x, min_seq b <= x <= max_seq b -> ~ checked st x.

Lemma leaf_batch cur s e :
  wf_state cur -> phase cur = PHASE_LEAF_HITS -> List.find (fun r => r.1 <=? resume_seq cur) ranges = Some (s, e) ->
  fresh_window cur (mkBatch PHASE_LEAF_HITS s (Z.min e (resume_seq cur)) 1) /\
  forall c x, s <= c <= Z.min e (resume_seq cur) ->
    (covers ranges x /\ c - 1 < x <-> (covers ranges x /\ resume_seq cur < x) \/ c <= x <= Z.min e (resume_seq cur)).
Proof using Hshape.
  intros Hwf Hp Hf. apply find_first in Hf as (pre & post & El & Hl & Hpre). cbn in Hl. bools.
  destruct (vs_separated _ Hshape) as [Hs HF]. rewrite El in Hs, HF.
  apply Forall_app in HF as [_ HF]. apply Forall_cons in HF as [Hse HF]. unfold proper in Hse. cbn in Hse.
  assert (covers ranges s) as Hin by (exists (s, e); split; [rewrite El; apply elem_of_app; right; by left|unfold inside; cbn; lia]).
  assert (covers ranges e) as Hin' by (exists (s, e); split; [rewrite El; apply elem_of_app; right; by left|unfold inside; cbn; lia]).
  apply ranges_inside in Hin, Hin'.
  assert (forall x, covers ranges x -> resume_seq cur < x \/ s <= x <= e \/ x < s) as Hcase.
  { intros x. rewrite El, covers_app, covers_cons. intros [(r & Hr & Hx)|[Hx|(r & Hr & Hx)]].
    - left. rewrite Forall_forall in Hpre. specialize (Hpre r Hr). cbn in Hpre. apply Z.leb_gt in Hpre. unfold inside in Hx. lia.
    - right; left. exact Hx.
    - right; right. apply StronglySorted_app_1_r, StronglySorted_inv in Hs as [_ Hall].
      rewrite Forall_forall in Hall. specialize (Hall r Hr). unfold apart in Hall. cbn in Hall. unfold inside in Hx. lia. }
  split.
  - unfold fresh_window, checked. cbn. rewrite Hp. split_and!; try lia. intros x Hx [Hc|[_ Hc]]; [|lia].
    unfold first_batch in Hc. pose proof (wf_floor _ Hwf). lia.
  - intros c x Hc. split.
    + intros [Hx Hlt]. destruct (decide (resume_seq cur < x)); [by left|right].
      destruct (Hcase x Hx) as [?|[?|?]]; lia.
    + intros [[Hx Hlt]|Hx]; [split; [done|lia]|]. split; [|lia]. exists (s, e).
      split; [rewrite El; apply elem_of_app; right; by left|unfold inside; cbn; lia].
Qed.

(** The window [next_batch] gives for a normal state, and its phase. *)
Lemma next_batch_spec st limit : wf_state st -> 0 < limit ->
  let cur := normalize_state shape st in
  if scan_complete cur then next_batch shape st limit = Return None
  else exists b, next_batch shape st limit = Return (Some b) /\ batch_phase b = phase cur /\ fresh_window st b /\
       forall c x, min_seq b <= c <= max_seq b ->
         match phase cur with
         | PHASE_UNCOMPRESSED => max_seq b = snapshot /\ watermark < min_seq b
         | PHASE_LEAF_HITS => covers ranges x /\ c - 1 < x <->
                              (covers ranges x /\ resume_seq cur < x) \/ c <= x <= max_seq b
         | _ => max_seq b <= resume_seq cur /\ forall y, max_seq b < y <= resume_seq cur -> covers ranges y \/ first_batch cur y
         end.
Proof using Hshape.
  intros Hwf Hl cur. destruct (normalize_state_spec st Hwf) as (Hwf' & Hwork & Hsame). fold cur in Hwf', Hwork, Hsame.
  unfold scan_complete, next_batch. fold cur. rewrite (proj2 (Z.leb_gt limit 0)) by lia. cbv zeta.
  assert (forall b, fresh_window cur b -> fresh_window st b) as Hfresh.
  { intros b (? & ? & Hn). split; [done|]. split; [done|]. intros x Hx Hc. by apply (Hn x), Hsame. }
  unfold has_work in Hwork. pose proof (wf_resume _ Hwf') as Hres. destruct (phase cur) eqn:Hp; cbn [bool_decide]; rewrite ?Hp.
  - destruct (wf_first _ Hwf' Hp) as [Hr Hf]. pose proof (vs_watermark _ Hshape). rewrite bool_decide_false by done. eexists. split_and!; [done|done| |].
    + apply Hfresh. unfold fresh_window, checked. rewrite Hp. cbn. split_and!; try lia.
    + intros c x Hc. cbn in *. lia.
  - rewrite bool_decide_false by done. destruct Hwork as (r & Hr & Hrl).
    destruct (List.find (fun r => r.1 <=? resume_seq cur) ranges) as [[s e]|] eqn:Ef.
    + destruct (leaf_batch cur s e Hwf' Hp Ef) as [Hw Hadd]. eexists. split_and!; [done|done|apply Hfresh; exact Hw|].
      intros c x Hc. cbn in *. by apply Hadd.
    + exfalso. apply list_elem_of_In in Hr. pose proof (List.find_none _ _ Ef r Hr) as Hx. cbn in Hx. apply Z.leb_gt in Hx. lia.
  - rewrite bool_decide_false by done. pose proof (run_spec cur Hwf') as Hrun.
    destruct (highest_uncovered_run shape cur (resume_seq cur)) as [[lo hi]|]; [|done]. destruct Hrun as (H1 & H2 & Hn & Hy).
    eexists. split_and!; [done|done| |].
    + apply Hfresh. unfold fresh_window, checked. rewrite Hp. cbn. split_and!; try lia. intros x Hx [_ Hc].
      apply (Hn x Hx). destruct Hc as [?|[?|?]]; [by right|by left|lia].
    + intros c x Hc. cbn in *. done.
  - by rewrite bool_decide_true.
Qed.

Lemma checked_floor_inside b ex lc c : min_seq b <= max_seq b -> checked_floor b ex lc = Return c -> min_seq b <= c <= max_seq b.
Proof using Type.
  unfold checked_floor. intros Hb. destruct ex; [intros [= <-]; lia|]. destruct lc as [z|]; [|done].
  destruct ((min_seq b <=? z) && (z <=? max_seq b)) eqn:E; [|done]. intros [= <-]. bools. lia.
Qed.

Lemma advance_spec st limit b ex lc c : wf_state st -> 0 < limit ->
  next_batch shape st limit = Return (Some b) -> checked_floor b ex lc = Return c ->
  exists st', advance_scan_state shape st b ex lc = Return st' /\ wf_state st' /\ has_work st' /\
              forall x, checked st' x <-> checked st x \/ c <= x <= max_seq b.
Proof using Hshape.
  intros Hwf Hl Hb Hc. pose proof (next_batch_spec st limit Hwf Hl) as H. cbv zeta in H.
  destruct (normalize_state_spec st Hwf) as (Hwf' & _ & Hsame). unfold advance_scan_state.
  set (cur := normalize_state shape st) in *. cbv zeta.
  destruct (scan_complete cur) eqn:Ed; [by rewrite H in Hb|]. destruct H as (b' & Hb' & Hph & (Hw1 & Hw2 & Hfresh) & Hadd).
  rewrite Hb in Hb'. injection Hb' as <-. pose proof (checked_floor_inside b ex lc c ltac:(lia) Hc) as Hcb.
  rewrite Hph, bool_decide_true by done. cbn [negb]. rewrite Hc. cbn [mbind outcome_bind].
  assert (exists succ, (if bool_decide (phase cur = PHASE_UNCOMPRESSED) then make_state PHASE_LEAF_HITS snapshot c
            else make_state (phase cur) (Z.max 0 (c - 1)) (uncompressed_floor cur)) = Return succ /\ wf_state succ /\
          forall x, checked succ x <-> checked cur x \/ c <= x <= max_seq b) as (succ & -> & Hwfs & Hs).
  { pose proof (vs_snapshot _ Hshape). pose proof (vs_watermark _ Hshape). pose proof (wf_floor _ Hwf'). unfold make_state.
    destruct (phase cur) eqn:Hp; [| | |by unfold scan_complete in Ed; rewrite Hp in Ed].
    - rewrite bool_decide_true by done. destruct (Hadd c 0 Hcb) as [Hmax Hmin].
      rewrite (proj2 (Z.ltb_ge snapshot 0)), (proj2 (Z.ltb_ge c 0)) by lia. eexists. split_and!; [done|split; cbn; [lia|lia|done]|].
      intros x. unfold checked, first_batch. rewrite Hp. cbn. split; [intros [?|[Hcv ?]]; [right; lia|apply ranges_inside in Hcv; lia]|].
      intros [[]|?]. left. lia.
    - rewrite bool_decide_false by done. rewrite (proj2 (Z.ltb_ge (Z.max 0 (c - 1)) 0)), (proj2 (Z.ltb_ge (uncompressed_floor cur) 0)) by lia.
      eexists. split_and!; [done|split; cbn; [lia|done|done]|]. intros x. specialize (Hadd c x Hcb).
      unfold checked, first_batch. rewrite Hp. cbn. replace (Z.max 0 (c - 1)) with (c - 1) by lia. tauto.
    - rewrite bool_decide_false by done. rewrite (proj2 (Z.ltb_ge (Z.max 0 (c - 1)) 0)), (proj2 (Z.ltb_ge (uncompressed_floor cur) 0)) by lia.
      eexists. split_and!; [done|split; cbn; [lia|done|done]|]. intros x. destruct (Hadd c x Hcb) as [Hm Hy].
      unfold checked, first_batch in *. rewrite Hp. cbn. replace (Z.max 0 (c - 1)) with (c - 1) by lia. split.
      + intros (Hx & [?|[?|?]]); [left; split; [done|by left]|left; split; [done|right; by left]|].
        destruct (decide (resume_seq cur < x)); [left; split; [done|right; by right]|]. destruct (decide (x <= max_seq b)); [right; lia|].
        left. split; [done|]. destruct (Hy x) as [?|?]; [lia|right; by left|by left].
      + intros [(Hx & [?|[?|?]])|?]; (split; [lia|]); [by left|right; by left|right; right; lia|right; right; lia]. }
  cbn [mbind outcome_bind]. destruct (normalize_state_spec succ Hwfs) as (Hn1 & Hn0 & Hn2). eexists. split_and!; [done|done|done|].
  intros x. rewrite Hn2, Hs. by rewrite Hsame.
Qed.

Lemma normalize_work st : wf_state st -> has_work st -> normalize_state shape st = st.
Proof using Hshape.
  intros Hwf. unfold has_work, normalize_state. destruct (phase st) eqn:Hp; [| | |done].
  - intros [Hq Hlt]. unfold normalize_uncompressed. destruct (wf_first _ Hwf Hp) as [-> _].
    rewrite Hq, (proj2 (Z.leb_le (watermark + 1) (Z.min snapshot snapshot))) by lia. done.
  - intros (r & Hr & Hl). unfold normalize_leaf_hits. destruct (has_query shape) eqn:Hq.
    + rewrite (proj2 (existsb_exists _ _)); [done|]. exists r. split; [by apply list_elem_of_In|by apply Z.leb_le].
    + rewrite (vs_query _ Hshape Hq) in Hr. by apply not_elem_of_nil in Hr.
  - unfold normalize_recent. by destruct (highest_uncovered_run shape st (resume_seq st)).
Qed.
End Checked.

(** ** Searches *)

(** The windows a search has checked, over any pages: each batch down to where it stopped. *)
Inductive scan (shape : ScanShape) : ScanState -> list range -> Prop :=
| scan_start : scan shape (initial_scan_state shape) []
| scan_batch st ws limit b ex lc c st' :
    scan shape st ws -> 0 < limit -> next_batch shape st limit = Return (Some b) ->
    checked_floor b ex lc = Return c -> advance_scan_state shape st b ex lc = Return st' ->
    scan shape st' (ws ++ [(c, max_seq b)]).

Definition times (ws : list range) (x : Z) : nat := length (filter (fun w => inside w x) ws).


Lemma times_snoc ws w x : times (ws ++ [w]) x = (times ws x + if decide (inside w x) then 1 else 0)%nat.
Proof. unfold times. rewrite filter_app, length_app, filter_cons. by destruct (decide (inside w x)). Qed.

(** Sequence numbers of the snapshot no window has. *)
Definition unseen (shape : ScanShape) (ws : list range) : nat :=
  length (filter (fun x => (times ws x =? 0)%nat = true) (seqZ 1 (snapshot_through_seq shape))).

Record scanned (shape : ScanShape) (st : ScanState) (ws : list range) : Prop := mkScanned {
  sc_wf : wf_state shape st;
  sc_work : has_work shape st;
  sc_times : forall x, (times ws x <= 1)%nat /\ (times ws x = 1%nat <-> checked shape st x);
  sc_inside : forall x, checked shape st x -> 1 <= x <= snapshot_through_seq shape;
  sc_length : (length ws + unseen shape ws <= Z.to_nat (snapshot_through_seq shape))%nat;
}.

Lemma scanned_start shape : valid_shape shape -> scanned shape (initial_scan_state shape) [].
Proof.
  intros Hv. set (st := mkState (if has_query shape then PHASE_UNCOMPRESSED else PHASE_RECENT) (snapshot_through_seq shape) 0).
  pose proof (vs_snapshot _ Hv).
  assert (wf_state shape st) as Hwf by (split; cbn; [lia|by left|by destruct (has_query shape)]).
  destruct (normalize_state_spec shape Hv st Hwf) as (H1 & H2 & H3).
  assert (forall x, ~ checked shape st x) as Hno.
  { intros x. unfold st, checked, first_batch. cbn. destruct (has_query shape) eqn:Hq; cbn; [tauto|].
    rewrite (vs_query _ Hv Hq). intros [? [?|[Hc|?]]]; [lia|by apply covers_nil in Hc|lia]. }
  split; [done|done| | |].
  - intros x. unfold initial_scan_state. fold st. rewrite H3. cbn. split; [lia|]. split; [lia|]. intros Hc. by apply Hno in Hc.
  - intros x Hc. unfold initial_scan_state in Hc. fold st in Hc. apply H3, Hno in Hc. done.
  - unfold unseen. etransitivity; [apply length_filter|]. rewrite length_seqZ. lia.
Qed.

Lemma scanned_batch shape st ws limit b ex lc c st' :
  valid_shape shape -> scanned shape st ws -> 0 < limit -> next_batch shape st limit = Return (Some b) ->
  checked_floor b ex lc = Return c -> advance_scan_state shape st b ex lc = Return st' ->
  scanned shape st' (ws ++ [(c, max_seq b)]).
Proof.
  intros Hv [Hwf Hwk Ht Hi Hlen] Hl Hb Hc Ha.
  destruct (advance_spec shape Hv st limit b ex lc c Hwf Hl Hb Hc) as (st'' & Ha' & Hwf' & Hwk' & Hch).
  rewrite Ha in Ha'. injection Ha' as <-.
  pose proof (next_batch_spec shape Hv st limit Hwf Hl) as Hn. cbv zeta in Hn. rewrite (normalize_work shape Hv st Hwf Hwk) in Hn.
  destruct (scan_complete st); [by rewrite Hn in Hb|]. destruct Hn as (b' & Hb' & _ & (Hw1 & Hw2 & Hfresh) & _).
  rewrite Hb in Hb'. injection Hb' as <-. pose proof (checked_floor_inside b ex lc c ltac:(lia) Hc) as Hcb.
  assert (forall x, c <= x <= max_seq b -> times ws x = 0%nat) as Hz.
  { intros x Hx. destruct (Ht x) as [? Hiff]. destruct (times ws x) as [|[|n]]; [done| |lia]. exfalso. apply (Hfresh x); [lia|by apply Hiff]. }
  split; [done| | | |].
  - done.
  - intros x. rewrite times_snoc, Hch. destruct (Ht x) as [? Hiff]. destruct (decide (inside (c, max_seq b) x)) as [Hx|Hx]; unfold inside in Hx; cbn in Hx.
    + rewrite Hz by done. split; [lia|]. split; [by right|done].
    + rewrite Nat.add_0_r. split; [done|]. rewrite Hiff. tauto.
  - intros x [?|?]%Hch; [by apply Hi|lia].
  - rewrite length_app. cbn. enough (unseen shape (ws ++ [(c, max_seq b)]) < unseen shape ws)%nat by lia.
    apply (length_filter_lt _ _ _ c); [|apply elem_of_seqZ; lia| |].
    + intros x _. rewrite times_snoc, !Nat.eqb_eq. lia.
    + rewrite times_snoc, decide_True by (unfold inside; cbn; lia). apply Nat.eqb_neq. lia.
    + rewrite Hz by lia. done.
Qed.

Lemma scan_scanned shape st ws : valid_shape shape -> scan shape st ws -> scanned shape st ws.
Proof. intros Hv. induction 1; [by apply scanned_start|by eapply scanned_batch]. Qed.

Lemma make_shape_seqs snapshot watermark query ranges shape :
  make_shape snapshot watermark query ranges = Return shape -> snapshot_through_seq shape = snapshot.
Proof. unfold make_shape. destruct (_ || _); [done|]. intros (l & _ & H)%bind_return. destruct (_ && _); [done|]. by injection H as <-. Qed.

(** From an unfinished state the planner always has a batch, wherever it is then left. *)
Lemma scan_continues shape st ws limit : valid_shape shape -> scan shape st ws -> scan_complete st = false -> 0 < limit ->
  exists b, next_batch shape st limit = Return (Some b) /\ fresh_window shape st b /\
    forall ex lc c, checked_floor b ex lc = Return c -> exists st', advance_scan_state shape st b ex lc = Return st'.
Proof.
  intros Hv Hs Hd Hl. destruct (scan_scanned _ _ _ Hv Hs) as [Hwf Hwk _ _ _].
  pose proof (next_batch_spec shape Hv st limit Hwf Hl) as Hn. cbv zeta in Hn. rewrite (normalize_work shape Hv st Hwf Hwk), Hd in Hn.
  destruct Hn as (b & Hb & _ & Hw & _). exists b. split_and!; [done|done|]. intros ex lc c Hc.
  destruct (advance_spec shape Hv st limit b ex lc c Hwf Hl Hb Hc) as (st' & ? & _). by exists st'.
Qed.

(** A search checks every message exactly once. Over any pages and wherever each batch stops,
    no sequence number is checked twice and none outside the snapshot is; the planner is done exactly
    when every sequence number from 1 to the snapshot has been checked; until then it always gives
    a batch and accepts any stopping point in it; and it is done after at most as many batches as the
    snapshot has sequence numbers. *)
Theorem scan_exactly_once snapshot watermark query ranges shape st ws :
  make_shape snapshot watermark query ranges = Return shape -> scan shape st ws ->
  (forall x, (times ws x <= 1)%nat /\ (times ws x = 1%nat -> 1 <= x <= snapshot)) /\
  (scan_complete st = true <-> forall x, 1 <= x <= snapshot -> times ws x = 1%nat) /\
  (scan_complete st = false -> forall limit, 0 < limit ->
     exists b, next_batch shape st limit = Return (Some b) /\ min_seq b <= max_seq b /\
     forall ex lc c, checked_floor b ex lc = Return c -> exists st', advance_scan_state shape st b ex lc = Return st') /\
  Zlen ws <= snapshot.
Proof.
  intros Hm Hs. pose proof (make_shape_valid _ _ _ _ _ Hm) as Hv. apply make_shape_seqs in Hm as <-.
  destruct (scan_scanned _ _ _ Hv Hs) as [Hwf Hwk Ht Hi Hlen]. pose proof (vs_snapshot _ Hv). split_and!.
  - intros x. destruct (Ht x) as [? Hiff]. split; [done|]. intros Hx. by apply Hi, Hiff.
  - split.
    + intros Hd x Hx. apply Ht. unfold scan_complete in Hd. apply bool_decide_eq_true in Hd. unfold checked. by rewrite Hd.
    + intros Hall. destruct (scan_complete st) eqn:Hd; [done|].
      destruct (scan_continues shape st ws 1 Hv Hs Hd ltac:(lia)) as (b & _ & (Hb & Hb' & Hf) & _).
      exfalso. apply (Hf (min_seq b)); [lia|]. apply Ht, Hall. lia.
  - intros Hd limit Hl. destruct (scan_continues shape st ws limit Hv Hs Hd Hl) as (b & Hb & (Hw & _) & Ha). exists b. split_and!; [done|lia|done].
  - unfold Zlen. lia.
Qed.

(** ** A search *)

(** Ten messages, six of them summarised, two matching ranges given out of order. *)
Abbreviation ex_shape := (mkShape 10 6 true [(4, 6); (1, 2)]).

(** The uncompressed batch stops at 8, the first leaf range in the middle; the rest follows. *)
Definition ex_windows : list range := [(8, 10); (5, 6); (4, 4); (1, 2); (7, 7); (3, 3)].

Lemma scan_exactly_once_witness :
  make_shape 10 6 true [(1, 2); (4, 4); (5, 9)] = Return ex_shape /\ scan ex_shape (mkState PHASE_DONE 0 8) ex_windows /\
  times ex_windows 3 = 1%nat.
Proof.
  assert (make_shape 10 6 true [(1, 2); (4, 4); (5, 9)] = Return ex_shape) as Hm by reflexivity.
  assert (scan ex_shape (mkState PHASE_DONE 0 8) ex_windows) as Hs.
  { unfold ex_windows. pose proof (scan_start ex_shape) as H.
    eapply (scan_batch _ _ _ 4 _ false (Some 8)) in H; [|reflexivity..].
    eapply (scan_batch _ _ _ 4 _ false (Some 5)) in H; [|reflexivity..].
    eapply (scan_batch _ _ _ 4 _ true None) in H; [|reflexivity..].
    eapply (scan_batch _ _ _ 4 _ true None) in H; [|reflexivity..].
    eapply (scan_batch _ _ _ 4 _ true None) in H; [|reflexivity..].
    eapply (scan_batch _ _ _ 4 _ true None) in H; [|reflexivity..]. exact H. }
  split; [exact Hm|]. split; [exact Hs|].
  refine (proj1 (proj1 (proj2 (scan_exactly_once 10 6 true [(1, 2); (4, 4); (5, 9)] _ _ _ Hm Hs))) _ 3 _); [reflexivity|lia].
Defined.
End Scan.
