(* ===== verification/HistoryCursor.v ===== *)
(** * The cursor of history search
    ([backend/model_api_runtime/v2/history_search.py])

    A page that is not the last hands the model an opaque token: the position of the scan and what
    the search is bound to, as compact JSON, deflated if that is shorter, base64, and an HMAC over
    the text. [zlib], [hmac], [json.loads], [float(str)] and the rendering of floats are parameters. *)

From S2P Require Import Prelude PyValue PyFloat Utf8 Base64 PromptEstimate HistoryScan.
Import Estimate Scan.
Local Open Scope Z_scope.

Module Cursor.

Definition QUERY_MAX_CHARS : Z := 128.
Definition CURSOR_MAX_CHARS : Z := 1024.
Definition CURSOR_VERSION : Z := 1.

(** [CursorInvalid(detail)], [CursorMismatch(detail)], [HistorySearchInputError(code)] *)
Definition CursorInvalid (detail : string) : exn := Other (String.append "cursor_invalid:" detail).
Definition CursorMismatch (detail : string) : exn := Other (String.append "cursor_mismatch:" detail).
Definition InputError (code : string) : exn := Other (String.append "history_input:" code).

Record HistoryCursor : Type := mkCursor {
  user_id : pystr;
  c_snapshot : Z;
  c_watermark : Z;
  runtime_generation : Z;
  query : pystr;
  start_ts : option pyfloat;
  end_ts : option pyfloat;
  c_phase : scan_phase;
  c_resume : Z;
  c_floor : Z;
  expires_at : pyfloat;
}.

Definition phase_text (p : scan_phase) : pystr :=
  u (match p with
     | PHASE_UNCOMPRESSED => "uncompressed" | PHASE_LEAF_HITS => "leaf_hits"
     | PHASE_RECENT => "recent" | PHASE_DONE => "done"
     end).
Definition phase_of (s : pystr) : option scan_phase :=
  List.find (fun p => bool_decide (phase_text p = s)) [PHASE_UNCOMPRESSED; PHASE_LEAF_HITS; PHASE_RECENT; PHASE_DONE].

(** The checks of [__post_init__]; [phase] is already one of the four. *)
Definition make_cursor (c : HistoryCursor) : outcome HistoryCursor :=
  if bool_decide (user_id c = []) then Raise (ValueError "cursor user_id required") else
  if existsb (fun z => z <? 0) [c_snapshot c; c_watermark c; runtime_generation c; c_resume c; c_floor c]
  then Raise (ValueError "cursor seq must be >= 0") else
  if QUERY_MAX_CHARS <? Zlen (query c) then Raise (ValueError "cursor query too long") else
  if bool_decide (query c = []) && bool_decide (start_ts c = None) && bool_decide (end_ts c = None)
  then Raise (ValueError "cursor needs a query or a time range") else Return c.

Definition scan_state (c : HistoryCursor) : ScanState := mkState (c_phase c) (c_resume c) (c_floor c).

Section Codec.
Context (repr : pyval -> pystr) (float_repr : pyfloat -> pystr) (float_of_str : pystr -> option pyfloat).
Context (loads : pystr -> outcome pyval).
(** [zlib.compress(raw, 9)]; [decompressobj().decompress(data, 65536)] with whether input was left. *)
Context (compress : list N -> list N) (decompress : list N -> outcome (list N * bool)).
(** [hmac.new(key, msg, sha256).digest()] *)
Context (hmac_sha256 : list N -> list N -> list N).

Definition optional_float (o : option pyfloat) : pyval := match o with Some f => PFloat f | None => PNone end.

Definition cursor_payload (c : HistoryCursor) : list (pystr * pyval) :=
  [(u "v", PInt CURSOR_VERSION); (u "exp", PFloat (expires_at c)); (u "u", PStr (user_id c)); (u "ss", PInt (c_snapshot c));
   (u "sw", PInt (c_watermark c)); (u "rg", PInt (runtime_generation c)); (u "q", PStr (query c));
   (u "t0", optional_float (start_ts c)); (u "t1", optional_float (end_ts c)); (u "ph", PStr (phase_text (c_phase c)));
   (u "rs", PInt (c_resume c)); (u "uf", PInt (c_floor c))].

Definition require_key (key : list N) : outcome (list N) :=
  if (length key <? 16)%nat then Raise (ValueError "cursor HMAC key must be >= 16 bytes") else Return key.

(** [text.encode("ascii")] *)
Definition ascii (s : pystr) : outcome (list N) := if forallb (fun c => (c <? 128)%N) s then Return s else Raise UnicodeError.

Definition pack (raw : list N) : list N :=
  let compressed := compress raw in if Zlen compressed <? Zlen raw then 122%N :: compressed else 114%N :: raw.

Definition sign (key : list N) (segment : pystr) : outcome pystr :=
  bytes ← ascii segment; Return (Base64.encode (hmac_sha256 key bytes)).

Definition encode_cursor (key : list N) (c : HistoryCursor) : outcome pystr :=
  key ← require_key key;
  raw ← Utf8.encode (canonical_dumps float_repr (PDict (cursor_payload c)));
  let segment := Base64.encode (pack raw) in
  signature ← sign key segment;
  let token := segment ++ u "." ++ signature in
  if CURSOR_MAX_CHARS <? Zlen token then Raise (InputError "cursor_overflow") else Return token.

(** [text.partition(".")], without the separator. *)
Fixpoint partition_dot (s : pystr) : pystr * pystr :=
  match s with
  | [] => ([], [])
  | c :: s => if (c =? 46)%N then ([], s) else let '(a, b) := partition_dot s in (c :: a, b)
  end.

(** [hmac.compare_digest] on texts: equality, of ASCII only. *)
Definition compare_digest (a b : pystr) : outcome bool :=
  if forallb (fun c => (c <? 128)%N) (a ++ b) then Return (bool_decide (a = b))
  else Raise (TypeError "comparing strings with non-ASCII characters is not supported").

Definition unpack (body : list N) : outcome (list N) :=
  match body with
  | 122%N :: data =>
      out ← decompress data;
      if (out.2 : bool) then Raise (CursorInvalid "payload_too_large") else Return out.1
  | 114%N :: data => Return data
  | _ => Raise (CursorInvalid "bad_payload_tag")
  end.

(** [float(v)] *)
Definition float_of (v : pyval) : outcome pyfloat :=
  match v with
  | PFloat f => Return f
  | PInt z => float_of_Z z
  | PBool b => float_of_Z (if b then 1 else 0)
  | PStr s => match float_of_str s with Some f => Return f | None => Raise (ValueError "could not convert string to float") end
  | _ => Raise (TypeError "float() argument must be a string or a real number")
  end.

(** [payload[k]] *)
Definition item (d : list (pystr * pyval)) (k : string) : outcome pyval :=
  match assoc d (u k) with Some v => Return v | None => Raise KeyError end.
Definition int_item (d : list (pystr * pyval)) (k : string) : outcome Z := v ← item d k; int_of v.
Definition optional_time (d : list (pystr * pyval)) (k : string) : outcome (option pyfloat) :=
  match dict_get d k with PNone => Return None | v => f ← float_of v; Return (Some f) end.

Definition read_payload (payload : pyval) : outcome HistoryCursor :=
  match payload with
  | PDict d =>
      version ← int_of (default (PInt 0) (assoc d (u "v")));
      if negb (version =? CURSOR_VERSION) then Raise (CursorInvalid "unsupported_version") else
      uid ← item d "u"; ss ← int_item d "ss"; sw ← int_item d "sw"; rg ← int_item d "rg";
      t0 ← optional_time d "t0"; t1 ← optional_time d "t1"; ph ← item d "ph"; rs ← int_item d "rs"; uf ← int_item d "uf";
      exp ← item d "exp"; expires ← float_of exp;
      match phase_of (py_str repr ph) with
      | None => if bool_decide (py_str repr uid = []) then Raise (ValueError "cursor user_id required")
                else Raise (ValueError "unknown cursor phase")
      | Some p => make_cursor (mkCursor (py_str repr uid) ss sw rg (py_str repr (default (PStr []) (assoc d (u "q")))) t0 t1 p rs uf expires)
      end
  | _ => Raise (CursorInvalid "bad_payload")
  end.

(** The handlers around the parsing: its own rejections pass, the listed classes become [bad_payload]. *)
Definition parse_errors (e : exn) : bool :=
  match e with
  | KeyError | TypeError _ | ValueError _ | UnicodeError => true
  | Other s => bool_decide (s = "zlib.error")
  | _ => false
  end.
Definition guarded (m : outcome HistoryCursor) : outcome HistoryCursor :=
  match m with
  | Raise e => if parse_errors e then Raise (CursorInvalid "bad_payload") else Raise e
  | Return c => Return c
  end.

Definition parse_segment (segment : pystr) : outcome HistoryCursor :=
  guarded (body ← Base64.decode segment; raw ← unpack body; text ← Utf8.decode raw; payload ← loads text; read_payload payload).

Definition decode_cursor (key : list N) (now : pyfloat) (token : pystr) : outcome HistoryCursor :=
  key ← require_key key;
  if bool_decide (token = []) || (CURSOR_MAX_CHARS <? Zlen token) then Raise (CursorInvalid "bad_length") else
  let '(segment, signature) := partition_dot token in
  if bool_decide (segment = []) || bool_decide (signature = []) then Raise (CursorInvalid "bad_format") else
  expected ← sign key segment;
  same ← compare_digest expected signature;
  if negb same then Raise (CursorInvalid "bad_signature") else
  c ← parse_segment segment;
  if fltb now (expires_at c) then Return c else Raise (CursorInvalid "expired").
End Codec.

(** ** Inputs *)

Section Inputs.
(** NFKC, [str.casefold], and [datetime.fromisoformat]: a UTC timestamp, none for a time without offset. *)
Context (nfkc casefold : pystr -> pystr) (fromisoformat : pystr -> outcome (option pyfloat)).

(** [s.split()] *)
Fixpoint split_words (s word : pystr) : list pystr :=
  let flush := match word with [] => [] | _ => [word] end in
  match s with
  | [] => flush
  | c :: s => if is_space c then flush ++ split_words s [] else split_words s (word ++ [c])
  end.

Definition normalize_for_match (raw : pystr) : pystr := join (u " ") (split_words (casefold (nfkc raw)) []).

Definition normalize_query (raw : pystr) : outcome pystr :=
  if QUERY_MAX_CHARS <? Zlen raw then Raise (InputError "query_too_long") else
  let normalized := normalize_for_match raw in
  if bool_decide (normalized = []) then Raise (InputError "query_empty") else
  if QUERY_MAX_CHARS <? Zlen normalized then Raise (InputError "query_too_long") else Return normalized.

Definition parse_rfc3339_utc (raw : pystr) : outcome pyfloat :=
  let text := strip raw in
  if bool_decide (text = []) then Raise (InputError "invalid_time") else
  let zulu := match last text with Some c => (c =? 90)%N || (c =? 122)%N | None => false end in
  let candidate := if zulu then take (length text - 1) text ++ u "+00:00" else text in
  match fromisoformat candidate with
  | Return (Some t) => Return t
  | Return None => Raise (InputError "invalid_time")
  | Raise (ValueError _) => Raise (InputError "invalid_time")
  | Raise e => Raise e
  end.

Definition optional_instant (raw : option pystr) : outcome (option pyfloat) :=
  match raw with None => Return None | Some s => t ← parse_rfc3339_utc s; Return (Some t) end.

Definition normalize_time_range (start stop : option pystr) : outcome (option pyfloat * option pyfloat) :=
  t0 ← optional_instant start;
  t1 ← optional_instant stop;
  match t0, t1 with
  | Some a, Some b => if fleb b a then Raise (InputError "invalid_time_range") else Return (t0, t1)
  | _, _ => Return (t0, t1)
  end.

(** [t == other] *)
Definition same_instant (t : pyfloat) (other : option pyfloat) : bool :=
  match other with Some x => fleb t x && fleb x t | None => false end.

(** A page passes the cursor alone; what it repeats must agree. *)
Definition verify_cursor_request (c : HistoryCursor) (q start stop : option pystr) (limit : option pyval) : outcome unit :=
  _ ← raise_if (bool_decide (is_Some limit)) (CursorMismatch "limit");
  _ ← match q with None => Return tt
      | Some s => n ← normalize_query s; raise_if (negb (bool_decide (n = query c))) (CursorMismatch "query") end;
  _ ← match start with None => Return tt
      | Some s => t ← parse_rfc3339_utc s; raise_if (negb (same_instant t (start_ts c))) (CursorMismatch "start") end;
  match stop with None => Return tt
  | Some s => t ← parse_rfc3339_utc s; raise_if (negb (same_instant t (end_ts c))) (CursorMismatch "end") end.
End Inputs.

(** The user and the generation are those of the authenticated call. *)
Definition verify_cursor_binding (c : HistoryCursor) (uid : pystr) (generation : Z) : outcome unit :=
  same ← compare_digest (user_id c) uid;
  if negb same then Raise (CursorInvalid "user_binding") else
  if negb (runtime_generation c =? generation) then Raise (CursorInvalid "generation_changed") else Return tt.

(** ** Round trip *)

Lemma partition_dot_app a b : Forall (fun c => (c <> 46)%N) a -> partition_dot (a ++ u "." ++ b) = (a, b).
Proof.
  induction 1 as [|c a Hc _ IH]; [done|]. cbn [app partition_dot]. rewrite (proj2 (N.eqb_neq _ _) Hc). by rewrite IH.
Qed.

Lemma partition_dot_join s a b : partition_dot s = (a, b) -> b <> [] -> s = a ++ u "." ++ b.
Proof.
  revert a. induction s as [|c s IH]; intros a; cbn [partition_dot]; [intros [= <- <-]; done|].
  destruct (c =? 46)%N eqn:E; [intros [= <- <-] _; apply N.eqb_eq in E as ->; done|].
  destruct (partition_dot s) as [a' b'] eqn:Es. intros [= <- <-] Hb. cbn [app]. f_equal. by apply IH.
Qed.

Lemma ascii_ok s : Forall (fun c => (c < 128)%N) s -> ascii s = Return s.
Proof. intros H. unfold ascii. by rewrite (proj2 (forallb_forall _ _)); [|intros c Hc; apply N.ltb_lt; rewrite Forall_forall in H; apply H; apply list_elem_of_In]. Qed.

Lemma compare_digest_eq a : Forall (fun c => (c < 128)%N) a -> compare_digest a a = Return true.
Proof.
  intros H. unfold compare_digest. rewrite (proj2 (forallb_forall _ _)); [by rewrite bool_decide_true|].
  intros c Hc. apply N.ltb_lt. apply list_elem_of_In, elem_of_app in Hc. rewrite Forall_forall in H. by destruct Hc; apply H.
Qed.

Lemma encode_nonempty bs : bs <> [] -> Base64.encode bs <> [].
Proof. by destruct bs as [|a [|b [|c bs]]]. Qed.

Lemma utf8_bytes s bs : Utf8.encode s = Return bs -> Forall (fun b => (b < 256)%N) bs.
Proof.
  revert bs. induction s as [|c s IH]; intros bs; cbn [Utf8.encode]; [intros [= <-]; constructor|].
  intros (b & Hb & H)%bind_return. apply bind_return in H as (bs' & Hbs & H). injection H as <-. apply Forall_app. split; [|by apply IH].
  unfold Utf8.encode_point in Hb. repeat case_in Hb; try discriminate Hb; injection Hb as <-;
    rewrite ?N.ltb_lt, ?N.ltb_ge in *; repeat (apply Forall_cons_2; [Base64.bytes|]); apply Forall_nil_2.
Qed.

(** The payload as [sort_keys] writes it. *)
Definition sorted_payload (c : HistoryCursor) : list (pystr * pyval) :=
  [(u "exp", PFloat (expires_at c)); (u "ph", PStr (phase_text (c_phase c))); (u "q", PStr (query c));
   (u "rg", PInt (runtime_generation c)); (u "rs", PInt (c_resume c)); (u "ss", PInt (c_snapshot c));
   (u "sw", PInt (c_watermark c)); (u "t0", optional_float (start_ts c)); (u "t1", optional_float (end_ts c));
   (u "u", PStr (user_id c)); (u "uf", PInt (c_floor c)); (u "v", PInt CURSOR_VERSION)].

Lemma sort_payload c : sorted_by str_leb fst (cursor_payload c) = sorted_payload c.
Proof. reflexivity. Qed.

Lemma phase_of_text p : phase_of (phase_text p) = Some p.
Proof. destruct p; vm_compute; reflexivity. Qed.

Lemma read_payload_ok repr float_of_str c :
  make_cursor c = Return c -> read_payload repr float_of_str (PDict (sorted_payload c)) = Return c.
Proof.
  intros Hc. unfold read_payload.
  change (assoc (sorted_payload c) (u "v")) with (Some (PInt CURSOR_VERSION)). cbn [default from_option int_of mbind outcome_bind].
  change (CURSOR_VERSION =? CURSOR_VERSION) with true. cbn [negb].
  unfold int_item, optional_time, item, dict_get.
  change (assoc (sorted_payload c) (u "u")) with (Some (PStr (user_id c))).
  change (assoc (sorted_payload c) (u "ss")) with (Some (PInt (c_snapshot c))).
  change (assoc (sorted_payload c) (u "sw")) with (Some (PInt (c_watermark c))).
  change (assoc (sorted_payload c) (u "rg")) with (Some (PInt (runtime_generation c))).
  change (assoc (sorted_payload c) (u "t0")) with (Some (optional_float (start_ts c))).
  change (assoc (sorted_payload c) (u "t1")) with (Some (optional_float (end_ts c))).
  change (assoc (sorted_payload c) (u "ph")) with (Some (PStr (phase_text (c_phase c)))).
  change (assoc (sorted_payload c) (u "rs")) with (Some (PInt (c_resume c))).
  change (assoc (sorted_payload c) (u "uf")) with (Some (PInt (c_floor c))).
  change (assoc (sorted_payload c) (u "exp")) with (Some (PFloat (expires_at c))).
  change (assoc (sorted_payload c) (u "q")) with (Some (PStr (query c))).
  cbn [default from_option int_of mbind outcome_bind py_str float_of]. rewrite phase_of_text.
  destruct c as [uid ss sw rg q t0 t1 ph rs uf exp]. cbn [user_id c_snapshot c_watermark runtime_generation query start_ts end_ts c_phase c_resume c_floor expires_at optional_float] in *.
  destruct t0, t1; cbn [optional_float float_of mbind outcome_bind]; exact Hc.
Qed.

(** ** Tokens *)

Section Tokens.
Context (repr : pyval -> pystr) (float_repr : pyfloat -> pystr) (float_of_str : pystr -> option pyfloat).
Context (loads : pystr -> outcome pyval) (compress : list N -> list N) (decompress : list N -> outcome (list N * bool)).
Context (hmac_sha256 : list N -> list N -> list N).
(** A digest is some bytes; deflated data are bytes. *)
Hypothesis Hhmac : forall k m, hmac_sha256 k m <> [] /\ Forall (fun b => (b < 256)%N) (hmac_sha256 k m).
Hypothesis Hbytes : forall raw, Forall (fun b => (b < 256)%N) (compress raw).

Abbreviation enc := (encode_cursor float_repr compress hmac_sha256).
Abbreviation dec := (decode_cursor repr float_of_str loads decompress hmac_sha256).
Abbreviation raw_text c := (canonical_dumps float_repr (PDict (cursor_payload c))).

Lemma pack_nonempty raw : pack compress raw <> [].
Proof using Type. unfold pack. cbv zeta. destruct (Zlen (compress raw) <? Zlen raw); intros E; discriminate E. Qed.

Lemma sign_ok key segment : Forall (fun c => (c < 128)%N /\ c <> 46%N) segment ->
  sign hmac_sha256 key segment = Return (Base64.encode (hmac_sha256 key segment)).
Proof using Type.
  intros H. unfold sign. rewrite ascii_ok; [done|]. eapply Forall_impl; [exact H|]. by intros c [? _].
Qed.

Lemma pack_bytes c raw : Utf8.encode (raw_text c) = Return raw -> Forall (fun b => (b < 256)%N) (pack compress raw).
Proof using Hbytes. intros Hraw. unfold pack. cbv zeta. destruct (_ <? _); constructor; [lia|apply Hbytes|lia|by eapply utf8_bytes]. Qed.

Lemma unpack_pack raw : decompress (compress raw) = Return (raw, false) -> unpack decompress (pack compress raw) = Return raw.
Proof using Type. intros Hz. unfold pack. cbv zeta. destruct (_ <? _); cbn [unpack]; [|done]. by rewrite Hz. Qed.

(** Reading back the payload of an encoded cursor. *)
Lemma parse_encoded c raw :
  make_cursor c = Return c -> Utf8.encode (raw_text c) = Return raw ->
  loads (raw_text c) = Return (PDict (sorted_by str_leb fst (cursor_payload c))) ->
  parse_segment repr float_of_str loads decompress (Base64.encode (pack compress raw))
    = guarded (raw' ← unpack decompress (pack compress raw); if bool_decide (raw' = raw) then Return c
               else text ← Utf8.decode raw'; payload ← loads text; read_payload repr float_of_str payload).
Proof using Hbytes.
  intros Hc Hraw Hjson. unfold parse_segment. rewrite Base64.decode_encode_b64 by (by eapply pack_bytes). cbn [mbind outcome_bind].
  destruct (unpack decompress (pack compress raw)) as [raw'|]; cbn [mbind outcome_bind]; [|done]. case_bool_decide as E; [|done]. subst raw'.
  rewrite (Utf8.decode_encode _ _ Hraw). cbn [mbind outcome_bind]. rewrite Hjson. cbn [mbind outcome_bind].
  rewrite sort_payload. by rewrite read_payload_ok.
Qed.

(** An accepted token carries the signature of its first part. *)
Lemma accepted_signed key now token c :
  dec key now token = Return c ->
  exists segment, token = segment ++ u "." ++ Base64.encode (hmac_sha256 key segment) /\
    parse_segment repr float_of_str loads decompress segment = Return c /\ fltb now (expires_at c) = true.
Proof using Type.
  unfold decode_cursor. intros (k & Hk & H)%bind_return.
  assert (k = key) as -> by (unfold require_key in Hk; by destruct (length key <? 16)%nat; [|injection Hk as <-]).
  destruct (_ || _) eqn:E1 in H; [done|]. destruct (partition_dot token) as [segment signature] eqn:Ep.
  destruct (bool_decide (segment = []) || bool_decide (signature = [])) eqn:E2; [done|]. bools.
  apply bind_return in H as (expected & Hs & H). apply bind_return in H as (same & Hsame & H). destruct same; [|done].
  apply bind_return in H as (c' & Hp & H). destruct (fltb now (expires_at c')) eqn:Ex; [|done]. injection H as <-.
  exists segment. split; [|done]. apply bind_return in Hs as (bytes & Ha & Hs). injection Hs as <-.
  unfold ascii in Ha. destruct (forallb _ segment); [|done]. injection Ha as <-.
  unfold compare_digest in Hsame. destruct (forallb _ _); [|done]. injection Hsame as Hsame. apply bool_decide_eq_true in Hsame as ->.
  by apply partition_dot_join.
Qed.

(** A token whose first part is not ASCII is not rejected as a cursor: the encoding raises. *)
Lemma non_ascii_cursor_escapes key now segment signature :
  (16 <= length key)%nat -> Zlen (segment ++ u "." ++ signature) <= CURSOR_MAX_CHARS ->
  Forall (fun c => c <> 46%N) segment -> Exists (fun c => (128 <= c)%N) segment -> signature <> [] ->
  dec key now (segment ++ u "." ++ signature) = Raise UnicodeError.
Proof using Type.
  intros Hk Hlen Hdot Hex Hsig. unfold decode_cursor, require_key. rewrite (proj2 (Nat.ltb_ge (length key) 16)) by lia.
  cbn [mbind outcome_bind]. rewrite bool_decide_false by (intros E; apply (f_equal length) in E; rewrite !length_app in E; cbn in E; lia).
  rewrite (proj2 (Z.ltb_ge CURSOR_MAX_CHARS _)) by lia. cbn [orb]. rewrite partition_dot_app by done.
  rewrite bool_decide_false by (intros ->; by apply Exists_nil in Hex). rewrite bool_decide_false by done. cbn [orb].
  unfold sign, ascii. destruct (forallb (fun c => (c <? 128)%N) segment) eqn:E; [|done]. exfalso.
  apply Exists_exists in Hex as (c & Hc & Hge). rewrite forallb_forall in E. apply list_elem_of_In, E, N.ltb_lt in Hc. lia.
Qed.

Lemma decode_signed key now c raw token :
  enc key c = Return token -> Utf8.encode (raw_text c) = Return raw ->
  dec key now token = (c' ← parse_segment repr float_of_str loads decompress (Base64.encode (pack compress raw));
                       if fltb now (expires_at c') then Return c' else Raise (CursorInvalid "expired")).
Proof using Hhmac Hbytes.
  intros He Hraw. unfold encode_cursor in He. apply bind_return in He as (k & Hk & He).
  rewrite Hraw in He. cbn [mbind outcome_bind] in He. set (segment := Base64.encode (pack compress raw)) in *. cbv zeta in He.
  assert (Forall (fun c => (c < 128)%N /\ c <> 46%N) segment) as Hseg by (apply Base64.encode_alphabet; by eapply pack_bytes).
  rewrite sign_ok in He by done. cbn [mbind outcome_bind] in He. destruct (Hhmac k segment) as [Hne Hdig].
  destruct (CURSOR_MAX_CHARS <? Zlen (segment ++ u "." ++ Base64.encode (hmac_sha256 k segment))) eqn:El; [done|].
  assert (token = segment ++ u "." ++ Base64.encode (hmac_sha256 k segment)) as -> by congruence. clear He.
  unfold decode_cursor. rewrite Hk. cbn [mbind outcome_bind].
  rewrite bool_decide_false by (intros E; apply (f_equal length) in E; rewrite !length_app in E; cbn in E; lia). rewrite El. cbn [orb].
  rewrite partition_dot_app by (eapply Forall_impl; [exact Hseg|]; by intros x [_ ?]).
  rewrite bool_decide_false by (apply encode_nonempty, pack_nonempty).
  rewrite bool_decide_false by (by apply encode_nonempty). cbn [orb]. rewrite sign_ok by done. cbn [mbind outcome_bind].
  rewrite compare_digest_eq by (eapply Forall_impl; [by apply Base64.encode_alphabet|]; by intros x [? _]). done.
Qed.

Lemma decode_encoded key now c raw token :
  enc key c = Return token -> make_cursor c = Return c -> Utf8.encode (raw_text c) = Return raw ->
  loads (raw_text c) = Return (PDict (sorted_by str_leb fst (cursor_payload c))) ->
  unpack decompress (pack compress raw) = Return raw ->
  dec key now token = if fltb now (expires_at c) then Return c else Raise (CursorInvalid "expired").
Proof using Hhmac Hbytes.
  intros He Hc Hraw Hjson Hz. rewrite (decode_signed key now c raw) by done. rewrite (parse_encoded c raw) by done. rewrite Hz. cbn [mbind outcome_bind].
  by rewrite bool_decide_true.
Qed.
End Tokens.

(** What pages rely on: a token is some text and gives back its cursor, if anything. *)
Class CursorCodec (encode : HistoryCursor -> outcome pystr) (decode : pyfloat -> pystr -> outcome HistoryCursor) : Prop := {
  codec_text c token : encode c = Return token -> token <> [];
  codec_same c token now c' : make_cursor c = Return c -> encode c = Return token -> decode now token = Return c' -> c' = c;
}.

(** Signed tokens are such a codec where JSON texts read back and data that inflate without a rest
    inflate to what they were. *)
#[export] Instance signed_codec repr float_repr float_of_str loads compress decompress hmac_sha256 key
  (Hhmac : forall k m, hmac_sha256 k m <> [] /\ Forall (fun b => (b < 256)%N) (hmac_sha256 k m))
  (Hbytes : forall raw, Forall (fun b => (b < 256)%N) (compress raw))
  (Hjson : forall c, make_cursor c = Return c ->
     loads (canonical_dumps float_repr (PDict (cursor_payload c))) = Return (PDict (sorted_by str_leb fst (cursor_payload c))))
  (Hzip : forall raw out, decompress (compress raw) = Return (out, false) -> out = raw) :
  CursorCodec (encode_cursor float_repr compress hmac_sha256 key) (decode_cursor repr float_of_str loads decompress hmac_sha256 key).
Proof.
  split.
  - intros c token. unfold encode_cursor. intros (k & _ & H)%bind_return. apply bind_return in H as (raw & _ & H). cbv zeta in H.
    apply bind_return in H as (sg & _ & H). destruct (_ <? _); [done|].
    assert (token = Base64.encode (pack compress raw) ++ u "." ++ sg) as -> by congruence.
    intros E. apply (f_equal length) in E. rewrite !length_app in E. cbn in E. lia.
  - intros c token now c' Hc He Hd. destruct (Utf8.encode (canonical_dumps float_repr (PDict (cursor_payload c)))) as [raw|err] eqn:Hr.
    + destruct (unpack decompress (pack compress raw)) as [raw'|err] eqn:Hu.
      * assert (raw' = raw) as ->.
        { revert Hu. unfold pack. cbv zeta. destruct (_ <? _); cbn [unpack]; [|by intros [= <-]].
          destruct (decompress (compress raw)) as [[out left]|] eqn:Ez; cbn [mbind outcome_bind snd fst]; [|done].
          destruct left; [done|]. intros [= <-]. by apply Hzip. }
        erewrite decode_encoded in Hd; eauto. destruct (fltb now (expires_at c)); [by injection Hd as <-|done].
      * erewrite decode_signed, parse_encoded in Hd; eauto. rewrite Hu in Hd. cbn [mbind outcome_bind guarded] in Hd. by destruct (parse_errors err).
    + unfold encode_cursor in He. rewrite Hr in He. by apply bind_return in He as (k & _ & He).
Qed.

Lemma binding_spec c uid generation : Forall (fun x => (x < 128)%N) (user_id c ++ uid) ->
  verify_cursor_binding c uid generation = Return tt <-> user_id c = uid /\ runtime_generation c = generation.
Proof.
  intros H. unfold verify_cursor_binding, compare_digest.
  rewrite (proj2 (forallb_forall _ _)) by (intros x Hx; apply N.ltb_lt; rewrite Forall_forall in H; by apply H, list_elem_of_In).
  cbn [mbind outcome_bind]. case_bool_decide as E; cbn [negb]; [|naive_solver]. destruct (_ =? _) eqn:Eg; bools; cbn [negb]; naive_solver.
Qed.

(** C23: a cursor comes back as it was issued, and only to whom it was issued. The token of a valid
    cursor decodes, under the same key, to that cursor until it expires and is rejected as expired after;
    it is accepted for a user and a generation exactly if they are its own; and whatever token is
    accepted carries the signature of its payload under the key. *)
Theorem cursor_roundtrip repr float_repr float_of_str loads compress decompress hmac_sha256 key now c raw token uid generation :
  (forall k m, hmac_sha256 k m <> [] /\ Forall (fun b => (b < 256)%N) (hmac_sha256 k m)) ->
  (forall data, Forall (fun b => (b < 256)%N) (compress data)) ->
  let text := canonical_dumps float_repr (PDict (cursor_payload c)) in
  loads text = Return (PDict (sorted_by str_leb fst (cursor_payload c))) ->
  Utf8.encode text = Return raw -> decompress (compress raw) = Return (raw, false) ->
  make_cursor c = Return c -> encode_cursor float_repr compress hmac_sha256 key c = Return token ->
  Forall (fun x => (x < 128)%N) (user_id c ++ uid) ->
  let dec := decode_cursor repr float_of_str loads decompress hmac_sha256 key now in
  dec token = (if fltb now (expires_at c) then Return c else Raise (CursorInvalid "expired")) /\
  (verify_cursor_binding c uid generation = Return tt <-> user_id c = uid /\ runtime_generation c = generation) /\
  forall token' c', dec token' = Return c' ->
    exists segment, token' = segment ++ u "." ++ Base64.encode (hmac_sha256 key segment) /\ fltb now (expires_at c') = true.
Proof.
  intros Hh Hb text Hj Hr Hz Hc He Ha dec. split; [eapply decode_encoded; eauto using unpack_pack|]. split; [by apply binding_spec|].
  intros token' c' (segment & -> & _ & Hx)%accepted_signed. by exists segment.
Qed.

(** ** A cursor *)

Definition ex_cursor : HistoryCursor :=
  mkCursor (u "usr_1") 10 6 3 (u "tea") None (Some (float_of_int 20)) PHASE_LEAF_HITS 4 8 (float_of_int 100).
Definition ex_raw : list N := canonical_dumps float_repr_integral (PDict (cursor_payload ex_cursor)).
Definition ex_key : list N := u "0123456789abcdef".
Definition ex_hmac (k m : list N) : list N := [7; N.of_nat (length m) mod 256]%N.
Definition ex_token : pystr := Base64.encode (114%N :: ex_raw) ++ u "." ++ Base64.encode (ex_hmac ex_key (Base64.encode (114%N :: ex_raw))).

Lemma cursor_roundtrip_witness :
  decode_cursor (fun _ => []) (fun _ => None) (fun _ => Return (PDict (sorted_payload ex_cursor))) (fun _ => Return (ex_raw, false)) ex_hmac
    ex_key (float_of_int 50) ex_token = Return ex_cursor.
Proof.
  refine (proj1 (cursor_roundtrip (fun _ => []) float_repr_integral (fun _ => None) (fun _ => Return (PDict (sorted_payload ex_cursor)))
    (fun _ => repeat 0%N 1024) (fun _ => Return (ex_raw, false)) ex_hmac ex_key (float_of_int 50) ex_cursor ex_raw ex_token (u "usr_1") 3 _ _ _ _ _ _ _ _)).
  - intros k m. split; [discriminate|].
    apply Forall_cons_2; [lia|]. apply Forall_cons_2; [|apply Forall_nil_2]. apply N.mod_upper_bound. lia.
  - intros data. decided.
  - reflexivity.
  - vm_compute. reflexivity.
  - reflexivity.
  - vm_compute. reflexivity.
  - vm_compute. reflexivity.
  - decided.
Defined.
End Cursor.
