(* ===== verification/HistoryRows.v ===== *)
(** * Reading candidate rows of a history search
    ([model_api_runtime/v2/history_readside.py], [enclave/routes/history.py], [core/envelope.py],
    the history statements of [jobs_store.py])

    Which messages are candidates, what of a row is sent to the enclave, how the enclave checks a
    batch, and how the backend checks plaintext rows itself and sends the sealed runs between
    them. Decryption, NFKC, case folding, strict base64 and lenient UTF-8 decoding are parameters. *)

From S2P Require Import Prelude PyValue PyFloat Utf8 PromptEstimate HistoryScan HistoryCursor.
Import Cursor.
Local Open Scope Z_scope.

Module Rows.

(** ** Messages ([chat_messages]) *)

Record message : Type := mkMessage {
  m_seq : Z;
  m_id : pystr;
  m_ts : pyfloat;
  m_doc : row;
}.

(** [_HISTORY_VISIBLE_PREDICATE] *)
Definition visible (m : message) : bool :=
  existsb (is_text (get (m_doc m) "role")) ["user"; "human"; "openclaw"; "assistant"; "agent"]
  && negb (existsb (is_text (get (m_doc m) "source")) ["verify_ping"; "resident_maintenance"]).

Definition by_seq_desc (l : list message) : list message := sorted_by Z.leb (fun m => - m_seq m) l.

Definition after_start (t0 : option pyfloat) (m : message) : bool := match t0 with Some t => fleb t (m_ts m) | None => true end.
Definition before_end (t1 : option pyfloat) (m : message) : bool := match t1 with Some t => fltb (m_ts m) t | None => true end.

Definition chat_history_candidate_rows (messages : list message) (lower upper : Z) (t0 t1 : option pyfloat) (limit : Z)
    : outcome (list message) :=
  if (lower <? 0) || (upper <? 0) then Raise (ValueError "history candidate seq bounds must be >= 0") else
  let bounded := Z.max 1 (Z.min limit 1000) in
  if upper <? lower then Return [] else
  Return (take (Z.to_nat bounded)
    (by_seq_desc (filter (fun m => (lower <=? m_seq m) && (m_seq m <=? upper) && visible m && after_start t0 m && before_end t1 m = true)
                    messages))).

(** [_history_full_row] *)
Definition history_full_row (m : message) : row :=
  <["seq" := PInt (m_seq m)]> (<["ts" := PFloat (m_ts m)]> (<["id" := PStr (m_id m)]> (m_doc m))).

Definition chat_history_rows_by_seqs (messages : list message) (seqs : list Z) : outcome (list row) :=
  match seqs with
  | [] => Return []
  | _ => if existsb (fun s => s <? 0) seqs then Raise (ValueError "history row seqs must be >= 0")
         else Return (history_full_row <$> by_seq_desc (filter (fun m => bool_decide (m_seq m ∈ seqs) && visible m = true) messages))
  end.

(** ** Text *)

Fixpoint is_prefix (p s : pystr) : bool :=
  match p, s with
  | [], _ => true
  | x :: p, y :: s => (x =? y)%N && is_prefix p s
  | _, [] => false
  end.

(** [s.find(p)]; [None] for -1. *)
Fixpoint find_text (p s : pystr) (i : Z) : option Z :=
  if is_prefix p s then Some i else match s with [] => None | _ :: s => find_text p s (i + 1) end.
Definition contains (p s : pystr) : bool := bool_decide (is_Some (find_text p s 0)).

Definition cut (lo n : Z) (s : pystr) : pystr := take (Z.to_nat n) (drop (Z.to_nat lo) s).

Record hit : Type := mkHit {
  hit_message_id : pystr;
  hit_seq : Z;
  hit_ts : pyfloat;
  hit_role : pystr;
  hit_snippet : pystr;
  hit_truncated : bool;
}.

(** What checking one row gives. *)
Inductive verdict : Type := Hit (h : hit) | Miss | Unavailable.

Section Texts.
Context (repr : pyval -> pystr) (nfkc casefold : pystr -> pystr).
(** [base64.b64decode(v, validate=True)]; [bytes.decode("utf-8", errors="replace")] *)
Context (b64decode_strict : pyval -> option (list N)) (decode_replace : list N -> pystr).

Abbreviation normalize := (normalize_for_match nfkc casefold).

(** [str(row.get(k) or default)] *)
Definition text_or (default : string) (r : row) (k : string) : pystr := py_str repr (py_or (get r k) (PStr (u default))).

Definition content_type (r : row) : pystr := text_or "text" r "content_type".
Definition is_attachment (r : row) : bool := bool_decide (content_type r = u "image" \/ content_type r = u "file").

Definition attachment_marker (r : row) : pystr :=
  if bool_decide (text_or "" r "content_type" = u "file") then u "[file: " ++ text_or "file" r "file_name" ++ u "]" else u "[image]".

(** [_build_snippet] *)
Definition located (src q : pystr) : option (pystr * Z) :=
  match q with
  | [] => None
  | _ => match find_text q (casefold src) 0 with
         | Some i => Some (src, i)
         | None => match find_text q (casefold (nfkc src)) 0 with
                   | Some i => Some (nfkc src, Z.min i (Z.max 0 (Zlen (nfkc src) - 1)))
                   | None => None
                   end
         end
  end.

Definition build_snippet (text q : pystr) (max_chars : Z) : pystr * bool :=
  let src := strip text in
  match located src q with
  | Some (hay, i) =>
      let lead := Z.max 0 (i - max_chars / 3) in
      let snippet := cut lead max_chars hay in
      (snippet, (0 <? lead) || (lead + Zlen snippet <? Zlen hay))
  | None => let snippet := cut 0 max_chars src in (snippet, Zlen snippet <? Zlen src)
  end.

(** [seq] and [ts] are an integer and a float: [_history_full_row] writes them. *)
Definition row_seq (r : row) : Z := match get r "seq" with PInt z => z | _ => 0 end.
Definition row_ts (r : row) : pyfloat := match get r "ts" with PFloat f => f | _ => FNum 0 end.

Definition make_hit (r : row) (text q : pystr) (snippet_max : Z) : hit :=
  let display := match text with [] => attachment_marker r | _ => text end in
  let '(snippet, truncated) := build_snippet display q snippet_max in
  mkHit (text_or "" r "id") (row_seq r) (row_ts r) (text_or "" r "role") snippet truncated.

(** A row whose text is known, or not. *)
Definition judge_text (r : row) (text : option pystr) (q : pystr) (snippet_max : Z) : verdict :=
  match text with
  | None => Unavailable
  | Some t => if bool_decide (q = []) || contains q (normalize t) then Hit (make_hit r t q snippet_max) else Miss
  end.

(** ** Envelopes ([core/envelope.py]) *)

Inductive envelope_shape : Type := sealed | plaintext_binary | plaintext_text | invalid.
#[global] Instance envelope_shape_eq_dec : EqDecision envelope_shape.
Proof. solve_decision. Defined.

Definition classify_envelope_shape (env : row) : envelope_shape :=
  if truthy (get env "body_ct") then sealed else
  match get env "body_b64" with
  | PNone => match get env "body" with PStr _ => plaintext_text | _ => invalid end
  | _ => plaintext_binary
  end.

(** [read_plaintext_envelope_body(...).decode("utf-8", errors="replace")]; [None] for its [ValueError]s. *)
Definition read_plaintext (env : row) (owner : pystr) : option pystr :=
  let foreign := negb (bool_decide (owner = [])) && negb (bool_decide (text_or "" env "owner_user_id" = owner)) in
  match classify_envelope_shape env with
  | plaintext_text =>
      if foreign then None else
      match get env "body" with
      | PStr s => match Utf8.encode s with Return bs => Some (decode_replace bs) | Raise _ => None end
      | _ => None
      end
  | plaintext_binary => if foreign then None else decode_replace <$> b64decode_strict (get env "body_b64")
  | _ => None
  end.

(** ** What a row sends *)

Definition TEXT_ENVELOPE_FIELDS : list string := ["body_ct"; "nonce"; "K_enclave"].
Definition CAPTION_FIELDS : list string :=
  ["caption_id"; "caption_v"; "caption_body_ct"; "caption_nonce"; "caption_K_enclave"; "caption_owner_user_id"].

(** Copy the fields that are there. *)
Definition copy_fields (keys : list string) (r out : row) : row :=
  foldl (fun out k => match get r k with PNone => out | v => <[k := v]> out end) out keys.

(** Copy the fields, the missing ones as [None]. *)
Definition set_fields (keys : list string) (r out : row) : row := foldl (fun out k => <[k := get r k]> out) out keys.

Definition row_payload (r : row) : row :=
  let base : row :=
    <["id" := get r "id"]> (<["seq" := get r "seq"]> (<["ts" := get r "ts"]> (<["role" := get r "role"]>
    (<["content_type" := PStr (content_type r)]> (<["v" := default (PInt 1) (r !! "v")]>
    (<["owner_user_id" := get r "owner_user_id"]> ∅)))))) in
  if is_attachment r then
    let out := copy_fields CAPTION_FIELDS r base in
    let out := if bool_decide (content_type r = u "file")
               then set_fields ["file_name"; "file_display_title"; "file_display_subtitle"] r out else out in
    copy_fields ["caption_body"] r out
  else match classify_envelope_shape r with
       | sealed => set_fields TEXT_ENVELOPE_FIELDS r base
       | plaintext_binary => set_fields ["body_b64"] r base
       | plaintext_text => set_fields ["body"] r base
       | invalid => base
       end.

Definition payload_ciphertext_size (p : row) : Z := Zlen (text_or "" p "body_ct") + Zlen (text_or "" p "caption_body_ct").

Definition oversize_placeholder (p : row) : row :=
  <["oversize" := PBool true]> (filter (fun kv => kv.1 ∉ TEXT_ENVELOPE_FIELDS ++ CAPTION_FIELDS) p).

Definition project_sealed_row (r : row) : row := delete "body" (delete "body_b64" (delete "caption_body" r)).

(** ** Plaintext rows *)

Definition is_none (v : pyval) : bool := match v with PNone => true | _ => false end.

Definition row_is_plaintext (r : row) : bool :=
  if is_attachment r
  then negb (is_none (get r "caption_body")) || negb (truthy (get r "caption_body_ct"))
  else bool_decide (classify_envelope_shape r = plaintext_text \/ classify_envelope_shape r = plaintext_binary).

Definition local_row_text (r : row) (owner : pystr) : option pystr :=
  if is_attachment r then
    match get r "caption_body" with
    | PNone => Some []
    | body => let caption_owner := py_str repr (py_or (py_or (get r "caption_owner_user_id") (get r "owner_user_id")) (PStr [])) in
              if negb (bool_decide (caption_owner = owner)) then None else Some (py_str repr (py_or body (PStr [])))
    end
  else read_plaintext r owner.

Definition local_verdict (r : row) (owner q : pystr) (snippet_max : Z) : verdict := judge_text r (local_row_text r owner) q snippet_max.
End Texts.

(** ** The enclave ([/v1/history/scan]) *)

Inductive stop_reason : Type := exhausted | by_budget | by_deadline | by_hits | by_other.
#[global] Instance stop_reason_eq_dec : EqDecision stop_reason.
Proof. solve_decision. Defined.

Record scan_request : Type := mkRequest {
  rq_rows : list row;
  rq_query : pystr;
  rq_stop_after_hits : Z;
  rq_deadline_ms : Z;
  rq_max_rows : Z;
  rq_max_ciphertext_bytes : Z;
  rq_snippet_max_chars : Z;
}.

Record scan_response : Type := mkScanned {
  rs_hits : list hit;
  rs_checked : Z;
  rs_unavailable : Z;
  rs_last : option Z;
  rs_stopped : stop_reason;
  rs_truncated : bool;
}.

(** [max(lo, min(value, hard_max))] *)
Definition clamp (lo hard_max value : Z) : Z := Z.max lo (Z.min value hard_max).

Section Enclave.
Context (repr : pyval -> pystr) (nfkc casefold : pystr -> pystr).
(** [decrypt_envelope(env, user, key).decode("utf-8", errors="replace")]; [None] for [DecryptFailure]. *)
Context (decrypt_envelope : row -> option pystr).

Definition caption_envelope (r : row) : option row :=
  match strip (text_or repr "" r "caption_body_ct") with
  | [] => None
  | ct =>
      let v := match r !! "caption_v" with Some v => v | None => default (PInt 1) (r !! "v") end in
      Some (<["id" := py_or (get r "caption_id") (get r "id")]> (<["v" := py_or v (PInt 1)]> (<["body_ct" := PStr ct]>
            (<["nonce" := get r "caption_nonce"]> (<["K_enclave" := get r "caption_K_enclave"]>
            (<["owner_user_id" := py_or (get r "caption_owner_user_id") (get r "owner_user_id")]> ∅))))))
  end.

Definition decrypt_row_text (r : row) : option pystr :=
  if is_attachment repr r then match caption_envelope r with None => Some [] | Some env => decrypt_envelope env end
  else if negb (truthy (get r "body_ct")) || negb (truthy (get r "K_enclave")) then None else decrypt_envelope r.

(** One row: too large (or stripped as too large) is never decrypted. *)
Definition oversized (max_bytes : Z) (r : row) : bool := (max_bytes <? payload_ciphertext_size repr r) || truthy (get r "oversize").
Definition sealed_verdict (r : row) (q : pystr) (max_bytes snippet_max : Z) : verdict :=
  if oversized max_bytes r then Unavailable else judge_text repr nfkc casefold r (decrypt_row_text r) q snippet_max.

(** The loop of [_work]; [late n] is the clock before the row after [n] checked ones. *)
Section Work.
Context (q : pystr) (max_rows max_bytes snippet_max stop_after : Z) (late : nat -> bool).

Fixpoint scan_work (rows : list row) (n : nat) (used : Z) (hits : list hit) (unavailable : Z) (last : option Z) (truncated : bool)
    : scan_response :=
  match rows with
  | [] => mkScanned hits (Z.of_nat n) unavailable last exhausted truncated
  | r :: rest =>
      let size := payload_ciphertext_size repr r in
      if (max_rows <=? Z.of_nat n) || ((0 <? Z.of_nat n) && (max_bytes <? used + size))
      then mkScanned hits (Z.of_nat n) unavailable last by_budget true
      else if late n then mkScanned hits (Z.of_nat n) unavailable last by_deadline truncated
      else
        let last := Some (row_seq r) in
        match sealed_verdict r q max_bytes snippet_max with
        | Unavailable => scan_work rest (S n) (used + size) hits (unavailable + 1) last (truncated || oversized max_bytes r)
        | Miss => scan_work rest (S n) (used + size) hits unavailable last truncated
        | Hit h =>
            let hits := hits ++ [h] in
            if negb (stop_after =? 0) && (stop_after <=? Zlen hits)
            then mkScanned hits (Z.of_nat (S n)) unavailable last by_hits truncated
            else scan_work rest (S n) (used + size) hits unavailable last truncated
        end
  end.
End Work.

(** [v1_history_scan], for a caller it authenticated. *)
Definition v1_history_scan (late : nat -> bool) (rq : scan_request) : scan_response :=
  scan_work (normalize_for_match nfkc casefold (rq_query rq)) (clamp 1 512 (rq_max_rows rq)) (clamp 1024 2097152 (rq_max_ciphertext_bytes rq))
    (clamp 40 240 (rq_snippet_max_chars rq)) (clamp 0 500 (rq_stop_after_hits rq)) late (rq_rows rq) 0 0 [] 0 None false.
End Enclave.

(** ** The backend's share ([_scan_rows_partitioned]) *)

Section Partitioned.
Context (repr : pyval -> pystr) (nfkc casefold : pystr -> pystr).
Context (b64decode_strict : pyval -> option (list N)) (decode_replace : list N -> pystr).
(** [post("scan", ...)]; the number counts the posts of the call, whose clock runs on. *)
Context (post : nat -> scan_request -> outcome scan_response).
Context (owner q : pystr) (stop_after deadline_ms max_rows max_bytes snippet_max : Z).

Abbreviation is_plain := (row_is_plaintext repr).
Abbreviation local := (fun r => local_verdict repr nfkc casefold b64decode_strict decode_replace r owner q snippet_max).

(** Rows up to the next plaintext one. *)
Fixpoint sealed_run (rows : list row) : list row * list row :=
  match rows with
  | [] => ([], [])
  | r :: rest => if is_plain r then ([], rows) else let '(run, rest) := sealed_run rest in (r :: run, rest)
  end.

Record tally : Type := mkTally {
  t_hits : list hit;
  t_checked : Z;
  t_unavailable : Z;
  t_last : option Z;
  t_stopped : stop_reason;
  t_truncated : bool;
  t_posts : nat;
}.

Definition tally_local (r : row) (t : tally) : tally :=
  let count hits un := mkTally hits (t_checked t + 1) un (Some (row_seq r)) (t_stopped t) (t_truncated t) (t_posts t) in
  match local r with
  | Hit h => count (t_hits t ++ [h]) (t_unavailable t)
  | Miss => count (t_hits t) (t_unavailable t)
  | Unavailable => count (t_hits t) (t_unavailable t + 1)
  end.

Definition run_request (run : list row) (t : tally) : scan_request :=
  mkRequest (project_sealed_row <$> run) q (Z.max 0 (stop_after - Zlen (t_hits t))) deadline_ms (max_rows - t_checked t) max_bytes snippet_max.

Definition tally_response (rs : scan_response) (t : tally) : tally :=
  mkTally (t_hits t ++ take (Z.to_nat (Z.max 0 (stop_after - Zlen (t_hits t)))) (rs_hits rs)) (t_checked t + rs_checked rs)
    (t_unavailable t + rs_unavailable rs) (match rs_last rs with Some s => Some s | None => t_last t end)
    (t_stopped t) (t_truncated t || rs_truncated rs) (S (t_posts t)).

Definition set_stopped (why : stop_reason) (truncated : bool) (t : tally) : tally :=
  mkTally (t_hits t) (t_checked t) (t_unavailable t) (t_last t) why (t_truncated t || truncated) (t_posts t).

(** The loop; every turn takes a plaintext row or a whole run, so [fuel] is the number of rows. The
    result says which rows were left. *)
Fixpoint partition_loop (fuel : nat) (rows : list row) (t : tally) : outcome (tally * list row) :=
  match fuel, rows with
  | S fuel, r :: rest =>
      if max_rows <=? t_checked t then Return (t, rows) else
      if is_plain r then
        let t := tally_local r t in
        if negb (stop_after =? 0) && (stop_after <=? Zlen (t_hits t)) then Return (set_stopped by_hits false t, rest)
        else partition_loop fuel rest t
      else
        let '(run, rest') := sealed_run rows in
        rs ← post (t_posts t) (run_request run t);
        let t := tally_response rs t in
        if (rs_checked rs <? Zlen run) || negb (bool_decide (rs_stopped rs = exhausted))
        then Return (set_stopped (rs_stopped rs) false t, rows)
        else partition_loop fuel rest' t
  | _, _ => Return (t, rows)
  end.

Definition scan_rows_partitioned (posts : nat) (rows : list row) : outcome tally :=
  out ← partition_loop (length rows) rows (mkTally [] 0 0 None exhausted false posts);
  let '(t, rest) := out in
  Return (if (max_rows <=? t_checked t) && negb (bool_decide (rest = [])) then set_stopped by_budget true t else t).
End Partitioned.

(** ** What a scan of rows reports *)

Section Report.
Context (judge : row -> verdict).

Definition found (r : row) : option hit := match judge r with Hit h => Some h | _ => None end.
Definition unread (r : row) : bool := match judge r with Unavailable => true | _ => false end.
Definition unread_count (l : list row) : Z := Zlen (filter (fun r => unread r = true) l).
Definition last_seq (l : list row) (default : option Z) : option Z :=
  match last l with Some r => Some (row_seq r) | None => default end.

Lemma found_app l k : omap found (l ++ k) = omap found l ++ omap found k.
Proof. apply omap_app. Qed.

Lemma found_cons r l : omap found (r :: l) = (match found r with Some h => [h] | None => [] end) ++ omap found l.
Proof. cbn. by destruct (found r). Qed.

Lemma unread_count_cons r l : unread_count (r :: l) = (if unread r then 1 else 0) + unread_count l.
Proof.
  unfold unread_count. rewrite filter_cons. destruct (unread r) eqn:E;
    [rewrite decide_True by done; apply Zlen_cons|by rewrite decide_False by done].
Qed.

Lemma unread_count_app l k : unread_count (l ++ k) = unread_count l + unread_count k.
Proof. unfold unread_count. by rewrite filter_app, Zlen_app. Qed.

Lemma last_seq_cons r l d : last_seq (r :: l) d = last_seq l (Some (row_seq r)).
Proof. unfold last_seq. rewrite last_cons. by destruct (last l). Qed.

Lemma last_seq_app l k d : last_seq (l ++ k) d = last_seq k (last_seq l d).
Proof. unfold last_seq. rewrite last_app. by destruct (last k). Qed.

(** [rs] is the report on [l], continuing counts of [n] rows before. *)
Record reports (l : list row) (n : nat) (hits : list hit) (un : Z) (last : option Z) (rs : scan_response) : Prop := mkReports {
  rp_checked : rs_checked rs = Z.of_nat (n + length l);
  rp_hits : rs_hits rs = hits ++ omap found l;
  rp_unread : rs_unavailable rs = un + unread_count l;
  rp_last : rs_last rs = last_seq l last;
}.

Lemma reports_nil n hits un last stopped truncated : reports [] n hits un last (mkScanned hits (Z.of_nat n) un last stopped truncated).
Proof. split; cbn [rs_checked rs_hits rs_unavailable rs_last]; [by rewrite Nat.add_0_r|by rewrite app_nil_r|unfold unread_count, Zlen; cbn; lia|done]. Qed.

Lemma reports_cons r l n hits un last rs :
  reports l (S n) (hits ++ omap found [r]) (un + if unread r then 1 else 0) (Some (row_seq r)) rs -> reports (r :: l) n hits un last rs.
Proof.
  intros [H1 H2 H3 H4]. split.
  - rewrite H1. cbn [length]. f_equal. lia.
  - rewrite H2. change (r :: l) with ([r] ++ l). by rewrite found_app, app_assoc.
  - rewrite H3, unread_count_cons. lia.
  - by rewrite H4, last_seq_cons.
Qed.
End Report.

(** A scan service checks a prefix of what it is sent and reports exactly on it. *)
Class ScanService (verdict_of : pystr -> Z -> Z -> row -> verdict) (post : nat -> scan_request -> outcome scan_response) : Prop := {
  scan_prefix i rq rs : post i rq = Return rs ->
    exists n, (n <= length (rq_rows rq))%nat /\
      reports (verdict_of (rq_query rq) (rq_max_ciphertext_bytes rq) (rq_snippet_max_chars rq)) (take n (rq_rows rq)) 0 [] 0 None rs /\
      (rs_stopped rs = exhausted -> n = length (rq_rows rq)) /\
      (0 < rq_stop_after_hits rq <= 500 ->
        Zlen (rs_hits rs) <= rq_stop_after_hits rq /\ (rs_stopped rs = exhausted -> Zlen (rs_hits rs) < rq_stop_after_hits rq))
}.

Section EnclaveScan.
Context (repr : pyval -> pystr) (nfkc casefold : pystr -> pystr) (decrypt_envelope : row -> option pystr).

Lemma scan_work_spec q max_rows max_bytes snippet_max stop_after late rows : forall n used hits un last tr,
  let judge r := sealed_verdict repr nfkc casefold decrypt_envelope r q max_bytes snippet_max in
  let rs := scan_work repr nfkc casefold decrypt_envelope q max_rows max_bytes snippet_max stop_after late rows n used hits un last tr in
  exists k, (k <= length rows)%nat /\ reports judge (take k rows) n hits un last rs /\
    (rs_stopped rs = exhausted -> k = length rows) /\ (0 < stop_after -> Zlen hits < stop_after -> Zlen (rs_hits rs) <= stop_after /\ (rs_stopped rs = exhausted -> Zlen (rs_hits rs) < stop_after)).
Proof.
  induction rows as [|r rows IH]; intros n used hits un last tr judge; cbn [scan_work].
  { exists 0%nat. split; [cbn; lia|]. split; [apply reports_nil|]. split; [done|]. cbn [rs_hits]. lia. }
  destruct (_ || _); [exists 0%nat; split; [cbn; lia|]; split; [apply reports_nil|]; cbn; split; [done|]; intros; split; [lia|done]|].
  destruct (late n); [exists 0%nat; split; [cbn; lia|]; split; [apply reports_nil|]; cbn; split; [done|]; intros; split; [lia|done]|].
  assert (forall used' tr', (0 < stop_after -> Zlen hits < stop_after -> Zlen (hits ++ omap (found judge) [r]) < stop_after) ->
    let rs := scan_work repr nfkc casefold decrypt_envelope q max_rows max_bytes snippet_max stop_after late rows (S n) used'
                (hits ++ omap (found judge) [r]) (un + if unread judge r then 1 else 0) (Some (row_seq r)) tr' in
    exists k, (k <= S (length rows))%nat /\ reports judge (take k (r :: rows)) n hits un last rs /\
      (rs_stopped rs = exhausted -> k = S (length rows)) /\ (0 < stop_after -> Zlen hits < stop_after -> Zlen (rs_hits rs) <= stop_after /\ (rs_stopped rs = exhausted -> Zlen (rs_hits rs) < stop_after))) as Hgo.
  { intros used' tr' Hlt. destruct (IH (S n) used' (hits ++ omap (found judge) [r]) (un + if unread judge r then 1 else 0) (Some (row_seq r)) tr')
      as (k & Hk & Hr & E1 & E2). exists (S k). split; [lia|]. split; [by apply reports_cons|]. split; [by intros ->%E1|]. auto. }
  cbv zeta in Hgo. cbn [omap list_omap] in Hgo. unfold found, unread in Hgo. change (judge r) with (sealed_verdict repr nfkc casefold decrypt_envelope r q max_bytes snippet_max) in Hgo.
  destruct (sealed_verdict repr nfkc casefold decrypt_envelope r q max_bytes snippet_max) as [h| |] eqn:Ev; cbv zeta.
  - destruct (negb (stop_after =? 0) && (stop_after <=? Zlen (hits ++ [h]))) eqn:Es.
    + exists 1%nat. split; [cbn; lia|]. split; [|split; [done|]].
      * apply reports_cons. cbn [omap list_omap]. unfold found, unread. change (judge r) with (sealed_verdict repr nfkc casefold decrypt_envelope r q max_bytes snippet_max).
        rewrite Ev, Z.add_0_r. apply reports_nil.
      * cbn [rs_hits]. rewrite Zlen_app. intros _ Hh. split; [|done]. unfold Zlen at 2. cbn. lia.
    + rewrite Z.add_0_r in Hgo. apply Hgo. intros Hs Hh. apply andb_false_iff in Es as [Es|Es]; bools; lia.
  - rewrite Z.add_0_r, app_nil_r in Hgo. by apply Hgo.
  - rewrite app_nil_r in Hgo. by apply Hgo.
Qed.

Definition enclave_verdict (q : pystr) (max_bytes snippet_max : Z) (r : row) : verdict :=
  sealed_verdict repr nfkc casefold decrypt_envelope r (normalize_for_match nfkc casefold q) (clamp 1024 2097152 max_bytes) (clamp 40 240 snippet_max).

#[export] Instance enclave_scan_service (late : nat -> nat -> bool) :
  ScanService enclave_verdict (fun i rq => Return (v1_history_scan repr nfkc casefold decrypt_envelope (late i) rq)).
Proof.
  split. intros i rq rs [= <-]. unfold v1_history_scan.
  destruct (scan_work_spec (normalize_for_match nfkc casefold (rq_query rq)) (clamp 1 512 (rq_max_rows rq)) (clamp 1024 2097152 (rq_max_ciphertext_bytes rq))
    (clamp 40 240 (rq_snippet_max_chars rq)) (clamp 0 500 (rq_stop_after_hits rq)) (late i) (rq_rows rq) 0 0 [] 0 None false)
    as (k & Hk & Hr & Hx & Hs). exists k. split_and!; [done|exact Hr|done|].
  intros H. assert (clamp 0 500 (rq_stop_after_hits rq) = rq_stop_after_hits rq) as E by (unfold clamp; lia).
  rewrite E in *. apply Hs; [lia|unfold Zlen; cbn; lia].
Qed.
End EnclaveScan.

(** ** The partitioned scan checks a prefix *)

Section Prefix.
Context (repr : pyval -> pystr) (nfkc casefold : pystr -> pystr).
Context (b64decode_strict : pyval -> option (list N)) (decode_replace : list N -> pystr).
Context (verdict_of : pystr -> Z -> Z -> row -> verdict) (post : nat -> scan_request -> outcome scan_response).
Context `{!ScanService verdict_of post}.
Context (owner q : pystr) (stop_after deadline_ms max_rows max_bytes snippet_max : Z).

(** A row of a batch: read here if it is plaintext, else by the service. *)
Definition row_verdict (r : row) : verdict :=
  if row_is_plaintext repr r then local_verdict repr nfkc casefold b64decode_strict decode_replace r owner q snippet_max
  else verdict_of q max_bytes snippet_max (project_sealed_row r).

Record tallied (l : list row) (t t' : tally) : Prop := mkTallied {
  ta_hits : t_hits t' = t_hits t ++ omap (found row_verdict) l;
  ta_checked : t_checked t' = t_checked t + Zlen l;
  ta_unread : t_unavailable t' = t_unavailable t + unread_count row_verdict l;
  ta_last : t_last t' = last_seq l (t_last t);
}.

Lemma tallied_nil t : tallied [] t t.
Proof using Type. split; [by rewrite app_nil_r|unfold Zlen; cbn; lia|unfold unread_count, Zlen; cbn; lia|done]. Qed.

Lemma tallied_app l k t t' t'' : tallied l t t' -> tallied k t' t'' -> tallied (l ++ k) t t''.
Proof using Type.
  intros [A1 A2 A3 A4] [B1 B2 B3 B4]. split.
  - by rewrite B1, A1, found_app, app_assoc.
  - rewrite B2, A2, Zlen_app. lia.
  - rewrite B3, A3, unread_count_app. lia.
  - by rewrite B4, A4, last_seq_app.
Qed.

Lemma tallied_stopped l t t' why tr : tallied l t t' -> tallied l t (set_stopped why tr t').
Proof using Type. by intros [? ? ? ?]. Qed.

Lemma tallied_local r t : row_is_plaintext repr r = true ->
  tallied [r] t (tally_local repr nfkc casefold b64decode_strict decode_replace owner q snippet_max r t).
Proof using Type.
  intros Hp. unfold tally_local. cbv zeta.
  assert (row_verdict r = local_verdict repr nfkc casefold b64decode_strict decode_replace r owner q snippet_max) as Hv by (unfold row_verdict; by rewrite Hp).
  rewrite <- Hv. split; rewrite ?unread_count_cons; cbn [omap list_omap]; unfold found, unread, last_seq;
    destruct (row_verdict r) eqn:E; cbn [t_hits t_checked t_unavailable t_last last]; rewrite ?app_nil_r;
    try done; unfold unread_count, Zlen; cbn; lia.
Qed.

Lemma sealed_run_spec rows run rest : sealed_run repr rows = (run, rest) ->
  rows = run ++ rest /\ Forall (fun r => row_is_plaintext repr r = false) run /\
  (match rest with r :: _ => row_is_plaintext repr r = true | [] => True end).
Proof using Type.
  revert run. induction rows as [|r rows IH]; intros run; cbn [sealed_run]; [intros [= <- <-]; done|].
  destruct (row_is_plaintext repr r) eqn:E; [intros [= <- <-]; done|]. destruct (sealed_run repr rows) as [run' rest'].
  intros [= <- <-]. destruct (IH _ eq_refl) as (-> & HF & Hr). split; [done|]. split; [by constructor|done].
Qed.

Lemma project_seq r : row_seq (project_sealed_row r) = row_seq r.
Proof using Type. unfold row_seq, get, project_sealed_row. by rewrite !lookup_delete_ne. Qed.

(** A report on projected rows is one on the rows. *)
Lemma tallied_response run t n rs :
  Forall (fun r => row_is_plaintext repr r = false) run -> 0 < stop_after -> Zlen (t_hits t) < stop_after ->
  reports (verdict_of q max_bytes snippet_max) (take n (project_sealed_row <$> run)) 0 [] 0 None rs ->
  Zlen (rs_hits rs) <= stop_after - Zlen (t_hits t) -> (n <= length run)%nat ->
  tallied (take n run) t (tally_response stop_after rs t).
Proof using Type.
  intros HF Hs Hlt [R1 R2 R3 R4] Hb Hn. rewrite <- fmap_take in *. apply (Forall_take _ n) in HF.
  assert (length (take n run) = n) as Hlen by (rewrite length_take; lia). revert HF Hlen R1 R2 R3 R4. generalize (take n run) as l. intros l HF Hlen R1 R2 R3 R4.
  assert (omap (found (verdict_of q max_bytes snippet_max)) (project_sealed_row <$> l) = omap (found row_verdict) l /\
          unread_count (verdict_of q max_bytes snippet_max) (project_sealed_row <$> l) = unread_count row_verdict l) as [E1 E2].
  { clear -HF. induction HF as [|r l Hr _ [IH1 IH2]]; [done|]. rewrite fmap_cons, !unread_count_cons, !found_cons, IH1, IH2.
    unfold found at 1 3, unread, row_verdict. by rewrite Hr. }
  assert (last_seq (project_sealed_row <$> l) None = last_seq l None) as E3.
  { unfold last_seq. rewrite fmap_last. destruct (last l) as [x|]; [|done]. cbn. by rewrite project_seq. }
  split; cbn [t_hits t_checked t_unavailable t_last tally_response].
  - rewrite take_ge by (unfold Zlen in *; lia). by rewrite R2, E1.
  - rewrite R1, length_fmap. done.
  - rewrite R3, E2. lia.
  - rewrite R4, E3. unfold last_seq. by destruct (last l).
Qed.

Lemma partition_loop_spec fuel : forall rows t t' rest,
  (length rows <= fuel)%nat -> 0 < stop_after <= 500 -> Zlen (t_hits t) < stop_after ->
  partition_loop repr nfkc casefold b64decode_strict decode_replace post owner q stop_after deadline_ms max_rows max_bytes snippet_max fuel rows t
    = Return (t', rest) ->
  exists k, (k <= length rows)%nat /\ tallied (take k rows) t t' /\ Zlen (t_hits t') <= stop_after.
Proof using All.
  induction fuel as [|fuel IH]; intros rows t t' rest Hf Hs Hlt.
  { destruct rows; [|cbn in Hf; lia]. intros [= <- <-]. exists 0%nat. split; [cbn; lia|]. split; [apply tallied_nil|lia]. }
  destruct rows as [|r rows]; cbn [partition_loop]; [intros [= <- <-]; exists 0%nat; split; [cbn; lia|]; split; [apply tallied_nil|lia]|].
  destruct (max_rows <=? t_checked t); [intros [= <- <-]; exists 0%nat; split; [cbn; lia|]; split; [apply tallied_nil|lia]|].
  destruct (row_is_plaintext repr r) eqn:Hp.
  - pose proof (tallied_local r t Hp) as Hta. set (u' := tally_local _ _ _ _ _ _ _ _ _ _) in *. cbv zeta.
    assert (Zlen (t_hits u') <= stop_after) as Hle.
    { rewrite (ta_hits _ _ _ Hta), Zlen_app. cbn [omap list_omap]. destruct (found row_verdict r); unfold Zlen in *; cbn; lia. }
    destruct (negb (stop_after =? 0) && (stop_after <=? Zlen (t_hits u'))) eqn:E.
    + intros [= <- <-]. exists 1%nat. split; [cbn; lia|]. split; [by apply tallied_stopped|done].
    + intros H. apply IH in H as (k & Hk & Ht & Hb); [|cbn in Hf; lia|done|apply andb_false_iff in E as [E|E]; bools; lia].
      exists (S k). split; [cbn; lia|]. split; [|done]. by apply (tallied_app [r] (take k rows) t u' t').
  - destruct (sealed_run repr (r :: rows)) as [run rest'] eqn:Er. apply sealed_run_spec in Er as (Er & HF & Hpl).
    intros (rs & Hpost & H)%bind_return. apply scan_prefix in Hpost as (n & Hn & Hr & Hex & Hbd). cbn [rq_rows rq_query rq_max_ciphertext_bytes rq_snippet_max_chars rq_stop_after_hits run_request] in *.
    rewrite length_fmap in Hn, Hex. cbv zeta in H.
    pose proof (Zlen_nonneg (t_hits t)) as H0. rewrite Z.max_r in Hbd by lia. destruct (Hbd ltac:(lia)) as [Hle Hfew].
    pose proof (tallied_response run t n rs HF ltac:(lia) Hlt Hr Hle Hn) as Hta. set (u' := tally_response stop_after rs t) in *.
    assert (Zlen (t_hits u') <= stop_after) as Hub.
    { unfold u', tally_response. cbn [t_hits]. rewrite Zlen_app. unfold Zlen in *. rewrite length_take. lia. }
    rewrite Er in *. destruct ((rs_checked rs <? Zlen run) || negb (bool_decide (rs_stopped rs = exhausted))) eqn:E.
    + injection H as <- <-. exists n. split; [rewrite length_app; lia|]. split; [|done]. apply tallied_stopped. by rewrite take_app_le.
    + apply orb_false_iff in E as [_ H1]. apply negb_false_iff, bool_decide_eq_true in H1. pose proof (Hex H1) as ->. rewrite take_ge in Hta by done.
      assert (Zlen (t_hits u') < stop_after) as Hlt'.
      { unfold u', tally_response. cbn [t_hits]. rewrite Zlen_app. pose proof (Hfew H1). unfold Zlen in *. rewrite length_take. lia. }
      apply IH in H as (k & Hk & Ht & Hb); [|rewrite length_app in Hf; destruct run; [cbn in Er; subst rest'; congruence|cbn in Hf; lia]|done|done].
      exists (length run + k)%nat. split; [rewrite length_app; lia|]. split; [|done]. rewrite take_app_add. by eapply tallied_app.
Qed.

(** Only a post fails: one of a run of the rows, with the query. *)
Lemma partition_raises fuel : forall rows t err,
  partition_loop repr nfkc casefold b64decode_strict decode_replace post owner q stop_after deadline_ms max_rows max_bytes snippet_max fuel rows t = Raise err ->
  exists i rq, post i rq = Raise err /\ (t_posts t <= i)%nat /\ rq_query rq = q /\ rq_rows rq <> [] /\ rq_rows rq ⊆ project_sealed_row <$> rows.
Proof using Type.
  induction fuel as [|fuel IH]; intros [|r rows] t err; cbn [partition_loop]; try done.
  destruct (max_rows <=? t_checked t); [done|].
  assert (forall t' l, (t_posts t <= t_posts t')%nat -> l ⊆ r :: rows ->
    (exists i rq, post i rq = Raise err /\ (t_posts t' <= i)%nat /\ rq_query rq = q /\ rq_rows rq <> [] /\ rq_rows rq ⊆ project_sealed_row <$> l) ->
    exists i rq, post i rq = Raise err /\ (t_posts t <= i)%nat /\ rq_query rq = q /\ rq_rows rq <> [] /\
      rq_rows rq ⊆ project_sealed_row <$> r :: rows) as Hmono.
  { intros t' l Hle Hl (i & rq & H1 & H2 & H3 & H4 & H5). exists i, rq. split; [done|]. split; [lia|]. split; [done|]. split; [done|].
    intros x (y & -> & Hy)%H5%list_elem_of_fmap. by apply list_elem_of_fmap_2, Hl. }
  destruct (row_is_plaintext repr r) eqn:Hp.
  - cbv zeta. destruct (_ && _); [done|]. intros H%IH. revert H. apply Hmono; [unfold tally_local; cbv zeta; by destruct (local_verdict _ _ _ _ _ _ _ _ _)|clear; set_solver].
  - destruct (sealed_run repr (r :: rows)) as [run rest'] eqn:Er. pose proof (sealed_run_spec _ _ _ Er) as (Hrows & _ & Hpl).
    destruct (post (t_posts t) _) as [rs|err'] eqn:E; cbn [mbind outcome_bind].
    + cbv zeta. destruct (_ || _); [done|]. intros H%IH. revert H. apply Hmono; [cbn; lia|rewrite Hrows; clear; set_solver].
    + intros [= ->]. eexists _, _. split; [exact E|]. split; [done|]. cbn [rq_rows rq_query run_request]. split; [done|]. split.
      * intros Hnil%fmap_nil_inv. rewrite Hnil in Hrows. cbn in Hrows. rewrite <- Hrows in Hpl. congruence.
      * rewrite Hrows, fmap_app. clear. set_solver.
Qed.
End Prefix.
End Rows.
