(* ===== verification/HistoryPages.v ===== *)
(** * Pages of a history search
    ([model_api_runtime/v2/history_readside.py], [/v1/history/leaf-hints] of [enclave/routes/history.py])

    One call of [run_history_search]: it fixes or resumes a snapshot, asks which summaries match,
    then fetches and checks batches until it has enough matches, rows or time, and hands out a
    cursor unless the snapshot is done. The file ends with what a sequence of pages returns. *)

From S2P Require Import Prelude PyValue PyFloat HistoryScan HistoryCursor HistoryRows.
Import Float Scan Cursor Rows.
Local Open Scope Z_scope.

Module Pages.

(** [a + b] *)
Definition fadd (a b : pyfloat) : pyfloat :=
  match a, b with
  | FNum x, FNum y => fnorm (fround_signed (x + y) 1)
  | FNaN, _ | _, FNaN => FNaN
  | FInf s, FInf t => if Bool.eqb s t then FInf s else FNaN
  | FInf s, _ | _, FInf s => FInf s
  end.

Record HistorySearchBudget : Type := mkBudget {
  leaf_call_max_leaves : Z;
  leaf_call_max_bytes : Z;
  raw_batch_rows : Z;
  raw_batch_bytes : Z;
  call_max_rows : Z;
  call_deadline_ms : Z;
  snippet_max_chars : Z;
  cursor_ttl_seconds : pyfloat;
}.

Definition clamp_to_remaining (b : HistorySearchBudget) (max_rows deadline_ms : Z) : HistorySearchBudget :=
  mkBudget (leaf_call_max_leaves b) (leaf_call_max_bytes b) (raw_batch_rows b) (raw_batch_bytes b)
    (Z.max 1 (Z.min (call_max_rows b) max_rows)) (Z.max 1 (Z.min (call_deadline_ms b) deadline_ms))
    (snippet_max_chars b) (cursor_ttl_seconds b).

(** ** Summary leaves *)

(** A row of [v2_conversation_summary_segments]. *)
Record leaf : Type := mkLeaf {
  lf_level : Z;
  lf_kind : string;
  lf_start : Z;
  lf_end : Z;
  lf_opaque_through : Z;
  lf_envelope : row;
}.

(** [ORDER BY end_seq DESC, start_seq DESC] *)
Definition leaf_before (a b : Z * Z) : bool := (b.1 <? a.1) || ((b.1 =? a.1) && (b.2 <=? a.2)).

Definition list_level0_summary_leaves (segments : list leaf) (through : Z) : outcome (list leaf) :=
  if through <? 0 then Raise (ValueError "through_seq must be >= 0") else
  Return (sorted_by leaf_before (fun l => (lf_end l, lf_start l))
            (filter (fun l => (lf_level l =? 0) && (lf_end l <=? through) = true) segments)).

Record hint_request : Type := mkHints {
  hr_leaves : list leaf;
  hr_query : pystr;
  hr_max_leaves : Z;
  hr_max_bytes : Z;
}.

(** The ranges of matching leaves, and whether one without a range matched. *)
Definition hint_response : Type := list range * bool.

Section Hints.
Context (repr : pyval -> pystr) (nfkc casefold : pystr -> pystr).
Context (b64decode_strict : pyval -> option (list N)) (decode_replace : list N -> pystr).
Context (decrypt_envelope : row -> option pystr).

Abbreviation normalize := (normalize_for_match nfkc casefold).

Definition leaf_size (l : leaf) : Z := Zlen (text_or repr "" (lf_envelope l) "body_ct").

(** A matching leaf gives its range, unless it is opaque. *)
Definition leaf_hit (l : leaf) (hints : hint_response) : hint_response :=
  if bool_decide (lf_kind l = "legacy_opaque") then (hints.1, true) else (hints.1 ++ [(lf_start l, lf_end l)], hints.2).

(** The loop of [_work] in [v1_history_leaf_hints]. *)
Fixpoint leaf_work (q : pystr) (max_leaves max_bytes : Z) (leaves : list leaf) (n used : Z) (hints : hint_response) : hint_response :=
  match leaves with
  | [] => hints
  | l :: rest =>
      let size := leaf_size l in
      if (max_leaves <=? n) || ((0 <? n) && (max_bytes <? used + size)) then hints else
      let continue := leaf_work q max_leaves max_bytes rest (n + 1) (used + size) in
      if negb (truthy (get (lf_envelope l) "K_enclave")) then continue hints else
      if max_bytes <? size then continue hints else
      match decrypt_envelope (lf_envelope l) with
      | None => continue hints
      | Some text => continue (if contains q (normalize text) then leaf_hit l hints else hints)
      end
  end.

(** [v1_history_leaf_hints], for a caller it authenticated. *)
Definition v1_history_leaf_hints (rq : hint_request) : outcome hint_response :=
  let q := normalize (hr_query rq) in
  if bool_decide (q = []) then Raise (RuntimeError "enclave_http_400") else
  Return (leaf_work q (clamp 1 256 (hr_max_leaves rq)) (clamp 1024 1048576 (hr_max_bytes rq)) (hr_leaves rq) 0 0 ([], false)).

(** The leaves within the budget of one call; one that alone exceeds it is left out. *)
Fixpoint pick_leaves (b : HistorySearchBudget) (leaves : list leaf) (n used : Z) : list leaf :=
  match leaves with
  | [] => []
  | l :: rest =>
      let size := leaf_size l in
      if (leaf_call_max_leaves b <=? n) || ((0 <? n) && (leaf_call_max_bytes b <? used + size)) then []
      else if leaf_call_max_bytes b <? size then pick_leaves b rest n used
      else l :: pick_leaves b rest (n + 1) (used + size)
  end.

Definition local_hints (owner q : pystr) (picked : list leaf) : hint_response :=
  foldl (fun hints l => match classify_envelope_shape (lf_envelope l) with
                        | plaintext_text | plaintext_binary =>
                            match read_plaintext repr b64decode_strict decode_replace (lf_envelope l) owner with
                            | Some text => if contains q (normalize text) then leaf_hit l hints else hints
                            | None => hints
                            end
                        | _ => hints
                        end) ([], false) picked.

Definition is_sealed (l : leaf) : bool := bool_decide (classify_envelope_shape (lf_envelope l) = sealed).

Definition leaf_hint_ranges (b : HistorySearchBudget) (owner q : pystr) (post : hint_request -> outcome hint_response)
    (leaves : list leaf) : outcome hint_response :=
  if bool_decide (q = []) || bool_decide (leaves = []) then Return ([], false) else
  let picked := pick_leaves b leaves 0 0 in
  let mine := local_hints owner q picked in
  let sealed_leaves := filter (fun l => is_sealed l = true) picked in
  response ← match sealed_leaves with
             | [] => Return ([], false)
             | _ => post (mkHints sealed_leaves q (leaf_call_max_leaves b) (leaf_call_max_bytes b))
             end;
  Return (filter (fun r => (0 <? r.1) = true) (mine.1 ++ response.1), mine.2 || response.2).
End Hints.

(** [_touches_legacy_coverage] *)
Definition touches_legacy_coverage (touched : list range) (legacy : list leaf) (snapshot : Z) : bool :=
  existsb (fun l =>
    let hi := Z.min (Z.max (lf_opaque_through l) (lf_end l)) snapshot in
    (1 <=? hi) && existsb (fun t => (t.1 <=? hi) && (1 <=? t.2)) touched) legacy.

(** ** A page *)

Record found_match : Type := mkMatch {
  match_message_id : pystr;
  match_ts : pyfloat;
  match_role : pystr;
  match_snippet : pystr;
  match_truncated : bool;
}.

Record page : Type := mkPage {
  p_matches : list found_match;
  p_complete : bool;
  p_scanned : Z;
  p_unavailable : Z;
  p_coverage_gap : bool;
  p_next : option pystr;
}.

(** What the call reads of the store: the user's messages, summary segments and generation, and
    the watermark of the summary frontier. *)
Record world : Type := mkWorld {
  w_messages : list message;
  w_segments : list leaf;
  w_generation : Z;
  w_watermark : Z;
}.

Definition chat_max_seq (w : world) : Z := foldr Z.max 0 (m_seq <$> w_messages w).

(** What it reads of its surroundings: the wall clock, the milliseconds gone at the [i]-th turn of the
    loop, and the answers of the enclave. *)
Record surroundings : Type := mkSurroundings {
  s_now : pyfloat;
  s_elapsed : nat -> Z;
  s_scan : nat -> scan_request -> outcome scan_response;
  s_hints : hint_request -> outcome hint_response;
}.

Record arguments : Type := mkArguments {
  a_query : option pystr;
  a_start : option pystr;
  a_end : option pystr;
  a_cursor : option pystr;
  a_limit : option pyval;
}.

(** What is searched: the query and times, the snapshot, the watermark, and where to resume. *)
Record requested : Type := mkRequested {
  r_query : pystr;
  r_start : option pyfloat;
  r_end : option pyfloat;
  r_snapshot : Z;
  r_watermark : Z;
  r_resume : option ScanState;
}.

(** The loop's variables. *)
Record progress : Type := mkProgress {
  g_matches : list found_match;
  g_scanned : Z;
  g_unavailable : Z;
  g_touched : list range;
  g_posts : nat;
  g_state : ScanState;
}.

Definition read_limit (limit : option pyval) : outcome Z :=
  n ← match limit with
      | None => Return 3
      | Some v => match int_of v with
                  | Raise (TypeError _) | Raise (ValueError _) => Raise (InputError "invalid_limit")
                  | out => out
                  end
      end;
  Return (Z.max 1 (Z.min n 5)).

Section Search.
Context (repr : pyval -> pystr) (nfkc casefold lower : pystr -> pystr) (fromisoformat : pystr -> outcome (option pyfloat)).
Context (b64decode_strict : pyval -> option (list N)) (decode_replace : list N -> pystr).
(** [encode_cursor] and [decode_cursor] under the deployment's key. *)
Context (encode : HistoryCursor -> outcome pystr) (decode : pyfloat -> pystr -> outcome HistoryCursor).
Context (user : pystr).

Definition model_role (raw : pystr) : pystr :=
  if existsb (fun s => bool_decide (lower (strip raw) = u s)) ["openclaw"; "assistant"; "agent"] then u "assistant" else u "user".

Definition to_match (h : hit) : found_match :=
  mkMatch (hit_message_id h) (hit_ts h) (model_role (hit_role h)) (hit_snippet h) (hit_truncated h).

(** [for hit in hits: if len(matches) >= limit: break] *)
Definition add_matches (limit : Z) (matches : list found_match) (hits : list hit) : list found_match :=
  matches ++ take (Z.to_nat (limit - Zlen matches)) (to_match <$> hits).

(** The rows sent: as they are while their ciphertext fits, without it if one alone is too large. *)
Section Payload.
Context (max_bytes : Z).

Definition payload_of (r : row) : row :=
  let p := row_payload repr r in if max_bytes <? payload_ciphertext_size repr p then oversize_placeholder p else p.

Fixpoint payload_rest (rows : list row) (used : Z) : list row :=
  match rows with
  | [] => []
  | r :: rest =>
      let p := row_payload repr r in
      let size := payload_ciphertext_size repr p in
      if max_bytes <? used + size then []
      else if max_bytes <? size then [oversize_placeholder p]
      else p :: payload_rest rest (used + size)
  end.

Definition payload_rows (rows : list row) : list row :=
  match rows with
  | [] => []
  | r :: rest =>
      let p := row_payload repr r in
      let size := payload_ciphertext_size repr p in
      if max_bytes <? size then [oversize_placeholder p] else p :: payload_rest rest size
  end.
End Payload.

(** An error after a successful post is not one of a missing route. *)
Definition after_scan {A} (posts : nat) (m : outcome A) : outcome A :=
  match m with
  | Raise (RuntimeError msg) =>
      if negb (posts =? 0)%nat && bool_decide (msg = "enclave_history_capability_unavailable")
      then Raise (RuntimeError "enclave_error_after_scan") else Raise (RuntimeError msg)
  | out => out
  end.

Section Loop.
Context (w : world) (e : surroundings) (budget : HistorySearchBudget) (shape : ScanShape) (q : pystr) (t0 t1 : option pyfloat) (limit : Z).

(** One batch: the variables after it, and whether the loop goes on. *)
Definition search_batch (remaining : Z) (g : progress) : outcome (progress * bool) :=
  batch ← next_batch shape (g_state g) (Z.min (raw_batch_rows budget) (call_max_rows budget - g_scanned g));
  match batch with
  | None => Return (g, false)
  | Some b =>
      candidates ← chat_history_candidate_rows (w_messages w) (min_seq b) (max_seq b) t0 t1 (batch_limit b);
      match candidates with
      | [] =>
          st ← advance_scan_state shape (g_state g) b true None;
          Return (mkProgress (g_matches g) (g_scanned g) (g_unavailable g) (g_touched g ++ [(min_seq b, max_seq b)]) (g_posts g) st, true)
      | _ =>
          full ← chat_history_rows_by_seqs (w_messages w) (m_seq <$> candidates);
          let payload := payload_rows (raw_batch_bytes budget) full in
          t ← after_scan (g_posts g)
                (scan_rows_partitioned repr nfkc casefold b64decode_strict decode_replace (s_scan e) user q (limit - Zlen (g_matches g))
                   (Z.max 1 remaining) (raw_batch_rows budget) (raw_batch_bytes budget) (snippet_max_chars budget) (g_posts g) payload);
          let g' touched st := mkProgress (add_matches limit (g_matches g) (t_hits t)) (g_scanned g + t_checked t)
                                 (g_unavailable g + t_unavailable t) touched (t_posts t) st in
          match t_last t with
          | None => Return (g' (g_touched g) (g_state g), false)
          | Some last =>
              if (Zlen payload <=? t_checked t) && (Zlen payload =? Zlen full) && (Zlen candidates <? batch_limit b)
              then st ← advance_scan_state shape (g_state g) b true None;
                   Return (g' (g_touched g ++ [(min_seq b, max_seq b)]) st, true)
              else st ← advance_scan_state shape (g_state g) b false (Some last);
                   Return (g' (g_touched g ++ [(last, max_seq b)]) st, true)
          end
      end
  end.

(** The loop. A turn that goes on has advanced the planner, so more turns than sequence numbers are
    not needed; running out is an exception of its own. *)
Fixpoint search_loop (fuel turn : nat) (g : progress) : outcome progress :=
  if (Zlen (g_matches g) <? limit) && (g_scanned g <? call_max_rows budget) && negb (scan_complete (g_state g)) then
    match fuel with
    | O => Raise (Other "loop")
    | S fuel =>
        let remaining := call_deadline_ms budget - s_elapsed e turn in
        if remaining <=? 0 then Return g else
        out ← search_batch remaining g;
        let '(g, more) := out in if (more : bool) then search_loop fuel (S turn) g else Return g
    end
  else Return g.
End Loop.

(** A first call fixes the snapshot and the watermark. *)
Definition first_request (w : world) (a : arguments) : outcome requested :=
  if bool_decide (a_query a = None) && bool_decide (a_start a = None) && bool_decide (a_end a = None)
  then Raise (InputError "missing_query_or_time_range") else
  q ← match a_query a with Some s => normalize_query nfkc casefold s | None => Return [] end;
  times ← normalize_time_range fromisoformat (a_start a) (a_end a);
  Return (mkRequested q times.1 times.2 (chat_max_seq w) (w_watermark w) None).

(** A later one takes them from its cursor. *)
Definition resumed_request (w : world) (e : surroundings) (a : arguments) (token : pystr) : outcome requested :=
  c ← decode (s_now e) token;
  _ ← verify_cursor_binding c user (w_generation w);
  _ ← verify_cursor_request nfkc casefold fromisoformat c (a_query a) (a_start a) (a_end a) (a_limit a);
  Return (mkRequested (query c) (start_ts c) (end_ts c) (c_snapshot c) (c_watermark c) (Some (scan_state c))).

Definition read_request (w : world) (e : surroundings) (a : arguments) : outcome requested :=
  match a_cursor a with
  | Some (x :: token) => resumed_request w e a (x :: token)
  | _ => first_request w a
  end.

Definition search_shape (e : surroundings) (budget : HistorySearchBudget) (r : requested) (leaves : list leaf) : outcome ScanShape :=
  hints ← (if bool_decide (r_query r = []) then Return ([], false)
           else leaf_hint_ranges repr nfkc casefold b64decode_strict decode_replace budget user (r_query r) (s_hints e) leaves);
  make_shape (r_snapshot r) (r_watermark r) (negb (bool_decide (r_query r = []))) hints.1.

Definition next_cursor (w : world) (e : surroundings) (budget : HistorySearchBudget) (r : requested) (st : ScanState) : outcome (option pystr) :=
  if scan_complete st then Return None else
  c ← make_cursor (mkCursor user (r_snapshot r) (r_watermark r) (w_generation w) (r_query r) (r_start r) (r_end r)
                    (phase st) (resume_seq st) (uncompressed_floor st) (fadd (s_now e) (cursor_ttl_seconds budget)));
  token ← encode c; Return (Some token).

Definition run_history_search (w : world) (e : surroundings) (budget : HistorySearchBudget) (a : arguments) : outcome page :=
  limit ← read_limit (a_limit a);
  r ← read_request w e a;
  leaves ← list_level0_summary_leaves (w_segments w) (Z.min (r_snapshot r) (r_watermark r));
  shape ← search_shape e budget r leaves;
  let st := match r_resume r with Some st => st | None => initial_scan_state shape end in
  g ← search_loop w e budget shape (r_query r) (r_start r) (r_end r) limit (Z.to_nat (r_snapshot r)) 0 (mkProgress [] 0 0 [] 0 st);
  let gap := touches_legacy_coverage (g_touched g) (filter (fun l => lf_kind l = "legacy_opaque") leaves) (r_snapshot r) in
  next ← next_cursor w e budget r (g_state g);
  Return (mkPage (g_matches g) (scan_complete (g_state g) && negb gap) (g_scanned g) (g_unavailable g) gap next).
End Search.
End Pages.
