(* ===== verification/HistorySafety.v ===== *)
(** * What the pages of a history search return

    The rows of a window of sequence numbers, the batch of a page as a report on such a window, and
    the pages of a search, over a store that may grow between them, as a report on everything the
    first page could see. *)

From S2P Require Import Prelude PyValue PyFloat HistoryScan HistoryCursor HistoryRows HistoryPages.
Import Float Scan Cursor Rows Pages.
Local Open Scope Z_scope.

Module Search.

(** ** Rows of a window *)

Definition searched (t0 t1 : option pyfloat) (m : message) : bool := visible m && after_start t0 m && before_end t1 m.

Section Windows.
Context (t0 t1 : option pyfloat).

Definition window_rows (messages : list message) (w : range) : list message :=
  by_seq_desc (filter (fun m => (w.1 <=? m_seq m) && (m_seq m <=? w.2) && visible m && after_start t0 m && before_end t1 m = true) messages).

Definition later (a b : message) : Prop := m_seq b < m_seq a.

#[local] Instance later_antisymm : AntiSymm (=) later.
Proof using Type. intros a b. unfold later. lia. Qed.

Section Store.
Context (messages : list message) (Hseqs : NoDup (m_seq <$> messages)).

Lemma message_unique a b : a ∈ messages -> b ∈ messages -> m_seq a = m_seq b -> a = b.
Proof using Hseqs.
  intros [i Hi]%list_elem_of_lookup [j Hj]%list_elem_of_lookup E.
  assert (i = j) as <-; [|congruence].
  eapply NoDup_lookup; [exact Hseqs| |]; rewrite list_lookup_fmap; [by rewrite Hi|by rewrite Hj, E].
Qed.

Lemma elem_window w m : m ∈ window_rows messages w <-> m ∈ messages /\ inside w (m_seq m) /\ searched t0 t1 m = true.
Proof using Type.
  unfold window_rows, by_seq_desc, inside, searched. rewrite sorted_by_Permutation, list_elem_of_filter, !andb_true_iff, !Z.leb_le. tauto.
Qed.

Lemma by_seq_desc_sorted l : NoDup l -> l ⊆ messages -> StronglySorted later (by_seq_desc l).
Proof using Hseqs.
  intros Hnd Hsub.
  assert (StronglySorted (fun a b => Z.leb (- m_seq a) (- m_seq b) = true) (by_seq_desc l)) as Hs
    by (apply sorted_by_sorted; intros; rewrite ?Z.leb_le in *; lia).
  assert (by_seq_desc l ≡ₚ l) as Hp by apply sorted_by_Permutation. rewrite <- Hp in Hnd, Hsub. clear Hp.
  induction Hs as [|m k Hs IH Hall]; constructor; apply NoDup_cons in Hnd as [Hni Hnd].
  - apply IH; [done|set_solver].
  - rewrite Forall_forall in Hall |- *. intros y Hy. specialize (Hall y Hy). apply Z.leb_le in Hall. unfold later.
    destruct (decide (m_seq y = m_seq m)) as [E|]; [|lia].
    apply message_unique in E; [by subst|apply Hsub; by right|apply Hsub; by left].
Qed.

Lemma messages_NoDup : NoDup messages.
Proof using Hseqs. by eapply NoDup_fmap_1. Qed.

Lemma window_sorted w : StronglySorted later (window_rows messages w).
Proof using Hseqs.
  apply by_seq_desc_sorted; [apply NoDup_filter, messages_NoDup|]. intros m Hm. by apply list_elem_of_filter in Hm as [_ ?].
Qed.

Lemma sorted_NoDup l : StronglySorted later l -> NoDup l.
Proof using Type.
  induction 1 as [|m l _ IH Hall]; constructor; [|done]. intros Hm. rewrite Forall_forall in Hall. specialize (Hall _ Hm). unfold later in Hall. lia.
Qed.

(** Sorted lists of the same messages are equal. *)
Lemma later_unique l k : StronglySorted later l -> StronglySorted later k -> (forall m, m ∈ l <-> m ∈ k) -> l = k.
Proof using Type.
  intros Hl Hk Hlk. apply (StronglySorted_unique later); [done|done|]. apply NoDup_Permutation; [by apply sorted_NoDup|by apply sorted_NoDup|done].
Qed.

Lemma take_sorted n l : StronglySorted later l -> StronglySorted later (take n l).
Proof using Type. intros H. eapply StronglySorted_sublist; [apply sublist_take|exact H]. Qed.

(** The first rows of a window down to one of them are the window that ends there. *)
Lemma window_prefix lo hi n m :
  last (take n (window_rows messages (lo, hi))) = Some m -> take n (window_rows messages (lo, hi)) = window_rows messages (m_seq m, hi).
Proof using Hseqs.
  intros Hl. pose proof (window_sorted (lo, hi)) as Hs.
  apply later_unique; [by apply take_sorted|apply window_sorted|]. intros x. rewrite elem_window.
  assert (m ∈ window_rows messages (lo, hi)) as Hm by (eapply elem_of_sublist; [by apply last_Some_elem_of|apply sublist_take]).
  apply elem_window in Hm as (Hm & Hin & Hp). apply last_Some in Hl as [l Hl].
  pose proof (take_drop n (window_rows messages (lo, hi))) as E. rewrite Hl in E. rewrite <- E, <- app_assoc in Hs.
  split.
  - rewrite Hl. intros Hx. assert (x ∈ window_rows messages (lo, hi)) as (? & Hx' & ?)%elem_window by (rewrite <- E; set_solver).
    split; [done|]. split; [|done]. unfold inside in *. cbn in *. split; [|lia].
    apply elem_of_app in Hx as [Hx|Hx]; [|apply list_elem_of_singleton in Hx; subst; lia].
    apply StronglySorted_app in Hs as [Hlt _]. specialize (Hlt x m Hx ltac:(by left)). unfold later in Hlt. lia.
  - intros (Hx & Hix & Hpx). unfold inside in *. cbn in *.
    assert (x ∈ window_rows messages (lo, hi)) as Hw by (apply elem_window; unfold inside; cbn; split; [done|]; split; [lia|done]).
    rewrite <- E in Hw. apply elem_of_app in Hw as [Hw|Hw]; [by rewrite Hl|].
    change (m :: ?k) with ([m] ++ k) in Hs. rewrite app_assoc in Hs. apply StronglySorted_app in Hs as [Hlt _].
    specialize (Hlt m x ltac:(set_solver) Hw). unfold later in Hlt. lia.
Qed.

Lemma candidates_ok lo hi limit : 0 <= lo -> 0 <= hi -> 0 < limit <= 1000 ->
  chat_history_candidate_rows messages lo hi t0 t1 limit = Return (take (Z.to_nat limit) (window_rows messages (lo, hi))).
Proof using Type.
  intros Hlo Hhi Hl. unfold chat_history_candidate_rows. rewrite (proj2 (Z.ltb_ge lo 0)), (proj2 (Z.ltb_ge hi 0)) by lia. cbn [orb].
  replace (Z.max 1 (Z.min limit 1000)) with limit by lia. destruct (hi <? lo) eqn:E; [|done]. bools.
  replace (window_rows messages (lo, hi)) with (@nil message); [by rewrite take_nil|].
  symmetry. apply elem_of_nil_inv. intros m (_ & Hin & _)%elem_window. unfold inside in Hin. cbn in Hin. lia.
Qed.

(** The rows of the candidates are the candidates. *)
Lemma rows_of_candidates lo hi n : 0 <= lo ->
  chat_history_rows_by_seqs messages (m_seq <$> take n (window_rows messages (lo, hi)))
    = Return (history_full_row <$> take n (window_rows messages (lo, hi))).
Proof using Hseqs.
  intros Hlo. set (k := take n (window_rows messages (lo, hi))).
  assert (forall m, m ∈ k -> m ∈ window_rows messages (lo, hi)) as Hk by (intros m Hm; eapply elem_of_sublist; [exact Hm|apply sublist_take]).
  assert (by_seq_desc (filter (fun m => bool_decide (m_seq m ∈ m_seq <$> k) && visible m = true) messages) = k) as Hsame.
  { apply later_unique; [apply by_seq_desc_sorted; [apply NoDup_filter, messages_NoDup|]; intros m Hm; by apply list_elem_of_filter in Hm as [_ ?]|
      apply take_sorted, window_sorted|].
    intros m. unfold by_seq_desc. rewrite sorted_by_Permutation, list_elem_of_filter, andb_true_iff, bool_decide_eq_true. split.
    - intros [[Hm _] Hin]. apply list_elem_of_fmap in Hm as (m' & E & Hm'). pose proof (Hk _ Hm') as (Hin' & _ & _)%elem_window.
      by rewrite (message_unique m m' Hin Hin' E).
    - intros Hm. pose proof (Hk _ Hm) as (Hin & _ & Hp)%elem_window. unfold searched in Hp. apply andb_true_iff in Hp as [[Hp _]%andb_true_iff _].
      split; [split; [by apply list_elem_of_fmap_2|done]|done]. }
  unfold chat_history_rows_by_seqs. destruct (m_seq <$> k) as [|s seqs] eqn:E; [by apply fmap_nil_inv in E as ->|]. rewrite <- E in *.
  destruct (existsb _ _) eqn:Ex; [|by rewrite Hsame]. exfalso. apply existsb_exists in Ex as (x & Hx & Hneg).
  apply list_elem_of_In, list_elem_of_fmap in Hx as (m & -> & Hm). apply Hk, elem_window in Hm as (_ & Hin & _). unfold inside in Hin. cbn in Hin. bools. lia.
Qed.
End Store.

(** What is above a snapshot does not matter to windows below it. *)
Lemma window_restrict messages snapshot w : w.2 <= snapshot ->
  window_rows (filter (fun m => m_seq m <= snapshot) messages) w = window_rows messages w.
Proof using Type.
  intros Hw. unfold window_rows. f_equal. rewrite list_filter_filter. apply list_filter_iff_strong.
  intros m _. rewrite !andb_true_iff, !Z.leb_le. intuition lia.
Qed.

Definition all_rows (messages : list message) (ws : list range) : list message := flat_map (window_rows messages) ws.

Lemma all_rows_app messages ws ws' : all_rows messages (ws ++ ws') = all_rows messages ws ++ all_rows messages ws'.
Proof using Type. apply flat_map_app. Qed.

Lemma all_rows_cons m messages ws :
  all_rows (m :: messages) ws ≡ₚ (if searched t0 t1 m then repeat m (times ws (m_seq m)) else []) ++ all_rows messages ws.
Proof using Type.
  induction ws as [|w ws IH]; [by destruct (searched t0 t1 m)|].
  assert (times (w :: ws) (m_seq m) = (if decide (inside w (m_seq m)) then 1 else 0) + times ws (m_seq m))%nat as Ht
    by (unfold times; rewrite filter_cons; by destruct (decide _)).
  assert (window_rows (m :: messages) w ≡ₚ (if decide (inside w (m_seq m)) then (if searched t0 t1 m then [m] else []) else []) ++ window_rows messages w) as Hw.
  { unfold window_rows, by_seq_desc. rewrite !sorted_by_Permutation, filter_cons. unfold inside, searched.
    destruct (decide (w.1 <= m_seq m <= w.2)) as [Hi|Hi].
    - rewrite (proj2 (Z.leb_le w.1 (m_seq m))), (proj2 (Z.leb_le (m_seq m) w.2)) by lia. cbn [andb].
      destruct (visible m && after_start t0 m && before_end t1 m); [by rewrite decide_True|by rewrite decide_False].
    - rewrite decide_False; [done|]. rewrite !andb_true_iff, !Z.leb_le. lia. }
  cbn [all_rows flat_map]. fold (all_rows (m :: messages) ws). fold (all_rows messages ws). rewrite Hw, IH, Ht.
  destruct (searched t0 t1 m), (decide (inside w (m_seq m))); cbn [repeat Nat.add app]; solve_Permutation.
Qed.

(** Windows that have each sequence number at most once have the rows of the ones they have. *)
Lemma all_rows_spec messages ws : (forall x, (times ws x <= 1)%nat) ->
  all_rows messages ws ≡ₚ filter (fun m => times ws (m_seq m) = 1%nat /\ searched t0 t1 m = true) messages.
Proof using Type.
  intros Ht. induction messages as [|m messages IH].
  { induction ws as [|w ws IHw]; [done|]. cbn. apply IHw. intros x. specialize (Ht x). unfold times in *. rewrite filter_cons in Ht.
    destruct (decide (inside w x)); cbn in Ht; lia. }
  rewrite all_rows_cons, IH, filter_cons. specialize (Ht (m_seq m)). destruct (searched t0 t1 m).
  - destruct (times ws (m_seq m)) as [|[|n]]; [by rewrite decide_False by (intros [? _]; lia)|by rewrite decide_True|lia].
  - by rewrite decide_False by (intros [_ ?]; done).
Qed.
End Windows.

(** ** Rows as they are sent *)

Lemma copy_fields_other keys r out k : k ∉ keys -> copy_fields keys r out !! k = out !! k.
Proof.
  unfold copy_fields. revert out. induction keys as [|x keys IH]; intros out Hk; [done|]. cbn [foldl].
  apply not_elem_of_cons in Hk as [Hne Hk]. rewrite IH by done. by destruct (get r x); rewrite ?lookup_insert_ne.
Qed.

Lemma set_fields_other keys r out k : k ∉ keys -> set_fields keys r out !! k = out !! k.
Proof.
  unfold set_fields. revert out. induction keys as [|x keys IH]; intros out Hk; [done|]. cbn [foldl].
  apply not_elem_of_cons in Hk as [Hne Hk]. rewrite IH by done. by rewrite lookup_insert_ne.
Qed.

Lemma placeholder_seq p : row_seq (oversize_placeholder p) = row_seq p.
Proof.
  unfold row_seq, get, oversize_placeholder. rewrite lookup_insert_ne by done. destruct (p !! "seq") as [v|] eqn:E.
  - rewrite (map_lookup_filter_Some_2 _ _ _ v); [done|done|vm_compute; set_solver].
  - by rewrite map_lookup_filter, E.
Qed.

Section Sent.
Context (repr : pyval -> pystr) (max_bytes : Z).

Lemma payload_seq r : row_seq (row_payload repr r) = row_seq r.
Proof using Type.
  assert (row_payload repr r !! "seq" = Some (get r "seq")) as E; [|unfold row_seq, get at 1; by rewrite E].
  unfold row_payload. cbv zeta. destruct (is_attachment repr r); [|destruct (classify_envelope_shape r)];
    try destruct (bool_decide _); rewrite ?copy_fields_other, ?set_fields_other, ?copy_fields_other by (vm_compute; set_solver);
    by rewrite lookup_insert_ne, lookup_insert_eq.
Qed.

Lemma sent_seq m : row_seq (payload_of repr max_bytes (history_full_row m)) = m_seq m.
Proof using Type.
  unfold payload_of. cbv zeta. destruct (_ <? _); rewrite ?placeholder_seq, payload_seq;
    unfold row_seq, get, history_full_row; by rewrite lookup_insert_eq.
Qed.

Lemma payload_rest_spec rows : forall used, 0 <= used ->
  exists n, (n <= length rows)%nat /\ payload_rest repr max_bytes rows used = payload_of repr max_bytes <$> take n rows.
Proof using Type.
  induction rows as [|r rows IH]; intros used Hu; [by exists 0%nat|]. cbn [payload_rest]. cbv zeta.
  set (p := row_payload repr r). destruct (max_bytes <? used + payload_ciphertext_size repr p) eqn:E; [exists 0%nat; split; [lia|done]|].
  assert (0 <= payload_ciphertext_size repr p) by (unfold payload_ciphertext_size; pose proof (Zlen_nonneg (text_or repr "" p "body_ct"));
    pose proof (Zlen_nonneg (text_or repr "" p "caption_body_ct")); lia).
  destruct (max_bytes <? payload_ciphertext_size repr p) eqn:E'; [bools; lia|].
  destruct (IH (used + payload_ciphertext_size repr p) ltac:(lia)) as (n & Hn & ->). exists (S n). split; [cbn; lia|].
  cbn [take]. rewrite fmap_cons. unfold payload_of at 2. fold p. cbv zeta. by rewrite E'.
Qed.

(** What is sent is a beginning of the batch, at least its first row. *)
Lemma payload_rows_spec r rows :
  exists n, (1 <= n <= length (r :: rows))%nat /\ payload_rows repr max_bytes (r :: rows) = payload_of repr max_bytes <$> take n (r :: rows).
Proof using Type.
  cbn [payload_rows]. cbv zeta. set (p := row_payload repr r).
  assert (payload_of repr max_bytes r = if max_bytes <? payload_ciphertext_size repr p then oversize_placeholder p else p) as Hp by done.
  destruct (max_bytes <? payload_ciphertext_size repr p) eqn:E.
  - exists 1%nat. split; [cbn; lia|]. cbn [take]. by rewrite fmap_cons, Hp.
  - destruct (payload_rest_spec rows (payload_ciphertext_size repr p)) as (n & Hn & ->).
    { unfold payload_ciphertext_size. pose proof (Zlen_nonneg (text_or repr "" p "body_ct")). pose proof (Zlen_nonneg (text_or repr "" p "caption_body_ct")). lia. }
    exists (S n). split; [cbn; lia|]. cbn [take]. by rewrite fmap_cons, Hp.
Qed.
End Sent.

(** ** A batch *)

Section Batches.
Context (repr : pyval -> pystr) (nfkc casefold lower : pystr -> pystr).
Context (b64decode_strict : pyval -> option (list N)) (decode_replace : list N -> pystr).
Context (verdict_of : pystr -> Z -> Z -> row -> verdict) (user : pystr).
Context (b : HistorySearchBudget) (q : pystr) (t0 t1 : option pyfloat).

(** What is found in messages, each read as it is sent. *)
Definition sent (m : message) : row := payload_of repr (raw_batch_bytes b) (history_full_row m).
Definition judge : row -> verdict :=
  row_verdict repr nfkc casefold b64decode_strict decode_replace verdict_of user q (raw_batch_bytes b) (snippet_max_chars b).
Definition matches_of (l : list message) : list found_match := to_match lower <$> omap (found judge) (sent <$> l).
Definition unread_of (l : list message) : Z := unread_count judge (sent <$> l).

Lemma matches_of_app l k : matches_of (l ++ k) = matches_of l ++ matches_of k.
Proof using Type. unfold matches_of. by rewrite fmap_app, omap_app, fmap_app. Qed.

Lemma unread_of_app l k : unread_of (l ++ k) = unread_of l + unread_of k.
Proof using Type. unfold unread_of. by rewrite fmap_app, unread_count_app. Qed.

Context (w : world) (e : surroundings) (shape : ScanShape) (limit : Z).
Context (Hseqs : NoDup (m_seq <$> w_messages w)) `{!ScanService verdict_of (s_scan e)}.
Context (Hshape : valid_shape shape) (Hrows : 0 < raw_batch_rows b <= 1000) (Hlimit : 0 < limit <= 500).

Abbreviation rows ws := (all_rows t0 t1 (w_messages w) ws).

Lemma partitioned_spec stop deadline posts payload t :
  0 < stop <= 500 ->
  scan_rows_partitioned repr nfkc casefold b64decode_strict decode_replace (s_scan e) user q stop deadline (raw_batch_rows b) (raw_batch_bytes b)
    (snippet_max_chars b) posts payload = Return t ->
  exists k, (k <= length payload)%nat /\ t_hits t = omap (found judge) (take k payload) /\ t_checked t = Z.of_nat k /\
    t_unavailable t = unread_count judge (take k payload) /\ t_last t = last_seq (take k payload) None /\ Zlen (t_hits t) <= stop.
Proof using ScanService0.
  intros Hs. unfold scan_rows_partitioned. intros ([t' rest] & Hl & H)%bind_return. injection H as <-.
  eapply partition_loop_spec in Hl as (k & Hk & [T1 T2 T3 T4] & Hb); [|typeclasses eauto|done|done|unfold Zlen; cbn; lia].
  exists k. cbn [t_hits t_checked t_unavailable t_last app] in *. unfold Zlen in T2. rewrite length_take_le in T2 by done.
  split; [done|]. by destruct (_ && _); cbn [set_stopped t_hits t_checked t_unavailable t_last].
Qed.

(** The variables after checking the windows [ws']. *)
Record advanced (g : progress) (ws : list range) (g' : progress) (ws' : list range) : Prop := mkAdvanced {
  ad_scan : scan shape (g_state g') (ws ++ ws');
  ad_matches : g_matches g' = g_matches g ++ matches_of (rows ws');
  ad_scanned : g_scanned g' = g_scanned g + Zlen (rows ws');
  ad_unread : g_unavailable g' = g_unavailable g + unread_of (rows ws');
  ad_below : Forall (fun r : range => r.2 <= snapshot_through_seq shape) ws';
  ad_limit : Zlen (g_matches g') <= limit;
}.

Lemma advanced_none g ws : scan shape (g_state g) ws -> Zlen (g_matches g) <= limit -> advanced g ws g [].
Proof using Type.
  intros Hs Hl. split; cbn; rewrite ?app_nil_r; [done|done|unfold Zlen; cbn; lia|unfold unread_of, unread_count, Zlen; cbn; lia|constructor|done].
Qed.

Lemma advanced_app g ws g' ws' g'' ws'' : advanced g ws g' ws' -> advanced g' (ws ++ ws') g'' ws'' -> advanced g ws g'' (ws' ++ ws'').
Proof using Type.
  intros [A1 A2 A3 A4 A5 A6] [B1 B2 B3 B4 B5 B6]. split.
  - by rewrite app_assoc.
  - by rewrite B2, A2, all_rows_app, matches_of_app, app_assoc.
  - rewrite B3, A3, all_rows_app, Zlen_app. lia.
  - rewrite B4, A4, all_rows_app, unread_of_app. lia.
  - by apply Forall_app.
  - done.
Qed.

(** A window checked down to [c], whose rows are [l]. *)
Lemma advanced_window g ws g' batch_max_rows bt ex lc c l :
  scan shape (g_state g) ws -> 0 < batch_max_rows -> next_batch shape (g_state g) batch_max_rows = Return (Some bt) ->
  max_seq bt <= snapshot_through_seq shape -> checked_floor bt ex lc = Return c ->
  advance_scan_state shape (g_state g) bt ex lc = Return (g_state g') -> window_rows t0 t1 (w_messages w) (c, max_seq bt) = l ->
  g_matches g' = g_matches g ++ matches_of l -> g_scanned g' = g_scanned g + Zlen l -> g_unavailable g' = g_unavailable g + unread_of l ->
  Zlen (g_matches g') <= limit -> advanced g ws g' [(c, max_seq bt)].
Proof using Type.
  intros Hs Hb Hn Hm Hc Ha Hl H1 H2 H3 H4. assert (rows [(c, max_seq bt)] = l) as El by (cbn; by rewrite app_nil_r).
  split; rewrite ?El; [by eapply scan_batch|done|done|done|by repeat constructor|done].
Qed.

Abbreviation partitioned stop deadline posts payload :=
  (scan_rows_partitioned repr nfkc casefold b64decode_strict decode_replace (s_scan e) user q stop deadline (raw_batch_rows b) (raw_batch_bytes b)
    (snippet_max_chars b) posts payload).

(** A post of this call failed with [err]: it had the call's query and some of the messages searched, as
    they are sent; after an earlier post a missing route is reported as another error. *)
Definition scan_failure (err : exn) : Prop :=
  exists i rq err', s_scan e i rq = Raise err' /\ rq_query rq = q /\ rq_rows rq <> [] /\
    (forall r, r ∈ rq_rows rq -> exists m, r = project_sealed_row (sent m) /\ m ∈ w_messages w /\ searched t0 t1 m = true /\
       m_seq m <= snapshot_through_seq shape) /\
    (err = err' \/ (0 < i)%nat /\ err' = RuntimeError "enclave_history_capability_unavailable" /\ err = RuntimeError "enclave_error_after_scan").

Lemma after_scan_spec stop deadline posts payload :
  (forall r, r ∈ payload -> exists m, r = sent m /\ m ∈ w_messages w /\ searched t0 t1 m = true /\ m_seq m <= snapshot_through_seq shape) ->
  match after_scan posts (partitioned stop deadline posts payload) with
  | Return t => partitioned stop deadline posts payload = Return t
  | Raise err => scan_failure err
  end.
Proof using Type.
  intros Hpay. unfold after_scan. destruct (partitioned stop deadline posts payload) as [t|err] eqn:E; [done|].
  assert (exists i rq, s_scan e i rq = Raise err /\ (posts <= i)%nat /\ rq_query rq = q /\ rq_rows rq <> [] /\ rq_rows rq ⊆ project_sealed_row <$> payload)
    as (i & rq & Hp & Hi & Hq & Hne & Hsub).
  { unfold scan_rows_partitioned in E. destruct (partition_loop _ _ _ _ _ _ _ _ _ _ _ _ _ _ _ _) as [[]|] eqn:El; [done|].
    injection E as <-. exact (partition_raises _ _ _ _ _ _ _ _ _ _ _ _ _ _ _ _ _ El). }
  assert (forall err', err' = err \/ (0 < i)%nat /\ err = RuntimeError "enclave_history_capability_unavailable" /\
    err' = RuntimeError "enclave_error_after_scan" -> scan_failure err') as Hf.
  { intros err' Herr. exists i, rq, err. split; [done|]. split; [done|]. split; [done|]. split; [|done].
    intros r (x & -> & Hx)%Hsub%list_elem_of_fmap. destruct (Hpay x Hx) as (m & -> & Hm). by exists m. }
  destruct err; try (apply Hf; by left). destruct (_ && _) eqn:Eb; apply Hf; [right|by left].
  apply andb_true_iff in Eb as [Hz%negb_true_iff Hmsg%bool_decide_eq_true]. apply Nat.eqb_neq in Hz. subst. split; [lia|done].
Qed.

Lemma next_batch_limit st n bt : next_batch shape st n = Return (Some bt) -> batch_limit bt = n.
Proof using Type.
  unfold next_batch. destruct (n <=? 0); [done|]. cbv zeta.
  destruct (phase _); [|destruct (List.find _ _) as [[]|]|destruct (highest_uncovered_run _ _ _) as [[]|]|]; try done; by intros [= <-].
Qed.

(** The row a scan stopped at ends a window, and the window's rows are those checked. *)
Lemma last_checked_window lo hi k c :
  let all := window_rows t0 t1 (w_messages w) (lo, hi) in
  last_seq (sent <$> take k all) None = Some c -> window_rows t0 t1 (w_messages w) (c, hi) = take k all /\ lo <= c <= hi.
Proof using Hseqs.
  intros all Hl. unfold last_seq in Hl. rewrite fmap_last in Hl. destruct (last (take k all)) as [m|] eqn:E; [|done].
  cbn in Hl. unfold sent in Hl. rewrite sent_seq in Hl. injection Hl as <-. split; [symmetry; by apply window_prefix|].
  apply last_Some_elem_of in E. assert (m ∈ all) as Hm by (eapply elem_of_sublist; [exact E|apply sublist_take]).
  by apply elem_window in Hm as (_ & Hin & _).
Qed.

Lemma checked_prefix all n j k : (k <= j)%nat -> (j <= length (take n all))%nat ->
  take k (payload_of repr (raw_batch_bytes b) <$> take j (history_full_row <$> take n all)) = sent <$> take k all.
Proof using Type.
  intros Hk Hj. rewrite <- !fmap_take, !take_take. rewrite length_take in Hj.
  replace ((k `min` j) `min` n)%nat with k by lia. by rewrite <- list_fmap_compose.
Qed.

(** What a scan of the first [n] rows of a window reports: it read [k] of the [length payload] sent. *)
Record batch_report (all : list message) (n : nat) (payload : list row) (g : progress) (t : tally) (k : nat) : Prop := mkBatchReport {
  br_sent : (k <= length payload <= length (take n all))%nat;
  br_matches : add_matches lower limit (g_matches g) (t_hits t) = g_matches g ++ matches_of (take k all);
  br_checked : t_checked t = Zlen (take k all);
  br_unread : t_unavailable t = unread_of (take k all);
  br_last : t_last t = last_seq (sent <$> take k all) None;
  br_limit : Zlen (add_matches lower limit (g_matches g) (t_hits t)) <= limit;
}.

Lemma batch_reported all n remaining g t : take n all <> [] -> Zlen (g_matches g) < limit ->
  let payload := payload_rows repr (raw_batch_bytes b) (history_full_row <$> take n all) in
  partitioned (limit - Zlen (g_matches g)) (Z.max 1 remaining) (g_posts g) payload = Return t ->
  exists k, batch_report all n payload g t k.
Proof using ScanService0 Hlimit.
  intros Hne Hm payload Ht. pose proof (Zlen_nonneg (g_matches g)) as H0.
  apply partitioned_spec in Ht as (k & Hk & T1 & T2 & T3 & T4 & T5); [|lia]. exists k.
  assert (exists j, (j <= length (take n all))%nat /\ payload = payload_of repr (raw_batch_bytes b) <$> take j (history_full_row <$> take n all)) as (j & Hj & Ep).
  { unfold payload. destruct (take n all) as [|m0 ms]; [done|]. rewrite fmap_cons.
    destruct (payload_rows_spec repr (raw_batch_bytes b) (history_full_row m0) (history_full_row <$> ms)) as (j & Hj & E). exists j.
    rewrite <- fmap_cons in *. rewrite length_fmap in Hj. by split; [lia|]. }
  assert (length payload = j) as Hlen by (rewrite Ep, length_fmap, length_take_le; [done|by rewrite length_fmap]).
  assert (take k payload = sent <$> take k all) as Esent by (rewrite Ep; apply checked_prefix; lia). rewrite Esent in T1, T3, T4.
  split; [lia| | |exact T3|exact T4|].
  - unfold add_matches, matches_of. rewrite T1. rewrite take_ge; [done|]. rewrite T1 in T5. rewrite length_fmap. unfold Zlen in *. lia.
  - unfold Zlen. rewrite length_take_le; [done|]. rewrite length_take in Hj. lia.
  - unfold add_matches. rewrite Zlen_app. unfold Zlen at 2. rewrite length_take, length_fmap. unfold Zlen in *. lia.
Qed.

(** What is sent of a window: some of its messages. *)
Lemma payload_sent lo hi n m0 ms : hi <= snapshot_through_seq shape -> take n (window_rows t0 t1 (w_messages w) (lo, hi)) = m0 :: ms ->
  forall r, r ∈ payload_rows repr (raw_batch_bytes b) (history_full_row <$> m0 :: ms) ->
  exists m, r = sent m /\ m ∈ w_messages w /\ searched t0 t1 m = true /\ m_seq m <= snapshot_through_seq shape.
Proof using Type.
  intros Hhi Et r. rewrite fmap_cons. destruct (payload_rows_spec repr (raw_batch_bytes b) (history_full_row m0) (history_full_row <$> ms)) as (j & _ & ->).
  rewrite <- fmap_cons, <- fmap_take. intros (x & -> & Hx)%list_elem_of_fmap. apply list_elem_of_fmap in Hx as (m & -> & Hm). exists m. split; [done|].
  assert (m ∈ window_rows t0 t1 (w_messages w) (lo, hi)) as (Hin & Hins & Hse)%elem_window.
  { eapply elem_of_sublist; [|apply (sublist_take _ n)]. rewrite Et. eapply elem_of_sublist; [exact Hm|apply sublist_take]. }
  unfold inside in Hins. cbn in Hins. split; [done|]. split; [done|lia].
Qed.

(** A batch: nothing, or one more window; it only fails if a post does. *)
Lemma search_batch_spec remaining g ws :
  scan shape (g_state g) ws -> scan_complete (g_state g) = false -> Zlen (g_matches g) < limit -> g_scanned g < call_max_rows b ->
  match search_batch repr nfkc casefold lower b64decode_strict decode_replace user w e b shape q t0 t1 limit remaining g with
  | Return (g', more) => exists ws', advanced g ws g' ws' /\ ((more : bool) = true -> length ws' = 1%nat)
  | Raise err => scan_failure err
  end.
Proof using Hseqs ScanService0 Hshape Hrows Hlimit.
  intros Hs Hd Hm Hc. unfold search_batch. set (n := Z.min (raw_batch_rows b) (call_max_rows b - g_scanned g)).
  destruct (scan_continues shape (g_state g) ws n Hshape Hs Hd ltac:(lia)) as (bt & Hb & (Hw1 & Hw2 & _) & Hadv).
  rewrite Hb. cbn [mbind outcome_bind]. rewrite (next_batch_limit _ _ _ Hb), candidates_ok by lia. cbn [mbind outcome_bind].
  set (all := window_rows t0 t1 (w_messages w) (min_seq bt, max_seq bt)).
  pose proof (rows_of_candidates t0 t1 (w_messages w) Hseqs (min_seq bt) (max_seq bt) (Z.to_nat n) ltac:(lia)) as Hfull. fold all in Hfull.
  assert (length (take (Z.to_nat n) all) < Z.to_nat n -> take (Z.to_nat n) all = all)%nat as Hfew by (rewrite length_take; intros; apply take_ge; lia).
  pose proof (fun t => batch_reported all (Z.to_nat n) remaining g t) as Hrep.
  destruct (take (Z.to_nat n) all) as [|m0 ms] eqn:Ecand.
  { destruct (Hadv true None (min_seq bt) eq_refl) as (st & Est). rewrite Est. cbn [mbind outcome_bind]. exists [(min_seq bt, max_seq bt)]. split; [|done].
    eapply (advanced_window g ws _ n bt true None (min_seq bt) []); cbn [g_matches g_scanned g_unavailable g_state]; try done; try lia; rewrite ?app_nil_r;
      [symmetry; apply Hfew; cbn; lia|done|unfold Zlen; cbn; lia|unfold unread_of, unread_count, Zlen; cbn; lia]. }
  rewrite Hfull. cbn [mbind outcome_bind]. cbv zeta. set (payload := payload_rows _ _ _) in *.
  pose proof (after_scan_spec (limit - Zlen (g_matches g)) (Z.max 1 remaining) (g_posts g) payload
    (payload_sent (min_seq bt) (max_seq bt) (Z.to_nat n) m0 ms ltac:(lia) Ecand)) as Hpart.
  destruct (after_scan _ _) as [t|err]; [|done]. cbn [mbind outcome_bind].
  destruct (Hrep t ltac:(done) Hm Hpart) as (k & [B1 B2 B3 B4 B5 B6]). rewrite Ecand in B1.
  destruct (t_last t) as [c|].
  2: { assert (take k all = []) as Enil by (destruct (last (take k all)) eqn:E; [|by apply last_None in E]; unfold last_seq in B5; rewrite fmap_last, E in B5; done).
       rewrite Enil in *. exists []. split; [|done]. split; cbn [g_state g_matches g_scanned g_unavailable];
         [by rewrite app_nil_r|exact B2|by rewrite B3|by rewrite B4|constructor|exact B6]. }
  symmetry in B5. apply last_checked_window in B5 as [Hwin Hc'].
  destruct ((Zlen payload <=? t_checked t) && (Zlen payload =? Zlen (history_full_row <$> m0 :: ms)) && (Zlen (m0 :: ms) <? n)) eqn:Ew.
  - bools. assert (take k all = all) as Eall.
    { unfold Zlen in *. rewrite length_fmap in *. rewrite length_take in B3. apply take_ge. rewrite <- Hfew by lia. lia. }
    destruct (Hadv true None (min_seq bt) eq_refl) as (st & Est). rewrite Est. cbn [mbind outcome_bind]. exists [(min_seq bt, max_seq bt)]. split; [|done].
    eapply (advanced_window g ws _ n bt true None (min_seq bt) (take k all)); cbn [g_matches g_scanned g_unavailable g_state]; done || lia.
  - assert (checked_floor bt false (Some c) = Return c) as Hfl by (cbn; by rewrite (proj2 (Z.leb_le _ _)), (proj2 (Z.leb_le c _)) by lia).
    destruct (Hadv false (Some c) c Hfl) as (st & Est). rewrite Est. cbn [mbind outcome_bind]. exists [(c, max_seq bt)]. split; [|done].
    eapply (advanced_window g ws _ n bt false (Some c) c (take k all)); cbn [g_matches g_scanned g_unavailable g_state]; done || lia.
Qed.

Lemma unfinished st ws : scan shape st ws -> scan_complete st = false -> (length ws < Z.to_nat (snapshot_through_seq shape))%nat.
Proof using Hshape.
  intros Hs Hd. destruct (scan_continues shape st ws 1 Hshape Hs Hd ltac:(lia)) as (bt & Hb & _ & Hadv).
  destruct (Hadv true None (min_seq bt) eq_refl) as (st' & Est).
  pose proof (scan_batch shape st ws 1 bt true None _ st' Hs ltac:(lia) Hb eq_refl Est) as Hs'.
  pose proof (sc_length _ _ _ (scan_scanned _ _ _ Hshape Hs')) as Hl. rewrite length_app in Hl. cbn in Hl. lia.
Qed.

(** The loop ends, and has then checked some more windows; it only fails if a post does. *)
Lemma search_loop_spec fuel : forall turn g ws,
  scan shape (g_state g) ws -> Zlen (g_matches g) <= limit -> (Z.to_nat (snapshot_through_seq shape) <= fuel + length ws)%nat ->
  match search_loop repr nfkc casefold lower b64decode_strict decode_replace user w e b shape q t0 t1 limit fuel turn g with
  | Return g' => exists ws', advanced g ws g' ws'
  | Raise err => scan_failure err
  end.
Proof using Hseqs ScanService0 Hshape Hrows Hlimit.
  induction fuel as [|fuel IH]; intros turn g ws Hs Hl Hf; cbn [search_loop];
    (destruct (_ && negb (scan_complete (g_state g))) eqn:E; [|exists []; by apply advanced_none]);
    apply andb_true_iff in E as [[Hm Hr]%andb_true_iff Hd%negb_true_iff]; apply Z.ltb_lt in Hm, Hr.
  - pose proof (unfinished _ _ Hs Hd). lia.
  - cbv zeta. destruct (_ <=? 0); [exists []; by apply advanced_none|].
    pose proof (search_batch_spec (call_deadline_ms b - s_elapsed e turn) g ws Hs Hd Hm Hr) as Hb.
    destruct (search_batch _ _ _ _ _ _ _ _ _ _ _ _ _ _ _ _ _) as [[g' more]|err]; [|exact Hb]. cbn [mbind outcome_bind].
    destruct Hb as (ws' & Ha & Hlen). destruct more; [|by exists ws'].
    specialize (IH (S turn) g' (ws ++ ws') (ad_scan _ _ _ _ Ha) (ad_limit _ _ _ _ Ha)). destruct (search_loop _ _ _ _ _ _ _ _ _ _ _ _ _ _ _ _ _ _) as [g''|err].
    + destruct IH as (ws'' & Ha''); [rewrite length_app, Hlen by done; lia|]. exists (ws' ++ ws''). by eapply advanced_app.
    + apply IH. rewrite length_app, Hlen by done. lia.
Qed.
End Batches.

(** ** Pages *)

Lemma chat_max_seq_ge w m : m ∈ w_messages w -> m_seq m <= chat_max_seq w.
Proof. intros Hm. apply foldr_max_ge. by apply list_elem_of_fmap_2. Qed.

(** Every message has a sequence number of its own. *)
Record kept (w : world) : Prop := mkKept {
  k_seqs : NoDup (m_seq <$> w_messages w);
  k_positive : Forall (fun m => 1 <= m_seq m) (w_messages w);
}.

(** [w] is [w0] with more messages and, above what was summarised, more summaries. *)
Record grown (w0 w : world) : Prop := mkGrown {
  gr_kept : kept w;
  gr_messages : filter (fun m => m_seq m <= chat_max_seq w0) (w_messages w) = w_messages w0;
  gr_leaves : list_level0_summary_leaves (w_segments w) (Z.min (chat_max_seq w0) (w_watermark w0))
              = list_level0_summary_leaves (w_segments w0) (Z.min (chat_max_seq w0) (w_watermark w0));
}.

Lemma grown_rows t0 t1 w0 w ws : grown w0 w -> Forall (fun r : range => r.2 <= chat_max_seq w0) ws ->
  all_rows t0 t1 (w_messages w) ws = all_rows t0 t1 (w_messages w0) ws.
Proof.
  intros [_ Hm _] HF. unfold all_rows. induction HF as [|r ws Hr _ IH]; [done|]. cbn [flat_map].
  by rewrite IH, <- Hm, window_restrict.
Qed.

Section Pages.
Context (repr : pyval -> pystr) (nfkc casefold lower : pystr -> pystr) (fromisoformat : pystr -> outcome (option pyfloat)).
Context (b64decode_strict : pyval -> option (list N)) (decode_replace : list N -> pystr).
Context (encode : HistoryCursor -> outcome pystr) (decode : pyfloat -> pystr -> outcome HistoryCursor) (user : pystr).
Context (verdict_of : pystr -> Z -> Z -> row -> verdict) (hints_of : hint_request -> hint_response).
Context (budget : HistorySearchBudget).

Abbreviation search := (run_history_search repr nfkc casefold lower fromisoformat b64decode_strict decode_replace encode decode user).
Abbreviation matches r l := (matches_of repr nfkc casefold lower b64decode_strict decode_replace verdict_of user budget (r_query r) l).
Abbreviation unread r l := (unread_of repr nfkc casefold b64decode_strict decode_replace verdict_of user budget (r_query r) l).
Abbreviation rows r w ws := (all_rows (r_start r) (r_end r) (w_messages w) ws).

(** The enclave of a call: it may fail, but what it answers does not depend on the call. *)
Record answers (e : surroundings) : Prop := mkAnswers {
  an_scan : ScanService verdict_of (s_scan e);
  an_hints : forall rq hints, s_hints e rq = Return hints -> hints = hints_of rq;
}.

(** The shape of a search whose hints do not fail. *)
Definition fixed_shape (r : requested) (leaves : list leaf) : outcome ScanShape :=
  search_shape repr nfkc casefold b64decode_strict decode_replace user
    (mkSurroundings FNaN (fun _ => 0) (fun _ _ => Raise (RuntimeError "")) (fun rq => Return (hints_of rq))) budget r leaves.

Lemma fixed_shape_resumed r resume leaves shape shape' :
  fixed_shape r leaves = Return shape ->
  fixed_shape (mkRequested (r_query r) (r_start r) (r_end r) (r_snapshot r) (r_watermark r) resume) leaves = Return shape' -> shape' = shape.
Proof using Type. unfold fixed_shape, search_shape. cbn [r_query r_snapshot r_watermark]. congruence. Qed.

Lemma pick_leaves_clamp n ms leaves : forall i used,
  pick_leaves repr (clamp_to_remaining budget n ms) leaves i used = pick_leaves repr budget leaves i used.
Proof using Type. induction leaves as [|l leaves IH]; intros i used; [done|]. cbn [pick_leaves]. by rewrite !IH. Qed.

Lemma search_shape_fixed e n ms r leaves shape : answers e ->
  search_shape repr nfkc casefold b64decode_strict decode_replace user e (clamp_to_remaining budget n ms) r leaves = Return shape ->
  fixed_shape r leaves = Return shape.
Proof using Type.
  intros [_ Hh]. unfold fixed_shape, search_shape. destruct (bool_decide (r_query r = [])); [done|].
  intros (hints & Hl & Hm)%bind_return. cbn [s_hints].
  enough (leaf_hint_ranges repr nfkc casefold b64decode_strict decode_replace budget user (r_query r) (fun rq => Return (hints_of rq)) leaves = Return hints) as ->
    by done.
  unfold leaf_hint_ranges in *. destruct (_ || _); [done|]. cbv zeta in *. rewrite pick_leaves_clamp in Hl.
  destruct (filter _ _) as [|l sealed]; [done|]. apply bind_return in Hl as (rs & Hrs & Hl).
  apply Hh in Hrs as ->. exact Hl.
Qed.

(** What a search has reported after pages [ps], having checked the windows [ws]. *)
Record reported (w0 : world) (r : requested) (shape : ScanShape) (ps : list page) (st : ScanState) (ws : list range) : Prop := mkReported {
  re_scan : scan shape st ws;
  re_matches : concat (p_matches <$> ps) = matches r (rows r w0 ws);
  re_scanned : sumZ (p_scanned <$> ps) = Zlen (rows r w0 ws);
  re_unread : sumZ (p_unavailable <$> ps) = unread r (rows r w0 ws);
  re_pages : Forall (fun p => Zlen (p_matches p) <= 5) ps;
}.

(** The cursor of a search left in [st]. *)
Record cursor_of (r : requested) (st : ScanState) (c : HistoryCursor) : Prop := mkCursorOf {
  co_valid : make_cursor c = Return c;
  co_request : mkRequested (query c) (start_ts c) (end_ts c) (c_snapshot c) (c_watermark c) (Some (scan_state c))
               = mkRequested (r_query r) (r_start r) (r_end r) (r_snapshot r) (r_watermark r) (Some st);
}.

Definition left_at (r : requested) (st : ScanState) (next : option pystr) : Prop :=
  match next with
  | None => scan_complete st = true
  | Some token => exists c, cursor_of r st c /\ encode c = Return token
  end.

Lemma next_cursor_spec w e b r st next :
  next_cursor encode user w e b r st = Return next -> left_at r st next.
Proof using Type.
  unfold next_cursor. destruct (scan_complete st) eqn:E; [by intros [= <-]|]. intros (c & Hc & H)%bind_return.
  apply bind_return in H as (token & He & H). injection H as <-. exists c.
  assert (forall c0 c1, make_cursor c0 = Return c1 -> c1 = c0) as Hsame.
  { intros c0 c1. unfold make_cursor. destruct (bool_decide (user_id c0 = [])); [done|]. destruct (existsb _ _); [done|].
    destruct (_ <? _); [done|]. destruct (_ && _); [done|]. by intros [= <-]. }
  pose proof (Hsame _ _ Hc) as ->. split; [|done]. split; [done|]. by destruct st.
Qed.

Context (Hbudget : 0 < raw_batch_rows budget <= 1000).

(** A page of a search whose earlier pages checked [ws] checks some more windows. *)
Lemma page_spec w e n ms a p : kept w -> answers e ->
  search w e (clamp_to_remaining budget n ms) a = Return p ->
  exists r leaves shape, read_request nfkc casefold fromisoformat decode user w e a = Return r /\
    list_level0_summary_leaves (w_segments w) (Z.min (r_snapshot r) (r_watermark r)) = Return leaves /\
    fixed_shape r leaves = Return shape /\
    forall ws, scan shape (match r_resume r with Some st => st | None => initial_scan_state shape end) ws ->
    exists st ws', scan shape st (ws ++ ws') /\ p_matches p = matches r (rows r w ws') /\ p_scanned p = Zlen (rows r w ws') /\
      p_unavailable p = unread r (rows r w ws') /\ Forall (fun x : range => x.2 <= r_snapshot r) ws' /\ Zlen (p_matches p) <= 5 /\
      left_at r st (p_next p).
Proof using Hbudget.
  intros [Hk _] He. unfold run_history_search. intros (limit & Hl & H)%bind_return. apply bind_return in H as (r & Hr & H).
  apply bind_return in H as (leaves & Hlv & H). apply bind_return in H as (shape & Hsh & H). cbv zeta in H.
  apply bind_return in H as (g & Hg & H). apply bind_return in H as (next & Hn & H). injection H as <-.
  assert (0 < limit <= 5) as Hlim by (apply bind_return in Hl as (z & _ & Hz); injection Hz as <-; lia).
  pose proof (search_shape_fixed _ _ _ _ _ _ He Hsh) as Hfix. exists r, leaves, shape. split_and!; [done|done|done|]. intros ws Hs.
  unfold search_shape in Hsh. apply bind_return in Hsh as (hints & _ & Hmk).
  pose proof (make_shape_valid _ _ _ _ _ Hmk) as Hv. pose proof (make_shape_seqs _ _ _ _ _ Hmk) as Hsnap. destruct He as [Hsc _].
  set (st0 := match r_resume r with Some st => st | None => initial_scan_state shape end) in *.
  pose proof (search_loop_spec repr nfkc casefold lower b64decode_strict decode_replace verdict_of user (clamp_to_remaining budget n ms) (r_query r)
    (r_start r) (r_end r) w e shape limit Hk Hv Hbudget ltac:(lia) (Z.to_nat (r_snapshot r)) 0 (mkProgress [] 0 0 [] 0 st0) ws Hs ltac:(unfold Zlen; cbn; lia) ltac:(rewrite Hsnap; lia)) as Hloop.
  rewrite Hg in Hloop. destruct Hloop as (ws' & [A1 A2 A3 A4 A5 A6]). exists (g_state g), ws'. rewrite Hsnap in A5.
  cbn [p_matches p_scanned p_unavailable p_next g_matches g_scanned g_unavailable] in *. split_and!; try done; [lia|by eapply next_cursor_spec].
Qed.

(** The pages of one search: a first call, then calls with the cursor of the page before, each in a store
    that has grown, with what is left of the rows and the time of its turn. *)
Inductive search_pages (w0 : world) (a0 : arguments) : list page -> Prop :=
| search_first e n ms p :
    kept w0 -> a_cursor a0 = None -> answers e -> search w0 e (clamp_to_remaining budget n ms) a0 = Return p -> search_pages w0 a0 [p]
| search_next ps p token w e n ms a p' :
    search_pages w0 a0 ps -> last ps = Some p -> p_next p = Some token ->
    a_cursor a = Some token -> grown w0 w -> answers e -> search w e (clamp_to_remaining budget n ms) a = Return p' ->
    search_pages w0 a0 (ps ++ [p']).

Context `{!CursorCodec encode decode}.

(** The cursor resumes its own search. *)
Lemma resumed w e a token r st c r' :
  a_cursor a = Some token -> cursor_of r st c -> encode c = Return token ->
  read_request nfkc casefold fromisoformat decode user w e a = Return r' ->
  r' = mkRequested (r_query r) (r_start r) (r_end r) (r_snapshot r) (r_watermark r) (Some st).
Proof using CursorCodec0.
  intros Ha [Hc Hr] He. unfold read_request. rewrite Ha. destruct token as [|x token]; [by apply codec_text in He|].
  unfold resumed_request. intros (c' & Hd & H)%bind_return. apply (codec_same c) in Hd as ->; [|done|done].
  do 2 (apply bind_return in H as (? & _ & H)). injection H as <-. exact Hr.
Qed.

Lemma first_resume w a r : first_request nfkc casefold fromisoformat w a = Return r ->
  r_snapshot r = chat_max_seq w /\ r_watermark r = w_watermark w /\ r_resume r = None.
Proof using Type.
  unfold first_request. destruct (_ && _); [done|]. intros (q & _ & H)%bind_return. apply bind_return in H as (t & _ & H). by injection H as <-.
Qed.

(** Where a search is after some pages. *)
Lemma pages_reported w0 a0 ps : search_pages w0 a0 ps ->
  kept w0 /\ exists r leaves shape st ws p, first_request nfkc casefold fromisoformat w0 a0 = Return r /\
    list_level0_summary_leaves (w_segments w0) (Z.min (r_snapshot r) (r_watermark r)) = Return leaves /\
    fixed_shape r leaves = Return shape /\ reported w0 r shape ps st ws /\ last ps = Some p /\ left_at r st (p_next p).
Proof using Hbudget CursorCodec0.
  induction 1 as [e n ms p Hk Ha He Hp|ps p token w e n ms a p' _ [Hk IH] Hlast Hnext Ha Hg He Hp]; (split; [done|]).
  - apply page_spec in Hp as (r & leaves & shape & Hr & Hlv & Hsh & Hpg); [|done|done].
    unfold read_request in Hr. rewrite Ha in Hr. destruct (first_resume _ _ _ Hr) as (_ & _ & Hres). rewrite Hres in Hpg.
    destruct (Hpg [] (scan_start shape)) as (st & ws & A1 & A2 & A3 & A4 & _ & A5 & A6). exists r, leaves, shape, st, ws, p. split_and!; try done.
    split; cbn; rewrite ?app_nil_r; [done|done|lia|lia|by repeat constructor].
  - destruct IH as (r & leaves & shape & st & ws & p0 & Hr & Hlv & Hsh & [R1 R2 R3 R4 R5] & Hl & Hat).
    rewrite Hlast in Hl. injection Hl as <-. rewrite Hnext in Hat. destruct Hat as (c & Hc & Henc).
    apply page_spec in Hp as (r' & leaves' & shape' & Hr' & Hlv' & Hsh' & Hpg); [|apply Hg|done].
    pose proof (resumed _ _ _ _ _ _ _ _ Ha Hc Henc Hr') as ->. destruct (first_resume _ _ _ Hr) as (Hsnap & Hwm & _).
    cbn [r_query r_start r_end r_snapshot r_watermark r_resume] in *. rewrite Hsnap, Hwm, (gr_leaves _ _ Hg) in Hlv'.
    rewrite Hsnap, Hwm in Hlv. rewrite Hlv in Hlv'. injection Hlv' as <-.
    pose proof (fixed_shape_resumed _ _ _ _ _ Hsh Hsh') as ->.
    destruct (Hpg ws R1) as (st' & ws' & A1 & A2 & A3 & A4 & A5 & A6 & A7). rewrite Hsnap in A5.
    rewrite (grown_rows _ _ _ _ _ Hg A5) in A2, A3, A4.
    exists r, leaves, shape, st', (ws ++ ws'), p'. rewrite last_snoc, Hsnap, Hwm. split_and!; try done.
    split; rewrite ?fmap_app, ?concat_app, ?sumZ_app, ?all_rows_app, ?Zlen_app, ?matches_of_app, ?unread_of_app; cbn [fmap list_fmap concat sumZ foldr].
    + done.
    + by rewrite app_nil_r, R2, A2.
    + rewrite R3, A3. lia.
    + rewrite R4, A4. lia.
    + apply Forall_app. split; [done|by repeat constructor].
    + destruct (p_next p') as [token'|]; [|exact A7]. destruct A7 as (c' & [V E] & He'). exists c'. by split; [split|].
Qed.

(** The messages a search is about: those the first page could see, in its time range. *)
Definition searched_messages (w : world) (r : requested) : list message :=
  filter (fun m => searched (r_start r) (r_end r) m = true) (w_messages w).


(** ** A page ends *)

(** Ranges as the store and the enclave give them. *)
Definition ordered (x : range) : Prop := 0 < x.1 -> x.1 <= x.2.
Definition leaf_ordered (l : leaf) : Prop := lf_start l <= lf_end l.

Lemma leaf_hit_ordered l (hints : hint_response) : lf_start l <= lf_end l -> Forall ordered hints.1 -> Forall ordered (leaf_hit l hints).1.
Proof using Type.
  intros Hl Hh. unfold leaf_hit. destruct (bool_decide _); [done|]. cbn. apply Forall_app. split; [done|]. repeat constructor. by intros _.
Qed.

Lemma local_hints_ordered q picked : Forall leaf_ordered picked ->
  Forall ordered (local_hints repr nfkc casefold b64decode_strict decode_replace user q picked).1.
Proof using Type.
  intros Hp. unfold local_hints. assert (Forall ordered (([], false) : hint_response).1) as H0 by constructor. revert H0.
  generalize (([], false) : hint_response) as hints. induction Hp as [|l picked Hl _ IH]; intros hints Hh; [done|]. cbn [foldl]. apply IH.
  destruct (classify_envelope_shape _); try done; (destruct (read_plaintext _ _ _ _ _); [|done]; destruct (contains _ _); [by apply leaf_hit_ordered|done]).
Qed.

Lemma pick_leaves_sub b leaves l : forall i used, l ∈ pick_leaves repr b leaves i used -> l ∈ leaves.
Proof using Type.
  induction leaves as [|x leaves IH]; intros i used; cbn [pick_leaves]; [done|]. cbv zeta. destruct (_ || _); [by intros ?%elem_of_nil|].
  destruct (_ <? _); [intros ?%IH; by right|]. rewrite elem_of_cons. intros [->|?%IH]; [by left|by right].
Qed.

Lemma clip_ranges_ok upper l : Forall ordered l -> Forall (fun x : range => (0 <? x.1) = true) l -> returns (clip_ranges upper l).
Proof using Type.
  induction l as [|[s e] l IH]; intros Ho Hp; [by exists []|]. apply Forall_cons in Ho as [Ho Hl], Hp as [Hp Hq]. destruct (IH Hl Hq) as [k Hk].
  cbn [clip_ranges]. apply Z.ltb_lt in Hp. specialize (Ho Hp). cbn in Hp, Ho. rewrite (proj2 (Z.leb_gt s 0)), (proj2 (Z.ltb_ge e s)) by lia. cbn [orb].
  cbv zeta. rewrite Hk. by eexists.
Qed.

(** The hints this call asks for, of the sealed ones of the leaves it may send, failed with [err]. *)
Definition hint_failure (e : surroundings) (b : HistorySearchBudget) (r : requested) (leaves : list leaf) (err : exn) : Prop :=
  r_query r <> [] /\ filter (fun l => is_sealed l = true) (pick_leaves repr b leaves 0 0) <> [] /\
  s_hints e (mkHints (filter (fun l => is_sealed l = true) (pick_leaves repr b leaves 0 0)) (r_query r) (leaf_call_max_leaves b)
    (leaf_call_max_bytes b)) = Raise err.

(** The planner accepts what the hints give. *)
Lemma search_shape_ends e b r leaves :
  (forall rq hints, Forall leaf_ordered (hr_leaves rq) -> s_hints e rq = Return hints -> Forall ordered hints.1) -> Forall leaf_ordered leaves ->
  0 <= r_snapshot r -> 0 <= r_watermark r ->
  match search_shape repr nfkc casefold b64decode_strict decode_replace user e b r leaves with
  | Return _ => True
  | Raise err => hint_failure e b r leaves err
  end.
Proof using Type.
  intros Hh Hl Hs Hw. unfold search_shape.
  assert (forall query hints, (query = false -> hints = []) -> Forall ordered hints -> Forall (fun x : range => (0 <? x.1) = true) hints ->
    returns (make_shape (r_snapshot r) (r_watermark r) query hints)) as Hmk.
  { intros query hints Hq Ho Hp. unfold make_shape. rewrite (proj2 (Z.ltb_ge (r_snapshot r) 0)), (proj2 (Z.ltb_ge (r_watermark r) 0)) by lia. cbn [orb].
    unfold normalize_leaf_hit_ranges. destruct (clip_ranges_ok (Z.min (r_watermark r) (r_snapshot r)) hints Ho Hp) as [k Hk].
    destruct query; [rewrite Hk; by eexists|]. rewrite (Hq eq_refl). by eexists. }
  destruct (bool_decide (r_query r = [])) eqn:Eq; cbn [mbind outcome_bind negb].
  { destruct (Hmk false [] ltac:(done) ltac:(constructor) ltac:(constructor)) as [sh Hsh]. cbn [fst]. by rewrite Hsh. }
  unfold leaf_hint_ranges. destruct (_ || _); cbn [mbind outcome_bind].
  { destruct (Hmk true [] ltac:(done) ltac:(constructor) ltac:(constructor)) as [sh Hsh]. cbn [fst]. by rewrite Hsh. }
  cbv zeta. set (picked := pick_leaves repr b leaves 0 0).
  assert (Forall leaf_ordered picked) as Hpk.
  { rewrite Forall_forall in Hl |- *. intros l Hin. by eapply Hl, pick_leaves_sub. }
  assert (forall rs : hint_response, Forall ordered rs.1 -> returns (make_shape (r_snapshot r) (r_watermark r) true
    (filter (fun x : range => (0 <? x.1) = true) ((local_hints repr nfkc casefold b64decode_strict decode_replace user (r_query r) picked).1 ++ rs.1)))) as Hend.
  { intros rs Hrs. assert (Forall ordered ((local_hints repr nfkc casefold b64decode_strict decode_replace user (r_query r) picked).1 ++ rs.1)) as Ho
      by (apply Forall_app; split; [by apply local_hints_ordered|done]).
    rewrite Forall_forall in Ho. apply Hmk; [done| |]; apply Forall_forall; intros x [Hx Hin]%list_elem_of_filter; [by apply Ho|done]. }
  destruct (filter _ picked) as [|l sealed] eqn:Es.
  - cbn [mbind outcome_bind]. destruct (Hend ([], false) ltac:(constructor)) as [sh Hsh]. cbn [fst snd] in *. by rewrite Hsh.
  - destruct (s_hints e _) as [rs|err] eqn:E; cbn [mbind outcome_bind fst].
    2: { apply bool_decide_eq_false in Eq. unfold hint_failure. fold picked. by rewrite Es. }
    destruct (Hend rs) as [sh Hsh]; [|by rewrite Hsh]. refine (Hh _ _ _ E). cbn [hr_leaves]. rewrite <- Es.
    rewrite Forall_forall in Hpk |- *. intros x [_ Hx]%list_elem_of_filter. by apply Hpk.
Qed.

(** The ways a call fails: its limit or its arguments are refused; the hints it asked for or a scan it posted failed; or its
    cursor, at the place where its scan stopped, cannot be made. *)
Definition call_failure (w : world) (e : surroundings) (b : HistorySearchBudget) (a : arguments) (err : exn) : Prop :=
  read_limit (a_limit a) = Raise err \/ read_request nfkc casefold fromisoformat decode user w e a = Raise err \/
  exists r leaves, read_request nfkc casefold fromisoformat decode user w e a = Return r /\
    list_level0_summary_leaves (w_segments w) (Z.min (r_snapshot r) (r_watermark r)) = Return leaves /\
    (hint_failure e b r leaves err \/
     exists shape, search_shape repr nfkc casefold b64decode_strict decode_replace user e b r leaves = Return shape /\
       (scan_failure repr b (r_query r) (r_start r) (r_end r) w e shape err \/
        exists st ws, scan shape st ws /\ scan_complete st = false /\ next_cursor encode user w e b r st = Raise err)).

Lemma next_cursor_ends w e b r st err : next_cursor encode user w e b r st = Raise err -> scan_complete st = false.
Proof using Type. unfold next_cursor. by destruct (scan_complete st). Qed.

Lemma page_ends w e n ms a r :
  kept w -> answers e -> (forall rq, Forall leaf_ordered (hr_leaves rq) -> Forall ordered (hints_of rq).1) -> Forall leaf_ordered (w_segments w) ->
  read_request nfkc casefold fromisoformat decode user w e a = Return r -> 0 <= r_snapshot r -> 0 <= r_watermark r ->
  (forall leaves shape, list_level0_summary_leaves (w_segments w) (Z.min (r_snapshot r) (r_watermark r)) = Return leaves ->
     fixed_shape r leaves = Return shape ->
     exists ws, scan shape (match r_resume r with Some st => st | None => initial_scan_state shape end) ws) ->
  match search w e (clamp_to_remaining budget n ms) a with Return _ => True | Raise err => call_failure w e (clamp_to_remaining budget n ms) a err end.
Proof using Hbudget.
  intros [Hk _] He Hho Hlv Hr Hsn Hwm Hscan. unfold run_history_search, call_failure.
  destruct (read_limit (a_limit a)) as [limit|] eqn:Hl; cbn [mbind outcome_bind]; [|by left].
  assert (0 < limit <= 5) as Hlim by (apply bind_return in Hl as (z & _ & Hz); injection Hz as <-; lia).
  rewrite Hr. cbn [mbind outcome_bind].
  assert (exists leaves, list_level0_summary_leaves (w_segments w) (Z.min (r_snapshot r) (r_watermark r)) = Return leaves /\ leaves ⊆ w_segments w) as (leaves & Elv & Hsub).
  { unfold list_level0_summary_leaves. rewrite (proj2 (Z.ltb_ge _ 0)) by lia. eexists. split; [done|]. intros l. rewrite sorted_by_Permutation, list_elem_of_filter. tauto. }
  rewrite Elv. cbn [mbind outcome_bind].
  pose proof (search_shape_ends e (clamp_to_remaining budget n ms) r leaves) as Hsh.
  destruct (search_shape _ _ _ _ _ _ _ _ _ _) as [shape|err] eqn:Esh; cbn [mbind outcome_bind].
  2: { right; right. exists r, leaves. split; [done|]. split; [done|]. left. apply Hsh; [intros rq hints Ho Hq; rewrite (an_hints _ He _ _ Hq); by apply Hho|apply Forall_forall; intros l Hin|done|done].
       rewrite Forall_forall in Hlv. by apply Hlv, Hsub. }
  destruct (Hscan leaves shape Elv) as [ws Hws]; [by eapply search_shape_fixed|]. cbv zeta.
  pose proof Esh as Esh'. apply bind_return in Esh as (hints & _ & Hmk). pose proof (make_shape_valid _ _ _ _ _ Hmk) as Hv. pose proof (make_shape_seqs _ _ _ _ _ Hmk) as Hsnap.
  destruct He as [Hsc _]. set (st0 := match r_resume r with Some st => st | None => initial_scan_state shape end) in *.
  pose proof (search_loop_spec repr nfkc casefold lower b64decode_strict decode_replace verdict_of user (clamp_to_remaining budget n ms) (r_query r)
    (r_start r) (r_end r) w e shape limit Hk Hv Hbudget ltac:(lia) (Z.to_nat (r_snapshot r)) 0 (mkProgress [] 0 0 [] 0 st0) ws Hws ltac:(unfold Zlen; cbn; lia) ltac:(rewrite Hsnap; lia)) as Hloop.
  destruct (search_loop _ _ _ _ _ _ _ _ _ _ _ _ _ _ _ _ _ _) as [g|err]; cbn [mbind outcome_bind]; [|right; right; exists r, leaves; split; [done|]; split; [done|]; right; exists shape; split; [done|]; by left].
  destruct (next_cursor _ _ _ _ _ _ _) as [next|err] eqn:En; cbn [mbind outcome_bind]; [done|].
  right; right. exists r, leaves. split; [done|]. split; [done|]. right. exists shape. split; [done|]. right.
  destruct Hloop as (ws' & Hadv). exists (g_state g), (ws ++ ws'). split; [by destruct Hadv|].
  split; [by eapply next_cursor_ends|done].
Qed.

End Pages.

(** ** The enclave answers so *)

Section EnclaveAnswers.
Context (repr : pyval -> pystr) (nfkc casefold : pystr -> pystr) (decrypt_envelope : row -> option pystr).

Definition enclave_hints (rq : hint_request) : hint_response :=
  match v1_history_leaf_hints repr nfkc casefold decrypt_envelope rq with Return hints => hints | Raise _ => ([], false) end.

(** The surroundings of a call to the enclave of the deployment. *)
Definition with_enclave (now : pyfloat) (elapsed : nat -> Z) (late : nat -> nat -> bool) : surroundings :=
  mkSurroundings now elapsed (fun i rq => Return (v1_history_scan repr nfkc casefold decrypt_envelope (late i) rq))
    (v1_history_leaf_hints repr nfkc casefold decrypt_envelope).

Lemma enclave_answers now elapsed late :
  answers (enclave_verdict repr nfkc casefold decrypt_envelope) enclave_hints (with_enclave now elapsed late).
Proof using Type.
  split; [apply enclave_scan_service|]. intros rq hints. unfold enclave_hints. cbn [with_enclave s_hints]. by intros ->.
Qed.

Lemma enclave_hints_ordered rq : Forall leaf_ordered (hr_leaves rq) -> Forall ordered (enclave_hints rq).1.
Proof using Type.
  intros Hl. unfold enclave_hints, v1_history_leaf_hints. cbv zeta. destruct (bool_decide _); [constructor|].
  assert (Forall ordered (([], false) : hint_response).1) as H0 by constructor. revert H0. generalize (([], false) : hint_response) as hints.
  generalize 0 at 1 as n. generalize 0 as used. induction Hl as [|l leaves Hl _ IH]; intros used n hints Hh; cbn [leaf_work]; [done|].
  cbv zeta. destruct (_ || _); [done|]. destruct (negb _); [by apply IH|]. destruct (_ <? _); [by apply IH|].
  destruct (decrypt_envelope _); apply IH; [|done]. destruct (contains _ _); [by apply leaf_hit_ordered|done].
Qed.
End EnclaveAnswers.

(** ** A search *)

#[local] Instance pyfloat_eq_dec : EqDecision pyfloat.
Proof. solve_decision. Defined.
#[local] Instance cursor_eq_dec : EqDecision HistoryCursor.
Proof. solve_decision. Defined.

(** Three messages, the second one sealed; the first page has room for one match. *)
Definition ex_message (seq : Z) (id role : string) (fields : list (string * pyval)) : message :=
  mkMessage seq (u id) (float_of_int seq)
    (<["role" := PStr (u role)]> (<["owner_user_id" := PStr (u "usr_1")]> (list_to_map fields))).
Definition ex_world : world :=
  mkWorld [ex_message 1 "m1" "user" [("body", PStr (u "tea at five"))];
           ex_message 2 "m2" "openclaw" [("body_ct", PStr (u "more tea")); ("K_enclave", PStr (u "k"))];
           ex_message 3 "m3" "user" [("body", PStr (u "good night"))]]
    [mkLeaf 0 "exact" 1 1 0 (<["body" := PStr (u "tea")]> (<["owner_user_id" := PStr (u "usr_1")]> ∅))] 3 1.
(** The same store, after one more message. *)
Definition ex_world' : world :=
  mkWorld (w_messages ex_world ++ [ex_message 4 "m4" "user" [("body", PStr (u "no more tea"))]]) (w_segments ex_world) 3 2.

Definition ex_decrypt (env : row) : option pystr := match get env "body_ct" with PStr s => Some s | _ => None end.
Definition ex_budget : HistorySearchBudget := mkBudget 64 262144 128 524288 512 2500 240 (float_of_int 900).
Definition ex_next : HistoryCursor :=
  mkCursor (u "usr_1") 3 1 3 (u "tea") None None PHASE_LEAF_HITS 3 2 (float_of_int 1000).
Definition ex_encode (c : HistoryCursor) : outcome pystr := if bool_decide (c = ex_next) then Return (u "t") else Raise (InputError "cursor_overflow").
Definition ex_decode (now : pyfloat) (token : pystr) : outcome HistoryCursor :=
  if bool_decide (token = u "t") then Return ex_next else Raise (CursorInvalid "bad_format").

#[local] Instance ex_codec : CursorCodec ex_encode ex_decode.
Proof.
  split.
  - intros c token. unfold ex_encode. case_bool_decide; [|done]. intros [= <-]. discriminate.
  - intros c token now c' _. unfold ex_encode, ex_decode. case_bool_decide as E; [|done]. intros [= <-]. rewrite bool_decide_true by done. by intros [= <-].
Qed.

Abbreviation ex_with := (with_enclave (fun _ => []) id id ex_decrypt (float_of_int 100) (fun _ => 0) (fun _ _ => false)).
Abbreviation ex_search := (run_history_search (fun _ => []) id id id (fun _ => Raise (ValueError "")) (fun _ => None) id ex_encode ex_decode (u "usr_1")).
Abbreviation ex_first := (mkArguments (Some (u "tea")) None None None (Some (PInt 1))).
Definition ex_page (s : string) (id role : string) (ts : Z) (complete : bool) (scanned : Z) (next : option pystr) : page :=
  mkPage [mkMatch (u id) (float_of_int ts) (u role) (u s) false] complete scanned 0 false next.
Definition ex_pages : list page :=
  [ex_page "more tea" "m2" "assistant" 2 false 2 (Some (u "t")); ex_page "tea at five" "m1" "user" 1 true 1 None].
Abbreviation ex_pages_of := (search_pages (fun _ => []) id id id (fun _ => Raise (ValueError "")) (fun _ => None) id ex_encode ex_decode (u "usr_1")
  (enclave_verdict (fun _ => []) id id ex_decrypt) (enclave_hints (fun _ => []) id id ex_decrypt) ex_budget).

Lemma ex_kept : kept ex_world.
Proof. split; decided. Qed.

Lemma ex_search_pages : ex_pages_of ex_world ex_first ex_pages.
Proof.
  eapply (search_next _ _ _ _ _ _ _ _ _ _ _ _ _ _ _ [_] _ (u "t") ex_world' ex_with 512 2500 (mkArguments None None None (Some (u "t")) None));
    [eapply (search_first _ _ _ _ _ _ _ _ _ _ _ _ _ _ _ ex_with 512 2500)|..].
  - apply ex_kept.
  - done.
  - apply enclave_answers.
  - vm_compute. reflexivity.
  - done.
  - reflexivity.
  - done.
  - split; [split; decided|vm_compute; reflexivity|vm_compute; reflexivity].
  - apply enclave_answers.
  - vm_compute. reflexivity.
Qed.


(** The enclave gives its hints and then fails. *)
Definition ex_down : surroundings :=
  mkSurroundings (float_of_int 100) (fun _ => 0) (fun _ _ => Raise (RuntimeError "enclave_http_503")) (s_hints ex_with).

Lemma ex_down_answers : answers (enclave_verdict (fun _ => []) id id ex_decrypt) (enclave_hints (fun _ => []) id id ex_decrypt) ex_down.
Proof. split; [by split|]. apply enclave_answers. Qed.


(** ** Two observations *)

(** An image whose caption is too large is sent without it, and then read as an image without a caption: a search by
    time finds it, and nothing is counted as unavailable. *)
Example large_caption_not_unavailable :
  let r : row := <["content_type" := PStr (u "image")]> (<["caption_body_ct" := PStr (u "0123456789")]> ∅) in
  local_verdict (fun _ => []) id id (fun _ => None) id (payload_of (fun _ => []) 4 r) (u "usr_1") [] 240
    = Hit (mkHit [] 0 (FNum 0) [] (u "[image]") false) /\
  row_is_plaintext (fun _ => []) (payload_of (fun _ => []) 4 r) = true.
Proof. split; vm_compute; reflexivity. Qed.

(** Of a batch with two sealed runs the first is answered and the route is gone for the second: the error says the
    route is missing, although rows were read. *)
Example missing_route_after_scan :
  let sealed_row : row := <["body_ct" := PStr (u "c")]> (<["K_enclave" := PStr (u "k")]> ∅) in
  let plain_row : row := <["body" := PStr (u "p")]> ∅ in
  let post i rq := match i with
                   | O => Return (v1_history_scan (fun _ => []) id id ex_decrypt (fun _ => false) rq)
                   | S _ => Raise (RuntimeError "enclave_history_capability_unavailable")
                   end in
  after_scan 0 (scan_rows_partitioned (fun _ => []) id id (fun _ => None) id post [] (u "tea") 3 2500 128 524288 240 0 [sealed_row; plain_row; sealed_row])
    = Raise (RuntimeError "enclave_history_capability_unavailable").
Proof. vm_compute. reflexivity. Qed.
End Search.
