(* ===== verification/WorkspaceStore.v ===== *)
(** * The virtual workspace ([backend/workspace/backends.py],
    [backend/workspace/service.py], the [v2_workspace_entries] statements of
    [jobs_store.py] and [backend/capabilities/workspace.py])

    Two backends implement one protocol of revision-checked files: a dictionary
    for tests and the encrypted PostgreSQL table. The protocol is the class
    [WorkspaceBackend]; the model-facing service and the capability wrapper are
    written against it. The envelope codec (the enclave's seal and open) is a
    parameter. A statement or transaction is one state update: a creator that
    loses a race sees [None], as if it had run second. *)

From S2P Require Import Prelude PyValue Utf8 WorkspacePath.
Local Open Scope Z_scope.

Module WStore.
Import WPath Utf8.

Definition MAX_CONTENT_BYTES : Z := 1000000.
Definition MAX_WORKING_MEMORY_BYTES : Z := 128000.

Record WorkspaceEntry : Type := mkEntry {
  we_path : pystr;
  we_kind : entry_kind;
  we_revision : Z;
  we_content : pystr;
  we_mime_type : pystr;
  we_source_ref : pystr;
}.

#[global] Instance WorkspaceEntry_eq_dec : EqDecision WorkspaceEntry.
Proof. solve_decision. Defined.

(** [replace(entry, content="")] *)
Definition without_content (e : WorkspaceEntry) : WorkspaceEntry :=
  mkEntry (we_path e) (we_kind e) (we_revision e) [] (we_mime_type e) (we_source_ref e).

Definition validate_content (path : pystr) (content : pyval) : outcome pystr :=
  match content with
  | PStr s =>
      bs ← encode s;
      let maximum := if bool_decide (path = WORKING_MEMORY_PATH) then MAX_WORKING_MEMORY_BYTES
                     else MAX_CONTENT_BYTES in
      if maximum <? Zlen bs then Raise WorkspaceError else Return s
  | _ => Raise WorkspaceError
  end.

(** [type(v) is int and v >= 0] *)
Definition revision_arg (v : pyval) : option Z :=
  match v with PInt z => if z <? 0 then None else Some z | _ => None end.

(** [str(mime_type or "text/plain")[:200]], [str(source_ref or "")[:512]] *)
Definition clip_mime (mime : pystr) : pystr :=
  take 200 (if bool_decide (mime = []) then u "text/plain" else mime).
Definition clip_source (source : pystr) : pystr := take 512 source.

(** An integer equals a Python value: booleans and integral floats included. *)
Definition int_equals (z : Z) (v : pyval) : bool :=
  match v with
  | PInt y => z =? y
  | PBool b => z =? (if b then 1 else 0)
  | PFloat (FNum t) => z * fone =? t
  | _ => false
  end.

(** ** The protocol *)

Class WorkspaceBackend (B : Type) : Type := {
  ws_list : pyval -> bool -> Z -> B -> outcome (list WorkspaceEntry);
  ws_read : pyval -> B -> outcome WorkspaceEntry;
  ws_write : pyval -> pyval -> pyval -> pystr -> B -> outcome (B * WorkspaceEntry);
  ws_delete : pyval -> pyval -> B -> outcome B;
}.

(** ** [InMemoryWorkspaceBackend] *)

Section Memory.
Context (repr : pyval -> pystr).

Abbreviation mem := (gmap pystr WorkspaceEntry).

Definition lstrip_sep (s : pystr) : pystr :=
  (fix go s := match s with c :: t => if (c =? SEP)%N then go t else s | [] => [] end) s.

(** Which names [list] returns. *)
Definition mem_selected (prefix : pystr) (recursive : bool) (path : pystr) : bool :=
  (bool_decide (prefix = [SEP]) || under prefix path)
  && (recursive
      || negb (bool_decide (SEP ∈ if bool_decide (prefix = [SEP]) then drop 1 path
                                   else lstrip_sep (drop (length prefix) path)))).

Definition list_maximum (limit : Z) : nat := Z.to_nat (Z.max 1 (Z.min limit 500)).

Definition mem_list (raw : pyval) (recursive : bool) (limit : Z) (m : mem) : outcome (list WorkspaceEntry) :=
  prefix ← canonical_path repr raw true;
  let paths := sorted_by str_leb id (map_to_list m).*1 in
  Return (without_content <$>
    omap (fun p => m !! p) (take (list_maximum limit) (filter (fun p => mem_selected prefix recursive p = true) paths))).

Definition mem_read (raw : pyval) (m : mem) : outcome WorkspaceEntry :=
  path ← canonical_path repr raw false;
  match m !! path with Some e => Return e | None => Raise WorkspaceNotFound end.

Definition mem_write_internal (path : pystr) (content expected : pyval) (mime : pystr) (kind : entry_kind)
    (source : pystr) (m : mem) : outcome (mem * WorkspaceEntry) :=
  content ← validate_content path content;
  match revision_arg expected with
  | None => Raise WorkspaceConflict
  | Some expected =>
      let actual := match m !! path with Some e => we_revision e | None => 0 end in
      if negb (actual =? expected) then Raise WorkspaceConflict
      else
        let e := mkEntry path kind (actual + 1) content (clip_mime mime) (clip_source source) in
        Return (<[path := e]> m, e)
  end.

Definition mem_write (raw content expected : pyval) (mime : pystr) (m : mem) : outcome (mem * WorkspaceEntry) :=
  path ← model_writable_path repr raw;
  kind ← kind_for_path path;
  mem_write_internal path content expected mime kind [] m.

Definition mem_delete (raw expected : pyval) (m : mem) : outcome mem :=
  path ← model_writable_path repr raw;
  match m !! path with
  | None => Raise WorkspaceNotFound
  | Some e => if int_equals (we_revision e) expected then Return (delete path m) else Raise WorkspaceConflict
  end.

Definition mem_put_read_only (raw content : pyval) (kind : entry_kind) (source mime : pystr) (expected : pyval)
    (m : mem) : outcome (mem * WorkspaceEntry) :=
  path ← canonical_path repr raw false;
  if negb (bool_decide (kind ∈ [artifact; skill])) then Raise WorkspaceInvalidPath
  else
    k ← kind_for_path path;
    if bool_decide (k <> kind) then Raise WorkspaceInvalidPath
    else mem_write_internal path content expected mime kind source m.

Definition memory_backend : WorkspaceBackend mem :=
  {| ws_list := mem_list; ws_read := mem_read; ws_write := mem_write; ws_delete := mem_delete |}.
End Memory.

(** ** [LIKE] with an escape character *)

Inductive like_token : Type := Lit (c : N) | AnyOne | AnyMany.

(** A pattern that ends in the escape character is an error. *)
Fixpoint like_tokens (pattern : pystr) : option (list like_token) :=
  match pattern with
  | [] => Some []
  | c :: rest =>
      if (c =? 92)%N then
        match rest with
        | [] => None
        | d :: rest => cons (Lit d) <$> like_tokens rest
        end
      else cons (if (c =? 37)%N then AnyMany else if (c =? 95)%N then AnyOne else Lit c) <$> like_tokens rest
  end.

Fixpoint like_match (ts : list like_token) (s : pystr) : bool :=
  match ts with
  | [] => match s with [] => true | _ => false end
  | Lit c :: ts => match s with x :: s => (x =? c)%N && like_match ts s | [] => false end
  | AnyOne :: ts => match s with _ :: s => like_match ts s | [] => false end
  | AnyMany :: ts =>
      (fix any s := like_match ts s || match s with [] => false | _ :: s => any s end) s
  end.

Definition like (s pattern : pystr) : outcome bool :=
  match like_tokens pattern with
  | Some ts => Return (like_match ts s)
  | None => Raise (Other "InvalidEscapeSequence")
  end.

Definition replace_char (c : N) (by_ s : pystr) : pystr := s ≫= (fun x => if (x =? c)%N then by_ else [x]).

(** [prefix.replace("\\", "\\\\").replace("%", "\\%").replace("_", "\\_")] *)
Definition like_escape (prefix : pystr) : pystr :=
  replace_char 95 (u "\_") (replace_char 37 (u "\%") (replace_char 92 (u "\\") prefix)).

(** ** The table [v2_workspace_entries] and its statements *)

Record pg_row (Envelope : Type) : Type := mkPgRow {
  pr_kind : entry_kind;
  pr_envelope : Envelope;
  pr_mime_type : pystr;
  pr_source_ref : pystr;
  pr_revision : Z;
}.
Arguments mkPgRow {Envelope} _ _ _ _ _.
Arguments pr_kind {Envelope} _.
Arguments pr_envelope {Envelope} _.
Arguments pr_mime_type {Envelope} _.
Arguments pr_source_ref {Envelope} _.
Arguments pr_revision {Envelope} _.

(** The rows by primary key, and the ids of [chat_messages]. *)
Record pg (Envelope : Type) : Type := mkPg {
  pg_entries : gmap (string * pystr) (pg_row Envelope);
  pg_chat : gset (string * pystr);
}.
Arguments mkPg {Envelope} _ _.
Arguments pg_entries {Envelope} _.
Arguments pg_chat {Envelope} _.

Section Postgres.
Context {Envelope : Type} (repr : pyval -> pystr) (collate : pystr -> pystr -> bool).
Context (seal : pystr -> list N -> outcome Envelope) (open : pystr -> Envelope -> outcome (list N)).

Definition get_workspace_entry (user : string) (path : pystr) (d : pg Envelope) : option (pg_row Envelope) :=
  pg_entries d !! (user, path).

(** The [WHERE] clauses of the four queries, on the path column. *)
Definition sql_selected (prefix : pystr) (recursive : bool) (path : pystr) : outcome bool :=
  if bool_decide (prefix = [SEP]) then
    Return (recursive || negb (bool_decide (SEP ∈ drop 1 path)))
  else
    below ← like path (like_escape prefix ++ u "/%");
    Return (bool_decide (path = prefix)
            || (below && (recursive || negb (bool_decide (SEP ∈ drop (length prefix + 1) path))))).

Definition paths_of (user : string) (d : pg Envelope) : list pystr :=
  (filter (fun k => k.1 = user) (map_to_list (pg_entries d)).*1).*2.

Fixpoint sql_filter (p : pystr -> outcome bool) (l : list pystr) : outcome (list pystr) :=
  match l with
  | [] => Return []
  | x :: t => b ← p x; r ← sql_filter p t; Return (if (b : bool) then x :: r else r)
  end.

Definition list_workspace_entries (user : string) (prefix : pystr) (recursive : bool) (limit : Z) (d : pg Envelope)
    : outcome (list (pystr * pg_row Envelope)) :=
  selected ← sql_filter (sql_selected prefix recursive) (paths_of user d);
  Return (omap (fun p => pair p <$> get_workspace_entry user p d)
            (take (list_maximum limit) (sorted_by collate id selected))).

Definition put_workspace_entry_cas (user : string) (path : pystr) (kind : entry_kind) (envelope : Envelope)
    (mime source : pystr) (expected : pyval) (d : pg Envelope) : outcome (pg Envelope * option (pg_row Envelope)) :=
  match revision_arg expected with
  | None => Raise (ValueError "expected_revision must be a non-negative integer")
  | Some expected =>
      if bool_decide (kind = artifact) && negb (bool_decide ((user, source) ∈ pg_chat d)) then Return (d, None)
      else
        let actual := match get_workspace_entry user path d with Some r => pr_revision r | None => 0 end in
        if negb (actual =? expected) then Return (d, None)
        else
          let r := mkPgRow kind envelope mime source (actual + 1) in
          Return (mkPg (<[(user, path) := r]> (pg_entries d)) (pg_chat d), Some r)
  end.

Definition delete_workspace_entry_cas (user : string) (path : pystr) (expected : pyval) (d : pg Envelope)
    : pg Envelope * bool :=
  match expected with
  | PInt z =>
      if z <=? 0 then (d, false)
      else
        match get_workspace_entry user path d with
        | Some r => if pr_revision r =? z
                    then (mkPg (delete (user, path) (pg_entries d)) (pg_chat d), true)
                    else (d, false)
        | None => (d, false)
        end
  | _ => (d, false)
  end.

(** ** [PostgresWorkspaceBackend] *)

Definition pg_meta (path : pystr) (r : pg_row Envelope) : WorkspaceEntry :=
  mkEntry path (pr_kind r) (pr_revision r) []
    (if bool_decide (pr_mime_type r = []) then u "text/plain" else pr_mime_type r) (pr_source_ref r).

Definition with_content (s : pystr) (e : WorkspaceEntry) : WorkspaceEntry :=
  mkEntry (we_path e) (we_kind e) (we_revision e) s (we_mime_type e) (we_source_ref e).

Definition pg_list (user : string) (raw : pyval) (recursive : bool) (limit : Z) (d : pg Envelope)
    : outcome (list WorkspaceEntry) :=
  prefix ← canonical_path repr raw true;
  rows ← list_workspace_entries user prefix recursive limit d;
  Return (map (fun pr => pg_meta pr.1 pr.2) rows).

Definition pg_read (user : string) (raw : pyval) (d : pg Envelope) : outcome WorkspaceEntry :=
  path ← canonical_path repr raw false;
  match get_workspace_entry user path d with
  | None => Raise WorkspaceNotFound
  | Some r =>
      plaintext ← open path (pr_envelope r);
      match decode plaintext with
      | Return s => Return (with_content s (pg_meta path r))
      | Raise _ => Raise WorkspaceError
      end
  end.

Definition pg_write_internal (user : string) (path : pystr) (content expected : pyval) (mime : pystr)
    (kind : entry_kind) (source : pystr) (d : pg Envelope) : outcome (pg Envelope * WorkspaceEntry) :=
  content ← validate_content path content;
  match revision_arg expected with
  | None => Raise WorkspaceConflict
  | Some _ =>
      bs ← encode content;
      envelope ← seal path bs;
      '(d, r) ← put_workspace_entry_cas user path kind envelope (clip_mime mime) (clip_source source) expected d;
      match r with
      | None => Raise WorkspaceConflict
      | Some r => Return (d, with_content content (pg_meta path r))
      end
  end.

Definition pg_write (user : string) (raw content expected : pyval) (mime : pystr) (d : pg Envelope)
    : outcome (pg Envelope * WorkspaceEntry) :=
  path ← model_writable_path repr raw;
  kind ← kind_for_path path;
  pg_write_internal user path content expected mime kind [] d.

Definition pg_delete (user : string) (raw expected : pyval) (d : pg Envelope) : outcome (pg Envelope) :=
  path ← model_writable_path repr raw;
  let '(d, deleted) := delete_workspace_entry_cas user path expected d in
  if (deleted : bool) then Return d else Raise WorkspaceConflict.

Definition pg_put_read_only (user : string) (raw content : pyval) (kind : entry_kind) (source mime : pystr)
    (expected : pyval) (d : pg Envelope) : outcome (pg Envelope * WorkspaceEntry) :=
  path ← canonical_path repr raw false;
  if negb (bool_decide (kind ∈ [artifact; skill])) then Raise WorkspaceInvalidPath
  else
    k ← kind_for_path path;
    if bool_decide (k <> kind) then Raise WorkspaceInvalidPath
    else pg_write_internal user path content expected mime kind source d.

Definition postgres_backend (user : string) : WorkspaceBackend (pg Envelope) :=
  {| ws_list := pg_list user; ws_read := pg_read user; ws_write := pg_write user; ws_delete := pg_delete user |}.
End Postgres.

(** ** The model-facing service ([service.py]) and the capability wrapper *)

Section Service.
Context {B : Type} `{!WorkspaceBackend B} (repr : pyval -> pystr) (splitlines : pystr -> list pystr)
        (sha256_hex : list N -> pystr).

(** The lines of [_WORKING_MEMORY_TEMPLATE]. *)
Definition WORKING_MEMORY_TEMPLATE : pystr :=
  u "# Working memory" ++ [10; 10]%N
  ++ u "This file is editable task/agent working state, separate from the user's Memory Garden." ++ [10%N]
  ++ u "Keep durable plans, project state, and continuation notes here. Do not copy secrets." ++ [10%N].

Definition ensure_working_memory (b : B) : outcome (B * WorkspaceEntry) :=
  match ws_read (PStr WORKING_MEMORY_PATH) b with
  | Return e => Return (b, e)
  | Raise WorkspaceNotFound =>
      match ws_write (PStr WORKING_MEMORY_PATH) (PStr WORKING_MEMORY_TEMPLATE) (PInt 0) (u "text/markdown") b with
      | Raise WorkspaceConflict => e ← ws_read (PStr WORKING_MEMORY_PATH) b; Return (b, e)
      | r => r
      end
  | Raise x => Raise x
  end.

Record text_view : Type := mkView {
  tv_path : pystr;
  tv_kind : entry_kind;
  tv_revision : Z;
  tv_mime_type : pystr;
  tv_start_line : Z;
  tv_line_count : Z;
  tv_total_lines : Z;
  tv_content : pystr;
}.

(** A read may create the working memory file, so it returns the backend. *)
Definition read_text (raw : pyval) (start_line line_count : Z) (b : B) : outcome (B * text_view) :=
  normalized ← canonical_path repr raw false;
  '(b, e) ← (if bool_decide (normalized = WORKING_MEMORY_PATH) then ensure_working_memory b
             else e ← ws_read (PStr normalized) b; Return (b, e));
  let start := Z.max 1 start_line in
  let count := Z.max 1 (Z.min line_count 500) in
  let lines := splitlines (we_content e) in
  let selected := take (Z.to_nat count) (drop (Z.to_nat (start - 1)) lines) in
  Return (b, mkView (we_path e) (we_kind e) (we_revision e) (we_mime_type e) start (Zlen selected) (Zlen lines)
               (join [10%N] selected)).

Record write_receipt : Type := mkReceipt {
  wr_path : pystr;
  wr_kind : entry_kind;
  wr_revision : Z;
  wr_sha256 : pystr;
}.

Definition write_text (raw content expected : pyval) (b : B) : outcome (B * write_receipt) :=
  '(b, e) ← ws_write raw content expected (u "text/markdown") b;
  bs ← encode (we_content e);
  Return (b, mkReceipt (we_path e) (we_kind e) (we_revision e) (sha256_hex bs)).

Definition delete_entry (raw expected : pyval) (b : B) : outcome B := ws_delete raw expected b.

(** [CapabilityResult] of a mutation: the data a sink reads, or the error. *)
Inductive capability_result : Type :=
| CapOk (revision : option Z)
| CapErr (code message : string) (retryable : bool).

Definition failure (x : exn) : capability_result :=
  match x with
  | WorkspaceNotFound => CapErr "capability_not_found" "workspace entry not found" false
  | WorkspaceReadOnly => CapErr "capability_forbidden" "workspace namespace is read-only" false
  | WorkspaceConflict => CapErr "capability_invalid_input" "workspace revision conflict" false
  | WorkspaceInvalidPath => CapErr "capability_invalid_input" "invalid workspace path" false
  | WorkspaceError => CapErr "capability_invalid_input" "invalid workspace operation" false
  | _ => CapErr "capability_unavailable" "workspace unavailable" true
  end.

(** [params.get("path") or ""] as text. *)
Definition path_param (params : row) : pyval := PStr (get_str repr params "path").

Definition cap_write (params : row) (b : B) : B * capability_result :=
  match write_text (path_param params) (get params "content") (get params "expected_revision") b with
  | Return (b', r) => (b', CapOk (Some (wr_revision r)))
  | Raise x => (b, failure x)
  end.

Definition cap_delete (params : row) (b : B) : B * capability_result :=
  match delete_entry (path_param params) (get params "expected_revision") b with
  | Return b' => (b', CapOk None)
  | Raise x => (b, failure x)
  end.

(** [run_capability] on the two workspace mutations. *)
Definition run_workspace_capability (op : string) (params : row) (b : B) : B * capability_result :=
  if String.eqb op "workspace_write" then cap_write params b
  else if String.eqb op "workspace_delete" then cap_delete params b
  else (b, CapErr "capability_invalid_input" "unknown capability" false).
End Service.
End WStore.
