(* ===== verification/WorkspaceRefine.v ===== *)
(** * The PostgreSQL workspace refines the in-memory one

    The envelope codec is a service that may fail at any call, but opens what it sealed when it
    answers. Every sequence of operations on the encrypted table is then a sequence of the
    in-memory workspace, with some operations refused: those the codec failed for, artifacts of no
    message of the chat, and deletes whose revision is not an integer. *)

From S2P Require Import Prelude PyValue Utf8 WorkspacePath WorkspaceStore.
Local Open Scope Z_scope.

Module WRefine.
Import WPath Utf8 WStore.

(** ** Operations of a client *)

Inductive ws_op : Type :=
| OpList (raw : pyval) (recursive : bool) (limit : Z)
| OpRead (raw : pyval)
| OpWrite (raw content expected : pyval) (mime : pystr)
| OpDelete (raw expected : pyval)
| OpPutReadOnly (raw content : pyval) (kind : entry_kind) (source mime : pystr) (expected : pyval).

Inductive ws_result : Type :=
| ResList (r : outcome (list WorkspaceEntry))
| ResEntry (r : outcome WorkspaceEntry)
| ResDeleted (r : outcome unit).

(** The state after a call: a call that raises changed nothing. *)
Definition after {A B} (b : B) (r : outcome (B * A)) : B * outcome A :=
  match r with Return (b', a) => (b', Return a) | Raise x => (b, Raise x) end.

Definition after_unit {B} (b : B) (r : outcome B) : B * outcome unit :=
  match r with Return b' => (b', Return tt) | Raise x => (b, Raise x) end.

(** The codec as one operation meets it: each call may fail. *)
Record codec (Envelope : Type) : Type := mkCodec {
  seal_now : pystr -> list N -> outcome Envelope;
  open_now : pystr -> Envelope -> outcome (list N);
}.
Arguments mkCodec {Envelope} _ _.
Arguments seal_now {Envelope} _ _ _.
Arguments open_now {Envelope} _ _ _.

Section Run.
Context {Envelope : Type} (repr : pyval -> pystr) (collate : pystr -> pystr -> bool).
(** What an envelope holds for a path. *)
Context (opens : pystr -> Envelope -> option (list N)).

(** What the codec answers is right. *)
Record codec_sound (c : codec Envelope) : Prop := mkCodecSound {
  seal_sound : forall path bs env, seal_now c path bs = Return env -> opens path env = Some bs;
  open_sound : forall path env bs, open_now c path env = Return bs -> opens path env = Some bs;
}.

Definition mem_run (op : ws_op) (m : gmap pystr WorkspaceEntry) : gmap pystr WorkspaceEntry * ws_result :=
  match op with
  | OpList raw recursive limit => (m, ResList (mem_list repr raw recursive limit m))
  | OpRead raw => (m, ResEntry (mem_read repr raw m))
  | OpWrite raw content expected mime =>
      let '(m, r) := after m (mem_write repr raw content expected mime m) in (m, ResEntry r)
  | OpDelete raw expected => let '(m, r) := after_unit m (mem_delete repr raw expected m) in (m, ResDeleted r)
  | OpPutReadOnly raw content kind source mime expected =>
      let '(m, r) := after m (mem_put_read_only repr raw content kind source mime expected m) in (m, ResEntry r)
  end.

Definition pg_run (user : string) (c : codec Envelope) (op : ws_op) (d : pg Envelope) : pg Envelope * ws_result :=
  match op with
  | OpList raw recursive limit => (d, ResList (pg_list repr collate user raw recursive limit d))
  | OpRead raw => (d, ResEntry (pg_read repr (open_now c) user raw d))
  | OpWrite raw content expected mime =>
      let '(d, r) := after d (pg_write repr (seal_now c) user raw content expected mime d) in (d, ResEntry r)
  | OpDelete raw expected => let '(d, r) := after_unit d (pg_delete repr user raw expected d) in (d, ResDeleted r)
  | OpPutReadOnly raw content kind source mime expected =>
      let '(d, r) := after d (pg_put_read_only repr (seal_now c) user raw content kind source mime expected d) in (d, ResEntry r)
  end.

Fixpoint pg_runs (user : string) (ops : list (codec Envelope * ws_op)) (d : pg Envelope) : pg Envelope * list ws_result :=
  match ops with
  | [] => (d, [])
  | (c, op) :: ops => let '(d, r) := pg_run user c op d in let '(d, rs) := pg_runs user ops d in (d, r :: rs)
  end.

(** The same files listed: each backend gives the first [maximum] of them, in its own order. *)
Definition same_listing (m : gmap pystr WorkspaceEntry) (maximum : nat) (l l' : list WorkspaceEntry) : Prop :=
  exists ps, NoDup ps /\ (forall p, p ∈ ps -> is_Some (m !! p)) /\
    l = without_content <$> omap (fun p => m !! p) (take maximum (sorted_by str_leb id ps)) /\
    l' = without_content <$> omap (fun p => m !! p) (take maximum (sorted_by collate id ps)).

(** The in-memory result and the table's: equal, but for the order of a listing and the exception of a delete of a
    missing file, [WorkspaceNotFound] in memory and [WorkspaceConflict] in the table. *)
Definition agree (m : gmap pystr WorkspaceEntry) (op : ws_op) (a b : ws_result) : Prop :=
  match op with
  | OpList _ _ limit => a = b \/ exists l l', a = ResList (Return l) /\ b = ResList (Return l') /\ same_listing m (list_maximum limit) l l'
  | OpDelete _ _ => a = b \/ (a = ResDeleted (Raise WorkspaceNotFound) /\ b = ResDeleted (Raise WorkspaceConflict))
  | _ => a = b
  end.

Definition raised (op : ws_op) (x : exn) : ws_result :=
  match op with
  | OpList _ _ _ => ResList (Raise x)
  | OpDelete _ _ => ResDeleted (Raise x)
  | _ => ResEntry (Raise x)
  end.

(** The codec fails for the content of a path. *)
Definition seal_fails (c : codec Envelope) (path : pystr) (content : pyval) (x : exn) : Prop :=
  exists s bs, validate_content path content = Return s /\ encode s = Return bs /\ seal_now c path bs = Raise x.

(** The operations the table refuses although memory may not. *)
Inductive refusal (user : string) (c : codec Envelope) (d : pg Envelope) : ws_op -> exn -> Prop :=
| rf_open raw path r x : canonical_path repr raw false = Return path -> get_workspace_entry user path d = Some r ->
    open_now c path (pr_envelope r) = Raise x -> refusal user c d (OpRead raw) x
| rf_seal_write raw content expected mime path x : model_writable_path repr raw = Return path -> seal_fails c path content x ->
    refusal user c d (OpWrite raw content expected mime) x
| rf_seal_put raw content kind source mime expected path x : canonical_path repr raw false = Return path ->
    seal_fails c path content x -> refusal user c d (OpPutReadOnly raw content kind source mime expected) x
| rf_no_message raw content source mime expected : (user, clip_source source) ∉ pg_chat d ->
    refusal user c d (OpPutReadOnly raw content artifact source mime expected) WorkspaceConflict
| rf_delete raw expected : (forall z, expected <> PInt z) -> refusal user c d (OpDelete raw expected) WorkspaceConflict.

(** A run of the table explained by the in-memory workspace: each operation agrees with the one in memory, or is refused and
    changes neither. *)
Inductive explained (user : string) : gmap pystr WorkspaceEntry -> pg Envelope -> list (codec Envelope * ws_op) -> list ws_result ->
    gmap pystr WorkspaceEntry -> Prop :=
| ex_nil m d : explained user m d [] [] m
| ex_done m d c op ops r rs m' : agree m op (mem_run op m).2 r -> explained user (mem_run op m).1 (pg_run user c op d).1 ops rs m' ->
    explained user m d ((c, op) :: ops) (r :: rs) m'
| ex_refused m d c op ops x rs m' : refusal user c d op x -> (pg_run user c op d).1 = d -> explained user m d ops rs m' ->
    explained user m d ((c, op) :: ops) (raised op x :: rs) m'.

(** ** The simulation relation *)

Definition same_entry (path : pystr) (e : WorkspaceEntry) (r : pg_row Envelope) : Prop :=
  we_path e = path /\ we_kind e = pr_kind r /\ we_revision e = pr_revision r /\ 1 <= pr_revision r /\
  we_mime_type e = pr_mime_type r /\ pr_mime_type r <> [] /\ we_source_ref e = pr_source_ref r /\
  exists bs, encode (we_content e) = Return bs /\ opens path (pr_envelope r) = Some bs.

Record stores (user : string) (m : gmap pystr WorkspaceEntry) (d : pg Envelope) : Prop := {
  st_same : forall path, match m !! path, get_workspace_entry user path d with
                         | None, None => True
                         | Some e, Some r => same_entry path e r
                         | _, _ => False
                         end;
  st_paths : forall path e, m !! path = Some e -> vfs_path path;
}.
End Run.

(** ** [LIKE] on an escaped prefix is [startswith] *)

Definition escape_char (c : N) : pystr :=
  if (c =? 92)%N then [92; 92]%N else if (c =? 37)%N then [92; 37]%N else if (c =? 95)%N then [92; 95]%N else [c].

Lemma replace_app c b (s t : pystr) : replace_char c b (s ++ t) = replace_char c b s ++ replace_char c b t.
Proof. unfold replace_char. by rewrite bind_app. Qed.

Lemma like_escape_cons c s : like_escape (c :: s) = escape_char c ++ like_escape s.
Proof.
  unfold like_escape. change (c :: s) with ([c] ++ s). rewrite !replace_app. f_equal.
  unfold escape_char, replace_char. cbn [mbind list_bind app].
  destruct (N.eqb_spec c 92) as [->|H1]; [vm_compute; done|]. cbn [mbind list_bind app].
  destruct (N.eqb_spec c 37) as [->|H2]; [vm_compute; done|]. cbn [mbind list_bind app].
  destruct (N.eqb_spec c 95) as [->|H3]; [vm_compute; done|]. done.
Qed.

Lemma like_tokens_escape s rest : like_tokens (like_escape s ++ rest) = app (Lit <$> s) <$> like_tokens rest.
Proof.
  induction s as [|c s IH]; [simpl; by destruct (like_tokens rest)|].
  rewrite like_escape_cons, <- app_assoc. unfold escape_char.
  destruct (N.eqb_spec c 92) as [->|H1]; [cbn; rewrite IH; by destruct (like_tokens rest)|].
  destruct (N.eqb_spec c 37) as [->|H2]; [cbn; rewrite IH; by destruct (like_tokens rest)|].
  destruct (N.eqb_spec c 95) as [->|H3]; [cbn; rewrite IH; by destruct (like_tokens rest)|].
  cbn [app like_tokens]. rewrite (proj2 (N.eqb_neq c 92)), (proj2 (N.eqb_neq c 37)), (proj2 (N.eqb_neq c 95)) by done.
  rewrite IH. by destruct (like_tokens rest).
Qed.

Lemma like_any s : like_match [AnyMany] s = true.
Proof. induction s as [|c s IH]; simpl in *; [done|]. done. Qed.

Lemma like_lits p ts s :
  like_match ((Lit <$> p) ++ ts) s = startswith p s && like_match ts (drop (length p) s).
Proof.
  revert s. induction p as [|c p IH]; intros s; [done|]. rewrite fmap_cons. cbn [app like_match length].
  destruct s as [|x s]; [done|]. rewrite IH. cbn [drop]. unfold startswith at 2. cbn [length take].
  destruct (N.eqb_spec x c) as [->|Hx]; simpl.
  - f_equal. unfold startswith. apply bool_decide_ext. split; congruence.
  - rewrite bool_decide_false; [done|]. congruence.
Qed.

Lemma like_prefix s prefix : like s (like_escape prefix ++ u "/%") = Return (startswith (prefix ++ [SEP]) s).
Proof.
  unfold like. rewrite like_tokens_escape.
  assert (like_tokens (u "/%") = Some [Lit SEP; AnyMany]) as -> by (vm_compute; done).
  cbn [fmap option_fmap option_map]. f_equal.
  change [Lit SEP; AnyMany] with ((Lit <$> [SEP]) ++ [AnyMany]). rewrite app_assoc, <- fmap_app, like_lits.
  by rewrite like_any, andb_true_r.
Qed.

(** The [WHERE] clause selects what the in-memory listing selects. *)
Lemma lstrip_sep_plain s : (forall c t, s = c :: t -> c <> SEP) -> lstrip_sep s = s.
Proof. intros H. destruct s as [|c t]; [done|]. simpl. by rewrite (proj2 (N.eqb_neq c SEP)) by (by eapply H). Qed.

Lemma path_rest root t : vfs_path (root ++ SEP :: t) -> vfs_path root \/ root = [] -> forall c t', t = c :: t' -> c <> SEP.
Proof.
  intros (r & segs & Hp & Hr & Hs & _) Hroot c t' -> ->.
  pose proof (vfs_segments r segs Hr Hs) as Hall.
  assert (split_sep (root ++ SEP :: SEP :: t') = [] :: r :: segs) as Hsp.
  { rewrite Hp. unfold path_of. change (split_sep (SEP :: ?t)) with ([] :: split_sep t). rewrite split_join; [done..|].
    by apply free_of. }
  assert (exists a, split_sep (root ++ SEP :: SEP :: t') = a ++ [] :: split_sep t' /\ a <> []) as (a & Ha & Hane).
  { clear. induction root as [|c root (a & Ha & Hne)]; [exists [[]]; done|]. simpl. rewrite Ha.
    destruct (c =? SEP)%N; [by exists ([] :: a)|]. destruct a as [|p a]; [done|]. by exists ((c :: p) :: a). }
  rewrite Hsp in Ha. destruct a as [|p a]; [done|]. injection Ha as _ Ha.
  assert ([] ∈ r :: segs) as Hin by (rewrite Ha; set_solver).
  rewrite Forall_forall in Hall. by destruct (Hall [] Hin).
Qed.

Lemma sql_selected_mem prefix recursive path :
  (prefix = [SEP] \/ vfs_path prefix) -> vfs_path path ->
  sql_selected prefix recursive path = Return (mem_selected prefix recursive path).
Proof.
  intros Hpre Hpath. unfold sql_selected, mem_selected. destruct (decide (prefix = [SEP])) as [->|Hne].
  { by rewrite !bool_decide_true by done. }
  destruct Hpre as [?|Hpre]; [done|].
  rewrite !(bool_decide_false (prefix = [SEP])) by done. rewrite like_prefix. cbn [mbind outcome_bind orb]. f_equal.
  unfold under. destruct (decide (path = prefix)) as [->|Hpp].
  { rewrite bool_decide_true by done. cbn [orb andb]. rewrite drop_all. simpl. by rewrite orb_true_r. }
  rewrite bool_decide_false by done. cbn [orb]. destruct (startswith (prefix ++ [SEP]) path) eqn:E; [|done].
  cbn [andb]. apply startswith_spec in E as (t & ->). rewrite <- app_assoc in *.
  rewrite drop_app_length. cbn [app] in *. change (lstrip_sep (SEP :: t)) with (lstrip_sep t).
  rewrite lstrip_sep_plain by (eapply path_rest; [done|by left]).
  rewrite drop_app_ge by lia. replace (length prefix + 1 - length prefix)%nat with 1%nat by lia. done.
Qed.

(** ** Listing *)

Section Simulation.
Context {Envelope : Type} (repr : pyval -> pystr) (collate : pystr -> pystr -> bool).
Context (opens : pystr -> Envelope -> option (list N)).

Lemma sql_filter_pure (p : pystr -> outcome bool) q l :
  (forall x, x ∈ l -> p x = Return (q x)) -> sql_filter p l = Return (filter (fun x => q x = true) l).
Proof using Type.
  induction l as [|x l IH]; intros H; [done|]. cbn [sql_filter]. rewrite (H x) by left.
  cbn [mbind outcome_bind]. rewrite IH by (intros y Hy; apply H; by right). cbn [mbind outcome_bind].
  rewrite filter_cons. by destruct (q x).
Qed.

Lemma elem_paths_of user p (d : pg Envelope) : p ∈ paths_of user d <-> is_Some (get_workspace_entry user p d).
Proof using Type.
  unfold paths_of, get_workspace_entry. rewrite list_elem_of_fmap. split.
  - intros ([u' p'] & -> & H). apply list_elem_of_filter in H as [<- H].
    apply list_elem_of_fmap in H as ([k r] & -> & H). apply elem_of_map_to_list in H. eauto.
  - intros [r Hr]. exists (user, p). split; [done|]. apply list_elem_of_filter. split; [done|].
    apply list_elem_of_fmap. exists ((user, p), r). split; [done|]. by apply elem_of_map_to_list.
Qed.

Lemma NoDup_paths_of user (d : pg Envelope) : NoDup (paths_of user d).
Proof using Type.
  unfold paths_of. apply NoDup_fmap_2_strong.
  - intros [u1 p1] [u2 p2] H1 H2 Heq. apply list_elem_of_filter in H1 as [E1 _].
    apply list_elem_of_filter in H2 as [E2 _]. simpl in *. congruence.
  - apply NoDup_filter, NoDup_fst_map_to_list.
Qed.

Lemma paths_perm user m (d : pg Envelope) : stores opens user m d -> paths_of user d ≡ₚ (map_to_list m).*1.
Proof using Type.
  intros Hst. apply NoDup_Permutation; [apply NoDup_paths_of|apply NoDup_fst_map_to_list|].
  intros p. rewrite elem_paths_of. pose proof (st_same _ _ _ _ Hst p) as H. rewrite list_elem_of_fmap. split.
  - intros [r Hr]. rewrite Hr in H. destruct (m !! p) as [e|] eqn:E; [|done].
    exists (p, e). split; [done|]. by apply elem_of_map_to_list.
  - intros ([p' e] & -> & He%elem_of_map_to_list). simpl in *. rewrite He in H.
    destruct (get_workspace_entry user p' d); [by eexists|done].
Qed.

Lemma meta_same p e (r : pg_row Envelope) : same_entry opens p e r -> without_content e = pg_meta p r.
Proof using Type.
  intros (H1 & H2 & H3 & _ & H5 & H6 & H7 & _). unfold without_content, pg_meta.
  rewrite bool_decide_false by done. by rewrite H1, H2, H3, H5, H7.
Qed.

Lemma metas_same user m (d : pg Envelope) ps :
  stores opens user m d ->
  without_content <$> omap (fun p => m !! p) ps
  = map (fun pr => pg_meta pr.1 pr.2) (omap (fun p => pair p <$> get_workspace_entry user p d) ps).
Proof using Type.
  intros Hst. induction ps as [|p ps IH]; [done|]. simpl. pose proof (st_same _ _ _ _ Hst p) as H.
  destruct (m !! p) as [e|] eqn:Em, (get_workspace_entry user p d) as [r|] eqn:Ed; try done.
  rewrite fmap_cons. simpl. f_equal; [by apply meta_same|done].
Qed.

Lemma sorted_filter (P : pystr -> Prop) `{!forall x, Decision (P x)} l k :
  l ≡ₚ k -> sorted_by str_leb id (filter P l) = filter P (sorted_by str_leb id k).
Proof using Type.
  intros Hlk. apply (StronglySorted_unique_strong (fun a b => str_leb a b = true)).
  - intros x y _ _. apply str_leb_antisym.
  - apply (sorted_by_sorted str_leb id); [apply str_leb_total|apply str_leb_trans].
  - eapply StronglySorted_sublist; [|apply (sorted_by_sorted str_leb id); [apply str_leb_total|apply str_leb_trans]]. apply sublist_filter.
  - by rewrite sorted_by_Permutation, Hlk, sorted_by_Permutation.
Qed.

Lemma list_agrees user m (d : pg Envelope) raw recursive limit :
  stores opens user m d ->
  match mem_list repr raw recursive limit m, pg_list repr collate user raw recursive limit d with
  | Return l, Return l' => same_listing collate m (list_maximum limit) l l'
  | Raise x, Raise y => x = y
  | _, _ => False
  end.
Proof using Type.
  intros Hst. unfold mem_list, pg_list. destruct (canonical_path repr raw true) as [prefix|x] eqn:Hc; [|done].
  cbn [mbind outcome_bind]. apply canonical_root in Hc. unfold list_workspace_entries.
  assert (forall p, p ∈ paths_of user d -> is_Some (m !! p)) as Hin.
  { intros p [r Hr]%elem_paths_of. pose proof (st_same _ _ _ _ Hst p) as H. rewrite Hr in H. by destruct (m !! p). }
  rewrite (sql_filter_pure _ (mem_selected prefix recursive)).
  2:{ intros p Hp. apply sql_selected_mem; [done|]. destruct (Hin p Hp) as [e He]. by apply (st_paths _ _ _ _ Hst p e). }
  cbn [mbind outcome_bind]. exists (filter (fun p => mem_selected prefix recursive p = true) (paths_of user d)).
  split; [apply NoDup_filter, NoDup_paths_of|]. split; [intros p [_ Hp]%list_elem_of_filter; by apply Hin|].
  rewrite (sorted_filter _ _ _ (paths_perm user m d Hst)). split; [done|].
  by rewrite (metas_same user m d).
Qed.

(** ** Reads, writes and deletes *)

Lemma read_agrees user m (d : pg Envelope) c raw :
  stores opens user m d -> codec_sound opens c ->
  mem_read repr raw m = pg_read repr (open_now c) user raw d \/
  exists x, pg_read repr (open_now c) user raw d = Raise x /\ refusal repr user c d (OpRead raw) x.
Proof using Type.
  intros Hst Hs. unfold mem_read, pg_read. destruct (canonical_path repr raw false) as [p|x] eqn:Hp; [|by left].
  cbn [mbind outcome_bind]. pose proof (st_same _ _ _ _ Hst p) as H.
  destruct (m !! p) as [e|] eqn:Em, (get_workspace_entry user p d) as [r|] eqn:Ed; try done; [|by left].
  pose proof (meta_same p e r H) as Hm. destruct H as (_ & _ & _ & _ & _ & _ & _ & bs & Hbs & Ho).
  destruct (open_now c p (pr_envelope r)) as [bs'|x] eqn:E; cbn [mbind outcome_bind].
  - left. apply (open_sound _ _ Hs) in E as E'. rewrite Ho in E'. injection E' as <-.
    rewrite (decode_encode _ _ Hbs), <- Hm. by destruct e.
  - right. exists x. split; [done|]. by eapply rf_open.
Qed.

(** Rows of other users are not touched. *)
Definition keeps_others (user : string) (d d' : pg Envelope) : Prop :=
  pg_chat d' = pg_chat d /\
  forall user' path, user' <> user -> get_workspace_entry user' path d' = get_workspace_entry user' path d.

Lemma keeps_refl user d : keeps_others user d d.
Proof using Type. done. Qed.

Lemma keeps_trans user a b c : keeps_others user a b -> keeps_others user b c -> keeps_others user a c.
Proof using Type.
  intros [H1 H2] [H3 H4]. split; [congruence|]. intros u p Hu. by rewrite H4, H2.
Qed.

Lemma clip_mime_ne mime : clip_mime mime <> [].
Proof using Type. unfold clip_mime. case_bool_decide; [vm_compute; done|]. by destruct mime. Qed.

Lemma content_encodes path content s :
  validate_content path content = Return s -> exists bs, encode s = Return bs.
Proof using Type.
  unfold validate_content. destruct content; try done. intros H. apply bind_return in H as (bs & Hbs & H).
  destruct (_ <? _); [done|]. injection H as <-. by exists bs.
Qed.

(** Two results of a write, or one exception. *)
Definition writes_agree (user : string) (d : pg Envelope) (a : outcome (gmap pystr WorkspaceEntry * WorkspaceEntry))
    (b : outcome (pg Envelope * WorkspaceEntry)) : Prop :=
  match a, b with
  | Return (m', e), Return (d', e') => e = e' /\ stores opens user m' d' /\ keeps_others user d d'
  | Raise x, Raise y => x = y
  | _, _ => False
  end.

Lemma write_internal_agrees user m (d : pg Envelope) c path content expected mime kind source :
  stores opens user m d -> codec_sound opens c -> vfs_path path ->
  let b := pg_write_internal (seal_now c) user path content expected mime kind source d in
  writes_agree user d (mem_write_internal path content expected mime kind source m) b \/
  (exists x, b = Raise x /\ seal_fails c path content x) \/
  (b = Raise WorkspaceConflict /\ kind = artifact /\ (user, clip_source source) ∉ pg_chat d).
Proof using Type.
  intros Hst Hs Hp b. unfold b, mem_write_internal, pg_write_internal.
  destruct (validate_content path content) as [s|x] eqn:Hv; [|by left]. cbn [mbind outcome_bind].
  destruct (content_encodes _ _ _ Hv) as [bs Hbs]. rewrite Hbs.
  unfold put_workspace_entry_cas. destruct (revision_arg expected) as [z|] eqn:Hz; [|by left]. cbn [mbind outcome_bind].
  destruct (seal_now c path bs) as [env|x] eqn:Henv; cbn [mbind outcome_bind].
  2: { right; left. exists x. split; [done|]. by exists s, bs. }
  destruct (bool_decide (kind = artifact) && negb (bool_decide ((user, clip_source source) ∈ pg_chat d))) eqn:Ek.
  { right; right. apply andb_true_iff in Ek as [Hk%bool_decide_eq_true Hc%negb_true_iff%bool_decide_eq_false]. done. }
  left. pose proof (st_same _ _ _ _ Hst path) as Hrow.
  set (actual := match m !! path with Some e => we_revision e | None => 0 end).
  assert (match get_workspace_entry user path d with Some r => pr_revision r | None => 0 end = actual /\ 0 <= actual)
    as [-> Hact].
  { unfold actual. destruct (m !! path), (get_workspace_entry user path d); try done.
    destruct Hrow as (_ & _ & -> & ? & _). split; [done|lia]. }
  destruct (negb (actual =? z)); [done|]. cbn [mbind outcome_bind]. unfold writes_agree.
  split; [|split; [split|]].
  - unfold with_content, pg_meta. cbn. rewrite bool_decide_false by apply clip_mime_ne. done.
  - intros q. unfold get_workspace_entry. cbn. destruct (decide (q = path)) as [->|Hq].
    + rewrite !lookup_insert_eq. repeat split; cbn; [lia|apply clip_mime_ne|]. exists bs. split; [done|].
      exact (seal_sound _ _ Hs _ _ _ Henv).
    + rewrite !lookup_insert_ne by congruence. apply (st_same _ _ _ _ Hst q).
  - intros q e. destruct (decide (q = path)) as [->|Hq]; [done|]. rewrite lookup_insert_ne by congruence.
    apply (st_paths _ _ _ _ Hst).
  - split; [done|]. intros u q Hu. unfold get_workspace_entry. cbn. rewrite lookup_insert_ne; [done|congruence].
Qed.

Lemma write_agrees user m (d : pg Envelope) c raw content expected mime :
  stores opens user m d -> codec_sound opens c ->
  let b := pg_write repr (seal_now c) user raw content expected mime d in
  writes_agree user d (mem_write repr raw content expected mime m) b \/
  exists x, b = Raise x /\ refusal repr user c d (OpWrite raw content expected mime) x.
Proof using Type.
  intros Hst Hs b. unfold b, mem_write, pg_write. destruct (model_writable_path repr raw) as [p|x] eqn:Hw; [|by left].
  pose proof Hw as (_ & Hp & Hw')%writable_iff. destruct (writable_kind p Hp Hw') as (k & Hk & Hkk).
  cbn [mbind outcome_bind]. rewrite Hk. cbn [mbind outcome_bind].
  destruct (write_internal_agrees user m d c p content expected mime k [] Hst Hs Hp) as [H|[(x & -> & Hx)|(_ & -> & _)]].
  - by left.
  - right. exists x. split; [done|]. by eapply rf_seal_write.
  - by destruct Hkk.
Qed.

Lemma put_agrees user m (d : pg Envelope) c raw content kind source mime expected :
  stores opens user m d -> codec_sound opens c ->
  let b := pg_put_read_only repr (seal_now c) user raw content kind source mime expected d in
  writes_agree user d (mem_put_read_only repr raw content kind source mime expected m) b \/
  exists x, b = Raise x /\ refusal repr user c d (OpPutReadOnly raw content kind source mime expected) x.
Proof using Type.
  intros Hst Hs b. unfold b, mem_put_read_only, pg_put_read_only.
  destruct (canonical_path repr raw false) as [p|x] eqn:Hc; [|by left]. pose proof Hc as [_ Hp]%canonical_iff.
  cbn [mbind outcome_bind]. destruct (negb _); [by left|]. destruct (kind_for_path p) as [k|x]; [|by left].
  cbn [mbind outcome_bind]. destruct (bool_decide _); [by left|].
  destruct (write_internal_agrees user m d c p content expected mime kind source Hst Hs Hp) as [H|[(x & -> & Hx)|(-> & -> & Hx)]].
  - by left.
  - right. exists x. split; [done|]. by eapply rf_seal_put.
  - right. eexists. split; [done|]. by apply rf_no_message.
Qed.

Lemma delete_agrees user m (d : pg Envelope) raw z :
  stores opens user m d ->
  match mem_delete repr raw (PInt z) m, pg_delete repr user raw (PInt z) d with
  | Return m', Return d' => stores opens user m' d' /\ keeps_others user d d'
  | Raise x, Raise y => x = y \/ (x = WorkspaceNotFound /\ y = WorkspaceConflict)
  | _, _ => False
  end.
Proof using Type.
  intros Hst. unfold mem_delete, pg_delete. destruct (model_writable_path repr raw) as [p|x]; [|by left].
  cbn [mbind outcome_bind]. pose proof (st_same _ _ _ _ Hst p) as Hrow. unfold delete_workspace_entry_cas.
  destruct (m !! p) as [e|] eqn:Em, (get_workspace_entry user p d) as [r|] eqn:Ed; try done.
  2:{ destruct (z <=? 0); by right. }
  destruct Hrow as (_ & _ & Hr & Hpos & _). rewrite Hr. cbn [int_equals].
  destruct (Z.leb_spec z 0) as [Hz|Hz].
  { rewrite (proj2 (Z.eqb_neq (pr_revision r) z)) by lia. by left. }
  destruct (pr_revision r =? z); [|by left]. split; [split|].
  - intros q. unfold get_workspace_entry. cbn. destruct (decide (q = p)) as [->|Hq].
    + by rewrite !lookup_delete_eq.
    + rewrite !lookup_delete_ne by congruence. apply (st_same _ _ _ _ Hst q).
  - intros q e' Hq. apply lookup_delete_Some in Hq as [_ Hq]. by apply (st_paths _ _ _ _ Hst q e').
  - split; [done|]. intros u q Hu. unfold get_workspace_entry. cbn. rewrite lookup_delete_ne; [done|congruence].
Qed.

(** A revision that is no integer deletes nothing. *)
Lemma delete_refused user m (d : pg Envelope) c raw expected : (forall z, expected <> PInt z) ->
  pg_delete repr user raw expected d = (_ ← model_writable_path repr raw; Raise WorkspaceConflict) /\
  refusal repr user c d (OpDelete raw expected) WorkspaceConflict /\
  (forall x, model_writable_path repr raw = Raise x -> mem_delete repr raw expected m = Raise x).
Proof using Type.
  intros Hz. split; [|split; [by constructor|]].
  - unfold pg_delete. destruct (model_writable_path repr raw) as [p|x]; [|done]. cbn [mbind outcome_bind].
    unfold delete_workspace_entry_cas. destruct expected; try done. by destruct (Hz z).
  - intros x Hx. unfold mem_delete. by rewrite Hx.
Qed.

Abbreviation mem_step := (mem_run repr).
Abbreviation pg_step := (pg_run repr collate).

(** What one operation does: as in memory, or refused. *)
Definition op_explained (user : string) (c : codec Envelope) (op : ws_op) (m : gmap pystr WorkspaceEntry) (d : pg Envelope) : Prop :=
  (agree collate m op (mem_step op m).2 (pg_step user c op d).2 /\ stores opens user (mem_step op m).1 (pg_step user c op d).1 /\
   keeps_others user d (pg_step user c op d).1) \/
  exists x, refusal repr user c d op x /\ pg_step user c op d = (d, raised op x).

Lemma after_agree user m d a b :
  writes_agree user d a b -> stores opens user m d ->
  (after m a).2 = (after d b).2 /\ stores opens user (after m a).1 (after d b).1 /\ keeps_others user d (after d b).1.
Proof using Type.
  intros H Hst. destruct a as [[m' e]|x], b as [[d' e']|y]; try done; simpl in H.
  - destruct H as (-> & Hs & Hk). done.
  - subst. by split; [|split].
Qed.

Lemma write_explained user c op m d a b :
  stores opens user m d -> (forall r, agree collate m op (ResEntry r) (ResEntry r)) -> (forall x, raised op x = ResEntry (Raise x)) ->
  mem_step op m = (let '(m, r) := after m a in (m, ResEntry r)) -> pg_step user c op d = (let '(d, r) := after d b in (d, ResEntry r)) ->
  writes_agree user d a b \/ (exists x, b = Raise x /\ refusal repr user c d op x) -> op_explained user c op m d.
Proof using Type.
  intros Hst Hag Hra Em Ed [H|(x & -> & Hx)]; unfold op_explained.
  - left. rewrite Em, Ed. pose proof (after_agree user m d a b H Hst) as (H1 & H2 & H3).
    destruct (after m a) as [m' r], (after d b) as [d' r']. cbn [fst snd] in *. subst r'. done.
  - right. exists x. split; [done|]. by rewrite Ed, Hra.
Qed.

Lemma op_explains user m d c op : stores opens user m d -> codec_sound opens c -> op_explained user c op m d.
Proof using Type.
  intros Hst Hs. destruct op as [raw rec lim|raw|raw ct e mime|raw e|raw ct k src mime e].
  - left. cbn [mem_run pg_run fst snd]. split; [|done]. pose proof (list_agrees user m d raw rec lim Hst) as H.
    destruct (mem_list repr raw rec lim m) as [l|x], (pg_list repr collate user raw rec lim d) as [l'|y]; try done.
    + right. by exists l, l'.
    + left. by subst.
  - destruct (read_agrees user m d c raw Hst Hs) as [E|(x & E & Hx)].
    + left. cbn [mem_run pg_run fst snd]. by rewrite E.
    + right. exists x. split; [done|]. cbn [pg_run raised]. by rewrite E.
  - by eapply write_explained, write_agrees.
  - assert ((exists z, e = PInt z) \/ forall z, e <> PInt z) as [[z ->]|Hz] by (destruct e; eauto; right; intros ?; discriminate).
    2: { destruct (delete_refused user m d c raw e Hz) as (E & Hr & Hm). unfold op_explained. cbn [mem_run pg_run]. rewrite E.
         destruct (model_writable_path repr raw) as [p|x].
         - right. eexists. split; [exact Hr|done].
         - left. rewrite (Hm x eq_refl). cbn. split; [by left|done]. }
    left.
    cbn [mem_run pg_run]. pose proof (delete_agrees user m d raw z Hst) as H.
    destruct (mem_delete repr raw (PInt z) m), (pg_delete repr user raw (PInt z) d); try done; cbn.
    + destruct H. split; [by left|done].
    + split; [|done]. destruct H as [->|[-> ->]]; [by left|by right].
  - by eapply write_explained, put_agrees.
Qed.

(** C26: the encrypted table refines the in-memory workspace. Started from related stores, any sequence of listings, reads,
    revision-checked writes, deletes and read-only ingestions, the codec failing at any call, is one of the in-memory workspace in
    which some operations are refused and change nothing: reads and writes the codec failed for, artifacts
    of no message of the user's chat, deletes whose revision is no integer. All others have the result they have in
    memory (a delete of a missing file is a conflict in the table; a listing gives the same selected files, ordered by the
    database's collation before it is cut to the maximum), the stores stay related, and other users' rows are never touched. *)
Theorem postgres_refines_memory user m (d : pg Envelope) ops :
  stores opens user m d -> Forall (fun co => codec_sound opens co.1) ops ->
  exists m', explained repr collate user m d ops (pg_runs repr collate user ops d).2 m' /\
    stores opens user m' (pg_runs repr collate user ops d).1 /\ keeps_others user d (pg_runs repr collate user ops d).1.
Proof using Type.
  revert m d. induction ops as [|[c op] ops IH]; intros m d Hst Hs; [exists m; split; [constructor|done]|]. cbn [pg_runs].
  apply Forall_cons in Hs as [Hc Hs]. pose proof (op_explains user m d c op Hst Hc) as [(Hr & Hst1 & Hk)|(x & Hx & E)].
  - destruct (IH _ _ Hst1 Hs) as (m' & He & Hst' & Hk').
    destruct (pg_step user c op d) as [d1 r] eqn:Ep. cbn [fst snd] in *.
    destruct (pg_runs repr collate user ops d1) as [d2 rs]. cbn [fst snd] in *. exists m'. split; [|split; [done|by eapply keeps_trans]].
    apply ex_done; [done|by rewrite Ep].
  - destruct (IH _ _ Hst Hs) as (m' & He & Hst' & Hk'). rewrite E.
    destruct (pg_runs repr collate user ops d) as [d2 rs]. cbn [fst snd] in *. exists m'. split; [|done].
    apply ex_refused; [done|by rewrite E|done].
Qed.
End Simulation.

Definition sample_ops : list ws_op :=
  [OpWrite (PStr (u "/workspace/100%/a_b.md")) (PStr (u "first")) (PInt 0) (u "text/markdown");
   OpWrite (PStr (u "/workspace/100%/a_b.md")) (PStr (u "second")) (PInt 1) (u "text/markdown");
   OpList (PStr (u "/workspace/100%")) false 10;
   OpDelete (PStr (u "/workspace/none.md")) (PInt 1);
   OpRead (PStr (u "/workspace/100%/a_b.md"))].

(** Sealing is the identity; in the last step the codec is out of reach. *)
Definition sample_codec : codec (list N) := mkCodec (fun _ bs => Return bs) (fun _ e => Return e).
Definition codec_down : codec (list N) := mkCodec (fun _ _ => Raise (RuntimeError "enclave")) (fun _ _ => Raise (RuntimeError "enclave")).
Definition sample_steps : list (codec (list N) * ws_op) :=
  (pair sample_codec <$> sample_ops) ++ [(codec_down, OpRead (PStr (u "/workspace/100%/a_b.md")))].

Abbreviation sample_run := (pg_runs (fun _ => []) str_leb "u1" sample_steps (mkPg ∅ ∅)).

(** The table lists and reads back what was written, refuses the delete, and fails with the codec. *)
Lemma postgres_refines_memory_witness :
  (exists m', explained (fun _ => []) str_leb "u1" ∅ (mkPg ∅ ∅) sample_steps sample_run.2 m') /\
  drop 4 sample_run.2 =
    [ResEntry (Return (mkEntry (u "/workspace/100%/a_b.md") workspace 2 (u "second") (u "text/markdown") []));
     ResEntry (Raise (RuntimeError "enclave"))].
Proof.
  split; [|vm_compute; reflexivity].
  destruct (postgres_refines_memory (Envelope := list N) (fun _ => []) str_leb (fun _ e => Some e) "u1" ∅ (mkPg ∅ ∅) sample_steps)
    as (m' & He & _).
  - split; [intros path; unfold get_workspace_entry; simpl; rewrite !lookup_empty; exact I|].
    intros path e He. rewrite lookup_empty in He. discriminate.
  - repeat (constructor; [split; cbn; congruence|]). constructor.
  - exists m'. exact He.
Defined.
End WRefine.
