(* ===== verification/WorkspaceBatch.v ===== *)
(** * Workspace mutations as effects ([_sink_workspace] and
    [_sink_workspace_batch] of [serve_worker.py])

    A contiguous run of workspace tool calls is one effect whose children are
    applied in waves of operations with disjoint paths; the children of a wave run
    concurrently on a thread pool, each with its own claim. A child is a program
    of atomic statements on the shared claims and workspace; a schedule says
    which child moves next, so the pool's interleavings are the schedules. *)

From S2P Require Import Prelude PyValue Utf8 WorkspacePath WorkspaceStore EffectSink.
Local Open Scope Z_scope.

Module WBatch.
Import WPath WStore.

(** ** Operations

    One element of the payload's [operations], in the shape
    [_validate_decrypted_tool_effect] requires; a delete has no content. *)
Record operation : Type := mkOp {
  o_op : string;
  o_path : pyval;
  o_content : pyval;
  o_expected : pyval;
  o_sub : pystr;
}.

Definition params_of (o : operation) : row :=
  <["path"%string := o_path o]> (<["content"%string := o_content o]>
    {["expected_revision"%string := o_expected o]}).

Record child_outcome : Type := mkChild { co_effect : pystr; co_revision : option Z }.

Section Sinks.
Context {B : Type} `{!WorkspaceBackend B} (repr : pyval -> pystr) (sha256_hex : list N -> pystr).

Abbreviation state := (Sink.claims * B)%type.

(** The capability call and the errors both sinks raise for it; the value is
    the revision of a write. *)
Definition mutate (op : string) (params : row) (b : B) : B * outcome (option Z) :=
  match run_workspace_capability repr sha256_hex op params b with
  | (b, CapOk revision) => (b, Return revision)
  | (b, CapErr _ message retryable) =>
      (b, Raise (if String.eqb op "workspace_write" && String.eqb message "workspace revision conflict"
                 then EffectTerminalError "workspace_revision_conflict"
                 else Sink.capability_effect_error retryable (String.append op "_failed")))
  end.

(** [_sink_workspace] *)
Definition sink_workspace (eid : pystr) (op : string) (params : row) (s : state) : state * outcome unit :=
  Sink.claimed_sink eid
    (fun b => if bool_decide (op ∈ ["workspace_write"; "workspace_delete"]%string)
              then let '(b, r) := mutate op params b in (b, _ ← r; Return tt)
              else (b, Raise (EffectTerminalError "workspace_operation_invalid"))) tt s.

Definition child_value (o : operation) (revision : option Z) : child_outcome :=
  mkChild (o_sub o)
    match revision with
    | Some z => if String.eqb (o_op o) "workspace_write" && (0 <? z) then Some z else None
    | None => None
    end.

Definition child_write (o : operation) (b : B) : B * outcome child_outcome :=
  let '(b, r) := mutate (o_op o) (params_of o) b in (b, child_value o <$> r).

(** [_apply_workspace_batch_operation] *)
Definition apply_child (o : operation) (s : state) : state * outcome child_outcome :=
  Sink.claimed_sink (o_sub o) (child_write o) (mkChild (o_sub o) None) s.

(** ** Waves *)

Definition paths_conflict (left right : pystr) : bool :=
  bool_decide (left = right) || startswith (right ++ [SEP]) left || startswith (left ++ [SEP]) right.

Definition text_path (o : operation) : pystr := py_str repr (o_path o).

(** Validation of every path before the first wave. *)
Fixpoint prepare (ops : list operation) : outcome (list operation) :=
  match ops with
  | [] => Return []
  | o :: rest =>
      match model_writable_path repr (o_path o) with
      | Raise _ => Raise (EffectTerminalError "workspace_operation_invalid")
      | Return p =>
          rest ← prepare rest;
          Return (mkOp (o_op o) (PStr p) (o_content o) (o_expected o) (o_sub o) :: rest)
      end
  end.

Fixpoint waves_from (current : list operation) (ops : list operation) : list (list operation) :=
  match ops with
  | [] => match current with [] => [] | _ => [current] end
  | o :: rest =>
      if existsb (fun existing => paths_conflict (text_path o) (text_path existing)) current
      then current :: waves_from [o] rest
      else waves_from (current ++ [o]) rest
  end.

(** [_workspace_mutation_waves] *)
Definition mutation_waves (ops : list operation) : outcome (list (list operation)) :=
  pre ← prepare ops; Return (waves_from [] pre).

(** ** Children as interleaved programs *)

Inductive cpc : Type :=
| CReady
| CHolding
| CFailed (x : exn)
| CWrote (v : child_outcome)
| CEnded (r : outcome child_outcome).

Definition child_step (o : operation) (p : cpc) (s : state) : cpc * state :=
  let '(c, b) := s in
  match p with
  | CReady =>
      match Sink.effect_sink_claim (o_sub o) c with
      | Raise x => (CEnded (Raise x), (c, b))
      | Return (c, false) => (CEnded (Return (mkChild (o_sub o) None)), (c, b))
      | Return (c, true) => (CHolding, (c, b))
      end
  | CHolding =>
      match child_write o b with
      | (b, Raise x) => (CFailed x, (c, b))
      | (b, Return v) => (CWrote v, (c, b))
      end
  | CFailed x => (CEnded (Raise x), (Sink.effect_sink_release (o_sub o) c, b))
  | CWrote v =>
      match Sink.effect_sink_complete (o_sub o) c with
      | Return c => (CEnded (Return v), (c, b))
      | Raise x => (CEnded (Raise x), (c, b))
      end
  | CEnded r => (CEnded r, (c, b))
  end.

Definition wave_step (ops : list operation) (i : nat) (cfg : list cpc * state) : list cpc * state :=
  match ops !! i, cfg.1 !! i with
  | Some o, Some p => let '(p, s) := child_step o p cfg.2 in (<[i := p]> cfg.1, s)
  | _, _ => cfg
  end.

Definition run_schedule (ops : list operation) (sched : list nat) (cfg : list cpc * state) : list cpc * state :=
  foldl (fun cfg i => wave_step ops i cfg) cfg sched.

(** [future.result()] of a finished child. *)
Definition result_of (p : cpc) : outcome child_outcome :=
  match p with CEnded r => r | _ => Raise (Other "unfinished") end.

Definition run_wave (sched : list nat) (ops : list operation) (s : state)
    : state * list (outcome child_outcome) :=
  let '(pcs, s) := run_schedule ops sched (replicate (length ops) CReady, s) in (s, result_of <$> pcs).

(** A schedule that lets every child run its three statements. *)
Definition complete_schedule (n : nat) (sched : list nat) : Prop :=
  forall i, (i < n)%nat -> (3 <= length (filter (fun j => j = i) sched))%nat.

(** ** The parent *)

Record item : Type := mkItem { it_effect : pystr; it_error : option string; it_revision : option Z }.

Inductive disposition : Type := Settled (i : item) | Uncertain | Retryable (x : exn).

Definition TERMINAL_ERRORS : list string :=
  ["workspace_write_failed"; "workspace_delete_failed"; "workspace_revision_conflict"]%string.

Definition dispose (o : operation) (r : outcome child_outcome) : disposition :=
  match r with
  | Raise EffectDeliveryUncertainError => Uncertain
  | Raise (EffectTerminalError code) =>
      Settled (mkItem (o_sub o)
        (Some (if bool_decide (code ∈ TERMINAL_ERRORS) then code else String.append (o_op o) "_failed")) None)
  | Raise x => Retryable x
  | Return v =>
      if bool_decide (co_effect v = o_sub o)
         && match co_revision v with Some z => 0 <? z | None => true end
      then Settled (mkItem (o_sub o) None (co_revision v))
      else Retryable (RuntimeError "workspace child returned an invalid outcome")
  end.

Definition is_uncertain (d : disposition) : bool := match d with Uncertain => true | _ => false end.

Definition first_retryable (ds : list disposition) : option exn :=
  head (omap (fun d => match d with Retryable x => Some x | _ => None end) ds).

(** The [outcomes] dictionary after the wave. *)
Definition record_items (ds : list disposition) (acc : gmap pystr item) : gmap pystr item :=
  foldl (fun acc d => match d with Settled i => <[it_effect i := i]> acc | _ => acc end) acc ds.

Fixpoint run_waves (scheds : list (list nat)) (waves : list (list operation)) (acc : gmap pystr item) (s : state)
    : state * outcome (gmap pystr item) :=
  match waves with
  | [] => (s, Return acc)
  | wave :: rest =>
      let '(s, rs) := run_wave (default [] (head scheds)) wave s in
      let ds := zip_with dispose wave rs in
      if existsb is_uncertain ds then (s, Raise EffectDeliveryUncertainError)
      else match first_retryable ds with
           | Some x => (s, Raise x)
           | None => run_waves (tail scheds) rest (record_items ds acc) s
           end
  end.

Fixpoint ordered (ops : list operation) (acc : gmap pystr item) : outcome (list item) :=
  match ops with
  | [] => Return []
  | o :: rest =>
      match acc !! o_sub o with
      | None => Raise (RuntimeError "workspace batch child outcome is missing")
      | Some i => items ← ordered rest acc; Return (i :: items)
      end
  end.

Definition parent_status (items : list item) : string :=
  if existsb (fun i => bool_decide (is_Some (it_error i))) items then "applied_with_results" else "applied".

(** [_sink_workspace_batch]; one schedule per wave. *)
Definition sink_workspace_batch (scheds : list (list nat)) (ops : list operation) (s : state)
    : state * outcome (list item * string) :=
  match mutation_waves ops with
  | Raise x => (s, Raise x)
  | Return waves =>
      let '(s, r) := run_waves scheds waves ∅ s in
      (s, acc ← r; items ← ordered ops acc; Return (items, parent_status items))
  end.

(** ** The reference: children one after the other, in provider order *)

Fixpoint children (ops : list operation) (s : state) : state * list (outcome child_outcome) :=
  match ops with
  | [] => (s, [])
  | o :: rest => let '(s, r) := apply_child o s in let '(s, rs) := children rest s in (s, r :: rs)
  end.

Definition settled (d : disposition) : option item := match d with Settled i => Some i | _ => None end.
End Sinks.

End WBatch.
