(* ===== verification/WorkspaceSerial.v ===== *)
(** * Batches are serial

    What the batch sink promises: operations on one file and on a directory and
    its content stay in provider order, and whatever the thread pool does, the
    workspace, the claims and the results are those of applying the operations
    one after the other. The theorems hold for every backend whose mutations
    touch only the named file, the class [LocalWorkspace]; both backends are
    instances. *)

From S2P Require Import Prelude PyValue Utf8 WorkspacePath WorkspaceStore WorkspaceRefine EffectSink WorkspaceBatch.
Local Open Scope Z_scope.

Module WSerial.
Import WPath WStore WBatch.

(** ** Backends whose mutations are local to a file *)

Class LocalWorkspace (B : Type) `{!WorkspaceBackend B} (repr : pyval -> pystr) (sha256_hex : list N -> pystr)
    : Type := {
  Cell : Type;
  Rest : Type;
  cell : pystr -> B -> Cell;
  rest : B -> Rest;
  cells_ext : forall b b', rest b = rest b' -> (forall p, cell p b = cell p b') -> b = b';
  local_frame : forall op params p b, model_writable_path repr (path_param repr params) = Return p ->
    rest (run_workspace_capability repr sha256_hex op params b).1 = rest b /\
    forall q, q <> p -> cell q (run_workspace_capability repr sha256_hex op params b).1 = cell q b;
  local_same : forall op params p b b', model_writable_path repr (path_param repr params) = Return p ->
    rest b = rest b' -> cell p b = cell p b' ->
    (run_workspace_capability repr sha256_hex op params b).2 = (run_workspace_capability repr sha256_hex op params b').2 /\
    cell p (run_workspace_capability repr sha256_hex op params b).1
    = cell p (run_workspace_capability repr sha256_hex op params b').1;
}.

(** A mutation that replaces one row of a map by a function of that row. *)
Definition updates_row {K A R} `{Countable K} (k : K) (run : gmap K A -> gmap K A * R) : Prop :=
  exists h : option A -> option A * R, forall m, run m = (partial_alter (fun _ => (h (m !! k)).1) k m, (h (m !! k)).2).

Lemma alter_same {K A} `{Countable K} (k : K) c (m : gmap K A) : m !! k = c -> partial_alter (fun _ => c) k m = m.
Proof. intros <-. apply partial_alter_self. Qed.

Lemma updates_same {K A R} `{Countable K} (k : K) (f : option A -> R) : updates_row k (fun m => (m, f (m !! k))).
Proof. exists (fun c => (c, f c)). intros m. simpl. by rewrite alter_same. Qed.

Section Memory.
Context (repr : pyval -> pystr) (sha256_hex : list N -> pystr).

#[local] Instance mem_backend : WorkspaceBackend (gmap pystr WorkspaceEntry) := memory_backend repr.

(** The row a write puts, from the row it finds. *)
Definition cas_entry (path : pystr) (content expected : pyval) (mime : pystr) (kind : entry_kind)
    (c : option WorkspaceEntry) : outcome WorkspaceEntry :=
  content ← validate_content path content;
  match revision_arg expected with
  | None => Raise WorkspaceConflict
  | Some z =>
      let actual := match c with Some e => we_revision e | None => 0 end in
      if negb (actual =? z) then Raise WorkspaceConflict
      else Return (mkEntry path kind (actual + 1) content (clip_mime mime) (clip_source []))
  end.

Lemma mem_write_internal_cas path content expected mime kind m :
  mem_write_internal path content expected mime kind [] m =
  match cas_entry path content expected mime kind (m !! path) with
  | Return e => Return (<[path := e]> m, e)
  | Raise x => Raise x
  end.
Proof using Type.
  unfold mem_write_internal, cas_entry. destruct (validate_content path content); [|done]. cbn [mbind outcome_bind].
  destruct (revision_arg expected); [|done]. cbv zeta. by destruct (negb _).
Qed.

Lemma mem_updates op params p :
  model_writable_path repr (path_param repr params) = Return p ->
  updates_row p (run_workspace_capability repr sha256_hex op params).
Proof using Type.
  intros Hp. unfold run_workspace_capability. destruct (String.eqb op "workspace_write").
  { pose proof Hp as (_ & Hv & Hw)%writable_iff. destruct (writable_kind p Hv Hw) as (k & Hk & _).
    unfold updates_row, cap_write, write_text. cbn [ws_write mem_backend memory_backend].
    exists (fun c => match cas_entry p (get params "content") (get params "expected_revision") (u "text/markdown") k c with
                     | Return e => match Utf8.encode (we_content e) with
                                   | Return _ => (Some e, CapOk (Some (we_revision e)))
                                   | Raise x => (c, failure x) end
                     | Raise x => (c, failure x)
                     end).
    intros m. unfold mem_write. rewrite Hp. cbn [mbind outcome_bind]. rewrite Hk. cbn [mbind outcome_bind].
    rewrite mem_write_internal_cas. destruct (cas_entry _ _ _ _ _ _) as [e|x]; cbn [mbind outcome_bind fst snd].
    - destruct (Utf8.encode (we_content e)); cbn [mbind outcome_bind fst snd wr_revision]; [done|].
      by rewrite alter_same.
    - by rewrite alter_same. }
  destruct (String.eqb op "workspace_delete"); [|apply (updates_same p (fun _ => _))].
  unfold updates_row, cap_delete, delete_entry. cbn [ws_delete mem_backend memory_backend].
  exists (fun c => match c with
                   | None => (None, failure WorkspaceNotFound)
                   | Some e => if int_equals (we_revision e) (get params "expected_revision")
                               then (None, CapOk None) else (Some e, failure WorkspaceConflict)
                   end).
  intros m. unfold mem_delete. rewrite Hp. cbn [mbind outcome_bind].
  destruct (m !! p) as [e|] eqn:E; [|by rewrite alter_same].
  destruct (int_equals _ _); [done|]. by rewrite alter_same.
Qed.

#[global] Instance memory_local : LocalWorkspace (gmap pystr WorkspaceEntry) repr sha256_hex.
Proof using Type.
  refine {| cell := fun p m => m !! p; rest := fun _ => tt |}.
  - intros b b' _ H. by apply map_eq.
  - intros op params p b Hp. destruct (mem_updates op params p Hp) as [h Hh]. rewrite Hh. split; [done|].
    intros q Hq. simpl. by rewrite lookup_partial_alter_ne.
  - intros op params p b b' Hp _ Hc. destruct (mem_updates op params p Hp) as [h Hh]. rewrite !Hh, Hc. simpl.
    by rewrite !lookup_partial_alter_eq.
Defined.
End Memory.

Section Postgres.
Context {Envelope : Type} (repr : pyval -> pystr) (collate : pystr -> pystr -> bool) (sha256_hex : list N -> pystr).
Context (seal : pystr -> list N -> outcome Envelope) (open : pystr -> Envelope -> outcome (list N)).

#[local] Instance pg_backend_of (user : string) : WorkspaceBackend (pg Envelope) :=
  postgres_backend repr collate seal open user.

(** The row a write puts, from the row it finds. *)
Definition cas_row (path : pystr) (content expected : pyval) (mime : pystr) (kind : entry_kind)
    (c : option (pg_row Envelope)) : outcome (pg_row Envelope * pystr) :=
  content ← validate_content path content;
  match revision_arg expected with
  | None => Raise WorkspaceConflict
  | Some z =>
      bs ← Utf8.encode content;
      envelope ← seal path bs;
      let actual := match c with Some r => pr_revision r | None => 0 end in
      if negb (actual =? z) then Raise WorkspaceConflict
      else Return (mkPgRow kind envelope (clip_mime mime) (clip_source []) (actual + 1), content)
  end.

Lemma pg_write_internal_cas user path content expected mime kind d :
  kind <> artifact ->
  pg_write_internal seal user path content expected mime kind [] d =
  match cas_row path content expected mime kind (pg_entries d !! (user, path)) with
  | Return (r, s) => Return (mkPg (<[(user, path) := r]> (pg_entries d)) (pg_chat d), with_content s (pg_meta path r))
  | Raise x => Raise x
  end.
Proof using Type.
  intros Hk. unfold pg_write_internal, cas_row, put_workspace_entry_cas, get_workspace_entry.
  destruct (validate_content path content) as [s|]; [|done]. cbn [mbind outcome_bind].
  destruct (revision_arg expected); [|done]. destruct (Utf8.encode s); [|done]. cbn [mbind outcome_bind].
  destruct (seal _ _); [|done]. cbn [mbind outcome_bind]. rewrite bool_decide_false by done. cbn [andb].
  cbv zeta. by destruct (negb _).
Qed.

(** The row a mutation leaves and its result, from the row it finds. *)
Definition pg_local_run (op : string) (params : row) (p : pystr) (k : entry_kind) (c : option (pg_row Envelope))
    : option (pg_row Envelope) * capability_result :=
  if String.eqb op "workspace_write" then
    match cas_row p (get params "content") (get params "expected_revision") (u "text/markdown") k c with
    | Return (r, s) => match Utf8.encode s with
                       | Return _ => (Some r, CapOk (Some (pr_revision r)))
                       | Raise x => (c, failure x) end
    | Raise x => (c, failure x)
    end
  else if String.eqb op "workspace_delete" then
    match get params "expected_revision", c with
    | PInt z, Some r => if (0 <? z) && (pr_revision r =? z) then (None, CapOk None) else (c, failure WorkspaceConflict)
    | _, _ => (c, failure WorkspaceConflict)
    end
  else (c, CapErr "capability_invalid_input" "unknown capability" false).

Lemma pg_updates user op params p k d :
  model_writable_path repr (path_param repr params) = Return p -> kind_for_path p = Return k -> k <> artifact ->
  let '(c, r) := pg_local_run op params p k (pg_entries d !! (user, p)) in
  run_workspace_capability (WorkspaceBackend0 := pg_backend_of user) repr sha256_hex op params d
  = (mkPg (partial_alter (fun _ => c) (user, p) (pg_entries d)) (pg_chat d), r).
Proof using Type.
  intros Hp Hk Hka. unfold run_workspace_capability, pg_local_run. destruct (String.eqb op "workspace_write").
  { unfold cap_write, write_text. cbn [ws_write pg_backend_of postgres_backend]. unfold pg_write.
    rewrite Hp. cbn [mbind outcome_bind]. rewrite Hk. cbn [mbind outcome_bind]. rewrite pg_write_internal_cas by done.
    destruct (cas_row _ _ _ _ _ _) as [[r s]|x]; cbn [mbind outcome_bind fst snd].
    - cbn [with_content we_content]. destruct (Utf8.encode s); cbn [mbind outcome_bind fst snd wr_revision]; [done|].
      rewrite alter_same by done. by destruct d.
    - rewrite alter_same by done. by destruct d. }
  destruct (String.eqb op "workspace_delete"); [|rewrite alter_same by done; by destruct d].
  unfold cap_delete, delete_entry. cbn [ws_delete pg_backend_of postgres_backend]. unfold pg_delete.
  rewrite Hp. cbn [mbind outcome_bind]. unfold delete_workspace_entry_cas, get_workspace_entry.
  assert (forall x, (d, failure x) = (mkPg (partial_alter (fun _ => pg_entries d !! (user, p)) (user, p) (pg_entries d)) (pg_chat d), failure x)) as Hsame.
  { intros x. rewrite alter_same by done. by destruct d. }
  destruct (get params "expected_revision"); try apply Hsame. rewrite Z.leb_antisym.
  destruct (0 <? z); cbn [negb andb]; destruct (pg_entries d !! (user, p)) as [r|] eqn:E; try apply Hsame.
  destruct (pr_revision r =? z); [done|apply Hsame].
Qed.

(** Everything but the user's own rows. *)
Definition pg_rest (user : string) (d : pg Envelope) : gset (string * pystr) * gmap (string * pystr) (pg_row Envelope) :=
  (pg_chat d, filter (fun kv => kv.1.1 <> user) (pg_entries d)).

Lemma rest_alter (user : string) (p : pystr) (c : option (pg_row Envelope)) (m : gmap (string * pystr) (pg_row Envelope)) :
  filter (fun kv => kv.1.1 <> user) (partial_alter (fun _ => c) (user, p) m) = filter (fun kv => kv.1.1 <> user) m.
Proof using Type.
  apply map_eq. intros [u' q]. apply option_eq. intros r. rewrite !map_lookup_filter_Some. simpl.
  split; intros [H Hne]; (split; [|done]); revert H; rewrite lookup_partial_alter_ne by congruence; done.
Qed.

#[global] Instance postgres_local (user : string) :
  LocalWorkspace (pg Envelope) (WorkspaceBackend0 := pg_backend_of user) repr sha256_hex.
Proof using Type.
  refine {| cell := fun p d => pg_entries d !! (user, p); rest := pg_rest user |}.
  - intros b b' [= Hc Hr] H. destruct b as [m c], b' as [m' c']. simpl in *. subst c'. f_equal.
    apply map_eq. intros [u' p]. destruct (decide (u' = user)) as [->|Hne]; [apply H|].
    apply option_eq. intros r. apply (f_equal (lookup (u', p))) in Hr.
    assert (forall n : gmap (string * pystr) (pg_row Envelope),
      filter (fun kv => kv.1.1 <> user) n !! (u', p) = Some r <-> n !! (u', p) = Some r) as Hf.
    { intros n. rewrite map_lookup_filter_Some. simpl. tauto. }
    by rewrite <- Hf, Hr, Hf.
  - intros op params p b Hp. pose proof Hp as (_ & Hv & Hw)%writable_iff.
    destruct (writable_kind p Hv Hw) as (k & Hk & Hkk).
    pose proof (pg_updates user op params p k b Hp Hk ltac:(by destruct Hkk as [->| ->])) as H.
    destruct (pg_local_run _ _ _ _ _) as [c r]. rewrite H. split.
    + unfold pg_rest. simpl. by rewrite rest_alter.
    + intros q Hq. simpl. by rewrite lookup_partial_alter_ne by congruence.
  - intros op params p b b' Hp _ Hc. pose proof Hp as (_ & Hv & Hw)%writable_iff.
    destruct (writable_kind p Hv Hw) as (k & Hk & Hkk).
    pose proof (pg_updates user op params p k b Hp Hk ltac:(by destruct Hkk as [->| ->])) as H.
    pose proof (pg_updates user op params p k b' Hp Hk ltac:(by destruct Hkk as [->| ->])) as H'.
    rewrite <- Hc in H'. destruct (pg_local_run _ _ _ _ _) as [c r]. rewrite H, H'. simpl.
    by rewrite !lookup_partial_alter_eq.
Defined.
End Postgres.

(** ** Statements of a child touch its claim and its file only *)

Section Children.
Context {B : Type} `{!WorkspaceBackend B} (repr : pyval -> pystr) (sha256_hex : list N -> pystr).
Context `{!LocalWorkspace B repr sha256_hex}.

Abbreviation state := (Sink.claims * B)%type.
Abbreviation step_of := (child_step repr sha256_hex).

(** An operation whose path was validated. *)
Definition ready (o : operation) : Prop :=
  o_path o = PStr (text_path repr o) /\ model_writable_path repr (PStr (text_path repr o)) = Return (text_path repr o).

Lemma ready_path o : ready o -> model_writable_path repr (path_param repr (params_of o)) = Return (text_path repr o).
Proof using Type.
  intros [Hp Hw]. unfold path_param, get_str, get, params_of. rewrite lookup_insert_eq.
  change (default PNone (Some (o_path o))) with (o_path o).
  rewrite Hp. assert (py_or (PStr (text_path repr o)) (PStr []) = PStr (text_path repr o)) as ->; [|done].
  unfold py_or. simpl. destruct (text_path repr o); [done|by rewrite bool_decide_false].
Qed.

(** Two states a child cannot tell apart. *)
Definition alike (o : operation) (s s' : state) : Prop :=
  rest s.2 = rest s'.2 /\ s.1 !! o_sub o = s'.1 !! o_sub o /\ cell (text_path repr o) s.2 = cell (text_path repr o) s'.2.

(** A state changed only at the claim and the file of a child. *)
Definition only_at (o : operation) (s s' : state) : Prop :=
  rest s'.2 = rest s.2 /\ (forall eid, eid <> o_sub o -> s'.1 !! eid = s.1 !! eid) /\
  (forall p, p <> text_path repr o -> cell p s'.2 = cell p s.2).

Lemma write_frame o b : ready o ->
  rest (child_write repr sha256_hex o b).1 = rest b /\
  forall p, p <> text_path repr o -> cell p (child_write repr sha256_hex o b).1 = cell p b.
Proof using Type.
  intros Ho. pose proof (local_frame (o_op o) (params_of o) _ b (ready_path o Ho)) as H.
  unfold child_write, mutate. by destruct (run_workspace_capability repr sha256_hex (o_op o) (params_of o) b) as [b' []].
Qed.

Lemma write_same o b b' : ready o -> rest b = rest b' -> cell (text_path repr o) b = cell (text_path repr o) b' ->
  (child_write repr sha256_hex o b).2 = (child_write repr sha256_hex o b').2 /\
  cell (text_path repr o) (child_write repr sha256_hex o b).1 = cell (text_path repr o) (child_write repr sha256_hex o b').1.
Proof using Type.
  intros Ho Hr Hc. pose proof (local_same (o_op o) (params_of o) _ b b' (ready_path o Ho) Hr Hc) as H.
  unfold child_write, mutate. destruct (run_workspace_capability repr sha256_hex (o_op o) (params_of o) b) as [b1 []],
    (run_workspace_capability repr sha256_hex (o_op o) (params_of o) b') as [b2 []]; simpl in *; destruct H as [H1 H2];
    try done; injection H1; intros; subst; done.
Qed.

Lemma step_frame o p s : ready o -> only_at o s (step_of o p s).2.
Proof using Type.
  intros Ho. destruct s as [c b]. unfold child_step. destruct p as [| |x|v|r].
  - destruct (Sink.effect_sink_claim (o_sub o) c) as [[c' []]|x] eqn:E; split; simpl; try done; (split; [|done]);
      intros eid Hne; by apply (Sink.claim_frame _ _ _ _ eid E).
  - pose proof (write_frame o b Ho) as [H1 H2]. destruct (child_write _ _ o b) as [b' []]; by split.
  - split; [done|]. split; [|done]. intros eid Hne. simpl. unfold Sink.effect_sink_release.
    destruct (c !! o_sub o) as [[]|]; [by rewrite lookup_delete_ne|done|done].
  - destruct (Sink.effect_sink_complete (o_sub o) c) as [c'|x] eqn:E; split; simpl; try done; (split; [|done]);
      intros eid Hne; by apply (Sink.complete_frame _ _ _ eid E).
  - done.
Qed.

Lemma step_same o p s s' :
  ready o -> alike o s s' ->
  (step_of o p s).1 = (step_of o p s').1 /\ alike o (step_of o p s).2 (step_of o p s').2.
Proof using Type.
  intros Ho. destruct s as [c b], s' as [c' b']. intros (Hr & Hc & Hb). simpl in Hr, Hc, Hb.
  unfold child_step. destruct p as [| |x|v|r].
  - unfold Sink.effect_sink_claim. rewrite <- Hc. destruct (c !! o_sub o) as [[]|] eqn:E; (split; [done|]);
      split; simpl; try done; (split; [|done]); rewrite ?lookup_insert_eq, ?E, <- ?Hc; done.
  - destruct (write_same o b b' Ho Hr Hb) as [H1 H2]. pose proof (write_frame o b Ho) as [F1 _].
    pose proof (write_frame o b' Ho) as [F2 _].
    destruct (child_write _ _ o b) as [b1 r1], (child_write _ _ o b') as [b2 r2]. simpl in *. subst r2.
    destruct r1; (split; [done|]); (split; [simpl; congruence|by split]).
  - split; [done|]. split; [done|]. split; [|done]. simpl. unfold Sink.effect_sink_release. rewrite <- Hc.
    destruct (c !! o_sub o) as [[]|] eqn:E; [by rewrite !lookup_delete_eq|congruence|congruence].
  - unfold Sink.effect_sink_complete. rewrite <- Hc. destruct (c !! o_sub o) as [[]|] eqn:E; (split; [done|]);
      split; simpl; try done; (split; [|done]); rewrite ?lookup_insert_eq, ?E, <- ?Hc; done.
  - by split.
Qed.

(** ** Schedules of a wave *)

Abbreviation config := (list cpc * state)%type.
Abbreviation wstep := (wave_step repr sha256_hex).
Abbreviation wrun := (run_schedule repr sha256_hex).

(** Three statements run a child to its end, and are [apply_child]. *)
Lemma three_steps ops i o pcs s :
  ops !! i = Some o -> pcs !! i = Some CReady ->
  wrun ops [i; i; i] (pcs, s)
  = let '(s', r) := apply_child repr sha256_hex o s in (<[i := CEnded r]> pcs, s').
Proof using Type.
  intros Ho Hi. assert (forall p, <[i := p]> pcs !! i = Some p) as Hl
    by (intros p; apply list_lookup_insert_eq; by eapply lookup_lt_Some).
  assert (forall p s, wstep ops i (<[i := p]> pcs, s) = let '(p', s') := step_of o p s in (<[i := p']> pcs, s')) as Hs.
  { intros p s'. unfold wave_step. rewrite Ho. simpl. rewrite Hl. destruct (step_of o p s') as [p' s'']. simpl.
    by rewrite list_insert_insert_eq. }
  unfold run_schedule. simpl. unfold wave_step at 3. rewrite Ho. simpl. rewrite Hi.
  unfold apply_child, Sink.claimed_sink. destruct s as [c b]. cbn [child_step].
  destruct (Sink.effect_sink_claim (o_sub o) c) as [[c1 []]|x]; [|by do 2 (rewrite Hs; cbn [child_step])|by do 2 (rewrite Hs; cbn [child_step])].
  rewrite Hs. cbn [child_step]. destruct (child_write repr sha256_hex o b) as [b1 [v|x]].
  - rewrite Hs. cbn [child_step]. by destruct (Sink.effect_sink_complete (o_sub o) c1).
  - by rewrite Hs.
Qed.

Lemma ended_stays ops i pcs s r : pcs !! i = Some (CEnded r) -> wstep ops i (pcs, s) = (pcs, s).
Proof using Type.
  intros Hi. unfold wave_step. destruct (ops !! i) as [o|]; [|done]. simpl. rewrite Hi. destruct s. simpl.
  by rewrite list_insert_id.
Qed.

Lemma more_steps ops i o n pcs s :
  ops !! i = Some o -> pcs !! i = Some CReady -> (3 <= n)%nat ->
  wrun ops (replicate n i) (pcs, s) = wrun ops [i; i; i] (pcs, s).
Proof using Type.
  intros Ho Hi Hn. replace n with (3 + (n - 3))%nat by lia. rewrite replicate_add.
  unfold run_schedule at 1. rewrite foldl_app.
  change (foldl _ (pcs, s) (replicate 3 i)) with (wrun ops [i; i; i] (pcs, s)).
  rewrite !(three_steps ops i o pcs s Ho Hi). destruct (apply_child repr sha256_hex o s) as [s' r].
  induction (n - 3)%nat as [|k IH]; [done|]. cbn [replicate foldl]. rewrite (ended_stays ops i _ s' r); [exact IH|].
  apply list_lookup_insert_eq. by eapply lookup_lt_Some.
Qed.

Lemma filter_replicate i (sched : list nat) :
  filter (fun j => j = i) sched = replicate (length (filter (fun j => j = i) sched)) i.
Proof using Type.
  induction sched as [|j l IH]; [done|]. rewrite filter_cons. destruct (decide (j = i)) as [->|]; [|done].
  simpl. by rewrite IH at 1.
Qed.

Section Wave.
Context (ops : list operation) (Hready : Forall ready ops).
Context (Hsubs : NoDup (o_sub <$> ops)) (Hpaths : NoDup (text_path repr <$> ops)).

Definition same_for (i : nat) (o : operation) (a b : config) : Prop := a.1 !! i = b.1 !! i /\ alike o a.2 b.2.

Lemma ready_at i o : ops !! i = Some o -> ready o.
Proof using Hready. intros H. by apply (Forall_lookup_1 _ _ _ _ Hready H). Qed.

Lemma distinct i j o o' : ops !! i = Some o -> ops !! j = Some o' -> i <> j ->
  o_sub o <> o_sub o' /\ text_path repr o <> text_path repr o'.
Proof using Hsubs Hpaths.
  intros Hi Hj Hij. split; intros E; apply Hij.
  - apply (NoDup_lookup _ i j (o_sub o) Hsubs); rewrite list_lookup_fmap, ?Hi, ?Hj; simpl; congruence.
  - apply (NoDup_lookup _ i j (text_path repr o) Hpaths); rewrite list_lookup_fmap, ?Hi, ?Hj; simpl; congruence.
Qed.

Lemma step_self i o a b : ops !! i = Some o -> same_for i o a b -> same_for i o (wstep ops i a) (wstep ops i b).
Proof using Hready.
  intros Ho [Hp Ha]. unfold wave_step. rewrite Ho, <- Hp. destruct (a.1 !! i) as [p|] eqn:Ep; [|split; congruence].
  destruct (step_same o p a.2 b.2 (ready_at i o Ho) Ha) as [H1 H2].
  destruct (step_of o p a.2) as [p1 s1], (step_of o p b.2) as [p2 s2]. simpl in *. subst p2. split; [|done].
  simpl. rewrite !list_lookup_insert_eq; [done|by eapply lookup_lt_Some|by eapply lookup_lt_Some].
Qed.

Lemma step_other i j o a : ops !! i = Some o -> i <> j -> same_for i o (wstep ops j a) a.
Proof using Hready Hsubs Hpaths.
  intros Ho Hij. unfold wave_step. destruct (ops !! j) as [o'|] eqn:Ho'; [|done].
  destruct (a.1 !! j) as [p|] eqn:Ep; [|done]. pose proof (step_frame o' p a.2 (ready_at j o' Ho')) as (F1 & F2 & F3).
  destruct (distinct i j o o' Ho Ho' Hij) as [D1 D2]. destruct (step_of o' p a.2) as [p' s']. simpl in *.
  split; [simpl; by rewrite list_lookup_insert_ne|]. split; [done|]. split; [by apply F2|by apply F3].
Qed.

Lemma alike_trans o s1 s2 s3 : alike o s1 s2 -> alike o s2 s3 -> alike o s1 s3.
Proof using Type. intros (?&?&?) (?&?&?). repeat split; congruence. Qed.

Lemma run_project i o sched a b :
  ops !! i = Some o -> same_for i o a b ->
  same_for i o (wrun ops sched a) (wrun ops (filter (fun j => j = i) sched) b).
Proof using Hready Hsubs Hpaths.
  intros Ho. unfold run_schedule. revert a b. induction sched as [|j sched IH]; intros a b H; [done|].
  rewrite filter_cons. cbn [foldl]. destruct (decide (j = i)) as [->|Hne].
  - cbn [foldl]. apply IH. by apply step_self.
  - apply IH. destruct (step_other i j o a Ho (not_eq_sym Hne)) as [H1 H2]. destruct H as [H3 H4].
    split; [congruence|by eapply alike_trans].
Qed.

(** Where no child works, nothing changes. *)
Lemma run_frame (sched : list nat) (a : config) :
  rest (wrun ops sched a).2.2 = rest a.2.2 /\
  (forall eid, eid ∉ o_sub <$> ops -> (wrun ops sched a).2.1 !! eid = a.2.1 !! eid) /\
  (forall p, p ∉ text_path repr <$> ops -> cell p (wrun ops sched a).2.2 = cell p a.2.2).
Proof using Hready.
  unfold run_schedule. revert a. induction sched as [|j sched IH]; intros a; [done|]. cbn [foldl].
  destruct (IH (wstep ops j a)) as (F1 & F2 & F3).
  assert (rest (wstep ops j a).2.2 = rest a.2.2 /\ (forall eid, eid ∉ o_sub <$> ops -> (wstep ops j a).2.1 !! eid = a.2.1 !! eid) /\
          (forall p, p ∉ text_path repr <$> ops -> cell p (wstep ops j a).2.2 = cell p a.2.2)) as (G1 & G2 & G3).
  { unfold wave_step. destruct (ops !! j) as [o|] eqn:Ho; [|done]. destruct (a.1 !! j) as [p|]; [|done].
    pose proof (step_frame o p a.2 (ready_at j o Ho)) as (S1 & S2 & S3). apply list_elem_of_lookup_2 in Ho.
    destruct (step_of o p a.2) as [p' s']. simpl in *. split; [done|]. split.
    - intros eid Hn. apply S2. intros ->. apply Hn. by apply list_elem_of_fmap_2.
    - intros q Hn. apply S3. intros ->. apply Hn. by apply (list_elem_of_fmap_2 (text_path repr)). }
  split; [congruence|]. split; intros; [rewrite F2, G2|rewrite F3, G3]; done.
Qed.

Lemma run_length (sched : list nat) (a : config) : length (wrun ops sched a).1 = length a.1.
Proof using Type.
  unfold run_schedule. revert a. induction sched as [|j sched IH]; intros a; [done|]. cbn [foldl]. rewrite IH.
  unfold wave_step. destruct (ops !! j), (a.1 !! j); try done. destruct (step_of _ _ _). simpl. by rewrite length_insert.
Qed.
End Wave.

(** The schedule that runs the children one after the other. *)
Definition serial (k n : nat) : list nat := mjoin ((fun i => [i; i; i]) <$> seq k n).

Lemma serial_complete n : complete_schedule n (serial 0 n).
Proof using Type.
  intros i Hi. unfold serial. enough (forall k, (k <= i < k + n)%nat ->
    (3 <= length (filter (fun j => j = i) (mjoin ((fun i => [i; i; i]) <$> seq k n))))%nat) as H by (apply H; lia).
  clear Hi. induction n as [|n IH]; intros k Hk; [lia|]. cbn [seq]. rewrite fmap_cons. cbn [mjoin list_join].
  rewrite filter_app, length_app. destruct (decide (k = i)) as [->|Hne].
  - rewrite !filter_cons_True by done. cbn [length]. lia.
  - specialize (IH (S k) ltac:(lia)). etransitivity; [exact IH|apply Nat.le_add_l].
Qed.

Lemma serial_run suf pre done s :
  length done = length pre ->
  wrun (pre ++ suf) (serial (length pre) (length suf)) ((CEnded <$> done) ++ replicate (length suf) CReady, s)
  = let '(s', rs) := children repr sha256_hex suf s in (CEnded <$> (done ++ rs), s').
Proof using Type.
  revert pre done s. induction suf as [|o suf IH]; intros pre done s Hd; [simpl; by rewrite !app_nil_r|].
  unfold serial. cbn [length seq replicate children]. rewrite fmap_cons. cbn [mjoin list_join].
  unfold run_schedule. rewrite foldl_app.
  assert ((pre ++ o :: suf) !! length pre = Some o) as Ho by (by rewrite lookup_app_r, Nat.sub_diag).
  assert (((CEnded <$> done) ++ CReady :: replicate (length suf) CReady) !! length pre = Some CReady) as Hi.
  { rewrite lookup_app_r; rewrite length_fmap, Hd; [by rewrite Nat.sub_diag|done]. }
  change (foldl _ ?c [length pre; length pre; length pre])
    with (wrun (pre ++ o :: suf) [length pre; length pre; length pre] c).
  rewrite (three_steps _ _ o _ _ Ho Hi). destruct (apply_child repr sha256_hex o s) as [s1 r].
  assert (<[length pre := CEnded r]> ((CEnded <$> done) ++ CReady :: replicate (length suf) CReady)
          = (CEnded <$> (done ++ [r])) ++ replicate (length suf) CReady) as ->.
  { rewrite insert_app_r_alt; rewrite length_fmap, Hd; [|done]. rewrite Nat.sub_diag, fmap_app, <- app_assoc. done. }
  specialize (IH (pre ++ [o]) (done ++ [r]) s1 ltac:(rewrite !length_app; simpl; lia)).
  rewrite <- app_assoc in IH. rewrite length_app, Nat.add_1_r in IH.
  etransitivity; [exact IH|]. destruct (children repr sha256_hex suf s1) as [s' rs]. by rewrite <- app_assoc.
Qed.

Section Waves.
Context (ops : list operation) (Hready : Forall ready ops).
Context (Hsubs : NoDup (o_sub <$> ops)) (Hpaths : NoDup (text_path repr <$> ops)).

Lemma schedules_agree sched sched' s :
  complete_schedule (length ops) sched -> complete_schedule (length ops) sched' ->
  wrun ops sched (replicate (length ops) CReady, s) = wrun ops sched' (replicate (length ops) CReady, s).
Proof using LocalWorkspace0 Hready Hsubs Hpaths.
  intros H1 H2. set (c0 := (replicate (length ops) CReady, s)).
  assert (forall i o, ops !! i = Some o -> same_for i o (wrun ops sched c0) (wrun ops sched' c0)) as Hsame.
  { intros i o Ho. pose proof (lookup_lt_Some _ _ _ Ho) as Hlt.
    assert (replicate (length ops) CReady !! i = Some CReady) as Hi by (by apply lookup_replicate_2).
    pose proof (run_project ops Hready Hsubs Hpaths i o sched c0 c0 Ho ltac:(done)) as P1.
    pose proof (run_project ops Hready Hsubs Hpaths i o sched' c0 c0 Ho ltac:(done)) as P2.
    rewrite filter_replicate in P1, P2. unfold c0 in *.
    rewrite (more_steps ops i o _ _ _ Ho Hi (H1 i Hlt)) in P1. rewrite (more_steps ops i o _ _ _ Ho Hi (H2 i Hlt)) in P2.
    destruct P1 as [P1 (A1 & A2 & A3)], P2 as [P2 (B1 & B2 & B3)]. split; [congruence|]. repeat split; congruence. }
  destruct (run_frame ops Hready sched c0) as (F1 & F2 & F3), (run_frame ops Hready sched' c0) as (G1 & G2 & G3).
  pose proof (run_length ops sched c0) as L1. pose proof (run_length ops sched' c0) as L2.
  destruct (wrun ops sched c0) as [pcs [c b]], (wrun ops sched' c0) as [pcs' [c' b']]. simpl in *.
  f_equal; [|f_equal].
  - apply list_eq. intros i. destruct (ops !! i) as [o|] eqn:Ho; [by apply (Hsame i o)|].
    apply lookup_ge_None in Ho. rewrite length_replicate in L1, L2. rewrite !lookup_ge_None_2 by lia. done.
  - apply map_eq. intros eid. destruct (decide (eid ∈ o_sub <$> ops)) as [Hin|Hn]; [|by rewrite F2, G2].
    apply list_elem_of_fmap in Hin as (o & -> & Hin). apply list_elem_of_lookup in Hin as [i Ho].
    by apply (Hsame i o).
  - apply cells_ext; [congruence|]. intros p.
    destruct (decide (p ∈ text_path repr <$> ops)) as [Hin|Hn]; [|by rewrite F3, G3].
    apply list_elem_of_fmap in Hin as (o & -> & Hin). apply list_elem_of_lookup in Hin as [i Ho].
    by apply (Hsame i o).
Qed.

Lemma wave_serial sched s :
  complete_schedule (length ops) sched ->
  run_wave repr sha256_hex sched ops s = children repr sha256_hex ops s.
Proof using LocalWorkspace0 Hready Hsubs Hpaths.
  intros Hc. unfold run_wave. rewrite (schedules_agree sched (serial 0 (length ops)) s Hc (serial_complete _)).
  pose proof (serial_run ops [] [] s eq_refl) as H. simpl in H. rewrite H.
  destruct (children repr sha256_hex ops s) as [s' rs]. f_equal. rewrite <- list_fmap_compose.
  rewrite <- (list_fmap_id rs) at 2. by apply list_fmap_ext.
Qed.
End Waves.

(** ** The waves of a batch *)

Definition compatible (wave : list operation) : Prop :=
  forall i j o o', wave !! i = Some o -> wave !! j = Some o' -> i <> j ->
  paths_conflict (text_path repr o) (text_path repr o') = false.

Lemma conflict_sym a b : paths_conflict a b = paths_conflict b a.
Proof using Type.
  unfold paths_conflict. rewrite (bool_decide_ext (a = b) (b = a)) by done.
  rewrite <- !orb_assoc. f_equal. apply orb_comm.
Qed.

Lemma compatible_snoc wave o :
  compatible wave -> existsb (fun e => paths_conflict (text_path repr o) (text_path repr e)) wave = false ->
  compatible (wave ++ [o]).
Proof using Type.
  intros Hw He. assert (forall i o', wave !! i = Some o' -> paths_conflict (text_path repr o) (text_path repr o') = false) as H.
  { intros i o' Hi. apply not_true_iff_false. intros Hc. apply not_true_iff_false in He. apply He, existsb_exists.
    exists o'. split; [|done]. apply list_elem_of_In. by eapply list_elem_of_lookup_2. }
  intros i j a b Hi Hj Hij. apply lookup_app_Some in Hi as [Hi|[Hi Hi']], Hj as [Hj|[Hj Hj']].
  - by apply (Hw i j).
  - apply list_lookup_singleton_Some in Hj' as [_ <-]. rewrite conflict_sym. by eapply H.
  - apply list_lookup_singleton_Some in Hi' as [_ <-]. by eapply H.
  - apply list_lookup_singleton_Some in Hi' as [? _], Hj' as [? _]. lia.
Qed.

Lemma waves_concat cur ops : mjoin (waves_from repr cur ops) = cur ++ ops.
Proof using Type.
  revert cur. induction ops as [|o ops IH]; intros cur; simpl.
  - destruct cur; [done|]. simpl. by rewrite !app_nil_r.
  - destruct (existsb _ cur); [simpl; by rewrite IH|]. rewrite IH, <- app_assoc. done.
Qed.

Lemma waves_compatible cur ops : compatible cur -> Forall compatible (waves_from repr cur ops).
Proof using Type.
  assert (forall o, compatible [o]) as Hone.
  { intros o i j a b Hi Hj Hij. apply list_lookup_singleton_Some in Hi as [? _], Hj as [? _]. lia. }
  revert cur. induction ops as [|o ops IH]; intros cur Hc; simpl.
  - destruct cur; repeat constructor. done.
  - destruct (existsb _ cur) eqn:E; [constructor; [done|by apply IH]|]. by apply IH, compatible_snoc.
Qed.

Lemma compatible_paths wave : compatible wave -> NoDup (text_path repr <$> wave).
Proof using Type.
  intros Hw. apply NoDup_alt. intros i j p Hi Hj. rewrite list_lookup_fmap in Hi, Hj.
  apply fmap_Some in Hi as (a & Ha & ->), Hj as (b & Hb & Hab).
  destruct (decide (i = j)) as [|Hij]; [done|]. specialize (Hw i j a b Ha Hb Hij).
  unfold paths_conflict in Hw. by rewrite bool_decide_true in Hw.
Qed.

Lemma prepare_spec ops pre :
  prepare repr ops = Return pre -> Forall ready pre /\ o_sub <$> pre = o_sub <$> ops.
Proof using Type.
  revert pre. induction ops as [|o ops IH]; intros pre H; [injection H as <-; by split; [constructor|]|].
  simpl in H. destruct (model_writable_path repr (o_path o)) as [p|] eqn:Hp; [|done].
  apply bind_return in H as (pre' & Hpre & H). injection H as <-. destruct (IH _ Hpre) as [IH1 IH2].
  split; [|rewrite !fmap_cons; simpl; by rewrite IH2]. constructor; [|done]. split; [done|]. by eapply writable_again.
Qed.

(** ** Children in sequence *)

Abbreviation seqrun := (children repr sha256_hex).

Lemma children_app a b s :
  seqrun (a ++ b) s = let '(s1, r1) := seqrun a s in let '(s2, r2) := seqrun b s1 in (s2, r1 ++ r2).
Proof using Type.
  revert s. induction a as [|o a IH]; intros s; simpl; [by destruct (seqrun b s)|].
  destruct (apply_child repr sha256_hex o s) as [s1 r]. rewrite IH. destruct (seqrun a s1) as [s2 r1].
  by destruct (seqrun b s2).
Qed.

Lemma children_length ops s : length (seqrun ops s).2 = length ops.
Proof using Type.
  revert s. induction ops as [|o ops IH]; intros s; [done|]. simpl.
  destruct (apply_child repr sha256_hex o s) as [s1 r]. specialize (IH s1). destruct (seqrun ops s1). simpl in *. congruence.
Qed.

(** The waves with each wave in sequence. *)
Fixpoint serial_waves (waves : list (list operation)) (acc : gmap pystr item) (s : state)
    : state * outcome (gmap pystr item) :=
  match waves with
  | [] => (s, Return acc)
  | wave :: rest =>
      let '(s, rs) := seqrun wave s in
      let ds := zip_with dispose wave rs in
      if existsb is_uncertain ds then (s, Raise EffectDeliveryUncertainError)
      else match first_retryable ds with
           | Some x => (s, Raise x)
           | None => serial_waves rest (record_items ds acc) s
           end
  end.

Lemma run_waves_serial waves scheds acc s :
  Forall ready (mjoin waves) -> NoDup (o_sub <$> mjoin waves) -> Forall compatible waves ->
  Forall2 (fun wave sched => complete_schedule (length wave) sched) waves scheds ->
  run_waves repr sha256_hex scheds waves acc s = serial_waves waves acc s.
Proof using LocalWorkspace0.
  intros Hr Hn Hc Hs. revert acc s. induction Hs as [|wave sched waves scheds Hs _ IH]; intros acc s; [done|].
  cbn [mjoin list_join] in Hr, Hn. apply Forall_app in Hr as [Hr1 Hr2]. rewrite fmap_app in Hn.
  apply NoDup_app in Hn as (Hn1 & _ & Hn2). apply Forall_cons in Hc as [Hc1 Hc2].
  cbn [run_waves serial_waves]. change (default [] (head (sched :: scheds))) with sched.
  change (tail (sched :: scheds)) with scheds.
  rewrite (wave_serial wave Hr1 Hn1 (compatible_paths _ Hc1) sched s Hs).
  destruct (seqrun wave s) as [s1 rs]. destruct (existsb _ _); [done|]. destruct (first_retryable _); [done|]. by apply IH.
Qed.

(** ** Dispositions *)

Lemma dispose_id o r i : dispose o r = Settled i -> it_effect i = o_sub o.
Proof using Type.
  destruct r as [v|x]; simpl; [destruct (_ && _); by intros [= <-]|].
  destruct x; try done. by intros [= <-].
Qed.

Lemma unsettled_wave ds :
  existsb is_uncertain ds = false -> first_retryable ds = None -> exists items, ds = Settled <$> items.
Proof using Type.
  induction ds as [|d ds IH]; intros H1 H2; [by exists []|]. simpl in H1. apply orb_false_iff in H1 as [Hd H1].
  destruct d as [i| |x]; [|done|done]. destruct (IH H1 H2) as [items ->]. by exists (i :: items).
Qed.

Lemma settled_wave items :
  existsb is_uncertain (Settled <$> items) = false /\ first_retryable (Settled <$> items) = None.
Proof using Type. induction items as [|i items [IH1 IH2]]; [done|]. by split. Qed.

Lemma mapM_settled ds items : mapM settled ds = Some items <-> ds = Settled <$> items.
Proof using Type.
  rewrite mapM_Some. split.
  - induction 1 as [|d i ds items H _ IH]; [done|]. rewrite fmap_cons, <- IH. by destruct d as [j| |]; simpl in H; simplify_eq.
  - intros ->. induction items; by constructor.
Qed.

Lemma zip_dispose_app a b ra rb :
  length ra = length a -> zip_with dispose (a ++ b) (ra ++ rb) = zip_with dispose a ra ++ zip_with dispose b rb.
Proof using Type. intros H. by rewrite zip_with_app. Qed.

Lemma record_app a b acc : record_items (a ++ b) acc = record_items b (record_items a acc).
Proof using Type. unfold record_items. by rewrite foldl_app. Qed.

Definition unsettled (x : exn) (ds : list disposition) : Prop :=
  (x = EffectDeliveryUncertainError /\ Uncertain ∈ ds) \/ Retryable x ∈ ds.

Lemma unsettled_uncertain ds : existsb is_uncertain ds = true -> unsettled EffectDeliveryUncertainError ds.
Proof using Type.
  intros H. apply existsb_exists in H as ([| |] & Hin%list_elem_of_In & Hd); try done. by left.
Qed.

Lemma unsettled_retryable ds x : first_retryable ds = Some x -> unsettled x ds.
Proof using Type.
  intros H. right. unfold first_retryable in H. induction ds as [|d ds IH]; [done|].
  destruct d as [i| |y]; simpl in H; [right; by apply IH|right; by apply IH|]. injection H as ->. left.
Qed.

Lemma unsettled_app x a b : unsettled x a \/ unsettled x b -> unsettled x (a ++ b).
Proof using Type. unfold unsettled. set_solver. Qed.

(** The waves in sequence against the operations in sequence. *)
Lemma serial_waves_spec waves acc s :
  let '(s', rs) := seqrun (mjoin waves) s in
  let ds := zip_with dispose (mjoin waves) rs in
  match mapM settled ds with
  | Some items => serial_waves waves acc s = (s', Return (record_items ds acc))
  | None => exists k x, serial_waves waves acc s = ((seqrun (mjoin (take k waves)) s).1, Raise x) /\ unsettled x ds
  end.
Proof using Type.
  revert acc s. induction waves as [|wave waves IH]; intros acc s; [done|].
  cbn [mjoin list_join serial_waves]. rewrite children_app. pose proof (children_length wave s) as Hl.
  destruct (seqrun wave s) as [s1 r1] eqn:E1. cbn [snd] in Hl.
  specialize (IH (record_items (zip_with dispose wave r1) acc) s1).
  destruct (seqrun (mjoin waves) s1) as [s2 r2]. cbv zeta in IH |- *. rewrite zip_dispose_app by done.
  set (d1 := zip_with dispose wave r1) in *. set (d2 := zip_with dispose (mjoin waves) r2) in *.
  assert (forall x, unsettled x d1 -> mapM settled (d1 ++ d2) = None) as Hno.
  { intros x Hx. destruct (mapM settled (d1 ++ d2)) as [items|] eqn:E; [|done]. apply mapM_settled in E.
    assert (forall d, d ∈ d1 -> exists i, d = Settled i) as Hall.
    { intros d Hd. assert (d ∈ d1 ++ d2) as Hd' by (apply elem_of_app; by left). rewrite E in Hd'.
      apply list_elem_of_fmap in Hd' as (i & -> & _). eauto. }
    destruct Hx as [[_ Hx]|Hx]; apply Hall in Hx as [? ?]; done. }
  assert (forall x, unsettled x d1 ->
    match mapM settled (d1 ++ d2) with
    | Some items => (s1, Raise x : outcome (gmap pystr item)) = (s2, Return (record_items (d1 ++ d2) acc))
    | None => exists k y, (s1, Raise x : outcome (gmap pystr item)) = ((seqrun (mjoin (take k (wave :: waves))) s).1, Raise y) /\ unsettled y (d1 ++ d2)
    end) as Hstop.
  { intros x Hx. rewrite (Hno x Hx). exists 1%nat, x. split; [|apply unsettled_app; by left].
    simpl. by rewrite app_nil_r, E1. }
  destruct (existsb is_uncertain d1) eqn:Eu; [by apply Hstop, unsettled_uncertain|].
  destruct (first_retryable d1) as [x|] eqn:Er; [by apply Hstop, unsettled_retryable|].
  destruct (unsettled_wave d1 Eu Er) as [i1 Hi1]. destruct (mapM settled d2) as [i2|] eqn:E2.
  - apply mapM_settled in E2. rewrite (proj2 (mapM_settled (d1 ++ d2) (i1 ++ i2))) by (by rewrite fmap_app, Hi1, E2).
    by rewrite record_app.
  - destruct (mapM settled (d1 ++ d2)) as [items|] eqn:E.
    + exfalso. apply mapM_settled in E. symmetry in E. apply fmap_app_inv in E as (l1 & l2 & _ & H2 & _).
      apply mapM_settled in H2. congruence.
    + destruct IH as (k & x & -> & Hx). exists (S k), x. split; [|apply unsettled_app; by right].
      simpl. rewrite children_app, E1. by destruct (seqrun (mjoin (take k waves)) s1).
Qed.

Lemma record_lookup items acc i :
  NoDup (it_effect <$> items) -> i ∈ items -> record_items (Settled <$> items) acc !! it_effect i = Some i.
Proof using Type.
  revert acc. induction items as [|j items IH]; intros acc Hn Hi; [by apply elem_of_nil in Hi|].
  rewrite fmap_cons in Hn. apply NoDup_cons in Hn as [Hj Hn]. rewrite fmap_cons. unfold record_items. cbn [foldl].
  apply elem_of_cons in Hi as [->|Hi]; [|by apply IH].
  enough (forall acc, acc !! it_effect j = Some j -> record_items (Settled <$> items) acc !! it_effect j = Some j) as H
    by (apply H, lookup_insert_eq).
  clear -Hj. induction items as [|k items IH]; intros acc Ha; [done|]. rewrite fmap_cons in *. unfold record_items. cbn [foldl].
  apply IH; [set_solver|]. rewrite lookup_insert_ne; [done|]. set_solver.
Qed.

Lemma ordered_items ops items acc :
  it_effect <$> items = o_sub <$> ops -> (forall i, i ∈ items -> acc !! it_effect i = Some i) ->
  ordered ops acc = Return items.
Proof using Type.
  revert items. induction ops as [|o ops IH]; intros [|i items] He Ha; try done.
  rewrite !fmap_cons in He. injection He as Hi He. cbn [ordered]. rewrite <- Hi, (Ha i) by left.
  rewrite (IH items He) by (intros j Hj; apply Ha; by right). done.
Qed.

Lemma items_ids pre rs items :
  length rs = length pre -> zip_with dispose pre rs = Settled <$> items -> it_effect <$> items = o_sub <$> pre.
Proof using Type.
  revert rs items. induction pre as [|o pre IH]; intros [|r rs] [|i items] Hl H; try done.
  rewrite !fmap_cons in *. cbn [zip_with] in H. injection H as Hd H. f_equal; [by eapply dispose_id|].
  apply (IH rs); [by injection Hl|done].
Qed.

(** C15: a workspace batch is serial. The waves partition the operations in
    provider order into runs with disjoint paths, and for every interleaving of
    the children's claim, write and settlement statements the sink ends in the
    state, and with the item results, of applying the operations one after the
    other in provider order, whenever each of those is applied or rejected for
    good. If some child is uncertain or must be retried, the sink stops after a
    whole number of waves, in the state of that prefix applied in sequence, and
    raises the error of such a child. *)
Theorem batch_is_serial scheds ops pre s :
  prepare repr ops = Return pre -> NoDup (o_sub <$> ops) ->
  let waves := waves_from repr [] pre in
  Forall2 (fun wave sched => complete_schedule (length wave) sched) waves scheds ->
  mjoin waves = pre /\ Forall compatible waves /\
  let '(s', rs) := seqrun pre s in
  let ds := zip_with dispose pre rs in
  match mapM settled ds with
  | Some items => sink_workspace_batch repr sha256_hex scheds ops s = (s', Return (items, parent_status items))
  | None => exists k x, sink_workspace_batch repr sha256_hex scheds ops s
                        = ((seqrun (mjoin (take k waves)) s).1, Raise x) /\ unsettled x ds
  end.
Proof using LocalWorkspace0.
  intros Hp Hn waves Hs. destruct (prepare_spec ops pre Hp) as [Hr Hids].
  assert (mjoin waves = pre) as Hj by apply (waves_concat []).
  assert (Forall compatible waves) as Hc by (by apply waves_compatible).
  split; [done|]. split; [done|]. unfold sink_workspace_batch, mutation_waves. rewrite Hp. cbn [mbind outcome_bind].
  fold waves. rewrite (run_waves_serial waves scheds ∅ s) by (rewrite ?Hj, ?Hids; done).
  pose proof (serial_waves_spec waves ∅ s) as H. rewrite Hj in H. pose proof (children_length pre s) as Hl.
  destruct (seqrun pre s) as [s' rs]. cbv zeta in H |- *. cbn [snd] in Hl.
  destruct (mapM settled (zip_with dispose pre rs)) as [items|] eqn:E.
  - rewrite H. apply mapM_settled in E. pose proof (items_ids pre rs items Hl E) as Hit. rewrite Hids in Hit.
    cbn [mbind outcome_bind]. rewrite (ordered_items ops items); [done|done|].
    intros i Hi. rewrite E. apply record_lookup; [by rewrite Hit|done].
  - destruct H as (k & x & -> & Hx). exists k, x. done.
Qed.
End Children.

(** ** A batch on one file and its neighbour *)

Definition no_repr (_ : pyval) : pystr := [].
Definition no_sha (_ : list N) : pystr := [].
Definition sealed (_ : pystr) (bs : list N) : outcome (list N) := Return bs.
Definition opened (_ : pystr) (e : list N) : outcome (list N) := Return e.

Definition file_a : pystr := u "/workspace/a.md".
Definition file_b : pystr := u "/workspace/b.md".

(** Create [a], delete [a] at revision 1, create [b]. *)
Definition sample_ops : list operation :=
  [mkOp "workspace_write" (PStr file_a) (PStr (u "new")) (PInt 0) (u "e:item:0");
   mkOp "workspace_delete" (PStr file_a) PNone (PInt 1) (u "e:item:1");
   mkOp "workspace_write" (PStr file_b) (PStr (u "b")) (PInt 0) (u "e:item:2")].

(** The workspace already holds [a] at revision 1. *)
Definition sample_state : Sink.claims * pg (list N) :=
  (∅, mkPg {[("u1"%string, file_a) := mkPgRow workspace (u "old") (u "text/markdown") [] 1]} ∅).

Abbreviation sample_backend seal := (postgres_backend no_repr str_leb seal opened "u1").
Abbreviation sample_batch seal := (sink_workspace_batch (WorkspaceBackend0 := sample_backend seal) no_repr no_sha).
Abbreviation sample_serial := (children (WorkspaceBackend0 := sample_backend sealed) no_repr no_sha).

Definition sample_scheds : list (list nat) := [[0; 0; 0]; [1; 0; 1; 0; 0; 1]]%nat.

(** The create conflicts, the rest applies, whatever the second wave's order. *)
Lemma batch_is_serial_witness :
  sample_batch sealed sample_scheds sample_ops sample_state
  = ((sample_serial sample_ops sample_state).1,
     Return ([mkItem (u "e:item:0") (Some "workspace_revision_conflict"%string) None;
              mkItem (u "e:item:1") None None; mkItem (u "e:item:2") None (Some 1)], "applied_with_results"%string)).
Proof.
  assert (prepare no_repr sample_ops = Return sample_ops) as Hp by (vm_compute; reflexivity).
  assert (NoDup (o_sub <$> sample_ops)) as Hn by decided.
  assert (waves_from no_repr [] sample_ops = [take 1 sample_ops; drop 1 sample_ops]) as Hw by (vm_compute; reflexivity).
  pose proof (batch_is_serial (WorkspaceBackend0 := sample_backend sealed) no_repr no_sha
    (LocalWorkspace0 := postgres_local no_repr str_leb no_sha sealed opened "u1")
    sample_scheds sample_ops sample_ops sample_state Hp Hn) as H.
  rewrite Hw in H. destruct H as (_ & _ & H).
  { constructor; [|constructor; [|constructor]]; intros i Hi.
    - destruct i as [|i]; [vm_compute; lia|simpl in Hi; lia].
    - destruct i as [|[|i]]; [vm_compute; lia|vm_compute; lia|simpl in Hi; lia]. }
  assert (mapM settled (zip_with dispose sample_ops (sample_serial sample_ops sample_state).2)
    = Some [mkItem (u "e:item:0") (Some "workspace_revision_conflict"%string) None;
            mkItem (u "e:item:1") None None; mkItem (u "e:item:2") None (Some 1)]) as E by (vm_compute; reflexivity).
  destruct (sample_serial sample_ops sample_state) as [s' rs]. cbv zeta in H. cbn [snd] in E. rewrite E in H. exact H.
Defined.

(** ** A replay

    A child that was rejected for good gives its claim back, so the replay of a
    batch that stopped at a later wave runs it again, behind operations that
    were applied in the meantime. *)

(** The enclave fails on [b]. *)
Definition seal_down (p : pystr) (bs : list N) : outcome (list N) :=
  if bool_decide (p = file_b) then Raise (RuntimeError "enclave unavailable") else Return bs.

(** A replayed batch can reorder operations on one file. The batch creates [a]
    (which exists), deletes [a] and creates [b]; the enclave fails on [b], so the
    parent is retried. The replay runs the create of [a] again, now behind the
    delete of the first attempt: it succeeds, every child is reported applied and
    [a] exists, whereas in provider order the create is rejected and [a] is gone. *)
Example replay_reorders :
  exists s1 s2,
    sample_batch seal_down sample_scheds sample_ops sample_state = (s1, Raise (RuntimeError "workspace_write_failed")) /\
    sample_batch sealed sample_scheds sample_ops s1
    = (s2, Return ([mkItem (u "e:item:0") None (Some 1); mkItem (u "e:item:1") None None;
                    mkItem (u "e:item:2") None (Some 1)], "applied"%string)) /\
    get_workspace_entry "u1" file_a s2.2 = Some (mkPgRow workspace (u "new") (u "text/markdown") [] 1) /\
    get_workspace_entry "u1" file_a (sample_serial sample_ops sample_state).1.2 = None.
Proof.
  eexists _, _. split; [vm_compute; reflexivity|]. split; [vm_compute; reflexivity|]. split; vm_compute; reflexivity.
Qed.
End WSerial.
