(* ===== verification/SummaryFrontier.v ===== *)
(** * The segmented summary frontier ([backend/model_api_runtime/v2/summary_frontier.py])

    The pure part of conversation-summary coverage: the constructor checks of a
    segment, the validation of a canonical cover against the source witnesses,
    the choice of the next roll-up, and the metadata-only text of a fold
    ([compaction.py]). *)

From S2P Require Import Prelude PyValue.
Local Open Scope Z_scope.

Module Frontier.

Definition DEFAULT_ROLLUP_FANOUT : Z := 8.
Definition DEFAULT_MAX_FRONTIER_SEGMENTS : Z := 24.
Definition DEFAULT_MAX_FRONTIER_CHARS : Z := 48000.

Record SummarySegment : Type := mkSegment {
  segment_id : Z;
  coverage_kind : string;
  level : Z;
  start_seq : Z;
  end_seq : Z;
  source_message_count : Z;
  legacy_opaque_through_seq : Z;
  child_segment_ids : list Z;
  text : pystr;
}.

#[global] Instance segment_eq_dec : EqDecision SummarySegment.
Proof. solve_decision. Defined.

Definition exact (s : SummarySegment) : bool := String.eqb (coverage_kind s) "exact".
Definition opaque (s : SummarySegment) : bool := String.eqb (coverage_kind s) "legacy_opaque".

Definition integrity {A} (detail : string) : outcome A := Raise (FrontierIntegrity detail).

(** [SummarySegment.__post_init__] *)
Definition new_segment (s : SummarySegment) : outcome SummarySegment :=
  _ ← raise_if (segment_id s <=? 0) (FrontierIntegrity "invalid_segment_id");
  _ ← raise_if (level s <? 0) (FrontierIntegrity "invalid_level");
  _ ← (if exact s then
         _ ← raise_if ((start_seq s <=? 0) || (end_seq s <? start_seq s)) (FrontierIntegrity "invalid_exact_seq_range");
         raise_if ((source_message_count s <=? 0) || negb (legacy_opaque_through_seq s =? 0))
           (FrontierIntegrity "invalid_exact_source_witness")
       else if opaque s then
         raise_if (negb (start_seq s =? 0) || (legacy_opaque_through_seq s <? 0)
                   || (end_seq s <? legacy_opaque_through_seq s) || (source_message_count s <? 0))
           (FrontierIntegrity "invalid_legacy_coverage")
       else integrity "unknown_coverage_kind");
  _ ← raise_if (bool_decide (strip (text s) = [])) (FrontierIntegrity "empty_segment_text");
  _ ← raise_if (negb (bool_decide (NoDup (child_segment_ids s)))) (FrontierIntegrity "duplicate_child_segment");
  _ ← raise_if ((level s =? 0) && negb (bool_decide (child_segment_ids s = []))) (FrontierIntegrity "leaf_has_children");
  _ ← raise_if ((0 <? level s) && bool_decide (child_segment_ids s = [])) (FrontierIntegrity "checkpoint_has_no_children");
  Return s.

(** ** Roll-up candidates *)

Record RollupCandidate : Type := mkCandidate {
  children : list SummarySegment;
  parent_level : Z;
  reason : string;
}.

Definition cand_ids (c : RollupCandidate) : list Z := segment_id <$> children c.
Definition cand_start (c : RollupCandidate) : outcome Z :=
  match children c with [] => Raise IndexError | x :: _ => Return (start_seq x) end.
Definition cand_end (c : RollupCandidate) : outcome Z :=
  match last (children c) with None => Raise IndexError | Some x => Return (end_seq x) end.
Definition cand_count (c : RollupCandidate) : Z := sumZ (source_message_count <$> children c).
Definition cand_kind (c : RollupCandidate) : string :=
  if existsb opaque (children c) then "legacy_opaque" else "exact".

(** [max(...)] of a sequence. *)
Definition py_max (l : list Z) : outcome Z :=
  match l with [] => Raise (ValueError "max() arg is an empty sequence") | x :: t => Return (foldl Z.max x t) end.

Definition cand_opaque (c : RollupCandidate) : outcome Z := py_max (legacy_opaque_through_seq <$> children c).

(** ** Snapshots *)

Record SummaryFrontierSnapshot : Type := mkSnapshot {
  segments : list SummarySegment;
  head_version : Z;
  watermark_seq : Z;
}.

Definition new_snapshot (s : SummaryFrontierSnapshot) : outcome SummaryFrontierSnapshot :=
  _ ← raise_if ((head_version s <=? 0) || (watermark_seq s <? 0)) (FrontierIntegrity "invalid_frontier_snapshot");
  match last (segments s) with
  | None => integrity "snapshot_watermark_mismatch"
  | Some x => if end_seq x =? watermark_seq s then Return s else integrity "snapshot_watermark_mismatch"
  end.

(** ** Sizes *)

Definition segment_chars (s : SummarySegment) : Z := Zlen (text s) + 2.
Definition frontier_chars (l : list SummarySegment) : Z := sumZ (segment_chars <$> l).

(** ** Validation of a canonical cover *)

Fixpoint check_items (seen : list Z) (previous : option SummarySegment) (l : list SummarySegment) : outcome unit :=
  match l with
  | [] => Return tt
  | x :: t =>
      if bool_decide (segment_id x ∈ seen) then integrity "duplicate_canonical_segment"
      else if match previous with
              | Some p => negb (opaque x) && (start_seq x <=? end_seq p)
              | None => false
              end then integrity "overlapping_canonical_segments"
      else check_items (segment_id x :: seen) (Some x) t
  end.

Definition check_zero (l : list SummarySegment) (first count : Z) : outcome (list SummarySegment) :=
  match l with
  | [] => if negb (first =? 0) || negb (count =? 0) then integrity "zero_watermark_has_source" else Return l
  | [x] =>
      if opaque x && (start_seq x =? 0) && (end_seq x =? 0) && (legacy_opaque_through_seq x =? 0)
         && (source_message_count x =? 0) && (first =? 0) && (count =? 0)
      then Return l else integrity "invalid_zero_watermark_legacy"
  | _ => integrity "invalid_zero_watermark_legacy"
  end.

(** The witnesses of the cover's first segment. *)
Definition check_start (x : SummarySegment) (opaques : list SummarySegment) (first count : Z) : outcome unit :=
  match opaques with
  | o :: _ =>
      if negb (start_seq o =? 0) then integrity "legacy_frontier_start_mismatch"
      else raise_if ((count <? 0) || ((count =? 0) && negb (first =? 0))
                     || ((0 <? count) && (first <=? legacy_opaque_through_seq o)))
             (FrontierIntegrity "invalid_post_legacy_source_witness")
  | [] =>
      if (first <=? 0) || (count <=? 0) then integrity "missing_source_witness"
      else raise_if (negb (start_seq x =? first)) (FrontierIntegrity "frontier_start_mismatch")
  end.

Definition validate_canonical_frontier (ordered : list SummarySegment) (watermark first count : Z)
    : outcome (list SummarySegment) :=
  if watermark =? 0 then check_zero ordered first count
  else
    match ordered with
    | [] => integrity "missing_canonical_frontier"
    | x :: _ =>
        let opaques := filter (fun s => opaque s = true) ordered in
        if (1 <? Zlen opaques) || (negb (bool_decide (opaques = [])) && negb (opaque x))
        then integrity "invalid_legacy_frontier_position"
        else
          _ ← check_start x opaques first count;
          _ ← raise_if (negb (bool_decide (end_seq <$> last ordered = Some watermark)))
                (FrontierIntegrity "frontier_end_mismatch");
          _ ← check_items [] None ordered;
          if sumZ (source_message_count <$> ordered) =? count then Return ordered
          else integrity "source_count_mismatch"
    end.

(** ** Rendering a replacement *)

Definition CHECKPOINT_SEPARATOR : pystr :=
  [10; 10]%N ++ u "--- historical summary checkpoint ---" ++ [10; 10]%N.

Definition render_replacement (items : list SummarySegment) (child_ids : list Z) (parent_text : pystr)
    : outcome pystr :=
  let indexes := filter (fun i => match items !! i with Some x => bool_decide (segment_id x ∈ child_ids) | None => false end = true)
                   (seq 0 (length items)) in
  match indexes with
  | [] => integrity "invalid_materialized_replacement"
  | first :: _ =>
      if bool_decide (length indexes <> length child_ids)
         || bool_decide ((segment_id <$> omap (fun i => items !! i) indexes) <> child_ids)
         || bool_decide (indexes <> seq first (length indexes))
         || bool_decide (strip parent_text = [])
      then integrity "invalid_materialized_replacement"
      else
        Return (join CHECKPOINT_SEPARATOR
                  ((strip ∘ text <$> take first items) ++ [strip parent_text]
                   ++ (strip ∘ text <$> drop (first + length indexes) items)))
  end.

(** ** Choosing a roll-up *)

Definition candidate (selected : list SummarySegment) (why : string) : outcome RollupCandidate :=
  match selected with
  | [] => Raise (Exhausted "empty_rollup_candidate")
  | x :: t => Return (mkCandidate selected (foldl Z.max (level x) (level <$> t) + 1) why)
  end.

(** How many of the next items continue a run at [lvl]. *)
Fixpoint run_tail (lvl : Z) (l : list SummarySegment) : nat :=
  match l with
  | x :: t => if level x =? lvl then S (run_tail lvl t) else O
  | [] => O
  end.

(** The oldest run of [fanout] items at one level; one unit of fuel per run. *)
Fixpoint complete_run (fuel : nat) (fanout : nat) (l : list SummarySegment) : option (list SummarySegment) :=
  match fuel, l with
  | S fuel, x :: t =>
      let n := S (run_tail (level x) t) in
      if (fanout <=? n)%nat then Some (take fanout l) else complete_run fuel fanout (drop n l)
  | _, _ => None
  end.

Definition choose_rollup_candidate (items : list SummarySegment) (fanout max_segments max_chars : Z)
    : outcome (option RollupCandidate) :=
  match items with
  | [] => Return None
  | _ =>
      if (fanout <? 2) || (max_segments <? 1) || (max_chars <? 1)
      then Raise (ValueError "summary frontier limits must be positive")
      else
        match List.find (fun s => max_chars <? segment_chars s) items with
        | Some s => Some <$> candidate [s] "oversized_legacy_segment"
        | None =>
            match complete_run (length items) (Z.to_nat fanout) items with
            | Some selected => Some <$> candidate selected "fanout"
            | None =>
                if (Zlen items <=? max_segments) && (frontier_chars items <=? max_chars) then Return None
                else
                  let selected := take (Z.to_nat (Z.min fanout (Zlen items))) items in
                  if (length selected <? 2)%nat then Raise (Exhausted "no_reducing_rollup_candidate")
                  else Some <$> candidate selected "frontier_bound"
            end
        end
  end.

(** ** The text of a fold ([compaction.deterministic_fold]) *)

Definition FOLD_OPAQUE : pystr := 
  [45; 32; 91; 26356; 26089; 30340; 21382; 21490; 25688; 35201; 24050; 30001; 38271; 26399; 35760;
   24518; 35206; 30422; 93]%N.
Definition FOLD_BOTH_1 : pystr := 
  [45; 32; 91; 26356; 26089; 30340; 21382; 21490; 25688; 35201; 21450; 32]%N.
Definition FOLD_BOTH_2 : pystr := 
  [32; 26465; 28040; 24687; 24050; 30001; 38271; 26399; 35760; 24518; 35206; 30422; 93]%N.
Definition FOLD_COUNT_1 : pystr := 
  [45; 32; 91]%N.
Definition FOLD_COUNT_2 : pystr := 
  [32; 26465; 26356; 26089; 30340; 28040; 24687; 24050; 30001; 38271; 26399; 35760; 24518; 35206;
   30422; 93]%N.

Definition deterministic_fold (count : Z) (includes_legacy : bool) : outcome pystr :=
  if (count <? 0) || ((count =? 0) && negb includes_legacy)
  then Raise (ValueError "source_message_count must prove coverage")
  else Return (if includes_legacy && (count =? 0) then FOLD_OPAQUE
               else if includes_legacy then FOLD_BOTH_1 ++ str_of_Z count ++ FOLD_BOTH_2
               else FOLD_COUNT_1 ++ str_of_Z count ++ FOLD_COUNT_2).
End Frontier.
