(* ===== verification/SummaryStore.v ===== *)
(** * Storage of the summary frontier

    One user's rows of [v2_conversation_summary] (the head) and
    [v2_conversation_summary_segments], and the chat rows they cover, with the
    transactions of [jobs_store.py] that write them: the leaf append, the lazy
    seeding of a pre-segmentation summary, the checkpoint insert and the old
    single-blob writer; the deletions of [db.py] that touch covered chat; and the
    read path of [serve_worker.py]. Statements filter on the user id, so the
    state is one user's; segment ids come from a sequence all users share. *)

From S2P Require Import Prelude PyValue SummaryFrontier.
Local Open Scope Z_scope.

Module Store.
Import Frontier.

(** ** Tables *)

Definition envelope : Type := list (pystr * pyval).

Record message : Type := mkMessage {
  m_id : string;
  m_seq : Z;
  m_ts : Z;
  m_source : string;
}.

Record head : Type := mkHead {
  h_envelope : option envelope;
  h_ts : Z;
  h_version : Z;
  h_watermark : Z;
  h_materialized : list Z;
}.

Record srow : Type := mkRow {
  r_id : Z;
  r_kind : string;
  r_level : Z;
  r_start : Z;
  r_end : Z;
  r_count : Z;
  r_opaque : Z;
  r_children : list Z;
  r_envelope : envelope;
}.

Record store : Type := mkStore {
  st_msgs : list message;
  st_head : option head;
  st_rows : list srow;
  st_next : Z;
}.

(** The check constraints of the segment table. *)
Definition row_ok (r : srow) : bool :=
  (0 <=? r_level r)
  && ((String.eqb (r_kind r) "exact" && (0 <? r_start r) && (r_start r <=? r_end r)
       && (0 <? r_count r) && (r_opaque r =? 0))
      || (String.eqb (r_kind r) "legacy_opaque" && (r_start r =? 0) && (r_opaque r <=? r_end r)
          && (0 <=? r_opaque r) && (0 <=? r_count r)))
  && (((r_level r =? 0) && bool_decide (r_children r = []))
      || ((0 <? r_level r) && negb (bool_decide (r_children r = [])))).

(** Its unique constraint on level and range. *)
Definition cover_taken (r : srow) (rows : list srow) : bool :=
  existsb (fun q => (r_level q =? r_level r) && (r_start q =? r_start r) && (r_end q =? r_end r)) rows.

Definition push_row (r : srow) (st : store) : store :=
  mkStore (st_msgs st) (st_head st) (st_rows st ++ [r]) (st_next st + 1).

(** [INSERT ... RETURNING segment_id] of a row built on the new identity. *)
Definition insert_row (mk : Z -> srow) (st : store) : outcome (Z * store) :=
  let r := mk (st_next st) in
  if negb (row_ok r) then Raise (IntegrityError "check_violation")
  else if cover_taken r (st_rows st) then Raise (IntegrityError "uq_v2_summary_segment_cover")
  else Return (st_next st, push_row r st).

Definition with_head (h : head) (st : store) : store :=
  mkStore (st_msgs st) (Some h) (st_rows st) (st_next st).

(** [UPDATE v2_conversation_summary] of the locked head, with the trigger that
    guards a segmented head. *)
Definition update_head (h' : head) (st : store) : outcome store :=
  match st_head st with
  | None => Return st
  | Some h =>
      if negb (bool_decide (st_rows st = [])) && negb (h_version h' =? h_version h)
         && bool_decide (h_materialized h' = h_materialized h)
      then Raise (Other "ObjectNotInPrerequisiteState")
      else Return (with_head h' st)
  end.

(** ** The canonical cover *)

Definition dominated (eligible : list srow) (c : srow) : bool :=
  existsb (fun p => (r_level c <? r_level p) && (r_start p <=? r_start c) && (r_end c <=? r_end p)) eligible.

(** [ORDER BY start_seq, end_seq, level DESC] *)
Definition row_le (a b : srow) : Prop :=
  ((r_start a <? r_start b)
   || ((r_start a =? r_start b)
       && ((r_end a <? r_end b) || ((r_end a =? r_end b) && (r_level b <=? r_level a))))) = true.

#[global] Instance row_le_dec a b : Decision (row_le a b).
Proof. unfold row_le. apply _. Defined.

Definition eligible (watermark : Z) (rows : list srow) : list srow :=
  filter (fun r => r_end r <= watermark) rows.

Definition canonical (watermark : Z) (rows : list srow) : list srow :=
  let e := eligible watermark rows in
  merge_sort row_le (filter (fun c => dominated e c = false) e).

(** ** Source witnesses *)

(** Rows that a verification run may delete are no source. *)
Definition is_source (m : message) : bool :=
  negb (bool_decide (m_source m ∈ ["verify_ping"; "resident_maintenance"]%string)).

Definition sources (lo hi : Z) (st : store) : list Z :=
  m_seq <$> filter (fun m => (is_source m && (lo <? m_seq m) && (m_seq m <=? hi)) = true) (st_msgs st).

(** [COALESCE(MIN(seq),0)], [COALESCE(MAX(seq),0)] *)
Definition min_or_0 (l : list Z) : Z := match l with [] => 0 | x :: t => foldl Z.min x t end.
Definition max_or_0 (l : list Z) : Z := match l with [] => 0 | x :: t => foldl Z.max x t end.

(** ** Appending a leaf ([append_summary_leaf_cas]) *)

Definition falsy (e : option envelope) : bool := match e with None | Some [] => true | _ => false end.

Definition legacy_row (through : Z) (env : envelope) (id : Z) : srow :=
  mkRow id "legacy_opaque" 0 0 through 0 through [] env.

Definition leaf_row (start end_ count : Z) (env : envelope) (id : Z) : srow :=
  mkRow id "exact" 0 start end_ count 0 [] env.

(** The head allows the append: absent and expected so, or at the expected
    version with a watermark that is unset or the expected one. *)
Definition leaf_fence (expected previous : Z) (st : store) : bool :=
  match st_head st with
  | None => (expected =? 0) && (previous =? 0)
  | Some h => (h_version h =? expected) && ((h_watermark h =? 0) || (h_watermark h =? previous))
  end.

(** The first segmented write binds an existing summary as one opaque segment;
    [None]: there is no summary to bind. *)
Definition bind_legacy (start previous : Z) (st : store) : outcome (option store) :=
  match st_rows st, st_head st with
  | [], Some h =>
      match h_envelope h with
      | Some (x :: e) =>
          '(_, st) ← insert_row (legacy_row (if 0 <? previous then previous else Z.max 0 (start - 1)) (x :: e)) st;
          Return (Some st)
      | _ => Return None
      end
  | _, _ => Return (Some st)
  end.

Definition append_summary_leaf_cas (env : envelope) (head_env : option envelope) (start end_ count ts expected
    previous : Z) (st : store) : outcome (store * bool) :=
  let compat := if falsy head_env then env else default [] head_env in
  if (start <=? 0) || (end_ <? start) || (count <=? 0) || (expected <? 0) || (previous <? 0)
  then Raise (ValueError "invalid summary leaf metadata")
  else if (0 <? previous) && (start <=? previous)
  then Raise (ValueError "summary leaf does not advance the watermark")
  else if negb (leaf_fence expected previous st) then Return (st, false)
  else
    let src := sources previous end_ st in
    if negb (min_or_0 src =? start) || negb (max_or_0 src =? end_) || negb (Zlen src =? count)
    then Return (st, false)
    else
      bound ← bind_legacy start previous st;
      match bound with
      | None => Return (st, false)
      | Some st1 =>
          '(leaf_id, st2) ← insert_row (leaf_row start end_ count env) st1;
          let ids := r_id <$> canonical end_ (st_rows st2) in
          if negb (bool_decide (last ids = Some leaf_id))
          then Raise (RuntimeError "new summary leaf is not canonical")
          else
            match st_head st2 with
            | None => Return (with_head (mkHead (Some compat) ts 1 end_ ids) st2, true)
            | Some h =>
                st3 ← update_head (mkHead (Some compat) ts (h_version h + 1) end_ ids) st2;
                Return (st3, true)
            end
      end.

(** ** Seeding ([seed_legacy_summary_segment]) *)

Definition seed_legacy_summary_segment (expected translated : Z) (st : store) : outcome (store * bool) :=
  if (expected <=? 0) || (translated <? 0) then Raise (ValueError "invalid legacy summary seed metadata")
  else
    match st_head st with
    | None => Return (st, false)
    | Some h =>
        if negb (bool_decide (st_rows st = []))
        then Return (st, negb (bool_decide (h_materialized h = [])) && (expected <? h_version h))
        else if negb (h_version h =? expected) || negb (bool_decide (h_materialized h = [])) || falsy (h_envelope h)
        then Return (st, false)
        else if negb ((h_watermark h =? 0) || (h_watermark h =? translated)) then Return (st, false)
        else
          let opaque_end := Z.max (h_watermark h) translated in
          '(id, st) ← insert_row (legacy_row opaque_end (default [] (h_envelope h))) st;
          st ← update_head (mkHead (h_envelope h) (h_ts h) (h_version h + 1) opaque_end [id]) st;
          Return (st, true)
    end.

(** ** Checkpoints ([insert_summary_checkpoint]) *)

Definition checkpoint_args_ok (level_ start end_ count : Z) (child_ids : list Z) (expected expected_wm : Z)
    (coverage : string) (opaque_through : Z) : bool :=
  let ex := String.eqb coverage "exact" in
  let op := String.eqb coverage "legacy_opaque" in
  negb ((level_ <=? 0) || (ex && (start <=? 0)) || (op && negb (start =? 0)) || (end_ <? start) || (count <? 0)
        || bool_decide (child_ids = []) || negb (bool_decide (NoDup child_ids)) || negb (ex || op)
        || (ex && ((count <=? 0) || negb (opaque_through =? 0)))
        || (op && ((opaque_through <? 0) || (end_ <? opaque_through)))
        || (expected <=? 0) || (expected_wm <? 0)).

(** [left.end_seq < right.start_seq] for neighbours. *)
Fixpoint disjoint_run (l : list srow) : bool :=
  match l with
  | x :: (y :: _) as t => (r_end x <? r_start y) && disjoint_run t
  | _ => true
  end.

(** The metadata of the parent agrees with its children. *)
Definition parent_matches (kids : list srow) (level_ start end_ count : Z) (coverage : string)
    (opaque_through : Z) : bool :=
  match kids, last kids with
  | k :: _, Some l =>
      (r_start k =? start) && (r_end l =? end_) && (sumZ (r_count <$> kids) =? count)
      && (max_or_0 (r_level <$> kids) <? level_)
      && negb (String.eqb coverage "legacy_opaque"
               && negb (opaque_through =? max_or_0 (r_opaque <$> kids)))
      && negb (String.eqb coverage "exact"
               && existsb (fun r => negb (String.eqb (r_kind r) "exact")) kids)
  | _, _ => false
  end.

Definition parent_row (level_ start end_ count : Z) (child_ids : list Z) (coverage : string)
    (opaque_through : Z) (env : envelope) (id : Z) : srow :=
  mkRow id coverage level_ start end_ count opaque_through child_ids env.

(** The rows named by [child_ids], in cover order. *)
Definition named_rows (child_ids : list Z) (rows : list srow) : list srow :=
  merge_sort row_le (filter (fun r => r_id r ∈ child_ids) rows).

(** The canonical rows inside a range. *)
Definition canonical_inside (watermark start end_ : Z) (rows : list srow) : list srow :=
  filter (fun r => start <= r_start r /\ r_end r <= end_) (canonical watermark rows).

Definition insert_summary_checkpoint (env head_env : envelope) (level_ start end_ count : Z) (child_ids : list Z)
    (expected expected_wm : Z) (coverage : string) (opaque_through : Z) (st : store) : outcome (store * bool) :=
  if negb (checkpoint_args_ok level_ start end_ count child_ids expected expected_wm coverage opaque_through)
  then Raise (ValueError "invalid summary checkpoint metadata")
  else
    match st_head st with
    | None => Return (st, false)
    | Some h =>
        let rows := st_rows st in
        let kids := named_rows child_ids rows in
        if negb (h_watermark h =? expected_wm) || negb (h_version h =? expected) || (expected_wm <? end_)
        then Return (st, false)
        else if negb (bool_decide (r_id <$> canonical expected_wm rows = h_materialized h)) then Return (st, false)
        else if negb (bool_decide (r_id <$> kids = child_ids)) then Return (st, false)
        else if negb (parent_matches kids level_ start end_ count coverage opaque_through) then Return (st, false)
        else if negb (disjoint_run kids) then Return (st, false)
        else if negb (bool_decide (r_id <$> canonical_inside (h_watermark h) start end_ rows = child_ids))
        then Return (st, false)
        else
          let mk := parent_row level_ start end_ count child_ids coverage opaque_through env in
          if negb (row_ok (mk (st_next st))) then Raise (IntegrityError "check_violation")
          else if cover_taken (mk (st_next st)) rows then Return (st, false)
          else
            let parent_id := st_next st in
            let st := push_row (mk parent_id) st in
            let ids := r_id <$> canonical expected_wm (st_rows st) in
            if negb (bool_decide (parent_id ∈ ids))
            then Raise (RuntimeError "new summary checkpoint is not canonical")
            else
              st ← update_head (mkHead (Some head_env) (h_ts h) (h_version h + 1) (h_watermark h) ids) st;
              Return (st, true)
    end.

(** ** The single-blob writer ([upsert_summary_row_cas]) *)

Definition upsert_summary_row_cas (env : envelope) (ts expected : Z) (wm : option Z) (require_source : bool)
    (st : store) : outcome (store * bool) :=
  if require_source && (match wm with Some z => z <=? 0 | None => true end) then Return (st, false)
  else if require_source && negb (existsb (fun m => bool_decide (Some (m_seq m) = wm)) (st_msgs st))
  then Return (st, false)
  else if expected =? 0 then
    match st_head st with
    | Some _ => Return (st, false)
    | None => Return (with_head (mkHead (Some env) ts 1 (default 0 wm) []) st, true)
    end
  else
    match st_head st with
    | Some h =>
        if h_version h =? expected then
          st ← update_head (mkHead (Some env) ts (h_version h + 1) (default (h_watermark h) wm)
                              (h_materialized h)) st;
          Return (st, true)
        else Return (st, false)
    | None => Return (st, false)
    end.

(** ** Deletions *)

(** [db.chat_delete] on rows of a verification run. *)
Definition delete_synthetic (ids : list string) (st : store) : store :=
  mkStore (filter (fun m => ~ (m_id m ∈ ids /\ is_source m = false)) (st_msgs st)) (st_head st) (st_rows st)
    (st_next st).

(** The coverage below which [chat_delete_uncovered_many] keeps rows. *)
Definition covered_through (st : store) : Z :=
  match st_head st with
  | None => 0
  | Some h =>
      if h_ts h =? 0 then h_watermark h
      else Z.max (h_watermark h)
             (max_or_0 (m_seq <$> filter (fun m => m_ts m <= h_ts h) (st_msgs st)))
  end.

Definition chat_delete_uncovered_many (ids : list string) (st : store) : store :=
  let covered := covered_through st in
  mkStore (filter (fun m => ~ (m_id m ∈ ids /\ covered < m_seq m)) (st_msgs st)) (st_head st) (st_rows st)
    (st_next st).

(** What [chat_clear] does to these tables. *)
Definition chat_clear (st : store) : store := mkStore [] None [] (st_next st).

(** ** Reading ([get_summary_frontier_state]) *)

Record frontier_state : Type := mkState {
  fs_envelope : option envelope;
  fs_ts : Z;
  fs_version : Z;
  fs_watermark : Z;
  fs_materialized : list Z;
  fs_segments : list srow;
  fs_first : Z;
  fs_count : Z;
}.

Definition translated_watermark (h : head) (st : store) : Z :=
  if (h_watermark h =? 0) && (0 <? h_ts h) && bool_decide (h_materialized h = [])
  then max_or_0 (m_seq <$> filter (fun m => m_ts m < h_ts h) (st_msgs st))
  else h_watermark h.

Definition opaque_through_of (rows : list srow) : Z :=
  foldr Z.max 0 (r_opaque <$> filter (fun r => String.eqb (r_kind r) "legacy_opaque" = true) rows).

Definition get_summary_frontier_state (st : store) : option frontier_state :=
  h ← st_head st;
  let wm := translated_watermark h st in
  let rows := canonical wm (st_rows st) in
  let src := if bool_decide (rows = []) then [] else sources (opaque_through_of rows) wm st in
  Some (mkState (h_envelope h) (h_ts h) (h_version h) wm (h_materialized h) rows (min_or_0 src) (Zlen src)).

(** ** Validated metadata ([serve_worker._summary_metadata_frontier]) *)

Definition ENCRYPTED_SENTINEL : pystr := u "<encrypted-summary-segment>".

Definition segment_of (t : pystr) (r : srow) : SummarySegment :=
  mkSegment (r_id r) (r_kind r) (r_level r) (r_start r) (r_end r) (r_count r) (r_opaque r) (r_children r) t.

Fixpoint map_outcome {A B} (f : A -> outcome B) (l : list A) : outcome (list B) :=
  match l with
  | [] => Return []
  | x :: t => y ← f x; r ← map_outcome f t; Return (y :: r)
  end.

Definition summary_metadata_frontier (s : frontier_state) : outcome (list SummarySegment) :=
  opened ← map_outcome (fun r => new_segment (segment_of ENCRYPTED_SENTINEL r)) (fs_segments s);
  validated ← validate_canonical_frontier opened (fs_watermark s) (fs_first s) (fs_count s);
  if bool_decide (segment_id <$> validated = fs_materialized s) then Return validated
  else integrity "materialized_head_provenance_mismatch".

(** A segment whose text is its own metadata. *)
Definition folded (s : SummarySegment) : outcome SummarySegment :=
  t ← deterministic_fold (source_message_count s) (opaque s);
  new_segment (mkSegment (segment_id s) (coverage_kind s) (level s) (start_seq s) (end_seq s)
                 (source_message_count s) (legacy_opaque_through_seq s) (child_segment_ids s) t).

(** [_read_summary_frontier_metadata], which seeds a pre-segmentation summary;
    reads and seeding see the same state. *)
Definition read_summary_frontier_metadata (st : store) : outcome (store * option SummaryFrontierSnapshot) :=
  match get_summary_frontier_state st with
  | None => Return (st, None)
  | Some s0 =>
      '(st, s) ←
        (if bool_decide (fs_segments s0 = []) && negb (falsy (fs_envelope s0)) then
           '(st, seeded) ← seed_legacy_summary_segment (fs_version s0) (fs_watermark s0) st;
           if (seeded : bool) then Return (st, get_summary_frontier_state st)
           else integrity "legacy_summary_seed_race"
         else Return (st, Some s0));
      match s with
      | None => Return (st, None)
      | Some s =>
          if bool_decide (fs_segments s = []) then Return (st, None)
          else
            metadata ← summary_metadata_frontier s;
            segs ← map_outcome folded metadata;
            snap ← new_snapshot (mkSnapshot segs (fs_version s) (fs_watermark s));
            Return (st, Some snap)
      end
  end.
End Store.
