(* ===== verification/SummaryLedger.v ===== *)
(** * The ledger of summary segments

    The segment table only grows, and the canonical cover is computed from it by
    range containment. [ledger next rows F] says that the rows are a forest whose
    roots, in order, are the cover [F]; it is kept by the two ways the table
    grows, and the containment query returns exactly [F]. *)

From S2P Require Import Prelude PyValue SummaryFrontier SummaryStore.
Local Open Scope Z_scope.

Module Ledger.
Import Frontier Store.

(** ** Rows *)

Lemma row_ok_kind r :
  row_ok r = true ->
  (r_kind r = "exact"%string /\ 0 < r_start r <= r_end r /\ 0 < r_count r /\ r_opaque r = 0) \/
  (r_kind r = "legacy_opaque"%string /\ r_start r = 0 /\ 0 <= r_opaque r <= r_end r /\ 0 <= r_count r).
Proof.
  unfold row_ok. intros H. apply andb_true_iff in H as [H _]. apply andb_true_iff in H as [_ H].
  apply orb_true_iff in H as [H|H]; bools; [left|right]; auto.
Qed.

Lemma row_ok_range r : row_ok r = true -> 0 <= r_start r <= r_end r /\ 0 <= r_opaque r <= r_end r /\ 0 <= r_count r.
Proof. intros [H|H]%row_ok_kind; lia. Qed.

Lemma row_ok_children r :
  row_ok r = true -> 0 <= r_level r /\ (r_level r = 0 -> r_children r = []) /\ (0 < r_level r -> r_children r <> []).
Proof.
  unfold row_ok. intros H. apply andb_true_iff in H as [H1 H2]. bools.
  apply orb_true_iff in H2 as [H2|H2]; bools; (split; [lia|split; [try done; lia|try done; lia]]).
Qed.

(** [p] stands for [c] in the cover. *)
Definition above (p c : srow) : Prop :=
  r_level c < r_level p /\ r_start p <= r_start c /\ r_end c <= r_end p.

Definition before (x y : srow) : Prop := r_end x < r_start y.

Lemma above_trans p q c : above p q -> above q c -> above p c.
Proof. unfold above. lia. Qed.

Lemma dominated_spec e c : dominated e c = true <-> exists p, p ∈ e /\ above p c.
Proof.
  unfold dominated. rewrite List.existsb_exists. split.
  - intros (p & Hp & H). apply list_elem_of_In in Hp. bools. by exists p.
  - intros (p & Hp & H1 & H2 & H3). exists p. split; [by apply list_elem_of_In|].
    apply andb_true_iff. split; [apply andb_true_iff; split|]; [by apply Z.ltb_lt|by apply Z.leb_le|by apply Z.leb_le].
Qed.

Lemma row_le_spec a b :
  row_le a b <-> r_start a < r_start b \/
                 (r_start a = r_start b /\ (r_end a < r_end b \/ (r_end a = r_end b /\ r_level b <= r_level a))).
Proof.
  unfold row_le. rewrite orb_true_iff, andb_true_iff, orb_true_iff, andb_true_iff.
  rewrite !Z.ltb_lt, !Z.eqb_eq, Z.leb_le. tauto.
Qed.

#[global] Instance row_le_trans : Transitive row_le.
Proof. intros a b c. rewrite !row_le_spec. lia. Qed.

#[global] Instance row_le_total : Total row_le.
Proof. intros a b. rewrite !row_le_spec. lia. Qed.

(** ** Ordered covers *)

Section Chain.
Context {F : list srow} (Hc : StronglySorted before F).

Lemma chain_split (P : srow -> Prop) `{!forall x, Decision (P x)} :
  (forall x y, x ∈ F -> y ∈ F -> before x y -> P x -> P y) ->
  F = filter (fun x => ~ P x) F ++ filter P F.
Proof using Hc.
  induction Hc as [|x l Hs IH Hx]; intros Hup; [done|]. rewrite !filter_cons.
  destruct (decide (P x)) as [Hp|Hn].
  - rewrite decide_False by tauto.
    assert (forall y, y ∈ l -> P y) as Hall.
    { intros y Hy. rewrite Forall_forall in Hx. eapply (Hup x y); [left|by right|by apply Hx|done]. }
    assert (filter (fun x => ~ P x) l = []) as ->.
    { apply filter_none. intros y Hy Hn. apply Hn. by apply Hall. }
    simpl. f_equal. by rewrite filter_all.
  - rewrite decide_True by done. simpl. f_equal. apply IH; [done|]. intros a b Ha Hb. apply Hup; by right.
Qed.
End Chain.

(** ** The forest of segments *)

Record ledger (next : Z) (rows F : list srow) : Prop := {
  l_pos : 0 < next;
  l_ids : NoDup (r_id <$> rows);
  l_next : forall r, r ∈ rows -> 0 < r_id r < next;
  l_rows : forall r, r ∈ rows -> row_ok r = true /\ NoDup (r_children r);
  l_in : forall f, f ∈ F -> f ∈ rows;
  l_chain : StronglySorted before F;
  l_below : forall r, r ∈ rows -> r ∈ F \/ exists f, f ∈ F /\ above f r;
  l_kids : forall p c, p ∈ rows -> c ∈ r_children p -> exists r, r ∈ rows /\ r_id r = c;
  l_roots : forall r, r ∈ rows -> (r ∈ F <-> forall p, p ∈ rows -> r_id r ∉ r_children p);
}.

Lemma ledger_nil next : 0 < next -> ledger next [] [].
Proof. intros H. split; try done; try (intros ? ?%elem_of_nil; done); [constructor|constructor|by intros ? ? ?%elem_of_nil]. Qed.

Lemma ledger_grow next next' rows F : ledger next rows F -> next <= next' -> ledger next' rows F.
Proof. intros [? ? Hn ? ? ? ? ? ?] Hle. split; try done; [lia|]. intros r Hr. specialize (Hn r Hr). lia. Qed.

Section Ledger.
Context {next : Z} {rows F : list srow} (L : ledger next rows F).

Lemma ledger_inj r r' : r ∈ rows -> r' ∈ rows -> r_id r = r_id r' -> r = r'.
Proof using L.
  intros Hr Hr' E. pose proof (l_ids _ _ _ L) as Hnd. revert Hnd Hr Hr'. clear L.
  induction rows as [|x l IH]; intros Hnd Hr Hr'; [by apply elem_of_nil in Hr|].
  rewrite fmap_cons in Hnd. apply NoDup_cons in Hnd as [Hx Hnd].
  apply elem_of_cons in Hr as [->|Hr], Hr' as [->|Hr']; [done| | |by apply IH].
  - exfalso. apply Hx. rewrite E. by apply list_elem_of_fmap_2.
  - exfalso. apply Hx. rewrite <- E. by apply list_elem_of_fmap_2.
Qed.

Lemma ledger_ids_eq (l k : list srow) :
  (forall r, r ∈ l -> r ∈ rows) -> (forall r, r ∈ k -> r ∈ rows) -> r_id <$> l = r_id <$> k -> l = k.
Proof using L.
  revert k. induction l as [|x l IH]; intros [|y k] Hl Hk E; try done.
  rewrite !fmap_cons in E. injection E as E1 E2. f_equal.
  - apply ledger_inj; [apply Hl; left|apply Hk; left|done].
  - apply IH; [intros r Hr; apply Hl; by right|intros r Hr; apply Hk; by right|done].
Qed.

Lemma ledger_ok f : f ∈ F -> row_ok f = true.
Proof using L. intros H. apply (l_rows _ _ _ L). by apply (l_in _ _ _ L). Qed.

Lemma cover_trichotomy f g : f ∈ F -> g ∈ F -> before f g \/ f = g \/ before g f.
Proof using L.
  intros Hf Hg. apply list_elem_of_lookup in Hf as [i Hi]. apply list_elem_of_lookup in Hg as [j Hj].
  pose proof (l_chain _ _ _ L) as Hc.
  destruct (decide (i < j)%nat); [left; by eapply elem_of_StronglySorted_lt|].
  destruct (decide (j < i)%nat); [right; right; by eapply elem_of_StronglySorted_lt|].
  right. left. assert (i = j) as -> by lia. rewrite Hi in Hj. by injection Hj.
Qed.

(** Overlapping segments of the cover are one. *)
Lemma cover_overlap f g : f ∈ F -> g ∈ F -> r_start g <= r_end f -> r_start f <= r_end g -> f = g.
Proof using L. intros Hf Hg H1 H2. destruct (cover_trichotomy f g Hf Hg) as [H|[H|H]]; unfold before in H; [lia|done|lia]. Qed.

Lemma cover_undominated f p : f ∈ F -> p ∈ rows -> ~ above p f.
Proof using L.
  intros Hf Hp Ha. destruct (row_ok_range f) as [Hrf _]; [by apply ledger_ok|].
  assert (exists g, g ∈ F /\ above g f) as (g & Hg & Hgf).
  { destruct (l_below _ _ _ L p Hp) as [H|(g & Hg & H)]; [by exists p|]. exists g. split; [done|]. by eapply above_trans. }
  destruct Hgf as (H1 & H2 & H3). assert (f = g) as -> by (apply cover_overlap; [done|done|lia|lia]). lia.
Qed.

Lemma cover_within wm : (forall f, f ∈ F -> r_end f <= wm) -> eligible wm rows = rows.
Proof using L.
  intros Hw. apply filter_all. intros r Hr. destruct (l_below _ _ _ L r Hr) as [H|(f & Hf & H)]; [by apply Hw|].
  specialize (Hw f Hf). unfold above in H. lia.
Qed.

Lemma cover_sorted : StronglySorted row_le F.
Proof using L.
  pose proof ledger_ok as Hok. pose proof (l_chain _ _ _ L) as Hc. clear L.
  induction Hc as [|x l Hs IH Hx]; constructor; [apply IH; intros f Hf; apply Hok; by right|].
  rewrite Forall_forall in Hx |- *. intros y Hy. specialize (Hx y Hy). unfold before in Hx.
  destruct (row_ok_range x) as [? _]; [apply Hok; left|]. apply row_le_spec. lia.
Qed.

Lemma cover_NoDup : NoDup F.
Proof using L.
  pose proof ledger_ok as Hok. pose proof (l_chain _ _ _ L) as Hc. clear L.
  induction Hc as [|x l Hs IH Hx]; constructor; [|apply IH; intros f Hf; apply Hok; by right].
  intros H. rewrite Forall_forall in Hx. specialize (Hx x H). unfold before in Hx.
  destruct (row_ok_range x) as [? _]; [apply Hok; left|]. lia.
Qed.

(** Sorting the members of a part of the cover yields that part. *)
Lemma sorted_part K l : K `sublist_of` F -> NoDup l -> (forall r, r ∈ l <-> r ∈ K) -> merge_sort row_le l = K.
Proof using L.
  intros HK Hnd Hl. assert (forall r, r ∈ K -> r ∈ F) as Hin.
  { intros r Hr. by eapply elem_of_submseteq; [|apply sublist_submseteq]. }
  assert (l ≡ₚ K) as Hp by (apply NoDup_Permutation; [done|by eapply sublist_NoDup; [apply cover_NoDup|]|done]).
  eapply StronglySorted_unique_strong;
    [|apply StronglySorted_merge_sort; apply _|eapply StronglySorted_sublist; [done|apply cover_sorted]|by rewrite merge_sort_Permutation].
  intros x y Hx Hy H1 H2. rewrite merge_sort_Permutation, Hp in Hx. apply row_le_spec in H1, H2.
  destruct (row_ok_range x) as [? _]; [by apply ledger_ok, Hin|]. destruct (row_ok_range y) as [? _]; [by apply ledger_ok, Hin|].
  apply cover_overlap; [by apply Hin|by apply Hin|lia|lia].
Qed.

Lemma sorted_cover l : NoDup l -> (forall r, r ∈ l <-> r ∈ F) -> merge_sort row_le l = F.
Proof using L. by apply sorted_part. Qed.

Lemma rows_filter_NoDup (P : srow -> Prop) `{!forall r, Decision (P r)} : NoDup (filter P rows).
Proof using L. apply NoDup_filter. by eapply NoDup_fmap_1, L. Qed.

(** The containment query returns the cover. *)
Lemma canonical_cover wm : (forall f, f ∈ F -> r_end f <= wm) -> canonical wm rows = F.
Proof using L.
  intros Hw. unfold canonical. rewrite (cover_within wm Hw). apply sorted_cover; [apply rows_filter_NoDup|].
  intros r. rewrite list_elem_of_filter. split.
  - intros [Hd Hr]. destruct (l_below _ _ _ L r Hr) as [?|(f & Hf & Ha)]; [done|]. exfalso.
    apply not_true_iff_false in Hd. apply Hd, dominated_spec. exists f. split; [by apply (l_in _ _ _ L)|done].
  - intros Hr. split; [|by apply (l_in _ _ _ L)]. apply not_true_iff_false. intros (p & Hp & Ha)%dominated_spec.
    by eapply cover_undominated.
Qed.
End Ledger.

(** ** The two ways the table grows *)

(** A leaf behind the cover. *)
Lemma ledger_snoc next rows F r :
  ledger next rows F -> r_id r = next -> row_ok r = true -> r_children r = [] ->
  (forall f, f ∈ F -> before f r) -> ledger (next + 1) (rows ++ [r]) (F ++ [r]).
Proof.
  intros L Hid Hok Hch Hbef.
  assert (forall x, x ∈ rows ++ [r] -> x ∈ rows \/ x = r) as Hin.
  { intros x [H|H%list_elem_of_singleton]%elem_of_app; auto. }
  assert (forall x, x ∈ rows -> r_id x <> r_id r) as Hnew.
  { intros x Hx. pose proof (l_next _ _ _ L x Hx). lia. }
  split.
  - pose proof (l_pos _ _ _ L). lia.
  - rewrite fmap_app. apply NoDup_app. split; [apply L|]. split; [|apply NoDup_singleton].
    intros i (x & -> & Hx)%list_elem_of_fmap Hi%list_elem_of_singleton. by eapply Hnew.
  - intros x [Hx| ->]%Hin; [pose proof (l_next _ _ _ L x Hx); lia|]. pose proof (l_pos _ _ _ L). lia.
  - intros x [Hx| ->]%Hin; [by apply (l_rows _ _ _ L)|]. split; [done|]. rewrite Hch. constructor.
  - intros f [Hf|Hf]%elem_of_app; apply elem_of_app; [left; by apply (l_in _ _ _ L)|by right].
  - apply StronglySorted_app_2; [|apply L|repeat constructor].
    intros x y Hx Hy%list_elem_of_singleton. subst y. by apply Hbef.
  - intros x [Hx| ->]%Hin; [|left; set_solver].
    destruct (l_below _ _ _ L x Hx) as [H|(f & Hf & H)]; [left; set_solver|right; exists f; set_solver].
  - intros p c [Hp| ->]%Hin Hc; [|rewrite Hch in Hc; by apply elem_of_nil in Hc].
    destruct (l_kids _ _ _ L p c Hp Hc) as (x & Hx & Hxc). exists x. set_solver.
  - intros x Hx. rewrite elem_of_app, list_elem_of_singleton. split.
    + intros Hf p [Hp| ->]%Hin; [|rewrite Hch; apply not_elem_of_nil].
      destruct Hf as [Hf| ->]; [by apply (l_roots _ _ _ L x (l_in _ _ _ L x Hf))|].
      intros Hc. destruct (l_kids _ _ _ L p _ Hp Hc) as (y & Hy & E). by eapply Hnew.
    + intros Hp. apply Hin in Hx as [Hx| ->]; [|by right]. left. apply (l_roots _ _ _ L x Hx).
      intros p Hpr. apply Hp. set_solver.
Qed.

(** The part of a cover inside a range is a run of it. *)
Lemma inside_run next rows F start end_ :
  ledger next rows F ->
  let kids := filter (fun r => start <= r_start r /\ r_end r <= end_) F in
  exists a b, F = a ++ kids ++ b /\
    (forall x, x ∈ a \/ x ∈ b -> ~ (start <= r_start x /\ r_end x <= end_)).
Proof.
  intros L kids. pose proof (l_chain _ _ _ L) as Hc.
  assert (forall f, f ∈ F -> r_start f <= r_end f) as Hr.
  { intros f Hf. destruct (row_ok_range f) as [? _]; [by eapply ledger_ok|lia]. }
  pose proof (chain_split Hc (fun r => start <= r_start r)) as E1.
  assert (F = filter (fun x => ~ start <= r_start x) F ++ filter (fun r => start <= r_start r) F) as E1'.
  { apply E1. intros x y Hx Hy Hb H. unfold before in Hb. specialize (Hr x Hx). lia. }
  clear E1. set (c := filter (fun r => start <= r_start r) F) in *.
  assert (StronglySorted before c) as Hcc.
  { rewrite E1' in Hc. by eapply StronglySorted_app_1_r. }
  assert (forall f, f ∈ c -> f ∈ F) as HcF. { intros f Hf. by apply list_elem_of_filter in Hf as [_ ?]. }
  pose proof (chain_split Hcc (fun r => end_ < r_end r)) as E2.
  assert (c = filter (fun x => ~ end_ < r_end x) c ++ filter (fun r => end_ < r_end r) c) as E2'.
  { apply E2. intros x y Hx Hy Hb H. unfold before in Hb. specialize (Hr y (HcF y Hy)). lia. }
  clear E2. assert (filter (fun x => ~ end_ < r_end x) c = kids) as Ek.
  { unfold c, kids. rewrite list_filter_filter. apply list_filter_iff. intros x. lia. }
  exists (filter (fun x => ~ start <= r_start x) F), (filter (fun r => end_ < r_end r) c).
  split; [rewrite <- Ek, <- E2'; exact E1'|].
  intros x [[H _]%list_elem_of_filter|[H _]%list_elem_of_filter]; lia.
Qed.

Lemma before_ends {start end_ kids k l x} :
  StronglySorted before (kids : list srow) -> kids = k :: x -> last kids = Some l ->
  (forall r, r ∈ kids -> r_start r <= r_end r) ->
  r_start k = start -> r_end l = end_ -> forall r, r ∈ kids -> start <= r_start r /\ r_end r <= end_.
Proof.
  intros Hs -> Hl Hok <- <- r Hr. split.
  - apply StronglySorted_inv in Hs as [_ Hx]. apply elem_of_cons in Hr as [->|Hr]; [lia|].
    rewrite Forall_forall in Hx. specialize (Hx r Hr). unfold before in Hx. specialize (Hok k ltac:(left)). lia.
  - apply last_Some in Hl as [l' E]. rewrite E in *. apply elem_of_app in Hr as [Hr|Hr%list_elem_of_singleton]; [|by subst].
    pose proof (StronglySorted_app_1_elem_of _ _ _ r l Hs Hr ltac:(by left)) as Hb. unfold before in Hb.
    specialize (Hok l ltac:(set_solver)). lia.
Qed.

(** A parent over a run of the cover. *)
Lemma ledger_parent next rows a kids b p k l :
  ledger next rows (a ++ kids ++ b) -> k ∈ kids -> l ∈ kids ->
  r_id p = next -> row_ok p = true -> NoDup (r_children p) -> r_children p = r_id <$> kids ->
  (forall r, r ∈ kids -> above p r) -> r_start p = r_start k -> r_end p = r_end l ->
  ledger (next + 1) (rows ++ [p]) (a ++ p :: b).
Proof.
  intros L Hk Hl Hid Hok Hnd Hch Hab Hs He.
  assert (forall x, x ∈ rows ++ [p] -> x ∈ rows \/ x = p) as Hin.
  { intros x [H|H%list_elem_of_singleton]%elem_of_app; auto. }
  assert (forall x, x ∈ rows -> r_id x <> r_id p) as Hnew.
  { intros x Hx. pose proof (l_next _ _ _ L x Hx). lia. }
  assert (forall f, f ∈ a ++ p :: b <-> f ∈ a \/ f ∈ b \/ f = p) as HF by set_solver.
  pose proof (cover_NoDup L) as HndF.
  apply NoDup_app in HndF as (_ & Hd1 & [_ [Hd2 _]]%NoDup_app).
  assert (forall x, x ∈ rows -> r_id x ∈ r_id <$> kids -> x ∈ kids) as Hkid.
  { intros x Hx (y & E & Hy)%list_elem_of_fmap. assert (x = y) as ->; [|done].
    eapply (ledger_inj L); [done|apply (l_in _ _ _ L); set_solver|done]. }
  split.
  - pose proof (l_pos _ _ _ L). lia.
  - rewrite fmap_app. apply NoDup_app. split; [apply L|]. split; [|apply NoDup_singleton].
    intros i (x & -> & Hx)%list_elem_of_fmap Hi%list_elem_of_singleton. by eapply Hnew.
  - intros x [Hx| ->]%Hin; [pose proof (l_next _ _ _ L x Hx); lia|]. pose proof (l_pos _ _ _ L). lia.
  - intros x [Hx| ->]%Hin; [by apply (l_rows _ _ _ L)|done].
  - intros f Hf%HF. apply elem_of_app. rewrite list_elem_of_singleton.
    destruct Hf as [Hf|[Hf| ->]]; [left; apply (l_in _ _ _ L); set_solver..|by right].
  - pose proof (l_chain _ _ _ L) as Hc. apply StronglySorted_app in Hc as (H1 & H2 & Hc).
    apply StronglySorted_app in Hc as (H3 & _ & H5). apply StronglySorted_app_2; [|done|].
    + intros x y Hx Hy. apply elem_of_cons in Hy as [->|Hy].
      * unfold before. rewrite Hs. apply (H1 x k Hx). set_solver.
      * apply H1; set_solver.
    + constructor; [done|]. apply Forall_forall. intros y Hy. unfold before. rewrite He. by apply (H3 l y).
  - intros x [Hx| ->]%Hin; [|left; set_solver].
    destruct (l_below _ _ _ L x Hx) as [H|(f & Hf & H)].
    + apply elem_of_app in H as [H|[H|H]%elem_of_app]; [left; set_solver| |left; set_solver].
      right. exists p. split; [set_solver|by apply Hab].
    + apply elem_of_app in Hf as [Hf|[Hf|Hf]%elem_of_app]; right; [by exists f; set_solver| |by exists f; set_solver].
      exists p. split; [set_solver|]. eapply above_trans; [by apply Hab|done].
  - intros q c [Hq| ->]%Hin Hc.
    + destruct (l_kids _ _ _ L q c Hq Hc) as (x & Hx & Hxc). exists x. set_solver.
    + rewrite Hch in Hc. apply list_elem_of_fmap in Hc as (x & -> & Hx). exists x. split; [|done].
      apply elem_of_app. left. apply (l_in _ _ _ L). set_solver.
  - intros x Hx. rewrite HF. split.
    + intros Hf q [Hq| ->]%Hin.
      * destruct Hf as [Hf|[Hf| ->]].
        -- apply (l_roots _ _ _ L); [apply (l_in _ _ _ L); set_solver|set_solver|done].
        -- apply (l_roots _ _ _ L); [apply (l_in _ _ _ L); set_solver|set_solver|done].
        -- intros Hc. destruct (l_kids _ _ _ L q _ Hq Hc) as (y & Hy & E). by eapply Hnew.
      * rewrite Hch. intros Hc. destruct Hf as [Hf|[Hf| ->]].
        -- apply (Hd1 x Hf). apply elem_of_app. left. apply Hkid; [apply (l_in _ _ _ L); set_solver|done].
        -- apply (Hd2 x); [apply Hkid; [apply (l_in _ _ _ L); set_solver|done]|done].
        -- apply list_elem_of_fmap in Hc as (y & E & Hy). eapply (Hnew y); [apply (l_in _ _ _ L); set_solver|done].
    + intros Hp. apply Hin in Hx as [Hx| ->]; [|by auto].
      assert (x ∈ a ++ kids ++ b) as Hf.
      { apply (l_roots _ _ _ L x Hx). intros q Hq. apply Hp. set_solver. }
      apply elem_of_app in Hf as [Hf|[Hf|Hf]%elem_of_app]; [by auto| |by auto].
      exfalso. apply (Hp p); [set_solver|]. rewrite Hch. by apply list_elem_of_fmap_2.
Qed.
End Ledger.
