(* ===== verification/SummarySafety.v ===== *)
(** * Guarantees of the summary store

    The transactions of one user's summary, in any order, implement an abstract
    cover: a list of segments that a leaf extends, a checkpoint folds a run of,
    and a clear empties. In every reachable state the containment query returns
    that cover, the cover accounts for every covered chat row, and the read path
    accepts it. *)

From S2P Require Import Prelude PyValue SummaryFrontier SummaryStore SummaryLedger.
Local Open Scope Z_scope.

Module SummarySafety.
Import Frontier Store Ledger.

(** ** Transactions *)

(** A new chat row carries a sequence number beyond everything seen: numbers are
    allocated by an increasing identity and a user's rows commit in that order. *)
Definition fresh (m : message) (st : store) : Prop :=
  0 < m_seq m /\ (forall x, x ∈ st_msgs st -> m_seq x < m_seq m) /\
  (forall h, st_head st = Some h -> h_watermark h < m_seq m).

Definition add_message (m : message) (st : store) : store :=
  mkStore (st_msgs st ++ [m]) (st_head st) (st_rows st) (st_next st).

(** Other users take identities. *)
Definition skip_ids (n : Z) (st : store) : store :=
  mkStore (st_msgs st) (st_head st) (st_rows st) (st_next st + n).

Inductive op : Type :=
| Quiet
| Cleared
| Leaf (ok : bool) (start end_ count : Z) (env : envelope)
| Seeded (ok : bool)
| Checkpoint (ok : bool) (level_ start end_ count : Z) (child_ids : list Z) (coverage : string) (opaque_through : Z)
    (env : envelope).

(** The writer of a leaf passes the watermark it read with the version. *)
Definition told_watermark (previous : Z) (st : store) : Prop :=
  st_rows st <> [] -> forall h, st_head st = Some h -> previous = h_watermark h.

Inductive sstep : op -> store -> store -> Prop :=
| s_message m st : fresh m st -> sstep Quiet st (add_message m st)
| s_ids n st : 0 <= n -> sstep Quiet st (skip_ids n st)
| s_synthetic ids st : sstep Quiet st (delete_synthetic ids st)
| s_uncovered ids st : sstep Quiet st (chat_delete_uncovered_many ids st)
| s_clear st : sstep Cleared st (chat_clear st)
| s_upsert env ts expected wm req st st' ok :
    (forall z, wm = Some z -> 0 <= z) ->
    upsert_summary_row_cas env ts expected wm req st = Return (st', ok) -> sstep Quiet st st'
| s_seed expected translated st st' ok :
    seed_legacy_summary_segment expected translated st = Return (st', ok) ->
    sstep (Seeded (ok && bool_decide (st_rows st = []))) st st'
| s_leaf env head_env start end_ count ts expected previous st st' ok :
    told_watermark previous st ->
    append_summary_leaf_cas env head_env start end_ count ts expected previous st = Return (st', ok) ->
    sstep (Leaf ok start end_ count env) st st'
| s_checkpoint env head_env level_ start end_ count ids expected wm coverage op_through st st' ok :
    insert_summary_checkpoint env head_env level_ start end_ count ids expected wm coverage op_through st
    = Return (st', ok) ->
    sstep (Checkpoint ok level_ start end_ count ids coverage op_through env) st st'.

Definition empty_store : store := mkStore [] None [] 1.

Inductive reachable : store -> Prop :=
| reach_init : reachable empty_store
| reach_step o st st' : reachable st -> sstep o st st' -> reachable st'.

(** ** The abstract cover *)

(** The ids given to new segments are not part of the specification. *)
Inductive astep : op -> list srow -> list srow -> Prop :=
| a_quiet F : astep Quiet F F
| a_clear F : astep Cleared F []
| a_refused_leaf start end_ count env F : astep (Leaf false start end_ count env) F F
| a_leaf start end_ count env id F :
    (forall f, f ∈ F -> r_end f < start) ->
    astep (Leaf true start end_ count env) F (F ++ [leaf_row start end_ count env id])
| a_first_leaf start end_ count env id id' through old :
    through < start ->
    astep (Leaf true start end_ count env) [] [legacy_row through old id; leaf_row start end_ count env id']
| a_unseeded F : astep (Seeded false) F F
| a_seeded through old id : astep (Seeded true) [] [legacy_row through old id]
| a_refused_checkpoint l s e c ids cov o env F : astep (Checkpoint false l s e c ids cov o env) F F
| a_checkpoint l s e c cov o env id a k kids b :
    s = r_start k -> e = r_end (List.last kids k) ->
    c = sumZ (r_count <$> k :: kids) -> (forall r, r ∈ k :: kids -> r_level r < l) ->
    astep (Checkpoint true l s e c (r_id <$> k :: kids) cov o env)
      (a ++ (k :: kids) ++ b) (a ++ parent_row l s e c (r_id <$> k :: kids) cov o env id :: b).

(** ** The invariant *)

Definition opaque_of (F : list srow) : Z := foldr Z.max 0 (r_opaque <$> F).

Definition is_min (z : Z) (l : list Z) : Prop := z ∈ l /\ forall x, x ∈ l -> z <= x.

(** The head names the cover, which ends at its watermark and counts the rows
    between the opaque part and the watermark. *)
Record witnessed (st : store) (F : list srow) (h : head) : Prop := {
  w_version : 0 < h_version h;
  w_watermark : 0 <= h_watermark h;
  w_materialized : h_materialized h = r_id <$> F;
  w_end : forall l, last F = Some l -> r_end l = h_watermark h;
  w_count : F <> [] -> sumZ (r_count <$> F) = Zlen (sources (opaque_of F) (h_watermark h) st);
  w_first : forall f t, F = f :: t -> r_kind f = "exact"%string ->
              is_min (r_start f) (sources 0 (h_watermark h) st);
}.

Record covers (st : store) (F : list srow) : Prop := {
  c_ledger : ledger (st_next st) (st_rows st) F;
  c_msgs : forall m, m ∈ st_msgs st -> 0 < m_seq m;
  c_none : st_head st = None -> st_rows st = [];
  c_some : forall h, st_head st = Some h -> witnessed st F h;
}.

Definition wm_of (st : store) : Z := match st_head st with Some h => h_watermark h | None => 0 end.

(** The cover as the store's readers compute it. *)
Definition cover (st : store) : list srow := canonical (wm_of st) (st_rows st).

Lemma rows_nil_cover next rows F : ledger next rows F -> rows = [] -> F = [].
Proof. intros L ->. destruct F as [|f F]; [done|]. pose proof (l_in _ _ _ L f ltac:(left)) as H. by apply elem_of_nil in H. Qed.

Lemma cover_nil_rows next rows F : ledger next rows F -> F = [] -> rows = [].
Proof.
  intros L ->. destruct rows as [|r rows]; [done|].
  destruct (l_below _ _ _ L r ltac:(left)) as [H|(f & H & _)]; by apply elem_of_nil in H.
Qed.

Lemma chain_last F l : StronglySorted before F -> (forall f, f ∈ F -> row_ok f = true) -> last F = Some l ->
  forall f, f ∈ F -> r_end f <= r_end l.
Proof.
  intros Hs Hok Hl f Hf. apply last_Some in Hl as [l' ->]. apply elem_of_app in Hf as [Hf|Hf%list_elem_of_singleton]; [|by subst].
  pose proof (StronglySorted_app_1_elem_of _ _ _ f l Hs Hf ltac:(by left)) as Hb. unfold before in Hb.
  destruct (row_ok_range l) as [? _]; [apply Hok; set_solver|lia].
Qed.

Lemma covers_end st F h : covers st F -> st_head st = Some h -> forall f, f ∈ F -> r_end f <= h_watermark h.
Proof.
  intros C Hh f Hf. destruct (last F) as [l|] eqn:El; [|apply last_None in El; subst F; by apply elem_of_nil in Hf].
  rewrite <- (w_end _ _ _ (c_some _ _ C h Hh) l El).
  eapply chain_last; [apply C|apply (ledger_ok (c_ledger _ _ C))|done|done].
Qed.

Lemma covers_cover st F : covers st F -> cover st = F.
Proof.
  intros C. unfold cover, wm_of. apply (canonical_cover (c_ledger _ _ C)). intros f Hf.
  destruct (st_head st) as [h|] eqn:Eh; [by eapply covers_end|].
  rewrite (rows_nil_cover _ _ _ (c_ledger _ _ C) (c_none _ _ C Eh)) in Hf. by apply elem_of_nil in Hf.
Qed.

(** ** Counting sources *)

Lemma elem_sources z lo hi st :
  z ∈ sources lo hi st <-> exists m, m ∈ st_msgs st /\ is_source m = true /\ m_seq m = z /\ lo < z <= hi.
Proof.
  unfold sources. rewrite list_elem_of_fmap. setoid_rewrite list_elem_of_filter. split.
  - intros (m & -> & H & Hm). bools. exists m. repeat split; try done; lia.
  - intros (m & Hm & Hs & <- & Hz). exists m. split; [done|]. split; [|done].
    rewrite Hs. apply andb_true_iff. split; [apply andb_true_iff; split; [done|apply Z.ltb_lt; lia]|apply Z.leb_le; lia].
Qed.

Lemma sources_split lo mid hi st :
  lo <= mid <= hi -> Zlen (sources lo hi st) = Zlen (sources lo mid st) + Zlen (sources mid hi st).
Proof.
  intros H. unfold sources. induction (st_msgs st) as [|m l IH]; [done|]. rewrite !filter_cons.
  destruct (is_source m); cbn [andb]; [|done].
  destruct (Z.ltb_spec lo (m_seq m)), (Z.leb_spec (m_seq m) hi), (Z.leb_spec (m_seq m) mid), (Z.ltb_spec mid (m_seq m));
    try lia; cbn [andb]; repeat case_decide; try congruence; rewrite ?fmap_cons, ?Zlen_cons; lia.
Qed.

Lemma min_or_0_spec l : l <> [] -> is_min (min_or_0 l) l.
Proof.
  destruct l as [|x l]; [done|]. intros _. simpl. revert x. induction l as [|y l IH]; intros x; simpl.
  - split; [left|]. intros z Hz%list_elem_of_singleton. lia.
  - destruct (IH (Z.min x y)) as [H1 H2]. split.
    + apply elem_of_cons in H1 as [->|H1]; [|set_solver]. destruct (Z.min_spec x y) as [[_ ->]|[_ ->]]; set_solver.
    + intros z Hz. pose proof (H2 (Z.min x y) ltac:(left)).
      apply elem_of_cons in Hz as [->|[->|Hz]%elem_of_cons]; [lia|lia|]. apply H2. by right.
Qed.

Lemma max_or_0_nonneg l : Forall (fun x => 0 <= x) l -> max_or_0 l = foldr Z.max 0 l.
Proof.
  destruct l as [|x l]; [done|]. simpl. revert x. induction l as [|y l IH]; intros x H; simpl.
  - inversion H. lia.
  - inversion H as [|? ? Hx H']. inversion H' as [|? ? Hy H'']; subst. rewrite IH by (constructor; [lia|done]). lia.
Qed.

Lemma foldr_max_app l k : foldr Z.max 0 (l ++ k) = Z.max (foldr Z.max 0 l) (foldr Z.max 0 k).
Proof.
  induction l as [|x l IH]; cbn [app foldr]; [|lia].
  assert (0 <= foldr Z.max 0 k); [|lia]. induction k; cbn [foldr]; lia.
Qed.

Lemma opaque_of_app l k : opaque_of (l ++ k) = Z.max (opaque_of l) (opaque_of k).
Proof. unfold opaque_of. by rewrite fmap_app, foldr_max_app. Qed.

Lemma opaque_of_nonneg F : 0 <= opaque_of F.
Proof. unfold opaque_of. induction (r_opaque <$> F); cbn [foldr]; lia. Qed.

Lemma opaque_of_bound F wm : 0 <= wm -> (forall f, f ∈ F -> row_ok f = true /\ r_end f <= wm) -> opaque_of F <= wm.
Proof.
  intros Hw. unfold opaque_of. induction F as [|f F IH]; intros H; [done|]. rewrite fmap_cons. cbn [foldr].
  destruct (H f ltac:(left)) as [Hok He]. destruct (row_ok_range f Hok) as (_ & ? & _).
  specialize (IH (fun g Hg => H g ltac:(by right))). lia.
Qed.

(** ** Preservation *)

Lemma covers_init : covers empty_store [].
Proof. split; [by apply ledger_nil|by intros m ?%elem_of_nil|done|done]. Qed.

(** A transaction that leaves head, rows and covered sources. *)
Lemma covers_quiet st st' F :
  covers st F -> st_head st' = st_head st -> st_rows st' = st_rows st -> st_next st <= st_next st' ->
  (forall m, m ∈ st_msgs st' -> 0 < m_seq m) ->
  (forall h lo, st_head st = Some h -> sources lo (h_watermark h) st' = sources lo (h_watermark h) st) ->
  covers st' F.
Proof.
  intros [L Hm Hn Hs] Eh Er En Hm' Hsrc. split.
  - rewrite Er. by eapply ledger_grow.
  - done.
  - rewrite Eh, Er. done.
  - intros h Hh. rewrite Eh in Hh. destruct (Hs h Hh) as [V W M E C Fi].
    split; try done; [intros HF; rewrite Hsrc by done; by apply C|].
    intros f t HF Hk. rewrite Hsrc by done. by eapply Fi.
Qed.

Lemma covers_message m st F : covers st F -> fresh m st -> covers (add_message m st) F.
Proof.
  intros C (Hpos & _ & Hw). eapply covers_quiet; [exact C|done|done|simpl; lia| |].
  - intros x [Hx|Hx%list_elem_of_singleton]%elem_of_app; [by apply (c_msgs _ _ C)|by subst].
  - intros h lo Hh. specialize (Hw h Hh). unfold sources. simpl. rewrite filter_app, (filter_none _ [m]), app_nil_r; [done|].
    intros x Hx%list_elem_of_singleton Hb. subst x. bools. lia.
Qed.

Lemma covers_delete (keep : message -> Prop) `{!forall m, Decision (keep m)} st F :
  covers st F ->
  (forall h m, st_head st = Some h -> m ∈ st_msgs st -> is_source m = true -> m_seq m <= h_watermark h -> keep m) ->
  covers (mkStore (filter keep (st_msgs st)) (st_head st) (st_rows st) (st_next st)) F.
Proof.
  intros C Hk. eapply covers_quiet; [exact C|done|done|simpl; lia| |].
  - intros x [_ Hx]%list_elem_of_filter. by apply (c_msgs _ _ C).
  - intros h lo Hh. unfold sources. simpl. f_equal. specialize (Hk h). clear C.
    induction (st_msgs st) as [|m l IH]; [done|]. rewrite !filter_cons.
    assert (forall m', Some h = Some h -> m' ∈ l -> is_source m' = true -> m_seq m' <= h_watermark h -> keep m') as Hk'.
    { intros m' _ Hm. apply Hk; [done|by right]. }
    rewrite Hh in IH. specialize (IH (fun m' _ => Hk' m' eq_refl)).
    destruct (decide (keep m)) as [Hy|Hn]; [rewrite filter_cons; case_decide; [by rewrite IH|done]|].
    rewrite IH, decide_False; [done|]. intros Hb. bools. apply Hn. by apply Hk; [|left| |].
Qed.

Lemma covers_synthetic ids st F : covers st F -> covers (delete_synthetic ids st) F.
Proof. intros C. apply covers_delete; [done|]. intros h m _ _ Hs _ [_ Hn]. congruence. Qed.

Lemma covers_uncovered ids st F : covers st F -> covers (chat_delete_uncovered_many ids st) F.
Proof.
  intros C. apply covers_delete; [done|]. intros h m Hh _ _ Hw [_ Hn]. unfold covered_through in Hn. rewrite Hh in Hn.
  destruct (h_ts h =? 0); lia.
Qed.

Lemma covers_clear st F : covers st F -> covers (chat_clear st) [].
Proof.
  intros C. split; [apply ledger_nil; simpl; apply (l_pos _ _ _ (c_ledger _ _ C))|by intros m ?%elem_of_nil|done|done].
Qed.

(** A head over an empty segment table. *)
Lemma covers_blob st h :
  covers st [] -> 0 < h_version h -> 0 <= h_watermark h -> h_materialized h = [] -> covers (with_head h st) [].
Proof.
  intros C V W M. split; [apply C|apply C|done|]. intros h' [= <-]. split; try done.
Qed.

Lemma update_head_return h' st st' : update_head h' st = Return st' -> st_head st <> None -> st' = with_head h' st.
Proof. unfold update_head. destruct (st_head st); [|done]. case_goal; [done|]. by intros [= <-]. Qed.

(** A segmented head cannot move without naming a new cover. *)
Lemma update_head_guard h' h st st' :
  st_head st = Some h -> update_head h' st = Return st' -> h_version h' <> h_version h ->
  h_materialized h' = h_materialized h -> st_rows st = [].
Proof.
  unfold update_head. intros ->. case_goal; [done|]. intros _ Hv Hm.
  destruct (decide (st_rows st = [])); [done|]. exfalso. apply not_true_iff_false in E. apply E.
  apply andb_true_iff. split; [apply andb_true_iff; split|]; [by rewrite bool_decide_false| |by rewrite bool_decide_true].
  by apply negb_true_iff, Z.eqb_neq.
Qed.

Lemma covers_upsert env ts expected wm req st st' ok F :
  covers st F -> (forall z, wm = Some z -> 0 <= z) ->
  upsert_summary_row_cas env ts expected wm req st = Return (st', ok) -> covers st' F.
Proof.
  intros C Hwm. unfold upsert_summary_row_cas.
  destruct (req && match wm with _ => _ end); [by intros [= <- _]|].
  destruct (req && negb _); [by intros [= <- _]|].
  assert (0 <= default 0 wm) as Hd. { destruct wm as [z|]; simpl; [by apply Hwm|lia]. }
  destruct (expected =? 0); (destruct (st_head st) as [h|] eqn:Eh).
  - by intros [= <- _].
  - intros [= <- _]. pose proof (rows_nil_cover _ _ _ (c_ledger _ _ C) (c_none _ _ C Eh)) as ->. by apply covers_blob.
  - destruct (h_version h =? expected); [|by intros [= <- _]]. intros (st1 & Hu & [= -> _])%bind_return.
    destruct (c_some _ _ C h Eh) as [V W M _ _ _].
    pose proof (update_head_guard _ _ _ _ Eh Hu ltac:(simpl; lia) eq_refl) as Hr.
    pose proof (rows_nil_cover _ _ _ (c_ledger _ _ C) Hr) as ->.
    apply update_head_return in Hu as ->; [|by rewrite Eh]. apply covers_blob; [done|simpl; lia| |done].
    simpl. destruct wm as [z|]; simpl; [by apply Hwm|done].
  - by intros [= <- _].
Qed.

Lemma insert_row_return mk st id st' :
  insert_row mk st = Return (id, st') -> id = st_next st /\ st' = push_row (mk id) st /\ row_ok (mk id) = true.
Proof.
  unfold insert_row. destruct (row_ok (mk (st_next st))) eqn:E; simpl; [|done].
  case_goal; [done|]. by intros [= <- <-].
Qed.

Lemma sources_nil lo hi st : hi <= lo -> sources lo hi st = [].
Proof.
  intros H. destruct (sources lo hi st) as [|z l] eqn:E; [done|]. exfalso.
  assert (z ∈ sources lo hi st) as Hz by (rewrite E; left). apply elem_sources in Hz as (_ & _ & _ & _ & Hz). lia.
Qed.

Lemma covers_seed expected translated st st' ok F :
  covers st F -> seed_legacy_summary_segment expected translated st = Return (st', ok) ->
  exists F', covers st' F' /\ astep (Seeded (ok && bool_decide (st_rows st = []))) F F'.
Proof.
  intros C. unfold seed_legacy_summary_segment. destruct ((expected <=? 0) || _) eqn:Ea; [done|]. bools.
  assert (st' = st -> ok && bool_decide (st_rows st = []) = false ->
          exists F', covers st' F' /\ astep (Seeded (ok && bool_decide (st_rows st = []))) F F') as Hstay.
  { intros -> ->. exists F. split; [done|constructor]. }
  destruct (st_head st) as [h|] eqn:Eh; [|by intros [= <- <-]; apply Hstay].
  destruct (c_some _ _ C h Eh) as [V W M _ _ _].
  destruct (bool_decide (st_rows st = [])) eqn:Er; simpl negb; [|intros [= <- <-]; apply Hstay; [done|by rewrite andb_false_r]].
  apply bool_decide_eq_true in Er. pose proof (rows_nil_cover _ _ _ (c_ledger _ _ C) Er) as ->.
  destruct (negb (h_version h =? expected) || _ || _); [by intros [= <- <-]; apply Hstay|].
  destruct (negb _) eqn:Ew; [by intros [= <- <-]; apply Hstay|].
  intros ([id st1] & Hi & (st2 & Hu & [= <- <-])%bind_return)%bind_return. clear Hstay.
  apply insert_row_return in Hi as (-> & -> & Hok).
  apply update_head_return in Hu as ->; [|simpl; by rewrite Eh].
  set (r := legacy_row _ _ _) in *. exists [r]. split; [|constructor].
  assert (ledger (st_next st + 1) (st_rows st ++ [r]) ([] ++ [r])) as L.
  { apply ledger_snoc; [apply C|done|done|done|by intros f ?%elem_of_nil]. }
  split; [exact L|apply C|done|]. intros h' [= <-]. split; simpl; try lia; try done.
  - intros l [= <-]. done.
  - intros _. rewrite sources_nil; [done|]. unfold opaque_of. simpl. lia.
  - intros f t [= <- _] Hk. discriminate Hk.
Qed.

(** A leaf behind a cover that accounts for everything up to [previous]. *)
Lemma covers_leaf st F h start end_ count env previous :
  ledger (st_next st) (st_rows st) F -> (forall m, m ∈ st_msgs st -> 0 < m_seq m) ->
  0 < start <= end_ -> 0 < count -> 0 <= previous < start ->
  min_or_0 (sources previous end_ st) = start -> max_or_0 (sources previous end_ st) = end_ ->
  Zlen (sources previous end_ st) = count ->
  (forall f, f ∈ F -> r_end f < start) -> (F = [] -> previous = 0) ->
  (F <> [] -> sumZ (r_count <$> F) + count = Zlen (sources (opaque_of F) end_ st)) ->
  (forall f t, F = f :: t -> r_kind f = "exact"%string -> is_min (r_start f) (sources 0 end_ st)) ->
  let r := leaf_row start end_ count env (st_next st) in
  0 < h_version h -> h_watermark h = end_ -> h_materialized h = r_id <$> F ++ [r] ->
  row_ok r = true ->
  covers (with_head h (push_row r st)) (F ++ [r]).
Proof.
  intros L Hm Hse Hcn Hp Hmin Hmax Hlen Hbef Hp0 Hcnt Hfirst r V Hw M Hok.
  assert (ledger (st_next st + 1) (st_rows st ++ [r]) (F ++ [r])) as L'.
  { apply ledger_snoc; try done. }
  split; [exact L'|exact Hm|done|]. intros h' [= <-]. split; [done|lia|done| | |].
  - intros l. rewrite last_snoc. by intros [= <-].
  - intros _. change (sources ?a ?b (with_head h (push_row r st))) with (sources a b st). rewrite Hw.
    rewrite fmap_app, sumZ_app, opaque_of_app. cbn [r_count leaf_row fmap list_fmap sumZ foldr].
    change (opaque_of [r]) with 0. pose proof (opaque_of_nonneg F). rewrite Z.max_l by lia.
    destruct F as [|f F]; [|specialize (Hcnt ltac:(done)); unfold sumZ in *; simpl in *; lia].
    rewrite (Hp0 eq_refl) in Hlen. unfold opaque_of. simpl. unfold sumZ. simpl. lia.
  - intros f t HF Hk. rewrite Hw. change (sources ?a ?b (with_head h (push_row r st))) with (sources a b st).
    destruct F as [|f' F]; [|injection HF as <- _; by eapply Hfirst].
    injection HF as <- _. simpl. rewrite (Hp0 eq_refl) in Hmin. rewrite <- Hmin. apply min_or_0_spec.
    intros E. rewrite E in Hmin. simpl in Hmin. lia.
Qed.

(** Sources beyond a frontier that all lie beyond [start]. *)
Lemma sources_from previous low start end_ st :
  previous <= low < start -> (forall x, x ∈ sources previous end_ st -> start <= x) -> start <= end_ ->
  Zlen (sources low end_ st) = Zlen (sources previous end_ st).
Proof.
  intros Hp Hx He. rewrite (sources_split previous low end_) by lia.
  assert (sources previous low st = []) as ->; [|done].
  destruct (sources previous low st) as [|z l] eqn:E; [done|]. exfalso.
  assert (z ∈ sources previous low st) as Hz by (rewrite E; left).
  apply elem_sources in Hz as (m & Hm & Hs & Hz & Hr). specialize (Hx z).
  assert (start <= z); [|lia]. apply Hx. apply elem_sources. exists m. repeat split; try done; lia.
Qed.

(** The result of the leaf transaction past its fences, given the cover it
    extends. *)
Lemma append_onto st F start end_ count ts env compat st' ok h :
  ledger (st_next st) (st_rows st) F ->
  (forall r, row_ok r = true -> r = leaf_row start end_ count env (st_next st) ->
     forall h', 0 < h_version h' -> h_watermark h' = end_ -> h_materialized h' = r_id <$> F ++ [r] ->
     covers (with_head h' (push_row r st)) (F ++ [r])) ->
  (forall f, f ∈ F -> r_end f < start) -> start <= end_ -> st_head st = h -> (forall h0, h = Some h0 -> 0 < h_version h0) ->
  ('(leaf_id, st2) ← insert_row (leaf_row start end_ count env) st;
   if negb (bool_decide (last (r_id <$> canonical end_ (st_rows st2)) = Some leaf_id))
   then Raise (RuntimeError "new summary leaf is not canonical")
   else match st_head st2 with
        | None => Return (with_head (mkHead (Some compat) ts 1 end_ (r_id <$> canonical end_ (st_rows st2))) st2, true)
        | Some h =>
            st3 ← update_head (mkHead (Some compat) ts (h_version h + 1) end_
                                 (r_id <$> canonical end_ (st_rows st2))) st2;
            Return (st3, true)
        end) = Return (st', ok) ->
  ok = true /\ covers st' (F ++ [leaf_row start end_ count env (st_next st)]).
Proof.
  intros L Hc Hbef He Eh Hv ([id st2] & Hi & H)%bind_return.
  apply insert_row_return in Hi as (-> & -> & Hok). set (r := leaf_row start end_ count env (st_next st)) in *.
  assert (canonical end_ (st_rows (push_row r st)) = F ++ [r]) as Hcan.
  { apply (canonical_cover (next := st_next st + 1)); [by apply ledger_snoc|].
    intros f [Hf|Hf%list_elem_of_singleton]%elem_of_app; [specialize (Hbef f Hf); lia|by subst]. }
  rewrite Hcan in H. destruct (negb _) in H; [done|].
  change (st_head (push_row r st)) with (st_head st) in H. rewrite Eh in H. destruct h as [h|].
  - apply bind_return in H as (st3 & Hu & [= <- <-]). split; [done|].
    apply update_head_return in Hu as ->; [|simpl; by rewrite Eh]. apply (Hc r Hok eq_refl); try done.
    specialize (Hv h eq_refl). simpl. lia.
  - injection H as <- <-. split; [done|]. by apply (Hc r Hok eq_refl).
Qed.

Lemma covers_append env head_env start end_ count ts expected previous st st' ok F :
  covers st F -> told_watermark previous st ->
  append_summary_leaf_cas env head_env start end_ count ts expected previous st = Return (st', ok) ->
  exists F', covers st' F' /\ astep (Leaf ok start end_ count env) F F'.
Proof.
  intros C Htold. unfold append_summary_leaf_cas.
  set (compat := if falsy head_env then env else default [] head_env).
  destruct (_ || (previous <? 0)) eqn:Ea; [done|]. destruct ((0 <? previous) && _) eqn:Eb; [done|]. bools.
  assert (previous < start) as Hps.
  { destruct (Z.ltb_spec 0 previous); [|lia]. simpl in Eb. bools. lia. }
  assert (st' = st -> ok = false -> exists F', covers st' F' /\ astep (Leaf ok start end_ count env) F F') as Hstay.
  { intros -> ->. exists F. split; [done|constructor]. }
  destruct (leaf_fence expected previous st) eqn:Ef; simpl negb; [|by intros [= <- <-]; apply Hstay].
  destruct (negb (min_or_0 _ =? start) || _ || _) eqn:Es; [by intros [= <- <-]; apply Hstay|]. bools.
  intros (bound & Hbd & Hrun)%bind_return. destruct bound as [st1|]; [|by injection Hrun as <- <-; apply Hstay].
  clear Hstay. pose proof (c_ledger _ _ C) as L.
  assert (sources previous end_ st <> []) as Hne. { intros E. rewrite E in *. simpl in *. lia. }
  pose proof (min_or_0_spec _ Hne) as [_ Hmin].
  match goal with X : min_or_0 _ = start |- _ => rewrite X in Hmin end.
  assert (0 < count) as Hcnt. { lia. }
  destruct (decide (st_rows st = [])) as [Hr|Hr].
  - pose proof (rows_nil_cover _ _ _ L Hr) as ->. destruct (st_head st) as [h|] eqn:Eh.
    + unfold bind_legacy in Hbd. rewrite Hr, Eh in Hbd. destruct (h_envelope h) as [[|x e]|]; [done| |done].
      apply bind_return in Hbd as ([lid st0] & Hi & [= ->]). apply insert_row_return in Hi as (-> & -> & Hok).
      set (low := if 0 <? previous then previous else Z.max 0 (start - 1)) in *.
      assert (previous <= low < start) as Hlow. { unfold low. destruct (Z.ltb_spec 0 previous); lia. }
      set (r0 := legacy_row low (x :: e) (st_next st)) in *.
      assert (ledger (st_next st + 1) (st_rows st ++ [r0]) ([] ++ [r0])) as L0.
      { apply ledger_snoc; [done|done|done|done|by intros f ?%elem_of_nil]. }
      assert (opaque_of [r0] = low) as Ho. { unfold opaque_of. simpl. lia. }
      assert (forall f, f ∈ [r0] -> r_end f < start) as Hb0.
      { intros f Hf%list_elem_of_singleton. subst f. simpl. lia. }
      destruct (append_onto (push_row r0 st) [r0] start end_ count ts env compat st' ok (Some h)) as [-> HC]; try done; try lia.
      * intros r Hrok -> h' Hv' Hw' Hm'. eapply (covers_leaf (push_row r0 st) [r0]); try done; try lia.
        -- apply (c_msgs _ _ C).
        -- intros _. rewrite Ho. change (sources low end_ (push_row r0 st)) with (sources low end_ st).
           rewrite (sources_from previous low start end_); [|lia|done|lia]. simpl. unfold sumZ. simpl. lia.
        -- intros f t [= <- _] Hk. discriminate Hk.
      * intros h0 [= <-]. apply (w_version _ _ _ (c_some _ _ C h Eh)).
      * eexists. split; [exact HC|]. apply a_first_leaf. lia.
    + assert (bound_eq : st1 = st). { unfold bind_legacy in Hbd. rewrite Hr, Eh in Hbd. by injection Hbd. }
      subst st1. unfold leaf_fence in Ef. rewrite Eh in Ef. bools.
      destruct (append_onto st [] start end_ count ts env compat st' ok None) as [-> HC]; try done; try lia.
      * intros r Hrok -> h' Hv' Hw' Hm'. eapply (covers_leaf st []); try done; try lia; [apply C|by intros f ?%elem_of_nil].
      * by intros f ?%elem_of_nil.
      * eexists. split; [exact HC|]. constructor. by intros f ?%elem_of_nil.
  - destruct (st_head st) as [h|] eqn:Eh; [|by destruct Hr; apply (c_none _ _ C)].
    assert (st1 = st) as ->. { unfold bind_legacy in Hbd. destruct (st_rows st) as [|q qs]; [done|]. by injection Hbd. }
    pose proof (Htold Hr h Eh) as ->. pose proof (c_some _ _ C h Eh) as [V W M E Cn Fi].
    assert (forall f, f ∈ F -> r_end f < start) as Hb.
    { intros f Hf. pose proof (covers_end _ _ _ C Eh f Hf). lia. }
    assert (F <> []) as HF. { intros ->. apply Hr. by eapply cover_nil_rows. }
    destruct (append_onto st F start end_ count ts env compat st' ok (Some h)) as [-> HC]; try done; try lia.
    + intros r Hrok -> h' Hv' Hw' Hm'. eapply (covers_leaf st F); try done; try lia; [apply C| |].
      * intros _. rewrite (Cn HF), (sources_split (opaque_of F) (h_watermark h) end_); [lia|].
        split; [|lia]. apply opaque_of_bound; [done|]. intros f Hf. split; [by apply (ledger_ok L)|by eapply covers_end].
      * intros f t HFe Hk. destruct (Fi f t HFe Hk) as [Hi1 Hi2]. split.
        -- apply elem_sources in Hi1 as (m & ? & ? & ? & ?). apply elem_sources. exists m. repeat split; try done; lia.
        -- intros z Hz. apply elem_sources in Hi1 as (_ & _ & _ & _ & Hi1). destruct (Z.le_gt_cases z (h_watermark h)).
           ++ apply Hi2. apply elem_sources in Hz as (m & ? & ? & ? & ?). apply elem_sources. exists m. repeat split; try done; lia.
           ++ lia.
    + intros h0 [= <-]. done.
    + eexists. split; [exact HC|]. by constructor.
Qed.

(** ** Checkpoints *)

Lemma last_default {A} (x d d' : A) l : List.last (x :: l) d = List.last (x :: l) d'.
Proof. revert x. induction l as [|y l IH]; intros x; [done|]. apply IH. Qed.

Lemma last_cons_some {A} (k : A) l : last (k :: l) = Some (List.last l k).
Proof.
  revert k. induction l as [|x l IH]; intros k; [done|]. change (last (k :: x :: l)) with (last (x :: l)).
  rewrite IH. f_equal. destruct l as [|y l]; [done|]. apply (last_default y x k).
Qed.

Lemma parent_matches_spec kids level_ start end_ count coverage opaque_through :
  parent_matches kids level_ start end_ count coverage opaque_through = true ->
  exists k t l, kids = k :: t /\ last kids = Some l /\ r_start k = start /\ r_end l = end_ /\
    sumZ (r_count <$> kids) = count /\ max_or_0 (r_level <$> kids) < level_ /\
    (coverage = "legacy_opaque"%string -> opaque_through = max_or_0 (r_opaque <$> kids)) /\
    (coverage = "exact"%string -> forall r, r ∈ kids -> r_kind r = "exact"%string).
Proof.
  unfold parent_matches. destruct kids as [|k t]; [done|]. destruct (last (k :: t)) as [l|] eqn:El; [|done].
  intros H. bools. exists k, t, l. repeat split; try done.
  - intros ->. rewrite String.eqb_refl in *. cbn [andb] in *. bools. done.
  - intros -> r Hr. rewrite String.eqb_refl in *. cbn [andb] in *. destruct (String.eqb_spec (r_kind r) "exact") as [|Hn]; [done|]. exfalso.
    match goal with X : existsb _ _ = false |- _ => rewrite <- not_true_iff_false in X; apply X end.
    apply (List.existsb_exists _ (k :: t)). exists r. split; [by apply list_elem_of_In|]. by apply negb_true_iff, String.eqb_neq.
Qed.

Lemma max_level kids level_ r :
  max_or_0 (r_level <$> kids) < level_ -> r ∈ kids -> r_level r < level_.
Proof.
  intros H Hr. destruct kids as [|k t]; [by apply elem_of_nil in Hr|].
  rewrite fmap_cons in H. cbn [max_or_0] in H. apply elem_of_cons in Hr as [->|Hr].
  - destruct (foldl_max_ge (r_level <$> t) (r_level k) 0) as [_ ?]. lia.
  - destruct (foldl_max_ge (r_level <$> t) (r_level k) (r_level r)) as [Hx _].
    specialize (Hx (list_elem_of_fmap_2 _ _ _ Hr)). lia.
Qed.

(** A parent carries the opaque bound of its children. *)
Lemma parent_opaque p kids :
  row_ok p = true -> (forall r, r ∈ kids -> row_ok r = true) ->
  (r_kind p = "legacy_opaque"%string -> r_opaque p = max_or_0 (r_opaque <$> kids)) ->
  (r_kind p = "exact"%string -> forall r, r ∈ kids -> r_kind r = "exact"%string) ->
  opaque_of [p] = opaque_of kids.
Proof.
  intros Hp Hk Hleg Hex. unfold opaque_of at 1. simpl. destruct (row_ok_kind p Hp) as [(E & _ & _ & ->)|(E & _ & Hr & _)].
  - specialize (Hex E). unfold opaque_of. clear Hleg E. induction kids as [|r kids IH]; [done|]. rewrite fmap_cons.
    cbn [foldr]. rewrite <- IH; [|intros x Hx; apply Hk; by right|intros x Hx; apply Hex; by right].
    destruct (row_ok_kind r (Hk r ltac:(left))) as [(_ & _ & _ & ->)|(E & _)]; [lia|].
    by rewrite (Hex r ltac:(left)) in E.
  - rewrite (Hleg E). rewrite max_or_0_nonneg; [fold (opaque_of kids); pose proof (opaque_of_nonneg kids); lia|].
    apply Forall_forall. intros z (r & -> & Hrk)%list_elem_of_fmap. destruct (row_ok_range r (Hk r Hrk)) as (_ & ? & _). lia.
Qed.

(** The head after a run of the cover was folded into [p]. *)
Lemma witnessed_fold st a k kids b p h h' :
  witnessed st (a ++ (k :: kids) ++ b) h ->
  (forall r, r ∈ k :: kids -> row_ok r = true) -> row_ok p = true ->
  r_start p = r_start k -> r_end p = r_end (List.last kids k) -> r_count p = sumZ (r_count <$> k :: kids) ->
  (r_kind p = "exact"%string -> forall r, r ∈ k :: kids -> r_kind r = "exact"%string) ->
  opaque_of [p] = opaque_of (k :: kids) ->
  h_version h' = h_version h + 1 -> h_watermark h' = h_watermark h -> h_materialized h' = r_id <$> a ++ p :: b ->
  witnessed st (a ++ p :: b) h'.
Proof.
  intros [V W M E Cn Fi] Hk Hp Hs He Hc Hex Ho V' W' M'. split; [lia|lia|done| | |].
  - intros l Hl. rewrite W'. destruct b as [|y b] using rev_ind.
    + rewrite last_snoc in Hl. injection Hl as <-. rewrite He. apply E. rewrite app_nil_r, last_app.
      by rewrite last_cons_some.
    + apply E. rewrite app_comm_cons, app_assoc, last_snoc in Hl. by rewrite !app_assoc, last_snoc.
  - intros _. rewrite W'. specialize (Cn ltac:(by destruct a)).
    assert (opaque_of (a ++ p :: b) = opaque_of (a ++ (k :: kids) ++ b)) as ->.
    { change (p :: b) with ([p] ++ b). by rewrite !opaque_of_app, Ho. }
    rewrite <- Cn. change (p :: b) with ([p] ++ b). rewrite !fmap_app, !sumZ_app, <- Hc. unfold sumZ at 2. simpl. lia.
  - intros f t HF Hkf. rewrite W'. destruct a as [|x a].
    + injection HF as <- _. rewrite Hs. eapply Fi; [done|]. apply Hex; [done|left].
    + injection HF as <- _. by eapply Fi.
Qed.

Lemma covers_checkpoint env head_env level_ start end_ count ids expected wm coverage op_through st st' ok F :
  covers st F ->
  insert_summary_checkpoint env head_env level_ start end_ count ids expected wm coverage op_through st
  = Return (st', ok) ->
  exists F', covers st' F' /\ astep (Checkpoint ok level_ start end_ count ids coverage op_through env) F F'.
Proof.
  intros C. unfold insert_summary_checkpoint. destruct (negb _) eqn:Ea; [done|].
  assert (st' = st -> ok = false ->
    exists F', covers st' F' /\ astep (Checkpoint ok level_ start end_ count ids coverage op_through env) F F') as Hstay.
  { intros -> ->. exists F. split; [done|constructor]. }
  destruct (st_head st) as [h|] eqn:Eh; [|by intros [= <- <-]; apply Hstay].
  destruct (negb _ || negb _ || _) eqn:E1; [by intros [= <- <-]; apply Hstay|].
  destruct (negb _) eqn:E2 in |- *; [by intros [= <- <-]; apply Hstay|].
  destruct (negb _) eqn:E3 in |- *; [by intros [= <- <-]; apply Hstay|].
  destruct (negb _) eqn:E4 in |- *; [by intros [= <- <-]; apply Hstay|].
  destruct (negb _) eqn:E5 in |- *; [by intros [= <- <-]; apply Hstay|].
  destruct (negb _) eqn:E6 in |- *; [by intros [= <- <-]; apply Hstay|].
  set (p := parent_row level_ start end_ count ids coverage op_through env (st_next st)).
  destruct (negb _) eqn:E7 in |- *; [done|].
  destruct (cover_taken p _) eqn:E8; [by intros [= <- <-]; apply Hstay|]. clear Hstay.
  destruct (negb _) eqn:E9 in |- *; [done|]. intros (st1 & Hu & [= <- <-])%bind_return.
  apply update_head_return in Hu as ->; [|simpl; by rewrite Eh].
  pose proof (c_ledger _ _ C) as L. bools. subst wm expected.
  assert (NoDup ids) as Hnd. { unfold checkpoint_args_ok in Ea. bools. done. }
  assert (canonical (h_watermark h) (st_rows st) = F) as Hcan.
  { apply (canonical_cover L). intros f Hf. by eapply covers_end. }
  unfold canonical_inside in E6. rewrite Hcan in E6.
  set (kids := named_rows ids (st_rows st)) in *.
  assert (forall r, r ∈ kids -> r ∈ st_rows st) as Hkr.
  { intros r Hr. unfold kids, named_rows in Hr. rewrite merge_sort_Permutation in Hr. by apply list_elem_of_filter in Hr as [_ ?]. }
  assert (kids = filter (fun r => start <= r_start r /\ r_end r <= end_) F) as Hkids.
  { apply (ledger_ids_eq L); [done|intros r [_ Hr]%list_elem_of_filter; by apply (l_in _ _ _ L)|]. congruence. }
  destruct (inside_run _ _ _ start end_ L) as (a & b & HF & _). rewrite <- Hkids in HF.
  assert (forall r, r ∈ kids -> start <= r_start r /\ r_end r <= end_) as Hin.
  { intros r Hr. rewrite Hkids in Hr. by apply list_elem_of_filter in Hr as [? _]. }
  destruct (parent_matches_spec _ _ _ _ _ _ _ E4) as (k & t & l & Hk & Hl & Hs & He & Hc & Hlv & Hleg & Hex).
  assert (r_end l = r_end (List.last t k) /\ l ∈ kids) as [Hlast Hlk].
  { split; [|by apply last_Some_elem_of]. f_equal. rewrite Hk, last_cons_some in Hl. by injection Hl. }
  clear Hcan Hkids E6. subst F. assert (forall r, r ∈ kids -> row_ok r = true) as Hkok. { intros r Hr. by apply (l_rows _ _ _ L r (Hkr r Hr)). }
  assert (ledger (st_next st + 1) (st_rows st ++ [p]) (a ++ p :: b)) as L'.
  { apply (ledger_parent _ _ a kids b p k l L); try done; [rewrite Hk; left|].
    intros r Hr. split; [by eapply max_level|]. by apply Hin. }
  assert (forall f, f ∈ a ++ p :: b -> r_end f <= h_watermark h) as Hend.
  { intros f Hf. assert (f ∈ a \/ f ∈ b \/ f = p) as [Hx|[Hx| ->]] by set_solver; [| |simpl; lia];
      (eapply covers_end; [exact C|done|set_solver]). }
  exists (a ++ p :: b). split.
  - split; [exact L'|apply (c_msgs _ _ C)|done|]. intros h' [= <-].
    assert (witnessed st (a ++ p :: b) (mkHead (Some head_env) (h_ts h) (h_version h + 1) (h_watermark h)
              (r_id <$> canonical (h_watermark h) (st_rows st ++ [p])))) as [V W M X Y Z].
    { rewrite (canonical_cover L' _ Hend). pose proof (c_some _ _ C h Eh) as HW. rewrite Hk in *.
      eapply (witnessed_fold st a k t b p h); try done; [by rewrite <- Hlast|].
      apply parent_opaque; [done|done| |done]. simpl. intros E. by apply Hleg. }
    split; done.
  - rewrite <- E3. rewrite Hk in *. rewrite <- Hc, <- Hs, <- He, Hlast. unfold p. rewrite <- E3, <- Hc, <- Hs, <- He, Hlast.
    constructor; [done|done|done|]. intros r Hr. by eapply max_level.
Qed.

(** ** Refinement *)

Lemma step_covers o st st' F :
  covers st F -> sstep o st st' -> exists F', covers st' F' /\ astep o F F'.
Proof.
  intros C H. inversion H; subst.
  - exists F. split; [by apply covers_message|constructor].
  - exists F. split; [|constructor]. eapply covers_quiet; [exact C|done|done|simpl; lia|apply C|done].
  - exists F. split; [by apply covers_synthetic|constructor].
  - exists F. split; [by apply covers_uncovered|constructor].
  - exists []. split; [by eapply covers_clear|constructor].
  - exists F. split; [by eapply covers_upsert|constructor].
  - by eapply covers_seed.
  - by eapply covers_append.
  - by eapply covers_checkpoint.
Qed.

Lemma reachable_covers st : reachable st -> covers st (cover st).
Proof.
  intros H. enough (exists F, covers st F) as [F C] by (by rewrite (covers_cover _ _ C)).
  induction H as [|o st st' _ [F C] Hs]; [exists []; apply covers_init|].
  destruct (step_covers _ _ _ _ C Hs) as (F' & C' & _). by exists F'.
Qed.

(** C17: the summary tables implement the abstract cover. From any reachable
    state, whatever transaction commits with whatever arguments, the canonical
    cover that readers compute changes as specified: an accepted leaf is appended
    behind it (after the one opaque segment that binds an old summary), an
    accepted checkpoint replaces a run of neighbours by one parent with their
    range, count and a higher level, seeding starts it, a clear empties it, and
    refused transactions, chat traffic, deletions and the single-blob writer leave
    it as it is. *)
Theorem store_refines_cover o st st' :
  reachable st -> sstep o st st' -> astep o (cover st) (cover st').
Proof.
  intros Hr Hs. destruct (step_covers _ _ _ _ (reachable_covers _ Hr) Hs) as (F' & C' & Ha).
  by rewrite (covers_cover _ _ C').
Qed.

(** ** Containment and provenance *)

(** The rows that no checkpoint lists as a child, in cover order. *)
Definition roots (rows : list srow) : list srow :=
  merge_sort row_le (filter (fun r => existsb (fun p => bool_decide (r_id r ∈ r_children p)) rows = false) rows).

(** C24: reading by range containment and reading by provenance agree. In every
    reachable state the query that drops segments contained in a higher one
    returns exactly the segments that no checkpoint names as a child. *)
Theorem containment_is_provenance st : reachable st -> cover st = roots (st_rows st).
Proof.
  intros Hr. pose proof (reachable_covers _ Hr) as C. pose proof (c_ledger _ _ C) as L.
  symmetry. apply (sorted_cover L); [apply (rows_filter_NoDup L)|]. intros r. rewrite list_elem_of_filter. split.
  - intros [Hn Hin]. apply (l_roots _ _ _ L r Hin). intros p Hp Hc. rewrite <- not_true_iff_false in Hn. apply Hn.
    apply List.existsb_exists. exists p. split; [by apply list_elem_of_In|by rewrite bool_decide_true].
  - intros Hf. pose proof (l_in _ _ _ L r Hf) as Hin. split; [|done]. apply not_true_iff_false.
    intros (p & Hp & Hc)%List.existsb_exists. apply list_elem_of_In in Hp. bools.
    by apply (proj1 (l_roots _ _ _ L r Hin) Hf p Hp).
Qed.

(** ** A sample history *)

Definition version_of (st : store) : Z := match st_head st with Some h => h_version h | None => 0 end.
Definition sample_env : envelope := [(u "v", PInt 1)].
Definition sample_message (seq_ : Z) : message := mkMessage "m" seq_ seq_ "app".

(** A message arrives and is folded into a leaf of its own. *)
Definition add_leaf (seq_ : Z) (st : store) : store :=
  let st := add_message (sample_message seq_) st in
  match append_summary_leaf_cas sample_env None seq_ seq_ 1 seq_ (version_of st) (wm_of st) st with
  | Return (st', _) => st'
  | Raise _ => st
  end.

Definition one_leaf : store := add_leaf 1 empty_store.
Definition three_leaves : store := add_leaf 3 (add_leaf 2 one_leaf).

Lemma fresh_intro m st :
  0 < m_seq m /\ Forall (fun x => m_seq x < m_seq m) (st_msgs st) /\ wm_of st < m_seq m -> fresh m st.
Proof.
  intros (H1 & H2 & H3). split; [done|]. split; [by apply Forall_forall|].
  intros h Hh. unfold wm_of in H3. by rewrite Hh in H3.
Qed.

Lemma told_wm_of st : told_watermark (wm_of st) st.
Proof. intros _ h Hh. unfold wm_of. by rewrite Hh. Qed.

Lemma reachable_add_leaf seq_ st :
  reachable st -> 0 < seq_ /\ Forall (fun x => m_seq x < seq_) (st_msgs st) /\ wm_of st < seq_ -> reachable (add_leaf seq_ st).
Proof.
  intros Hr Hf. assert (reachable (add_message (sample_message seq_) st)) as Hm.
  { eapply reach_step; [exact Hr|]. apply s_message. by apply fresh_intro. }
  unfold add_leaf. cbv zeta. set (st1 := add_message _ st) in *.
  destruct (append_summary_leaf_cas sample_env None seq_ seq_ 1 seq_ (version_of st1) (wm_of st1) st1) as [[st' ok]|e] eqn:E; [|done].
  eapply reach_step; [exact Hm|]. eapply s_leaf; [apply told_wm_of|exact E].
Qed.

Lemma three_leaves_reachable : reachable three_leaves.
Proof. repeat (apply reachable_add_leaf; [|decided]). apply reach_init. Qed.

Lemma one_leaf_reachable : reachable one_leaf.
Proof. apply reachable_add_leaf; [|decided]. apply reach_init. Qed.

Lemma store_refines_cover_witness :
  astep (Leaf true 2 2 1 sample_env) (cover (add_message (sample_message 2) one_leaf)) (cover (add_leaf 2 one_leaf)).
Proof.
  apply (store_refines_cover (Leaf true 2 2 1 sample_env) (add_message (sample_message 2) one_leaf) (add_leaf 2 one_leaf)).
  - eapply reach_step; [exact one_leaf_reachable|]. apply s_message, fresh_intro. decided.
  - apply (s_leaf sample_env None 2 2 1 2 1 1 _ _ true); [|vm_compute; reflexivity].
    intros _ h Hh. vm_compute in Hh. injection Hh as <-. reflexivity.
Defined.

(** The first two of three leaves under one checkpoint. *)
Definition rolled_up : store :=
  match insert_summary_checkpoint sample_env sample_env 1 1 2 2 [1; 2] 3 3 "exact" 0 three_leaves with
  | Return (st', _) => st'
  | Raise _ => three_leaves
  end.

Lemma rolled_up_reachable : reachable rolled_up.
Proof.
  unfold rolled_up.
  destruct (insert_summary_checkpoint sample_env sample_env 1 1 2 2 [1; 2] 3 3 "exact" 0 three_leaves) as [[st' ok]|e] eqn:E;
    [|apply three_leaves_reachable].
  eapply reach_step; [exact three_leaves_reachable|]. eapply s_checkpoint. exact E.
Qed.

Lemma containment_is_provenance_witness :
  (r_id <$> cover rolled_up) = [4; 3] /\ cover rolled_up = roots (st_rows rolled_up).
Proof. split; [vm_compute; reflexivity|]. apply (containment_is_provenance rolled_up rolled_up_reachable). Defined.
End SummarySafety.
