(* ===== verification/SummaryRead.v ===== *)
(** * Reading and rolling up the summary frontier

    The read path of a turn accepts every reachable store, and the roll-up loop
    of [worker.py] brings the frontier under its limits in as many passes as the
    frontier has segments. *)

From S2P Require Import Prelude PyValue SummaryFrontier SummaryStore SummaryLedger SummarySafety.
Local Open Scope Z_scope.

Module SummaryRead.
Import Frontier Store Ledger SummarySafety.

(** ** Text *)

Lemma lstrip_keeps l c : is_space c = false -> lstrip (l ++ [c]) <> [].
Proof.
  intros Hc. induction l as [|x l IH]; simpl; [by rewrite Hc|]. by destruct (is_space x).
Qed.

Lemma strip_nonempty c t : is_space c = false -> strip (c :: t) <> [].
Proof.
  intros Hc. unfold strip, rstrip. simpl. rewrite Hc, reverse_cons. intros H.
  apply (f_equal reverse) in H. rewrite reverse_involutive in H. by apply (lstrip_keeps (reverse t) c Hc).
Qed.

Lemma fold_text count legacy :
  0 <= count -> (legacy = false -> 0 < count) ->
  exists t, deterministic_fold count legacy = Return t /\ strip t <> [] /\
    Zlen t <= 30 + Zlen (str_of_Z count).
Proof.
  intros Hc Hl. unfold deterministic_fold.
  assert ((count <? 0) || ((count =? 0) && negb legacy) = false) as ->.
  { apply orb_false_iff. split; [by apply Z.ltb_ge|]. destruct legacy; simpl; [by rewrite andb_false_r|].
    rewrite andb_true_r. apply Z.eqb_neq. specialize (Hl eq_refl). lia. }
  eexists. split; [done|]. pose proof (Zlen_nonneg (str_of_Z count)).
  destruct (legacy && (count =? 0)), legacy; (split; [by apply strip_nonempty|]); rewrite ?Zlen_app;
    unfold Zlen, FOLD_OPAQUE, FOLD_BOTH_1, FOLD_BOTH_2, FOLD_COUNT_1, FOLD_COUNT_2 in *; cbn [length] in *; lia.
Qed.

(** ** Segments of rows *)

Lemma new_segment_row t r id :
  row_ok r = true -> NoDup (r_children r) -> 0 < r_id r < id -> strip t <> [] ->
  new_segment (segment_of t r) = Return (segment_of t r).
Proof.
  intros Hok Hnd Hid Ht. destruct (row_ok_children r Hok) as (Hl & H0 & H1).
  unfold new_segment, exact, opaque. cbn [segment_of segment_id level coverage_kind start_seq end_seq source_message_count
    legacy_opaque_through_seq text child_segment_ids].
  rewrite (proj2 (Z.leb_gt (r_id r) 0)), (proj2 (Z.ltb_ge (r_level r) 0)) by lia. cbn [raise_if mbind outcome_bind].
  assert (forall b, (if String.eqb (r_kind r) "exact" then
      _ ← raise_if ((r_start r <=? 0) || (r_end r <? r_start r)) (FrontierIntegrity "invalid_exact_seq_range");
      raise_if ((r_count r <=? 0) || negb (r_opaque r =? 0)) (FrontierIntegrity "invalid_exact_source_witness")
     else if String.eqb (r_kind r) "legacy_opaque" then
      raise_if (negb (r_start r =? 0) || (r_opaque r <? 0) || (r_end r <? r_opaque r) || (r_count r <? 0))
        (FrontierIntegrity "invalid_legacy_coverage")
     else integrity "unknown_coverage_kind") = Return b) as Hk.
  { intros []. destruct (row_ok_kind r Hok) as [(-> & Hs & Hc & Ho)|(-> & Hs & Ho & Hc)].
    - rewrite String.eqb_refl, (proj2 (Z.leb_gt (r_start r) 0)), (proj2 (Z.ltb_ge (r_end r) (r_start r))) by lia.
      rewrite (proj2 (Z.leb_gt (r_count r) 0)), Ho by lia. done.
    - cbn -[Z.ltb Z.eqb]. rewrite Hs, (proj2 (Z.ltb_ge (r_opaque r) 0)), (proj2 (Z.ltb_ge (r_end r) (r_opaque r))) by lia.
      rewrite (proj2 (Z.ltb_ge (r_count r) 0)) by lia. done. }
  rewrite (Hk tt). cbn [mbind outcome_bind]. rewrite (bool_decide_false (strip t = [])) by done.
  rewrite (bool_decide_true (NoDup _)) by done. cbn [raise_if mbind outcome_bind negb].
  destruct (decide (r_level r = 0)) as [E|E].
  - rewrite (H0 E), E. done.
  - rewrite (bool_decide_false (r_children r = [])) by (apply H1; lia).
    rewrite (proj2 (Z.eqb_neq (r_level r) 0)) by done. simpl. by rewrite andb_false_r.
Qed.

Lemma map_outcome_return {A B} (f : A -> outcome B) (g : A -> B) l :
  (forall x, x ∈ l -> f x = Return (g x)) -> map_outcome f l = Return (g <$> l).
Proof.
  induction l as [|x l IH]; intros H; [done|]. simpl. rewrite H by left. simpl.
  rewrite IH; [done|]. intros y Hy. apply H. by right.
Qed.

(** ** Validation *)

Section Validate.
Context (st : store) (F : list srow) (h : head) (C : covers st F) (Hh : st_head st = Some h).
Context (t : pystr).

Local Abbreviation seg := (segment_of t).

Lemma tail_exact f F' : F = f :: F' -> forall g, g ∈ F' -> r_kind g = "exact"%string /\ 0 < r_start g.
Proof using C.
  intros HF g Hg. pose proof (c_ledger _ _ C) as L. pose proof (l_chain _ _ _ L) as Hc. rewrite HF in Hc.
  apply StronglySorted_inv in Hc as [_ Hx]. rewrite Forall_forall in Hx. specialize (Hx g Hg). unfold before in Hx.
  destruct (row_ok_range f) as [? _]; [apply (ledger_ok L); rewrite HF; left|].
  destruct (row_ok_kind g) as [(? & ? & _)|(_ & ? & _)]; [apply (ledger_ok L); rewrite HF; by right|split; [done|lia]|lia].
Qed.

Lemma check_items_chain l seen prev :
  StronglySorted before l -> NoDup (r_id <$> l) -> (forall r, r ∈ l -> r_id r ∉ seen) ->
  (forall p, prev = Some p -> forall r, r ∈ l -> end_seq p < r_start r) ->
  check_items seen prev (seg <$> l) = Return tt.
Proof using Type.
  revert seen prev. induction l as [|x l IH]; intros seen prev Hc Hnd Hs Hp; [done|].
  apply StronglySorted_inv in Hc as [Hc Hx]. rewrite (fmap_cons r_id) in Hnd. rewrite fmap_cons. apply NoDup_cons in Hnd as [Hni Hnd].
  cbn [check_items segment_of segment_id]. rewrite bool_decide_false by (apply Hs; left).
  assert (match prev with
          | Some p => negb (opaque (seg x)) && (start_seq (seg x) <=? end_seq p)
          | None => false end = false) as ->.
  { destruct prev as [p|]; [|done]. specialize (Hp p eq_refl x ltac:(left)).
    apply andb_false_iff. right. apply Z.leb_gt. done. }
  apply IH; [done|done| |].
  - intros r Hr [E|Hin]%elem_of_cons; [|eapply Hs; [by right|done]].
    apply Hni. rewrite <- E. by apply list_elem_of_fmap_2.
  - intros p [= <-] r Hr. rewrite Forall_forall in Hx. by apply (Hx r Hr).
Qed.

Lemma opaque_through_cover : opaque_through_of F = opaque_of F.
Proof using C.
  pose proof (ledger_ok (c_ledger _ _ C)) as Hok. unfold opaque_through_of, opaque_of. clear C Hh.
  induction F as [|f l IH]; [done|]. rewrite filter_cons, fmap_cons. cbn [foldr].
  rewrite <- IH by (intros x Hx; apply Hok; by right). destruct (row_ok_kind f) as [(E & _ & _ & ->)|(E & _)]; [apply Hok; left| |].
  - rewrite decide_False by (by rewrite E). rewrite Z.max_r; [done|]. apply opaque_of_nonneg.
  - rewrite decide_True by (by rewrite E). done.
Qed.

Lemma sum_counts l : sumZ (source_message_count <$> (seg <$> l)) = sumZ (r_count <$> l).
Proof using Type. by rewrite <- list_fmap_compose. Qed.

Lemma first_witness f F' :
  F = f :: F' -> r_kind f = "exact"%string -> opaque_of F = 0 /\ min_or_0 (sources 0 (h_watermark h) st) = r_start f.
Proof using C Hh.
  intros HF Hk. split.
  - rewrite <- opaque_through_cover. unfold opaque_through_of. rewrite filter_none; [done|].
    intros r Hr H. rewrite HF in Hr. apply elem_of_cons in Hr as [->|Hr]; [by rewrite Hk in H|].
    destruct (tail_exact f F' HF r Hr) as [E _]. by rewrite E in H.
  - destruct (w_first _ _ _ (c_some _ _ C h Hh) f F' HF Hk) as [H1 H2].
    destruct (min_or_0_spec (sources 0 (h_watermark h) st)) as [H3 H4]; [by intros E; rewrite E in H1; apply elem_of_nil in H1|].
    specialize (H2 _ H3). specialize (H4 _ H1). lia.
Qed.

Local Abbreviation src := (sources (opaque_of F) (h_watermark h) st).

Lemma src_nil : Zlen src = 0 -> src = [].
Proof using Type. destruct src as [|z l]; [done|]. rewrite Zlen_cons. pose proof (Zlen_nonneg l). lia. Qed.

Lemma src_count : F <> [] -> sumZ (r_count <$> F) = Zlen src.
Proof using C Hh. apply (w_count _ _ _ (c_some _ _ C h Hh)). Qed.

Lemma exact_counts f F' : F = f :: F' -> r_kind f = "exact"%string -> 0 < Zlen src.
Proof using C Hh.
  intros HF Hk. pose proof (ledger_ok (c_ledger _ _ C)) as Hok. rewrite <- src_count by (by rewrite HF).
  assert (0 < r_count f) as Hpos.
  { destruct (row_ok_kind f) as [(_ & _ & ? & _)|(E & _)]; [apply Hok; rewrite HF; left|done|congruence]. }
  rewrite HF, fmap_cons. change (0 < r_count f + sumZ (r_count <$> F')).
  enough (0 <= sumZ (r_count <$> F')) by lia. apply sumZ_nonneg, Forall_forall. intros z (g & -> & Hg)%list_elem_of_fmap.
  destruct (row_ok_range g) as (_ & _ & ?); [apply Hok; rewrite HF; by right|lia].
Qed.

Lemma check_zero_cover f F' :
  F = f :: F' -> h_watermark h = 0 -> check_zero (seg <$> F) (min_or_0 src) (Zlen src) = Return (seg <$> F).
Proof using C Hh.
  intros HF Hw0. pose proof (c_ledger _ _ C) as L. pose proof (ledger_ok L) as Hok.
  assert (F' = []) as HF'.
  { destruct F' as [|g F']; [done|]. exfalso. destruct (tail_exact f (g :: F') HF g ltac:(left)) as [_ Hg].
    pose proof (covers_end _ _ _ C Hh g ltac:(rewrite HF; right; left)).
    destruct (row_ok_range g) as [? _]; [apply Hok; rewrite HF; right; left|]. lia. }
  subst F'. assert (src = []) as Hsrc by (apply sources_nil; pose proof (opaque_of_nonneg F); lia).
  assert (r_count f = 0) as Hcn.
  { pose proof (src_count ltac:(by rewrite HF)) as Hc. rewrite Hsrc, HF in Hc. unfold sumZ, Zlen in Hc. simpl in Hc. lia. }
  assert (r_end f = 0) as He. { rewrite <- Hw0. apply (w_end _ _ _ (c_some _ _ C h Hh)). by rewrite HF. }
  destruct (row_ok_kind f) as [(_ & ? & _)|(Hk & Hs & Ho & _)]; [apply Hok; rewrite HF; left|lia|].
  rewrite Hsrc, HF. cbn -[Z.eqb]. unfold opaque. simpl coverage_kind. rewrite Hk, Hs, He, Hcn.
  by assert (r_opaque f = 0) as -> by lia.
Qed.

Lemma check_start_cover f F' :
  F = f :: F' ->
  check_start (seg f) (if opaque (seg f) then [seg f] else []) (min_or_0 src) (Zlen src) = Return tt.
Proof using C Hh.
  intros HF. destruct (row_ok_kind f) as [(Hk & Hs & _)|(Hk & Hs & Ho & _)];
    [apply (ledger_ok (c_ledger _ _ C)); rewrite HF; left| |].
  - assert (opaque (seg f) = false) as -> by (unfold opaque; simpl; by rewrite Hk).
    destruct (first_witness f F' HF Hk) as [Hop Hmin]. pose proof (exact_counts f F' HF Hk) as Hpos.
    rewrite Hop in *. unfold check_start. rewrite Hmin.
    rewrite (proj2 (Z.leb_gt (r_start f) 0)), (proj2 (Z.leb_gt (Zlen _) 0)) by lia. simpl. by rewrite Z.eqb_refl.
  - assert (opaque (seg f) = true) as -> by (unfold opaque; simpl; by rewrite Hk).
    cbn [check_start segment_of start_seq legacy_opaque_through_seq]. rewrite Hs. cbn [Z.eqb negb].
    pose proof (Zlen_nonneg src). rewrite (proj2 (Z.ltb_ge (Zlen src) 0)) by lia. cbn [orb].
    destruct (Z.eqb_spec (Zlen src) 0) as [E0|E0]; [by rewrite (src_nil E0)|].
    destruct (min_or_0_spec src) as [Hin _]; [intros E; by rewrite E in E0|].
    apply elem_sources in Hin as (_ & _ & _ & _ & Hlt).
    assert (r_opaque f <= opaque_of F). { rewrite HF. unfold opaque_of. rewrite fmap_cons. cbn [foldr]. lia. }
    rewrite (proj2 (Z.leb_gt (min_or_0 src) (r_opaque f))) by lia. by rewrite andb_false_r.
Qed.

Lemma opaques_cover f F' :
  F = f :: F' -> filter (fun s => opaque s = true) (seg <$> F) = if opaque (seg f) then [seg f] else [].
Proof using C.
  intros HF. rewrite HF, fmap_cons, filter_cons, (filter_none _ (seg <$> F')).
  - destruct (opaque (seg f)); [by rewrite decide_True|by rewrite decide_False].
  - intros s (g & -> & Hg)%list_elem_of_fmap H. destruct (tail_exact f F' HF g Hg) as [Ek _].
    unfold opaque in H. simpl in H. by rewrite Ek in H.
Qed.

Lemma cover_ids : NoDup (r_id <$> F).
Proof using C.
  pose proof (c_ledger _ _ C) as L. apply NoDup_fmap_2_strong; [|apply (cover_NoDup L)].
  intros x y Hx Hy. apply (ledger_inj L); by apply (l_in _ _ _ L).
Qed.

Lemma validate_cover :
  F <> [] -> validate_canonical_frontier (seg <$> F) (h_watermark h) (min_or_0 src) (Zlen src) = Return (seg <$> F).
Proof using C Hh.
  intros Hne. assert (exists f F', F = f :: F') as (f & F' & HF) by (destruct F; [done|eauto]).
  unfold validate_canonical_frontier. destruct (Z.eqb_spec (h_watermark h) 0) as [Hw0|Hw0]; [by eapply check_zero_cover|].
  assert (seg <$> F = seg f :: (seg <$> F')) as Hc by (by rewrite HF). rewrite Hc at 1.
  rewrite (opaques_cover f F' HF).
  assert ((1 <? Zlen (if opaque (seg f) then [seg f] else []))
          || (negb (bool_decide ((if opaque (seg f) then [seg f] else []) = [])) && negb (opaque (seg f))) = false) as ->
    by (by destruct (opaque (seg f))).
  rewrite (check_start_cover f F' HF). cbn [mbind outcome_bind].
  assert (bool_decide (end_seq <$> last (seg <$> F) = Some (h_watermark h)) = true) as ->.
  { apply bool_decide_eq_true. rewrite fmap_last. destruct (last F) as [l|] eqn:El; [|apply last_None in El; congruence].
    simpl. f_equal. by apply (w_end _ _ _ (c_some _ _ C h Hh)). }
  cbn [negb raise_if mbind outcome_bind].
  rewrite check_items_chain; [|apply (c_ledger _ _ C)|apply cover_ids|intros r _; apply not_elem_of_nil|done].
  cbn [mbind outcome_bind]. by rewrite sum_counts, src_count, Z.eqb_refl.
Qed.
End Validate.

(** ** The read path *)

Definition fold_of (r : srow) : pystr :=
  match deterministic_fold (r_count r) (String.eqb (r_kind r) "legacy_opaque") with Return t => t | Raise _ => [] end.

(** A row as the roll-up sees it. *)
Definition folded_row (r : srow) : SummarySegment := segment_of (fold_of r) r.

Lemma fold_of_row r :
  row_ok r = true ->
  deterministic_fold (r_count r) (String.eqb (r_kind r) "legacy_opaque") = Return (fold_of r) /\ strip (fold_of r) <> [] /\
  Zlen (fold_of r) <= 30 + Zlen (str_of_Z (r_count r)).
Proof.
  intros Hok. destruct (fold_text (r_count r) (String.eqb (r_kind r) "legacy_opaque")) as (t & H1 & H2 & H3).
  - destruct (row_ok_range r Hok) as (_ & _ & ?). lia.
  - intros Hk. destruct (row_ok_kind r Hok) as [(_ & _ & ? & _)|(E & _)]; [lia|]. by rewrite E in Hk.
  - unfold fold_of. by rewrite H1.
Qed.

Definition snapshot_of (st : store) (F : list srow) (h : head) : SummaryFrontierSnapshot :=
  mkSnapshot (folded_row <$> F) (h_version h) (h_watermark h).

Lemma translated_cover st F h : covers st F -> st_head st = Some h -> F <> [] -> translated_watermark h st = h_watermark h.
Proof.
  intros C Hh Hne. unfold translated_watermark. rewrite (w_materialized _ _ _ (c_some _ _ C h Hh)).
  rewrite bool_decide_false by (by destruct F). by rewrite andb_false_r.
Qed.

Definition state_of (st : store) (F : list srow) (h : head) : frontier_state :=
  let src := sources (opaque_of F) (h_watermark h) st in
  mkState (h_envelope h) (h_ts h) (h_version h) (h_watermark h) (r_id <$> F) F (min_or_0 src) (Zlen src).

Lemma get_state_cover st F h :
  covers st F -> st_head st = Some h -> F <> [] -> get_summary_frontier_state st = Some (state_of st F h).
Proof.
  intros C Hh Hne. unfold get_summary_frontier_state. rewrite Hh. cbn [mbind option_bind].
  rewrite (translated_cover st F h C Hh Hne).
  assert (canonical (h_watermark h) (st_rows st) = F) as ->.
  { apply (canonical_cover (c_ledger _ _ C)). by eapply covers_end. }
  rewrite bool_decide_false by done. rewrite (opaque_through_cover st F C).
  by rewrite (w_materialized _ _ _ (c_some _ _ C h Hh)).
Qed.

Lemma cover_segments st F t : covers st F -> strip t <> [] ->
  map_outcome (fun r => new_segment (segment_of t r)) F = Return (segment_of t <$> F).
Proof.
  intros C Ht. pose proof (c_ledger _ _ C) as L. apply map_outcome_return. intros r Hr.
  pose proof (l_in _ _ _ L r Hr) as Hin. destruct (l_rows _ _ _ L r Hin) as [Hok Hnd].
  apply (new_segment_row t r (st_next st)); [done|done|by apply (l_next _ _ _ L)|done].
Qed.

Lemma metadata_cover st F h :
  covers st F -> st_head st = Some h -> F <> [] ->
  summary_metadata_frontier (state_of st F h) = Return (segment_of ENCRYPTED_SENTINEL <$> F).
Proof.
  intros C Hh Hne. unfold summary_metadata_frontier. cbn [fs_segments state_of].
  rewrite (cover_segments st F ENCRYPTED_SENTINEL C) by done. cbn [mbind outcome_bind fs_watermark fs_first fs_count state_of].
  rewrite (validate_cover st F h C Hh) by done. cbn [mbind outcome_bind fs_materialized state_of].
  rewrite bool_decide_true; [done|]. by rewrite <- list_fmap_compose.
Qed.

Lemma folded_cover st F t : covers st F -> map_outcome folded (segment_of t <$> F) = Return (folded_row <$> F).
Proof.
  intros C. pose proof (c_ledger _ _ C) as L.
  assert (forall r, r ∈ F -> folded (segment_of t r) = Return (folded_row r)) as H.
  { intros r Hr. pose proof (l_in _ _ _ L r Hr) as Hin. destruct (l_rows _ _ _ L r Hin) as [Hok Hnd].
    destruct (fold_of_row r Hok) as (H1 & H2 & _). unfold folded, opaque. cbn [segment_of source_message_count coverage_kind].
    rewrite H1. cbn [mbind outcome_bind].
    apply (new_segment_row (fold_of r) r (st_next st)); [done|done|by apply (l_next _ _ _ L)|done]. }
  clear C L. induction F as [|r F IH]; [done|]. rewrite !fmap_cons. cbn [map_outcome]. rewrite H by left. cbn [mbind outcome_bind].
  rewrite IH; [done|]. intros x Hx. apply H. by right.
Qed.

(** What is read once the store holds segments. *)
Lemma read_tail st F h :
  covers st F -> st_head st = Some h -> F <> [] ->
  (metadata ← summary_metadata_frontier (state_of st F h);
   segs ← map_outcome folded metadata;
   snap ← new_snapshot (mkSnapshot segs (fs_version (state_of st F h)) (fs_watermark (state_of st F h)));
   Return (st, Some snap)) = Return (st, Some (snapshot_of st F h)).
Proof.
  intros C Hh Hne. rewrite (metadata_cover st F h C Hh Hne). cbn [mbind outcome_bind].
  rewrite (folded_cover st F _ C). cbn [mbind outcome_bind]. unfold new_snapshot.
  cbn [head_version watermark_seq segments state_of fs_version fs_watermark].
  destruct (c_some _ _ C h Hh) as [V W _ E _ _].
  rewrite (proj2 (Z.leb_gt (h_version h) 0)), (proj2 (Z.ltb_ge (h_watermark h) 0)) by lia. cbn [orb raise_if mbind outcome_bind].
  rewrite fmap_last. destruct (last F) as [l|] eqn:El; [|by apply last_None in El].
  cbn [fmap option_fmap option_map]. change (end_seq (folded_row l)) with (r_end l). rewrite (E l eq_refl), Z.eqb_refl. done.
Qed.

Lemma read_cover st F h :
  covers st F -> st_head st = Some h -> F <> [] ->
  read_summary_frontier_metadata st = Return (st, Some (snapshot_of st F h)).
Proof.
  intros C Hh Hne. unfold read_summary_frontier_metadata. rewrite (get_state_cover st F h C Hh Hne).
  cbn [fs_segments state_of]. rewrite bool_decide_false by done. cbn [andb mbind outcome_bind].
  rewrite bool_decide_false by done. by apply read_tail.
Qed.

Lemma translated_nonneg st F h : covers st F -> st_head st = Some h -> 0 <= translated_watermark h st.
Proof.
  intros C Hh. unfold translated_watermark. case_goal; [|by apply (w_watermark _ _ _ (c_some _ _ C h Hh))].
  rewrite max_or_0_nonneg.
  - induction (m_seq <$> _); cbn [foldr]; lia.
  - apply Forall_forall. intros z (m & -> & [_ Hm]%list_elem_of_filter)%list_elem_of_fmap.
    pose proof (c_msgs _ _ C m Hm). lia.
Qed.

(** A summary from before segmentation is bound on its first read. *)
Lemma seed_succeeds st h :
  covers st [] -> st_head st = Some h -> falsy (h_envelope h) = false ->
  exists st', seed_legacy_summary_segment (h_version h) (translated_watermark h st) st = Return (st', true) /\
    exists F' h', covers st' F' /\ st_head st' = Some h' /\ F' <> [].
Proof.
  intros C Hh Hf. pose proof (cover_nil_rows _ _ _ (c_ledger _ _ C) eq_refl) as Hr.
  pose proof (c_some _ _ C h Hh) as [V W M _ _ _]. pose proof (translated_nonneg st [] h C Hh) as Ht.
  set (r := legacy_row (Z.max (h_watermark h) (translated_watermark h st)) (default [] (h_envelope h)) (st_next st)).
  assert (seed_legacy_summary_segment (h_version h) (translated_watermark h st) st
          = Return (with_head (mkHead (h_envelope h) (h_ts h) (h_version h + 1)
                      (Z.max (h_watermark h) (translated_watermark h st)) [st_next st]) (push_row r st), true)) as Hs.
  { unfold seed_legacy_summary_segment.
    rewrite (proj2 (Z.leb_gt (h_version h) 0)), (proj2 (Z.ltb_ge (translated_watermark h st) 0)) by lia. cbn [orb].
    rewrite Hh, Hr, Hf, M, Z.eqb_refl. cbn [bool_decide negb orb fmap list_fmap].
    rewrite !bool_decide_true by done. cbn [negb orb].
    assert ((h_watermark h =? 0) || (h_watermark h =? translated_watermark h st) = true) as ->.
    { unfold translated_watermark. destruct (h_watermark h =? 0); [done|]. cbn [andb orb]. apply Z.eqb_refl. }
    cbn [negb]. unfold insert_row. fold r.
    assert (row_ok r = true) as ->.
    { unfold row_ok, r. cbn -[Z.max Z.leb]. rewrite !(proj2 (Z.leb_le _ _)) by lia. done. }
    rewrite Hr. cbn [negb cover_taken existsb mbind outcome_bind]. unfold update_head.
    change (st_head (push_row r st)) with (st_head st). rewrite Hh. cbn [h_materialized].
    rewrite M. rewrite (bool_decide_false ([st_next st] = _)) by done. by rewrite andb_false_r. }
  eexists. split; [exact Hs|].
  destruct (covers_seed _ _ _ _ _ _ C Hs) as (F' & C' & Ha). rewrite Hr, bool_decide_true in Ha by done. simpl in Ha.
  eexists F', _. split; [exact C'|]. split; [done|]. by inversion Ha.
Qed.

(** C18: no reachable state of the summary bricks a turn. Reading the frontier
    never raises: every row passes the segment checks, the cover passes
    validation against the live chat rows, and the ids named by the head are
    those of the cover. With segments stored, the read changes nothing and returns
    exactly the cover, up to the head's watermark. *)
Theorem frontier_read_accepts st :
  reachable st ->
  exists st' snap, read_summary_frontier_metadata st = Return (st', snap) /\
    (st_rows st <> [] -> st' = st /\ exists s, snap = Some s /\
       (segment_id <$> segments s) = (r_id <$> cover st) /\ watermark_seq s = wm_of st).
Proof.
  intros Hr. pose proof (reachable_covers _ Hr) as C. set (F := cover st) in *.
  destruct (st_head st) as [h|] eqn:Hh.
  2: { exists st, None. split; [|intros Hn; by destruct Hn; apply (c_none _ _ C)].
       unfold read_summary_frontier_metadata, get_summary_frontier_state. by rewrite Hh. }
  destruct (decide (F = [])) as [HF|HF].
  - pose proof (cover_nil_rows _ _ _ (c_ledger _ _ C) HF) as Hrows. rewrite HF in C.
    unfold read_summary_frontier_metadata, get_summary_frontier_state. rewrite Hh, Hrows.
    cbn [mbind option_bind]. change (canonical (translated_watermark h st) []) with (@nil srow).
    rewrite (bool_decide_true (@nil srow = [])) by done. cbn [fs_segments fs_envelope fs_version fs_watermark].
    rewrite bool_decide_true by done. cbn [andb]. destruct (falsy (h_envelope h)) eqn:Ef; cbn [negb mbind outcome_bind].
    + eexists _, _. split; [done|]. done.
    + destruct (seed_succeeds st h C Hh Ef) as (st1 & -> & F' & h' & C' & Hh' & Hne).
      cbn [mbind outcome_bind]. fold (get_summary_frontier_state st1). rewrite (get_state_cover st1 F' h' C' Hh' Hne).
      cbn [fs_segments state_of]. rewrite bool_decide_false by done. rewrite (read_tail st1 F' h' C' Hh' Hne).
      eexists _, _. split; [done|]. done.
  - rewrite (read_cover st F h C Hh HF). eexists _, _. split; [done|]. intros _. split; [done|].
    eexists. split; [done|]. split; [by cbn [snapshot_of segments]; rewrite <- list_fmap_compose|].
    unfold wm_of. by rewrite Hh.
Qed.

Lemma frontier_read_accepts_witness :
  exists s, read_summary_frontier_metadata rolled_up = Return (rolled_up, Some s) /\
    (segment_id <$> segments s) = (r_id <$> cover rolled_up).
Proof.
  destruct (frontier_read_accepts rolled_up rolled_up_reachable) as (st' & snap & H1 & H2).
  destruct H2 as (-> & s & -> & H3 & _); [vm_compute; discriminate|]. exists s. split; [exact H1|exact H3].
Defined.
End SummaryRead.
