(* ===== verification/SummaryRollup.v ===== *)
(** * Rolling the summary frontier up ([worker._rebalance_summary_frontier])

    The loop of a turn that reads the frontier, folds a run of it into a
    checkpoint and repeats. What the loop calls outside the store is a parameter:
    sealing a text into an envelope, the lease and mode checks of a pass, and the
    transactions other processes commit between a pass's read and its write. *)

From S2P Require Import Prelude PyValue SummaryFrontier SummaryStore SummaryLedger SummarySafety SummaryRead.
Local Open Scope Z_scope.

Module SummaryRollup.
Import Frontier Store Ledger SummarySafety SummaryRead.

Section Loop.
Context (seal : pystr -> option envelope) (gate : nat -> option exn) (others : nat -> store -> store).
Context (fanout max_segments max_chars : Z).

(** [serve_worker._append_summary_checkpoint] *)
Definition append_summary_checkpoint (checkpoint head_summary : pystr) (level_ start end_ count : Z)
    (child_ids : list Z) (expected expected_wm : Z) (coverage : string) (opaque_through : Z) (st : store)
    : outcome (store * bool) :=
  match seal checkpoint, seal head_summary with
  | Some env, Some head_env =>
      insert_summary_checkpoint env head_env level_ start end_ count child_ids expected expected_wm coverage
        opaque_through st
  | _, _ => Return (st, false)
  end.

(** One pass: [None] when the frontier is bounded, else whether the checkpoint
    went in. *)
Definition rebalance_pass (k : nat) (st : store) : outcome (store * (list SummarySegment + bool)) :=
  '(st, snap) ← read_summary_frontier_metadata st;
  match snap with
  | None => Return (st, inl [])
  | Some s =>
      cand ← choose_rollup_candidate (segments s) fanout max_segments max_chars;
      match cand with
      | None => Return (st, inl (segments s))
      | Some c =>
          checkpoint ← deterministic_fold (cand_count c) (existsb opaque (children c));
          materialized ← deterministic_fold (sumZ (source_message_count <$> segments s)) (existsb opaque (segments s));
          match gate k with
          | Some e => Raise e
          | None =>
              start ← cand_start c;
              end_ ← cand_end c;
              through ← cand_opaque c;
              '(st, inserted) ← append_summary_checkpoint checkpoint materialized (parent_level c) start end_
                                  (cand_count c) (cand_ids c) (head_version s) (watermark_seq s) (cand_kind c) through
                                  (others k st);
              Return (st, inr inserted)
          end
      end
  end.

Fixpoint rebalance_summary_frontier (passes : nat) (no_progress : Z) (k : nat) (st : store)
    : outcome (store * list SummarySegment) :=
  match passes with
  | O => Raise (Exhausted "checkpoint_pass_budget_exhausted")
  | S passes =>
      '(st, r) ← rebalance_pass k st;
      match r with
      | inl frontier => Return (st, frontier)
      | inr true => rebalance_summary_frontier passes 0 (S k) st
      | inr false =>
          if 3 <=? no_progress + 1 then Raise (Exhausted "checkpoint_cas_no_progress")
          else rebalance_summary_frontier passes (no_progress + 1) (S k) st
      end
  end.
End Loop.

(** ** Candidates *)

(** A choice is a run of the frontier of at least two segments, unless one
    segment alone exceeds the limit. *)
Lemma complete_run_spec fuel fanout l sel :
  (2 <= fanout)%nat -> complete_run fuel fanout l = Some sel ->
  exists a b, l = a ++ sel ++ b /\ (2 <= length sel)%nat.
Proof.
  intros Hf. revert l. induction fuel as [|fuel IH]; intros [|x t] H; try done. cbn [complete_run] in H.
  destruct (Nat.leb_spec fanout (S (run_tail (level x) t))) as [Hle|_].
  - injection H as <-. exists [], (drop fanout (x :: t)). split; [by rewrite app_nil_l, take_drop|].
    rewrite length_take. assert (run_tail (level x) t <= length t)%nat.
    { clear. generalize (level x). intros v. induction t as [|y t IH]; simpl; [lia|]. case_match; lia. }
    simpl length. lia.
  - apply IH in H as (a & b & E & Hl). exists (take (S (run_tail (level x) t)) (x :: t) ++ a), b. split; [|done].
    rewrite <- app_assoc, <- E. by rewrite take_drop.
Qed.

Lemma frontier_chars_app l k : frontier_chars (l ++ k) = frontier_chars l + frontier_chars k.
Proof. unfold frontier_chars. by rewrite fmap_app, sumZ_app. Qed.

Lemma choose_spec items fanout max_segments max_chars :
  2 <= fanout -> 1 <= max_segments -> 1 <= max_chars -> items <> [] ->
  (forall s, s ∈ items -> segment_chars s <= max_chars) ->
  (choose_rollup_candidate items fanout max_segments max_chars = Return None /\
   Zlen items <= max_segments /\ frontier_chars items <= max_chars) \/
  (exists a x t b why, items = a ++ (x :: t) ++ b /\ t <> [] /\
     choose_rollup_candidate items fanout max_segments max_chars
     = Return (Some (mkCandidate (x :: t) (foldl Z.max (level x) (level <$> t) + 1) why))).
Proof.
  intros Hf Hs Hc Hne Hfit. unfold choose_rollup_candidate. destruct items as [|y l]; [done|]. set (items := y :: l) in *.
  rewrite (proj2 (Z.ltb_ge fanout 2)), (proj2 (Z.ltb_ge max_segments 1)), (proj2 (Z.ltb_ge max_chars 1)) by lia. cbn [orb].
  assert (List.find (fun s => max_chars <? segment_chars s) items = None) as ->.
  { destruct (List.find _ items) as [s|] eqn:E; [|done]. apply List.find_some in E as [Hin Hb].
    apply list_elem_of_In in Hin. apply Hfit in Hin. bools. lia. }
  destruct (complete_run (length items) (Z.to_nat fanout) items) as [sel|] eqn:Er.
  - apply complete_run_spec in Er as (a & b & E & Hl); [|lia]. right. destruct sel as [|x [|z t]]; simpl in Hl; [lia|lia|].
    exists a, x, (z :: t), b, "fanout"%string. done.
  - destruct ((Zlen items <=? max_segments) && (frontier_chars items <=? max_chars)) eqn:Eb; [left; bools; done|]. right.
    assert (2 <= Zlen items) as H2.
    { destruct l as [|z l]; [|unfold items; rewrite !Zlen_cons; pose proof (Zlen_nonneg l); lia]. exfalso.
      apply not_true_iff_false in Eb. apply Eb. unfold items, frontier_chars in *. cbn [fmap list_fmap sumZ foldr].
      specialize (Hfit y ltac:(left)). apply andb_true_iff. split; apply Z.leb_le; [unfold Zlen; simpl; lia|lia]. }
    set (n := Z.to_nat (Z.min fanout (Zlen items))). assert (2 <= n <= length items)%nat as Hn by (unfold n, Zlen in *; lia).
    assert (length (take n items) = n) as Hlen by (rewrite length_take; lia).
    destruct (take n items) as [|x [|z t]] eqn:Et; cbn [length] in Hlen; [lia|lia|].
    exists [], x, (z :: t), (drop n items), "frontier_bound"%string. split; [|done].
    rewrite app_nil_l, <- Et. by rewrite take_drop.
Qed.

(** ** A chosen run is accepted *)

Lemma disjoint_chain l : StronglySorted before l -> disjoint_run l = true.
Proof.
  induction 1 as [|x l Hs IH Hx]; [done|]. destruct l as [|y l]; [done|]. cbn [disjoint_run].
  rewrite Forall_forall in Hx. specialize (Hx y ltac:(left)). unfold before in Hx.
  apply andb_true_iff. split; [by apply Z.ltb_lt|exact IH].
Qed.

Section Accept.
Context (st : store) (a : list srow) (k : srow) (t b : list srow).
Local Abbreviation kids := (k :: t).
Context (C : covers st (a ++ kids ++ b)).

Local Abbreviation F := (a ++ kids ++ b).
Local Abbreviation kind := (if existsb (fun r => String.eqb (r_kind r) "legacy_opaque") kids then "legacy_opaque" else "exact")%string.
Local Abbreviation end_ := (r_end (List.last t k)).
Local Abbreviation level_ := (max_or_0 (r_level <$> kids) + 1).
Local Abbreviation count := (sumZ (r_count <$> kids)).
Local Abbreviation through := (max_or_0 (r_opaque <$> kids)).

Lemma kids_sub : kids `sublist_of` F.
Proof using Type. apply sublist_inserts_l, sublist_inserts_r. done. Qed.

Lemma kids_chain : StronglySorted before kids.
Proof using C. eapply StronglySorted_sublist; [apply kids_sub|apply (c_ledger _ _ C)]. Qed.

Lemma kids_in r : r ∈ kids -> r ∈ F.
Proof using Type. intros Hr. apply elem_of_app. right. apply elem_of_app. by left. Qed.

Lemma kids_ok r : r ∈ kids -> row_ok r = true.
Proof using C. intros Hr. apply (ledger_ok (c_ledger _ _ C)). by apply kids_in. Qed.

Lemma last_kid : last kids = Some (List.last t k) /\ List.last t k ∈ kids.
Proof using Type. split; [apply last_cons_some|]. apply last_Some_elem_of. apply last_cons_some. Qed.

Lemma kids_range r : r ∈ kids -> r_start k <= r_start r /\ r_end r <= end_.
Proof using C.
  apply (before_ends kids_chain eq_refl (proj1 last_kid)); [|done|done].
  intros x Hx. destruct (row_ok_range x (kids_ok x Hx)). lia.
Qed.

Lemma inside_kids : filter (fun r => r_start k <= r_start r /\ r_end r <= end_) F = kids.
Proof using C.
  pose proof (c_ledger _ _ C) as L. pose proof (l_chain _ _ _ L) as Hc.
  apply StronglySorted_app in Hc as (H1 & _ & (H2 & _ & _)%StronglySorted_app).
  rewrite !filter_app, (filter_none _ a), (filter_all _ kids), (filter_none _ b), app_nil_r; [done| | |].
  - intros x Hx [_ H]. specialize (H2 _ _ (proj2 last_kid) Hx). unfold before in H2.
    destruct (row_ok_range x) as [? _]; [apply (ledger_ok L); set_solver|]. lia.
  - intros x Hx. by apply kids_range.
  - intros x Hx [H _]. specialize (H1 x k Hx ltac:(set_solver)). unfold before in H1.
    destruct (row_ok_range x) as [? _]; [apply (ledger_ok L); set_solver|]. lia.
Qed.

Lemma named_kids : named_rows (r_id <$> kids) (st_rows st) = kids.
Proof using C.
  pose proof (c_ledger _ _ C) as L. apply (sorted_part L); [apply kids_sub|apply (rows_filter_NoDup L)|].
  intros r. rewrite list_elem_of_filter. split.
  - intros [(x & E & Hx)%list_elem_of_fmap Hr]. assert (r = x) as ->; [|done].
    apply (ledger_inj L); [done|apply (l_in _ _ _ L); by apply kids_in|done].
  - intros Hr. split; [by apply list_elem_of_fmap_2|]. apply (l_in _ _ _ L). by apply kids_in.
Qed.

(** Either every child is exact, or the first is the opaque one. *)
Lemma kind_cases :
  (kind = "exact"%string /\ (forall r, r ∈ kids -> r_kind r = "exact"%string) /\ through = 0 /\ 0 < r_start k /\ 0 < count) \/
  (kind = "legacy_opaque"%string /\ r_start k = 0 /\ 0 <= through <= end_ /\ 0 <= count).
Proof using C.
  assert (forall r, r ∈ kids -> 0 <= r_opaque r <= end_ /\ 0 <= r_count r) as Hb.
  { intros r Hr. destruct (row_ok_range r (kids_ok r Hr)) as (_ & ? & ?). destruct (kids_range r Hr). lia. }
  assert (through = foldr Z.max 0 (r_opaque <$> kids)) as Ho.
  { apply max_or_0_nonneg, Forall_forall. intros z (r & -> & Hr)%list_elem_of_fmap. by apply Hb. }
  destruct (existsb _ kids) eqn:E; [right|left].
  - apply List.existsb_exists in E as (r & Hr & Hk). apply list_elem_of_In in Hr. bools. split; [done|].
    destruct (row_ok_kind r (kids_ok r Hr)) as [(E & _)|(_ & Hs & _)]; [congruence|].
    destruct (row_ok_range k (kids_ok k ltac:(left))) as [? _]. destruct (kids_range r Hr) as [? _]. split; [lia|].
    rewrite Ho. split; [split; [apply opaque_of_nonneg|]|].
    + apply opaque_of_bound; [destruct (Hb k ltac:(left)); lia|]. intros x Hx. split; [by apply kids_ok|by apply kids_range].
    + apply sumZ_nonneg, Forall_forall. intros z (x & -> & Hx)%list_elem_of_fmap. by apply Hb.
  - assert (forall r, r ∈ kids -> r_kind r = "exact"%string /\ 0 < r_start r /\ 0 < r_count r /\ r_opaque r = 0) as Hex.
    { intros r Hr. destruct (row_ok_kind r (kids_ok r Hr)) as [(? & ? & ? & ?)|(Hk & _)]; [repeat split; try done; lia|]. exfalso.
      rewrite <- not_true_iff_false in E. apply E, List.existsb_exists. exists r. split; [by apply list_elem_of_In|by rewrite Hk]. }
    split; [done|]. split; [intros r Hr; by apply Hex|]. split; [|split; [apply Hex; left|]].
    + rewrite Ho. clear -Hex. induction kids as [|x l IH]; [done|]. rewrite fmap_cons. cbn [foldr].
      destruct (Hex x ltac:(left)) as (_ & _ & _ & ->). rewrite IH; [lia|]. intros r Hr. apply Hex. by right.
    + rewrite fmap_cons. change (0 < r_count k + sumZ (r_count <$> t)). destruct (Hex k ltac:(left)) as (_ & _ & ? & _).
      enough (0 <= sumZ (r_count <$> t)) by lia. apply sumZ_nonneg, Forall_forall.
      intros z (x & -> & Hx)%list_elem_of_fmap. destruct (Hb x ltac:(by right)). lia.
Qed.

Context (h : head) (Hh : st_head st = Some h) (env head_env : envelope).

Local Abbreviation p := (parent_row level_ (r_start k) end_ count (r_id <$> kids) kind through env (st_next st)).

Lemma level_above r : r ∈ kids -> 0 <= r_level r < level_.
Proof using C.
  intros Hr. split; [apply (row_ok_children r (kids_ok r Hr))|]. eapply max_level; [|exact Hr]. lia.
Qed.

Lemma kids_NoDup : NoDup (r_id <$> kids).
Proof using C.
  eapply sublist_NoDup; [apply (cover_ids st F C)|]. apply fmap_sublist, kids_sub.
Qed.

Lemma end_bound : r_start k <= end_ <= h_watermark h.
Proof using C Hh.
  destruct (row_ok_range k (kids_ok k ltac:(left))) as [? _]. destruct (kids_range k ltac:(left)) as [_ ?].
  pose proof (covers_end _ _ _ C Hh (List.last t k) (kids_in _ (proj2 last_kid))). lia.
Qed.

Lemma args_ok :
  checkpoint_args_ok level_ (r_start k) end_ count (r_id <$> kids) (h_version h) (h_watermark h) kind through = true.
Proof using C Hh.
  pose proof (level_above k ltac:(left)) as Hl. pose proof end_bound as He. pose proof (c_some _ _ C h Hh) as [V W _ _ _ _].
  pose proof kids_NoDup as Hnd. unfold checkpoint_args_ok.
  rewrite (proj2 (Z.leb_gt level_ 0)), (proj2 (Z.ltb_ge end_ (r_start k))) by lia.
  rewrite (proj2 (Z.leb_gt (h_version h) 0)), (proj2 (Z.ltb_ge (h_watermark h) 0)) by lia.
  rewrite (bool_decide_false (r_id <$> kids = [])) by done. rewrite (bool_decide_true (NoDup _)) by done.
  destruct kind_cases as [(-> & _ & -> & Hs & Hc)|(-> & -> & Ho & Hc)].
  - rewrite (proj2 (Z.leb_gt (r_start k) 0)), (proj2 (Z.ltb_ge count 0)), (proj2 (Z.leb_gt count 0)) by lia. done.
  - rewrite (proj2 (Z.ltb_ge count 0)), (proj2 (Z.ltb_ge through 0)), (proj2 (Z.ltb_ge end_ through)) by lia. done.
Qed.

Lemma parent_ok : row_ok p = true.
Proof using C Hh.
  pose proof (level_above k ltac:(left)) as Hl. pose proof end_bound as He. unfold row_ok. cbn [r_level r_kind r_start r_end r_count r_opaque r_children parent_row].
  rewrite (proj2 (Z.leb_le 0 level_)), (proj2 (Z.ltb_lt 0 level_)) by lia.
  rewrite (bool_decide_false (r_id <$> kids = [])) by done. rewrite (proj2 (Z.eqb_neq level_ 0)) by lia.
  destruct kind_cases as [(-> & _ & -> & Hs & Hc)|(-> & -> & Ho & Hc)].
  - rewrite (proj2 (Z.ltb_lt 0 (r_start k))), (proj2 (Z.leb_le (r_start k) end_)), (proj2 (Z.ltb_lt 0 count)) by lia. done.
  - rewrite (proj2 (Z.leb_le through end_)), (proj2 (Z.leb_le 0 through)), (proj2 (Z.leb_le 0 count)) by lia. done.
Qed.

Lemma parent_agrees : parent_matches kids level_ (r_start k) end_ count kind through = true.
Proof using C.
  unfold parent_matches. rewrite (proj1 last_kid), !Z.eqb_refl, (proj2 (Z.ltb_lt _ level_)) by lia. cbn [negb andb].
  rewrite andb_false_r. cbn [negb andb]. apply negb_true_iff.
  destruct kind_cases as [(-> & Hex & _)|(-> & _)]; [|done]. cbn [andb].
  apply not_true_iff_false. intros (r & Hr & Hn)%List.existsb_exists. apply list_elem_of_In in Hr.
  rewrite (Hex r Hr) in Hn. done.
Qed.

Lemma cover_free : cover_taken p (st_rows st) = false.
Proof using C.
  pose proof (c_ledger _ _ C) as L. apply not_true_iff_false. intros (q & Hq & H)%List.existsb_exists.
  apply list_elem_of_In in Hq. cbn [r_level r_start r_end parent_row] in H. bools.
  pose proof (level_above k ltac:(left)) as Hl. destruct (kids_range k ltac:(left)) as [_ Hke].
  destruct (row_ok_range k (kids_ok k ltac:(left))) as [Hk _].
  assert (exists f, f ∈ F /\ r_level q <= r_level f /\ r_start f <= r_start k /\ end_ <= r_end f) as (f & Hf & G1 & G2 & G3).
  { destruct (l_below _ _ _ L q Hq) as [Hf|(f & Hf & ? & ? & ?)]; [exists q|exists f]; (split; [done|]); lia. }
  assert (f = k) as ->; [|lia]. apply (cover_overlap L); [done|apply kids_in; left|lia|lia].
Qed.

Lemma parent_ledger : ledger (st_next st + 1) (st_rows st ++ [p]) (a ++ p :: b).
Proof using C Hh.
  apply (ledger_parent _ _ a kids b p k (List.last t k) (c_ledger _ _ C)); try done; [left|apply last_kid|apply parent_ok|apply kids_NoDup|].
  intros r Hr. destruct (kids_range r Hr). pose proof (level_above r Hr). split; [change (r_level r < level_); lia|done].
Qed.

Lemma parent_canonical : canonical (h_watermark h) (st_rows st ++ [p]) = a ++ p :: b.
Proof using C Hh.
  apply (canonical_cover parent_ledger). intros f Hf. pose proof end_bound.
  assert (f ∈ a \/ f ∈ b \/ f = p) as [Hx|[Hx| ->]] by set_solver; [| |simpl; lia];
    (eapply covers_end; [exact C|done|set_solver]).
Qed.

Lemma checkpoint_accepted :
  insert_summary_checkpoint env head_env level_ (r_start k) end_ count (r_id <$> kids) (h_version h) (h_watermark h)
    kind through st
  = Return (with_head (mkHead (Some head_env) (h_ts h) (h_version h + 1) (h_watermark h) (r_id <$> a ++ p :: b))
              (push_row p st), true).
Proof using C Hh.
  pose proof (c_ledger _ _ C) as L. unfold insert_summary_checkpoint. rewrite args_ok, Hh, !Z.eqb_refl. cbn [negb orb].
  rewrite (proj2 (Z.ltb_ge (h_watermark h) end_)) by apply end_bound.
  assert (canonical (h_watermark h) (st_rows st) = F) as Hcan.
  { apply (canonical_cover L). intros f Hf. by eapply covers_end. }
  unfold canonical_inside. rewrite Hcan, inside_kids, named_kids, parent_agrees, (disjoint_chain _ kids_chain).
  rewrite (w_materialized _ _ _ (c_some _ _ C h Hh)), !bool_decide_true by done. cbn [negb].
  rewrite parent_ok, cover_free. cbn [negb push_row st_rows]. rewrite parent_canonical.
  rewrite bool_decide_true by (rewrite fmap_app, fmap_cons; set_solver). cbn [negb].
  unfold update_head. cbn [push_row st_head st_rows]. rewrite Hh. cbn [h_materialized].
  rewrite (bool_decide_false (r_id <$> a ++ p :: b = _)); [by rewrite andb_false_r|].
  rewrite (w_materialized _ _ _ (c_some _ _ C h Hh)). intros E.
  assert (st_next st ∈ r_id <$> F) as (f & Ef & Hf)%list_elem_of_fmap.
  { rewrite <- E, fmap_app, fmap_cons. set_solver. }
  pose proof (l_next _ _ _ L f (l_in _ _ _ L f Hf)). lia.
Qed.
End Accept.

(** ** The loop *)

Lemma existsb_fmap {A B} (f : A -> B) (p : B -> bool) l : existsb p (f <$> l) = existsb (fun x => p (f x)) l.
Proof. induction l as [|x l IH]; [done|]. rewrite fmap_cons. cbn [existsb]. by rewrite IH. Qed.

Lemma sum_elem (f : srow -> Z) l r :
  (forall x, x ∈ l -> 0 <= f x) -> r ∈ l -> f r <= sumZ (f <$> l).
Proof.
  intros Hp Hr. induction l as [|x l IH]; [by apply elem_of_nil in Hr|]. rewrite fmap_cons.
  change (f r <= f x + sumZ (f <$> l)).
  assert (0 <= sumZ (f <$> l)).
  { apply sumZ_nonneg, Forall_forall. intros z (y & -> & Hy)%list_elem_of_fmap. apply Hp. by right. }
  apply elem_of_cons in Hr as [->|Hr]; [lia|]. pose proof (Hp x ltac:(left)).
  specialize (IH (fun y Hy => Hp y ltac:(by right)) Hr). lia.
Qed.

(** The fold of a run of the cover succeeds. *)
Lemma run_fold st a k t b :
  covers st (a ++ (k :: t) ++ b) ->
  exists txt, deterministic_fold (sumZ (r_count <$> k :: t)) (existsb (fun r => String.eqb (r_kind r) "legacy_opaque") (k :: t))
              = Return txt.
Proof.
  intros C. destruct (fold_text (sumZ (r_count <$> k :: t)) (existsb (fun r => String.eqb (r_kind r) "legacy_opaque") (k :: t)))
    as (txt & H & _); [| |by exists txt].
  - destruct (kind_cases st a k t b C) as [H|H]; lia.
  - intros E. destruct (kind_cases st a k t b C) as [H|H]; [lia|]. destruct H as [H _]. rewrite E in H. discriminate H.
Qed.

(** Progress of one pass: the frontier is bounded, or a shorter cover of the same
    rows takes its place. *)
Definition shorter (st : store) (F : list srow) (h : head) (st' : store) : Prop :=
  exists F' h', covers st' F' /\ st_head st' = Some h' /\ h_watermark h' = h_watermark h /\ F' <> [] /\
    (length F' < length F)%nat /\ sumZ (r_count <$> F') = sumZ (r_count <$> F) /\
    exists o, sstep o st st'.

Section Pass.
Context (seal : pystr -> option envelope) (gate : nat -> option exn) (others : nat -> store -> store).
Context (fanout max_segments max_chars : Z).
Context (Hfan : 2 <= fanout) (Hsegs : 1 <= max_segments) (Hchars : 1 <= max_chars).
Context (Hseal : forall t, exists e, seal t = Some e) (Hgate : forall k, gate k = None)
        (Hothers : forall k st, others k st = st).

Local Abbreviation pass := (rebalance_pass seal gate others fanout max_segments max_chars).

Lemma pass_progress n st F h :
  covers st F -> st_head st = Some h -> F <> [] ->
  (forall r, r ∈ F -> segment_chars (folded_row r) <= max_chars) ->
  (pass n st = Return (st, inl (folded_row <$> F)) /\ Zlen (folded_row <$> F) <= max_segments /\
   frontier_chars (folded_row <$> F) <= max_chars) \/
  (exists st', pass n st = Return (st', inr true) /\ shorter st F h st').
Proof using Hfan Hsegs Hchars Hseal Hgate Hothers.
  intros C Hh Hne Hfit. unfold rebalance_pass. rewrite (read_cover st F h C Hh Hne). cbn [mbind outcome_bind snapshot_of segments].
  destruct (choose_spec (folded_row <$> F) fanout max_segments max_chars) as [(-> & H1 & H2)|(a' & x & t' & b' & why & HF & Ht & ->)];
    [done|done|done|by destruct F|by intros s (r & -> & Hr)%list_elem_of_fmap; apply Hfit|by left|].
  right. apply fmap_app_inv in HF as (a & rest & -> & HF & ->). symmetry in HF.
  apply fmap_app_inv in HF as (kids & b & Hk & -> & ->). symmetry in Hk.
  destruct kids as [|k t]; [done|]. rewrite fmap_cons in Hk. injection Hk as <- <-.
  cbn [mbind outcome_bind children]. unfold cand_count, cand_start, cand_end, cand_opaque, cand_ids, cand_kind.
  cbn [children parent_level]. rewrite <- (fmap_cons folded_row). rewrite !existsb_fmap, <- !list_fmap_compose.
  change (fun r => opaque (folded_row r)) with (fun r => String.eqb (r_kind r) "legacy_opaque").
  change (source_message_count ∘ folded_row) with r_count. change (segment_id ∘ folded_row) with r_id.
  change (legacy_opaque_through_seq ∘ folded_row) with r_opaque. change (level ∘ folded_row) with r_level.
  destruct (run_fold st a k t b C) as [txt ->]. cbn [mbind outcome_bind].
  assert (exists htxt, deterministic_fold (sumZ (r_count <$> a ++ (k :: t) ++ b))
      (existsb (fun r => String.eqb (r_kind r) "legacy_opaque") (a ++ (k :: t) ++ b)) = Return htxt) as [htxt ->].
  { destruct (a ++ (k :: t) ++ b) as [|k0 t0] eqn:E0; [done|]. apply (run_fold st [] k0 t0 []). by rewrite app_nil_r. }
  cbn [mbind outcome_bind]. rewrite Hgate, Hothers. rewrite fmap_last, last_cons_some. cbn [fmap option_fmap option_map mbind outcome_bind].
  rewrite fmap_cons. cbn [py_max mbind outcome_bind]. unfold append_summary_checkpoint.
  destruct (Hseal txt) as [e ->], (Hseal htxt) as [he ->]. cbn [head_version watermark_seq snapshot_of].
  change (end_seq (folded_row (List.last t k))) with (r_end (List.last t k)). change (start_seq (folded_row k)) with (r_start k).
  change (level (folded_row k)) with (r_level k).
  pose proof (checkpoint_accepted st a k t b C h Hh e he) as Hacc.
  change (max_or_0 (r_level <$> k :: t)) with (foldl Z.max (r_level k) (r_level <$> t)) in Hacc.
  change (max_or_0 (r_opaque <$> k :: t)) with (foldl Z.max (r_opaque k) (r_opaque <$> t)) in Hacc.
  change (py_max (list_fmap srow Z r_opaque (k :: t))) with (Return (foldl Z.max (r_opaque k) (r_opaque <$> t))).
  change (sumZ (r_count k :: (r_count <$> t))) with (sumZ (r_count <$> k :: t)).
  change (list_fmap srow Z r_id (k :: t)) with (r_id <$> k :: t). cbn [mbind outcome_bind]. rewrite Hacc. cbn [mbind outcome_bind].
  eexists. split; [done|]. eexists (a ++ _ :: b), _.
  destruct (covers_checkpoint _ _ _ _ _ _ _ _ _ _ _ _ _ _ _ C Hacc) as (F' & C' & _).
  pose proof (covers_cover _ _ C') as Hcov. unfold cover, wm_of in Hcov. cbn [st_head with_head h_watermark] in Hcov.
  rewrite (eq_trans (eq_sym Hcov) (parent_canonical st a k t b C h Hh e)) in C'.
  split; [exact C'|]. split; [done|]. split; [done|]. split; [by destruct a|]. split; [|split].
  - rewrite !length_app. cbn [length]. destruct t; [done|]. cbn [length]. lia.
  - rewrite !fmap_app, !sumZ_app, fmap_cons. cbn [r_count parent_row].
    change (sumZ (?x :: ?l)) with (x + sumZ l). lia.
  - eexists. eapply s_checkpoint. exact Hacc.
Qed.

Definition fits (total : Z) : Prop := forall c, 0 <= c <= total -> 32 + Zlen (str_of_Z c) <= max_chars.

Lemma fits_rows st F r :
  covers st F -> fits (sumZ (r_count <$> F)) -> r ∈ F -> segment_chars (folded_row r) <= max_chars.
Proof using Type.
  intros C Hfit Hr. pose proof (ledger_ok (c_ledger _ _ C)) as Hok.
  assert (forall x, x ∈ F -> 0 <= r_count x) as Hc. { intros x Hx. destruct (row_ok_range x (Hok x Hx)) as (_ & _ & ?). lia. }
  destruct (fold_of_row r (Hok r Hr)) as (_ & _ & Hl). unfold segment_chars. cbn [folded_row segment_of text].
  specialize (Hfit (r_count r)). pose proof (sum_elem r_count F r Hc Hr). specialize (Hc r Hr). lia.
Qed.

Lemma rebalance_ends passes n np st :
  reachable st -> st_rows st <> [] -> fits (sumZ (r_count <$> cover st)) -> (length (cover st) <= passes)%nat ->
  exists st' segs,
    rebalance_summary_frontier seal gate others fanout max_segments max_chars passes np n st = Return (st', segs) /\
    Zlen segs <= max_segments /\ frontier_chars segs <= max_chars /\
    reachable st' /\ (segment_id <$> segs) = (r_id <$> cover st') /\ wm_of st' = wm_of st /\
    sumZ (source_message_count <$> segs) = sumZ (r_count <$> cover st).
Proof using Hfan Hsegs Hchars Hseal Hgate Hothers.
  revert n np st. induction passes as [|passes IH]; intros n np st Hr Hrows Hfit Hlen; pose proof (reachable_covers _ Hr) as C.
  { exfalso. apply Hrows. eapply cover_nil_rows; [apply (c_ledger _ _ C)|]. apply nil_length_inv. lia. }
  destruct (st_head st) as [h|] eqn:Hh; [|by destruct Hrows; apply (c_none _ _ C)].
  assert (cover st <> []) as Hne. { intros E. apply Hrows. by eapply cover_nil_rows; [apply (c_ledger _ _ C)|]. }
  cbn [rebalance_summary_frontier].
  destruct (pass_progress n st (cover st) h C Hh Hne) as [(-> & H1 & H2)|(st' & -> & F' & h' & C' & Hh' & Hw & Hne' & Hl & Hs & o & Ho)];
    [intros r Hrr; by eapply fits_rows| |]; cbn [mbind outcome_bind].
  - eexists st, _. split; [done|]. do 3 (split; [done|]). split; [by rewrite <- list_fmap_compose|]. split; [done|].
    by rewrite <- list_fmap_compose.
  - assert (cover st' = F') as Hc' by (by apply covers_cover). rewrite <- Hc' in *.
    destruct (IH (S n) 0 st') as (st2 & segs & Hrun & G1 & G2 & G3 & G4 & G5 & G6).
    + by eapply reach_step.
    + intros E. apply Hne'. by eapply rows_nil_cover; [apply (c_ledger _ _ C')|].
    + by rewrite Hs.
    + lia.
    + exists st2, segs. split; [exact Hrun|]. do 4 (split; [done|]). split; [|by rewrite G6].
      rewrite G5. unfold wm_of. by rewrite Hh, Hh'.
Qed.

(** C25: the roll-up loop bounds the frontier. With a fanout of at least two and
    room for the fold texts, a quiet run of the loop ends within one pass per
    segment of the frontier; it returns a frontier of at most the allowed number
    of segments and characters that covers the same chat rows up to the same
    watermark, and the store holds exactly that frontier. *)
Theorem rebalance_bounds passes st :
  reachable st -> st_rows st <> [] -> fits (sumZ (r_count <$> cover st)) -> (length (cover st) <= passes)%nat ->
  exists st' segs,
    rebalance_summary_frontier seal gate others fanout max_segments max_chars passes 0 0 st = Return (st', segs) /\
    Zlen segs <= max_segments /\ frontier_chars segs <= max_chars /\
    reachable st' /\ (segment_id <$> segs) = (r_id <$> cover st') /\ wm_of st' = wm_of st /\
    sumZ (source_message_count <$> segs) = sumZ (r_count <$> cover st).
Proof using Hfan Hsegs Hchars Hseal Hgate Hothers. apply rebalance_ends. Qed.
End Pass.

(** Three leaves under a limit of two segments. *)
Lemma rebalance_bounds_witness :
  exists st' segs,
    rebalance_summary_frontier (fun _ => Some sample_env) (fun _ => None) (fun _ st => st) 2 2 100 3 0 0 three_leaves
    = Return (st', segs) /\ Zlen segs <= 2 /\ sumZ (source_message_count <$> segs) = 3.
Proof.
  assert (sumZ (r_count <$> cover three_leaves) = 3) as E by (vm_compute; reflexivity).
  assert (fits 100 (sumZ (r_count <$> cover three_leaves))) as Hfit.
  { intros c Hc. rewrite E in Hc.
    assert (c = 0 \/ c = 1 \/ c = 2 \/ c = 3) as [->|[->|[->| ->]]] by lia; vm_compute; discriminate. }
  destruct (rebalance_bounds (fun _ => Some sample_env) (fun _ => None) (fun _ st => st) 2 2 100
              ltac:(lia) ltac:(lia) ltac:(lia) (fun t => ex_intro _ sample_env eq_refl) (fun _ => eq_refl) (fun _ _ => eq_refl)
              3 three_leaves three_leaves_reachable ltac:(vm_compute; discriminate) Hfit ltac:(vm_compute; lia))
    as (st' & segs & H1 & H2 & _ & _ & _ & _ & H3).
  exists st', segs. split; [exact H1|]. split; [exact H2|]. rewrite H3. exact E.
Defined.
End SummaryRollup.
